(* ===== verification/_CoqProject ===== *)
-Q . S2P
Prelude.v
CString.v
Platform.v
Mem.v
Codec.v
Types.v
Sys.v
Net.v
Response.v
Printf.v
Jsonf.v
Handlers.v
Send.v
Fields.v
Body.v
Parse.v
Router.v
Request.v
Dispatch.v
Server.v
App.v
Pool.v
Threads.v
WinThreads.v
Run.v
Workers.v
Signals.v
Client.v
Wire.v
Site.v
ExampleCommon.v
Exchange.v
Pipeline.v
ExampleHttp.v
ExampleApi.v
ExampleCombined.v
