(* ===== verification/Prelude.v ===== *)
(** * A verification development for the mnet HTTP framework

    mnet is a small HTTP/1.1 framework in C: an application registers routes,
    directories and handlers, [mnet_run] serves connections until it is stopped,
    and a client function fetches URLs.  This library models the C code of
    [src/src] function by function and proves what makes it correct; where the
    code is wrong, a lemma shows the wrong behaviour on a concrete input.

    ** How the program fits together

    [mnet_run] (mnet_server.c) listens, accepts connections and either serves
    them itself or passes them through a ring buffer to worker threads.  A
    connection is served by [mnet_handle_client]: it reads until the header area
    is complete, [parse_request] (mnet_parse.c) takes the request apart and
    reads the rest of its body, [dispatch] (mnet_dispatch.c) finds the route
    with [mnet_route_match] (mnet_router.c) and calls the middleware, the handler
    or the welcome page, [send_response] writes the answer, and everything the
    request owned is freed before the next request of the connection.  Handlers
    use the accessors of mnet_request.c, the constructors and the JSON formatter
    of mnet_response.c, the static file handler of mnet_handlers.c and the client
    of mnet_client.c.  mnet_app.c creates, configures and destroys applications.

    ** The model

    A C function is a Rocq function.  Pure functions on characters and numbers
    are plain definitions; functions with effects are computations of the monad
    [M] of [Mem.v]: a state of type [world] (the live heap blocks with their
    bytes, the number of system calls made, the trace of observable events) and
    [None] for undefined behaviour: a double free, an access to a dead block or
    outside a block, a string without a terminator, a variadic argument of the
    wrong type.  [wp c Q w] says that [c], run from [w], meets no undefined
    behaviour, ends, and ends in a state that satisfies [Q]; [owns w0 w bs] says
    that the heap of [w] is that of [w0] plus exactly the blocks [bs], and
    [held] that moreover every socket opened since is closed.  So a theorem that
    concludes [owns w0 w' bs] excludes leaks, double frees and stray writes at
    once.  Sizes wrap at 2^64 ([wrap_size]) and [int] arithmetic at 2^32
    ([to_int]) where the code's arithmetic can overflow.

    What the code asks of its environment is a class: [Allocator] (does this
    allocation succeed), [OS] (clock, poll, recv, send), [Network] (resolution
    and socket calls), [Files] (the file system), [Process] (the global log
    handler), [Listener] (when [running] is cleared, what the buffer of a new
    connection holds), [Floats] (how [printf] writes a floating point number),
    [Clock] (the time of day that the examples print).
    A theorem holds for every instance; each class has an instance that the
    witnesses compute with.  Handlers and middleware are arbitrary functions
    that keep a stated contract ([handler_ok], [middleware_ok]): called with a
    request whose fields are NUL-terminated strings in live blocks and whose
    body, if any, can be read as a string ([request_at]), they return a response
    that owns what it points to, and change nothing else.

    ** The files

    - [Prelude], [CString], [Platform], [Mem], [Types], [Sys], [Net]: bytes,
      automation, the C string functions; the helpers of mnet_internal.h that
      have a POSIX and a Windows version; the monad and ownership; the data types
      of mnet_internal.h and include/mnet; system calls, sockets and logging
      (mnet.c, mnet_log.c).
    - [Codec], [Response], [Printf], [Jsonf]: mnet_response.c, the URL decoder,
      header validation, JSON escaping, the constructors and [mnet_jsonfv].
    - [Fields], [Body], [Parse]: mnet_parse.c, [parse_query_string],
      [parse_headers], [parse_cookies]; [read_full_body]; [parse_request].
    - [Router], [Request], [Handlers], [Send], [Dispatch]: mnet_router.c,
      mnet_request.c, mnet_handlers.c and mnet_dispatch.c.
    - [Server], [App], [Run]: [mnet_handle_client] of mnet_server.c; mnet_app.c;
      [mnet_run] with at most one worker, and the whole life of an application.
    - [Pool], [Threads], [WinThreads], [Workers]: the worker threads of mnet_server.c at three
      levels.  [Pool] has the ring buffer as functions and a step relation whose
      steps are the critical sections of [mnet_run], [mnet_worker_main] and
      [mnet_pool_shutdown].  [Threads] has every instruction of the same functions
      as a step of its thread, with the mutex and the conditions of
      mnet_internal.h, and is shown to refine [Pool].  [WinThreads] has the
      critical sections that the Windows build uses for the mutex.  [Workers] puts the work of
      each step of [Pool] on the one memory of the process: accepting, refusing,
      serving a request, closing, and the end of [mnet_run].
    - [Signals]: how [mnet_run] installs [sig_handler], and a signal that arrives
      before any of its steps, as an executable step function.
    - [Client], [Wire]: mnet_client.c; the two sides of the protocol put
      together, request by request and response by response.
    - [ExampleCommon], [ExampleHttp], [ExampleApi], [ExampleCombined]: the
      programs of src/example, clients of the library: their handlers, the
      applications that they build, and [main] with [example_serve].
    - [Site], [Exchange], [Pipeline]: the server and its peer together.  [Site] says
      what it is for an application to answer a request with a page; [Exchange] is
      one exchange with the client; [Pipeline] specifies the conversation on a
      connection as an executable state machine.

    ** What is proved

    - Safety and ownership: an application that is created, configured by any
      calls within the documented limits, run and destroyed meets no undefined
      behaviour, leaks nothing and closes every socket, with one thread
      ([application_safe]) and with workers, for every interleaving of their
      requests ([pool_server_safe]); this rests on the same for a connection ([handle_client_safe]), a request
      ([parse_request_no_leak], [dispatch_safe], [answer_request_once]), the
      application object ([app_lifecycle_no_leak]) and the client
      ([mnet_call_safe]).
    - Functional correctness: each parser computes what a separate, purely
      functional reading of the text says ([parse_request_correct],
      [read_full_body_correct], [content_length_correct], [parse_headers_correct],
      [parse_query_correct], [parse_cookies_correct]); the matcher decides the
      language of its patterns ([route_match_correct]) and lookup takes the
      first route ([find_route_correct]); registration ([add_route_correct],
      [captures_named], [built_app_servable]); [jsonf_renders].
    - End to end: the client reads exactly what the handler of the server returned
      for the values captured from the path ([http_exchange]); whatever the peer
      sends, and in whatever pieces, the trace of a connection is a run of the state
      machine of [Pipeline] ([connection_refines]), so pipelined requests are answered
      once each and in order ([pipeline_in_order]).
    - Round trips: [send_response_framed], [request_roundtrip],
      [client_reads_server], [server_reads_client], [url_parse_correct],
      [url_decode_safe_encode], [json_escape_correct].
    - Untrusted input: [static_handler_contained], [smuggling_rejected],
      [send_response_no_injection], [jsonf_no_breakout].
    - Errors: [reject_request_page], [jsonf_rejects]; types: [jsonf_type_safe].
    - Concurrency, by induction on the steps of the accept loop and the workers:
      [connections_closed_once], [connection_limit], [no_lost_wakeup],
      [shutdown_terminates]; the ring buffer refines a bounded queue
      ([pool_refines_queue]).  The instructions refine these steps
      ([threads_refine_pool]), so the same holds of them ([threads_correct]);
      they exclude each other from the shared data and none is undefined
      ([threads_safe]), and they do not deadlock ([threads_never_deadlock],
      [pool_server_progress]).  A critical section does the same as a mutex in every
      state that is reached ([windows_threads_same]).  [handle_client_serves] says that a worker which
      runs alone computes [mnet_handle_client].
    - Signals: SIGINT and SIGTERM stop the server within a bounded number of steps and
      connections ([signal_stops]); one that arrives while the server is set up has
      no effect ([setup_signal_lost]).
    - The platform layer: [strcasestr_windows_same], and lemmas on the conversions
      of times.
    - The examples: the HTML example is safe as a whole program
      ([http_example_runs]); the handlers keep the contract ([http_example_servable],
      [api_handlers_ok], [combined_handlers_ok]) and answer what they should
      ([search_items_correct], [get_item_bounds], [user_handlers_bounds],
      [create_user_guarded]), the handlers that index a table with a number of
      the path only up to the end of that table.
    - Termination: [handle_client_ends], [mnet_call_ends], [shutdown_terminates].

    ** Bounds and fuel

    Loops that are bounded by their input recurse on it or on its length:
    [jsonf_loop] runs with the length of the format, which is enough because
    every round consumes a character ([jsonf_renders] would fail otherwise).
    Doubling loops ([grow_cap], [grow_loop]) have fuel 64, the number of
    doublings after which a size would wrap; the lemmas [grow_cap_spec] and
    [grow_loop_spec] show that it is not used up below 2^60 bytes.  Loops that
    wait for the outside ([read_loop], [body_loop], [serve_loop],
    [accept_loop], [recv_loop]) take the number of rounds as an argument and
    report when it is used up; the safety theorems hold for every number and
    the termination theorems give one that suffices.

    ** Not modelled

    - The interleaving of two requests inside one request: in [Workers] a worker's
      turn is a whole request, or the end of a connection.  The instructions of the
      pool itself are interleaved one by one in [Threads].  Memory is sequentially
      consistent; outside the mutex the threads share only the flag [running], which
      is a [sig_atomic_t], and the application's configuration, which nobody writes
      once the workers serve.
    - The work between two steps of [Signals]: there the accept loop is only what it
      is to a signal.  In [Pool], [Threads] and [Workers] the store of the handler is
      a step that is possible at any time.
    - The Windows build, apart from the helpers of [Platform] and the critical
      sections of [WinThreads]: threads, conditions and [_fullpath] are calls of
      the system.
    - The list that [getaddrinfo] returns is a list of addresses; its release
      has no other effect.  The text of a log message is its bytes.
    - The programs under src/test. *)

From Stdlib Require Export ZArith Lia ZifyBool.
From Stdlib Require Import String Ascii.
From stdpp Require Export base tactics list gmap.

Export StringSyntax.

#[export] Set Default Goal Selector "!".

Open Scope Z_scope.

(** ** Bytes and literals

    A C [char] is an unsigned byte value, a [Z] between 0 and 255; a byte
    array is a [list Z].  The code compares characters with [==] against ASCII
    constants, or casts to [unsigned char] first, so the signedness of plain
    [char] is never observed by the functions modelled here. *)

Abbreviation bytes := (list Z).

Definition is_byte (c : Z) : Prop := 0 <= c < 256.

(** A byte that can occur inside a C string (anything but the terminator). *)
Definition is_cchar (c : Z) : Prop := 0 < c < 256.

Fixpoint lit (s : string) : bytes :=
  match s with
  | EmptyString => []
  | String a s => Z.of_nat (nat_of_ascii a) :: lit s
  end.
Arguments lit s%_string.

Lemma lit_bytes s : Forall is_byte (lit s).
Proof.
  induction s as [|a s IH]; [constructor|]. constructor; [|done].
  unfold is_byte. pose proof (Ascii.nat_ascii_bounded a). lia.
Qed.
Arguments lit_bytes s%_string.

Declare Scope bytes_scope.
Delimit Scope bytes_scope with bytes.
Notation "'chNUL'" := 0 (only parsing) : bytes_scope.
Notation "'chTAB'" := 9 (only parsing) : bytes_scope.
Notation "'chLF'" := 10 (only parsing) : bytes_scope.
Notation "'chCR'" := 13 (only parsing) : bytes_scope.
Notation "'chSP'" := 32 (only parsing) : bytes_scope.
Notation "'chQUOTE'" := 34 (only parsing) : bytes_scope.
Notation "'chHASH'" := 35 (only parsing) : bytes_scope.
Notation "'chPERCENT'" := 37 (only parsing) : bytes_scope.
Notation "'chAMP'" := 38 (only parsing) : bytes_scope.
Notation "'chSTAR'" := 42 (only parsing) : bytes_scope.
Notation "'chPLUS'" := 43 (only parsing) : bytes_scope.
Notation "'chMINUS'" := 45 (only parsing) : bytes_scope.
Notation "'chDOT'" := 46 (only parsing) : bytes_scope.
Notation "'chSLASH'" := 47 (only parsing) : bytes_scope.
Notation "'ch0'" := 48 (only parsing) : bytes_scope.
Notation "'ch9'" := 57 (only parsing) : bytes_scope.
Notation "'chCOLON'" := 58 (only parsing) : bytes_scope.
Notation "'chSEMI'" := 59 (only parsing) : bytes_scope.
Notation "'chEQ'" := 61 (only parsing) : bytes_scope.
Notation "'chQMARK'" := 63 (only parsing) : bytes_scope.
Notation "'chBACKSLASH'" := 92 (only parsing) : bytes_scope.
Notation "'chDEL'" := 127 (only parsing) : bytes_scope.
Open Scope bytes_scope.

Definition CRLF : bytes := [chCR; chLF].

(** ** Automation *)

(** The lemmas that close the common side conditions on C strings. *)
Create HintDb cstring discriminated.

(** Turn boolean tests of the code into propositions. *)
Ltac bool_prop :=
  repeat match goal with
  | H : (_ && _)%bool = true |- _ =>
      let H1 := fresh H in let H2 := fresh H in destruct (andb_prop _ _ H) as [H1 H2]; clear H
  | H : (_ || _)%bool = false |- _ =>
      let H1 := fresh H in let H2 := fresh H in destruct (orb_false_elim _ _ H) as [H1 H2]; clear H
  | H : (_ || _)%bool = true |- _ => apply orb_true_iff in H
  | H : negb _ = true |- _ => apply negb_true_iff in H
  | H : negb _ = false |- _ => apply negb_false_iff in H
  | H : (_ =? _)%Z = true |- _ => apply Z.eqb_eq in H
  | H : (_ =? _)%Z = false |- _ => apply Z.eqb_neq in H
  | H : (_ <? _)%Z = true |- _ => apply Z.ltb_lt in H
  | H : (_ <? _)%Z = false |- _ => apply Z.ltb_ge in H
  | H : (_ <=? _)%Z = true |- _ => apply Z.leb_le in H
  | H : (_ <=? _)%Z = false |- _ => apply Z.leb_gt in H
  | H : (_ =? _)%nat = true |- _ => apply Nat.eqb_eq in H
  | H : (_ =? _)%nat = false |- _ => apply Nat.eqb_neq in H
  | H : (_ <? _)%nat = true |- _ => apply Nat.ltb_lt in H
  | H : (_ <? _)%nat = false |- _ => apply Nat.ltb_ge in H
  | H : (_ <=? _)%nat = true |- _ => apply Nat.leb_le in H
  | H : (_ <=? _)%nat = false |- _ => apply Nat.leb_gt in H
  | H : bool_decide _ = true |- _ => apply bool_decide_eq_true in H
  | H : bool_decide _ = false |- _ => apply bool_decide_eq_false in H
  end.

(** Case analysis on the first [if] or [match] of the goal. *)
Ltac case_test :=
  match goal with
  | |- context [if ?b then _ else _] => destruct b eqn:?
  end.

(** ** Prefixes cut by a test on bytes *)

Section while.
Context {A : Type}.
Implicit Types (f g : A → bool) (l k : list A).

Fixpoint take_while f l : list A :=
  match l with
  | [] => []
  | x :: l => if f x then x :: take_while f l else []
  end.

Fixpoint drop_while f l : list A :=
  match l with
  | [] => []
  | x :: l' => if f x then drop_while f l' else l
  end.

Lemma take_drop_while f l : take_while f l ++ drop_while f l = l.
Proof. induction l as [|x l IH]; simpl; [done|]. destruct (f x); simpl; congruence. Qed.

Lemma take_while_all f l : Forall (λ x, f x = true) (take_while f l).
Proof. induction l as [|x l IH]; simpl; [done|]. destruct (f x) eqn:?; auto. Qed.

Lemma length_take_drop_while f l :
  (length (take_while f l) + length (drop_while f l) = length l)%nat.
Proof. by rewrite <-(take_drop_while f l) at 3; rewrite length_app. Qed.

Lemma length_take_while f l : (length (take_while f l) ≤ length l)%nat.
Proof. pose proof (length_take_drop_while f l). lia. Qed.

Lemma length_drop_while f l : (length (drop_while f l) ≤ length l)%nat.
Proof. pose proof (length_take_drop_while f l). lia. Qed.

Lemma drop_while_head f l x k : drop_while f l = x :: k → f x = false.
Proof.
  induction l as [|y l IH]; simpl; [done|]. destruct (f y) eqn:?; [done|].
  congruence.
Qed.

(** The cut of [l] is the only one whose first part passes the test and whose
    second part is empty or starts with a failing element. *)
Lemma take_while_app f l k :
  Forall (λ x, f x = true) l → (∀ x, head k = Some x → f x = false) →
  take_while f (l ++ k) = l ∧ drop_while f (l ++ k) = k.
Proof.
  intros Hl Hk. induction Hl as [|x l Hx Hl IH]; simpl.
  - destruct k as [|x k]; [done|]. simpl. by rewrite (Hk x).
  - rewrite Hx. destruct IH. by split; f_equal.
Qed.

(** What follows does not matter when it starts with a failing element. *)
Lemma while_app_r f l k :
  (∀ x, head k = Some x → f x = false) →
  take_while f (l ++ k) = take_while f l ∧ drop_while f (l ++ k) = drop_while f l ++ k.
Proof.
  intros Hk. rewrite <-(take_drop_while f l) at 1 3. rewrite <-(assoc_L app).
  apply take_while_app; [apply take_while_all|]. intros x.
  destruct (drop_while f l) as [|y l'] eqn:E; [apply Hk|]. intros [= ->]. by eapply drop_while_head.
Qed.

Lemma take_while_true f l : Forall (λ x, f x = true) l → take_while f l = l.
Proof.
  intros Hl. rewrite <-(app_nil_r l) at 1. by apply take_while_app.
Qed.

Lemma drop_while_drop f l : drop_while f l = drop (length (take_while f l)) l.
Proof.
  pose proof (take_drop_while f l) as E. revert E.
  generalize (take_while f l), (drop_while f l). intros k1 k2 <-.
  by rewrite drop_app_length.
Qed.

Lemma take_while_take f l : take_while f l = take (length (take_while f l)) l.
Proof.
  pose proof (take_drop_while f l) as E. revert E.
  generalize (take_while f l), (drop_while f l). intros k1 k2 <-.
  by rewrite take_app_length.
Qed.

Lemma Forall_take_while (P : A → Prop) f l : Forall P l → Forall P (take_while f l).
Proof. rewrite <-(take_drop_while f l) at 1. by intros [? _]%Forall_app. Qed.

Lemma Forall_drop_while (P : A → Prop) f l : Forall P l → Forall P (drop_while f l).
Proof. rewrite <-(take_drop_while f l) at 1. by intros [_ ?]%Forall_app. Qed.
End while.

#[export] Hint Resolve Forall_take_while Forall_drop_while Forall_take Forall_drop : cstring.

(** ** Writing a run of elements into an array *)

(** [splice i xs a]: the array [a] after [memcpy (a + i, xs, |xs|)]. *)
Definition splice {A} (i : nat) (xs a : list A) : list A :=
  take i a ++ xs ++ drop (i + length xs) a.

Lemma length_splice {A} i (xs a : list A) :
  (i + length xs ≤ length a)%nat → length (splice i xs a) = length a.
Proof.
  intros. unfold splice. rewrite !length_app, length_take, length_drop. lia.
Qed.

Lemma take_splice {A} i (xs a : list A) :
  (i + length xs ≤ length a)%nat → take (i + length xs) (splice i xs a) = take i a ++ xs.
Proof.
  intros. unfold splice. rewrite app_assoc. rewrite take_app_le.
  - apply take_ge. rewrite length_app, length_take. lia.
  - rewrite length_app, length_take. lia.
Qed.

(** ** Machine integers *)

Definition size_mod : Z := 2 ^ 64.

(** Wrap-around of a 64-bit [size_t]. *)
Definition wrap_size (z : Z) : Z := z mod size_mod.

(** Conversion to a 32-bit two's complement [int]. *)
Definition to_int (z : Z) : Z := (z + 2 ^ 31) mod 2 ^ 32 - 2 ^ 31.

Lemma wrap_size_small z : 0 <= z < size_mod → wrap_size z = z.
Proof. apply Z.mod_small. Qed.

Lemma wrap_size_range z : 0 <= wrap_size z < size_mod.
Proof. by apply Z.mod_pos_bound. Qed.

Lemma to_int_small z : - 2 ^ 31 <= z < 2 ^ 31 → to_int z = z.
Proof. intros. unfold to_int. rewrite Z.mod_small; lia. Qed.

(** ** Lists *)

Lemma Forall_forallb {A} (f : A → bool) (l : list A) :
  forallb f l = true ↔ Forall (λ x, f x = true) l.
Proof. rewrite forallb_forall, Forall_forall. by setoid_rewrite list_elem_of_In. Qed.

Lemma forallb_iff {A} (p : A → bool) (P : A → Prop) l :
  (∀ x, p x = true ↔ P x) → forallb p l = true ↔ Forall P l.
Proof.
  intros Hp. rewrite forallb_forall, Forall_forall. split; intros H x Hx.
  - by apply Hp, H, list_elem_of_In.
  - by apply Hp, H, list_elem_of_In.
Qed.

Lemma zip_app_snoc {A B} (l : list A) (k : list B) a b :
  length l = length k → zip (l ++ [a]) (k ++ [b]) = zip l k ++ [(a, b)].
Proof. intros. rewrite zip_with_app by done. done. Qed.

(** ** Options *)

Lemma some_bind {A B} (a : A) (f : A → option B) : Some a ≫= f = f a.
Proof. done. Qed.
