(* ===== verification/CString.v ===== *)
(** * The C string functions the program calls

    [cstr a] is the string stored at the start of the array [a]: the bytes up to
    the first NUL.  A C string whose terminator is left implicit is a [bytes]
    without NUL.  Pointers into a string that the code obtains from a search
    are offsets; [NULL] is [None]. *)

From S2P Require Export Prelude.

Definition not_nul (c : Z) : bool := negb (c =? 0).
Definition cstr (a : bytes) : bytes := take_while not_nul a.
Definition strlen (a : bytes) : nat := length (cstr a).

(** ** Characters *)

Definition isspace (c : Z) : bool := ((9 <=? c) && (c <=? 13) || (c =? chSP))%bool.
Definition isdigit (c : Z) : bool := ((ch0 <=? c) && (c <=? ch9))%bool.
Definition tolower (c : Z) : Z := if ((65 <=? c) && (c <=? 90))%bool then c + 32 else c.

(** ** Comparison *)

(** [strcmp (a, b) == 0] and [strcasecmp (a, b) == 0] *)
Definition strcmp_eq (a b : bytes) : bool := bool_decide (a = b).
Definition strcasecmp_eq (a b : bytes) : bool := bool_decide (tolower <$> a = tolower <$> b).

(** [strncmp (a, b, n) == 0] *)
Definition strncmp_eq (a b : bytes) (n : nat) : bool := bool_decide (take n a = take n b).

(** ** Searching *)

Fixpoint starts_with (eqc : Z → Z → bool) (n h : bytes) : bool :=
  match n, h with
  | [], _ => true
  | _, [] => false
  | x :: n, y :: h => eqc x y && starts_with eqc n h
  end.

Fixpoint find_sub (eqc : Z → Z → bool) (n h : bytes) : option nat :=
  if starts_with eqc n h then Some 0%nat
  else match h with
       | [] => None
       | _ :: h => S <$> find_sub eqc n h
       end.

Definition eqc_case (x y : Z) : bool := tolower x =? tolower y.

Definition strstr (h n : bytes) : option nat := find_sub Z.eqb n (cstr h).
Definition strcasestr (h n : bytes) : option nat := find_sub eqc_case n (cstr h).

(** [strchr (s, c)] on a string with an implicit terminator; searching for NUL
    finds the terminator. *)
Fixpoint strchr (s : bytes) (c : Z) : option nat :=
  match s with
  | [] => if c =? chNUL then Some 0%nat else None
  | x :: s => if x =? c then Some 0%nat else S <$> strchr s c
  end.

(** The last occurrence, for [strrchr]. *)
Fixpoint strrchr (s : bytes) (c : Z) : option nat :=
  match s with
  | [] => if c =? chNUL then Some 0%nat else None
  | x :: s =>
      match strrchr s c with
      | Some i => Some (S i)
      | None => if x =? c then Some 0%nat else None
      end
  end.

Fixpoint memchr (a : bytes) (c : Z) (n : nat) : option nat :=
  match n, a with
  | S n, x :: a => if x =? c then Some 0%nat else S <$> memchr a c n
  | _, _ => None
  end.

(** ** Tokens *)

Definition mem_char (delims : bytes) (c : Z) : bool := bool_decide (c ∈ delims).

(** [strtok_r]: skip leading delimiters; [None] at the end of the string, else
    the token and the text the next call continues with. *)
Definition strtok_r (delims s : bytes) : option (bytes * bytes) :=
  match drop_while (mem_char delims) s with
  | [] => None
  | s1 => Some (take_while (λ c, negb (mem_char delims c)) s1,
                drop 1 (drop_while (λ c, negb (mem_char delims c)) s1))
  end.

(** ** Scanning and printing numbers *)

(** The conversion [%<width>s] of [sscanf]. *)
Definition scan_word (width : nat) (s : bytes) : option (bytes * bytes) :=
  let s1 := drop_while isspace s in
  let w := take width (take_while (λ c, negb (isspace c)) s1) in
  match w with
  | [] => None
  | _ => Some (w, drop (length w) s1)
  end.

Fixpoint dec_val_from (acc : Z) (s : bytes) : Z :=
  match s with
  | [] => acc
  | c :: s => dec_val_from (acc * 10 + (c - ch0)) s
  end.

(** The value of a run of decimal digits. *)
Definition dec_val (s : bytes) : Z := dec_val_from 0 s.

Fixpoint digits_rev (base : Z) (fuel : nat) (n : Z) : list Z :=
  match fuel with
  | O => []
  | S fuel => n mod base :: (if n / base =? 0 then [] else digits_rev base fuel (n / base))
  end.

(** The digits of [n], most significant first. *)
Definition digits (base n : Z) : list Z := rev (digits_rev base (S (Z.to_nat (Z.log2 n))) n).

Definition digit_char (d : Z) : Z := if d <? 10 then ch0 + d else 97 + (d - 10).

Definition print_nat (n : Z) : bytes := digit_char <$> digits 10 n.
Definition print_hex (n : Z) : bytes := digit_char <$> digits 16 n.
Definition print_int (n : Z) : bytes :=
  if n <? 0 then chMINUS :: print_nat (- n) else print_nat n.

(** [strtol (s, &end, 10)]: the value, clamped to [long], and how many
    characters were consumed (0 when there is no number). *)
Definition long_max : Z := 2 ^ 63 - 1.
Definition long_min : Z := - 2 ^ 63.

Definition strtol (s : bytes) : Z * nat :=
  let s1 := drop_while isspace s in
  let '(neg, s2) :=
    match s1 with
    | c :: k => if c =? chMINUS then (true, k) else if c =? chPLUS then (false, k) else (false, s1)
    | [] => (false, [])
    end in
  match take_while isdigit s2 with
  | [] => (0, 0%nat)
  | ds =>
      let v := if neg : bool then - dec_val ds else dec_val ds in
      (Z.max long_min (Z.min long_max v),
       (length s - length s2 + length ds)%nat)
  end.

(** [snprintf (buf, size, ...)] of the text [t]: the value returned, and the
    string left in [buf] (for [0 < size]). *)
Definition snprintf (size : nat) (t : bytes) : Z * bytes :=
  (Z.of_nat (length t), take (size - 1) t).

(** ** Laws *)

Lemma cstr_nul_free a : Forall (λ c, c ≠ 0) (cstr a).
Proof.
  eapply Forall_impl; [apply take_while_all|].
  intros c Hc. unfold not_nul in Hc. bool_prop. done.
Qed.

Lemma cstr_app_nul s k : Forall (λ c, c ≠ 0) s → cstr (s ++ 0 :: k) = s.
Proof.
  intros Hs. apply take_while_app.
  - eapply Forall_impl; [done|]. intros c Hc. unfold not_nul.
    by apply negb_true_iff, Z.eqb_neq.
  - intros x. by intros [= <-].
Qed.

Lemma cstr_id s : Forall (λ c, c ≠ 0) s → cstr s = s.
Proof.
  intros Hs. apply take_while_true. eapply Forall_impl; [done|].
  intros c Hc. unfold not_nul. by apply negb_true_iff, Z.eqb_neq.
Qed.

Lemma Forall_cstr (P : Z → Prop) a : Forall P a → Forall P (cstr a).
Proof. apply Forall_take_while. Qed.

Lemma cchar_nonzero s : Forall is_cchar s → Forall (λ c, c ≠ 0) s.
Proof. intros H. eapply Forall_impl; [done|]. unfold is_cchar. lia. Qed.

Lemma cstr_cchar s : Forall is_cchar s → cstr s = s.
Proof. eauto using cstr_id, cchar_nonzero. Qed.

Lemma length_cstr a : (length (cstr a) ≤ length a)%nat.
Proof. apply length_take_while. Qed.

#[export] Hint Resolve cstr_nul_free Forall_cstr cchar_nonzero : cstring.

Section find_sub.
Context (eqc : Z → Z → bool).

Lemma starts_with_take n h :
  starts_with eqc n h = true → (length n ≤ length h)%nat.
Proof.
  revert h; induction n as [|x n IH]; intros [|y h]; simpl; try (lia || done).
  intros [_ H]%andb_prop. apply IH in H. lia.
Qed.

(** The offset found is the first one at which the needle matches. *)
Lemma find_sub_Some n h i :
  find_sub eqc n h = Some i →
  starts_with eqc n (drop i h) = true ∧
  ∀ j, (j < i)%nat → starts_with eqc n (drop j h) = false.
Proof.
  revert i; induction h as [|c h IH]; intros i; cbn [find_sub].
  - case_match eqn:E; [|done]. intros [= <-]. split; [done|lia].
  - case_match eqn:E; [intros [= <-]; split; [done|lia]|].
    intros (k & Hk & ->)%fmap_Some. destruct (IH _ Hk) as [H1 H2]. split; [done|].
    intros [|j] Hj; [done|]. simpl. apply H2. lia.
Qed.

Lemma find_sub_None n h :
  find_sub eqc n h = None → ∀ j, (j ≤ length h)%nat → starts_with eqc n (drop j h) = false.
Proof.
  induction h as [|c h IH]; cbn [find_sub]; case_match eqn:E; try done.
  - intros _ j Hj. by destruct j.
  - intros ?%fmap_None [|j] Hj; [done|]. simpl. apply IH; [done|]. simpl in Hj. lia.
Qed.

Lemma find_sub_bound n h i :
  find_sub eqc n h = Some i → (i + length n ≤ length h)%nat.
Proof.
  revert i; induction h as [|c h IH]; intros i; cbn [find_sub].
  - case_match eqn:E; [|done]. intros [= <-]. apply starts_with_take in E. lia.
  - case_match eqn:E; [intros [= <-]; apply starts_with_take in E; lia|].
    intros (k & Hk & ->)%fmap_Some. apply IH in Hk. simpl. lia.
Qed.
End find_sub.

Lemma starts_with_eqb n h : starts_with Z.eqb n h = true ↔ ∃ k, h = n ++ k.
Proof.
  revert h; induction n as [|x n IH]; intros h; simpl.
  - split; eauto.
  - destruct h as [|y h]; [split; [done|by intros [? ?]]|].
    rewrite andb_true_iff, Z.eqb_eq, IH. split.
    + intros [-> [k ->]]. by exists k.
    + intros [k [= -> ->]]. eauto.
Qed.

(** [strstr] finds the first occurrence: the string splits around the needle
    and no earlier split exists. *)
Lemma strstr_Some h n i :
  strstr h n = Some i →
  (∃ k, cstr h = take i (cstr h) ++ n ++ k) ∧
  ∀ j k, (j < i)%nat → drop j (cstr h) ≠ n ++ k.
Proof.
  intros [H1 H2]%find_sub_Some. split.
  - apply starts_with_eqb in H1 as [k Hk]. exists k. by rewrite <-Hk, take_drop.
  - intros j k Hj E. specialize (H2 j Hj). rewrite E in H2.
    assert (starts_with Z.eqb n (n ++ k) = true) by (apply starts_with_eqb; eauto). congruence.
Qed.

Lemma strstr_None h n : strstr h n = None → ∀ p k, cstr h ≠ p ++ n ++ k.
Proof.
  intros H p k E. pose proof (find_sub_None _ _ _ H (length p)) as Hf.
  rewrite E, drop_app_length in Hf.
  assert (starts_with Z.eqb n (n ++ k) = true) by (apply starts_with_eqb; eauto).
  rewrite length_app in Hf. rewrite Hf in H0; [done|lia].
Qed.

Lemma strstr_bound h n i : strstr h n = Some i → (i + length n ≤ length (cstr h))%nat.
Proof. apply find_sub_bound. Qed.

Lemma strchr_Some s c i :
  c ≠ 0 → strchr s c = Some i →
  (s = take i s ++ c :: drop (S i) s) ∧ (c ∉ take i s) ∧ (i < length s)%nat.
Proof.
  intros Hc. revert i; induction s as [|x s IH]; intros i; simpl.
  - case_match eqn:E; bool_prop; [done|]. done.
  - case_match eqn:E; bool_prop.
    + intros [= <-]. subst. simpl. rewrite drop_0. split; [done|]. split; [set_solver|lia].
    + intros (k & Hk & ->)%fmap_Some. destruct (IH _ Hk) as (E1 & E2 & E3). simpl.
      split; [by f_equal|]. split; [|lia]. by apply not_elem_of_cons.
Qed.

Lemma strchr_None s c : strchr s c = None → c ∉ s.
Proof.
  induction s as [|x s IH]; simpl; [intros; set_solver|].
  case_match eqn:E; bool_prop; [done|]. intros ?%fmap_None.
  apply not_elem_of_cons. auto.
Qed.

Lemma strchr_is_Some s c : c ≠ 0 → (strchr s c ≠ None ↔ c ∈ s).
Proof.
  intros Hc. split.
  - intros H. destruct (strchr s c) as [i|] eqn:E; [|done].
    apply strchr_Some in E as (-> & _ & _); [|done]. set_solver.
  - intros Hin H. by apply strchr_None in H.
Qed.

Lemma memchr_Some a c n i :
  memchr a c n = Some i → a !! i = Some c ∧ (i < n)%nat.
Proof.
  revert a i; induction n as [|n IH]; intros [|x a] i; simpl; try done.
  case_match eqn:E; bool_prop.
  - intros [= <-]. subst. split; [done|lia].
  - intros (k & Hk & ->)%fmap_Some. apply IH in Hk as [? ?]. split; [done|lia].
Qed.

Lemma memchr_None a c n : memchr a c n = None → c ∉ take n a.
Proof.
  revert a; induction n as [|n IH]; intros [|x a]; simpl;
    try (intros _; apply not_elem_of_nil).
  case_match eqn:E; bool_prop; [done|]. intros ?%fmap_None.
  apply not_elem_of_cons. auto.
Qed.

(** A token is not empty, holds no delimiter, and the rest is shorter. *)
Lemma strtok_r_Some delims s tok rest :
  strtok_r delims s = Some (tok, rest) →
  tok ≠ [] ∧ Forall (λ c, c ∉ delims) tok ∧ (length rest < length s)%nat.
Proof.
  unfold strtok_r. destruct (drop_while _ s) as [|c s1] eqn:E; [done|].
  intros [= <- <-]. pose proof (drop_while_head _ _ _ _ E) as Hc.
  pose proof (length_drop_while (mem_char delims) s) as Hl. rewrite E in Hl. simpl in Hl.
  simpl. rewrite Hc. simpl. split; [done|]. split.
  - constructor.
    + unfold mem_char in Hc. by bool_prop.
    + eapply Forall_impl; [apply take_while_all|]. intros x Hx. simpl in Hx.
      unfold mem_char in Hx. by bool_prop.
  - rewrite length_drop. pose proof (length_drop_while (λ c, negb (mem_char delims c)) s1). lia.
Qed.

Lemma Forall_strtok_r (P : Z → Prop) delims s tok rest :
  Forall P s → strtok_r delims s = Some (tok, rest) → Forall P tok ∧ Forall P rest.
Proof.
  intros HP. unfold strtok_r. apply (Forall_drop_while _ (mem_char delims)) in HP.
  destruct (drop_while _ s) as [|c s1]; [done|].
  pose proof (Forall_take_while _ (λ c, negb (mem_char delims c)) _ HP) as HT.
  pose proof (Forall_drop _ 1 _ (Forall_drop_while _ (λ c, negb (mem_char delims c)) _ HP)) as HD.
  by intros [= <- <-].
Qed.

(** *** Short strings

    A string of characters that is shorter than an [int] can count. *)
Definition text_ok (s : bytes) : Prop := Forall is_cchar s ∧ Z.of_nat (length s) < 2 ^ 31.

Lemma text_ok_nil : text_ok [].
Proof. by split. Qed.

Lemma text_ok_nonzero s : text_ok s → Forall (λ c, c ≠ 0) s.
Proof. intros [Hs _]. by apply cchar_nonzero. Qed.

#[export] Hint Resolve text_ok_nonzero : cstring.

(** What is cut out of a short string is short. *)
Lemma text_ok_part s t : text_ok s → Forall is_cchar t → (length t ≤ length s)%nat → text_ok t.
Proof. intros [_ Hl] Ht Hle. split; [done|lia]. Qed.

Lemma text_ok_take n s : text_ok s → text_ok (take n s).
Proof. intros Hs. eapply text_ok_part; [done|by apply Forall_take, Hs|]. rewrite length_take. lia. Qed.

Lemma text_ok_drop n s : text_ok s → text_ok (drop n s).
Proof. intros Hs. eapply text_ok_part; [done|by apply Forall_drop, Hs|]. rewrite length_drop. lia. Qed.

Lemma text_ok_drop_while f s : text_ok s → text_ok (drop_while f s).
Proof.
  intros Hs. eapply text_ok_part; [done|by apply Forall_drop_while, Hs|apply length_drop_while].
Qed.

(** The string at the start of a block of bytes. *)
Lemma text_ok_cstr b : Forall is_byte b → Z.of_nat (length b) < 2 ^ 31 → text_ok (cstr b).
Proof.
  intros Hb Hl. pose proof (cstr_nul_free b) as Hn. pose proof (length_cstr b). split; [|lia].
  apply (Forall_cstr _ b) in Hb. rewrite Forall_forall in *. intros c Hc.
  specialize (Hb c Hc). specialize (Hn c Hc). unfold is_byte, is_cchar in *. lia.
Qed.

Lemma text_ok_block b :
  Forall is_byte b → 0 ∈ b → Z.of_nat (length b) <= 2 ^ 31 → text_ok (cstr b).
Proof.
  intros Hb H0 Hl. assert (length (cstr b) ≠ length b) as Hne.
  { intros E. pose proof (take_drop_while not_nul b) as Eb. fold (cstr b) in Eb.
    assert (drop_while not_nul b = []) as Ed.
    { apply nil_length_inv. apply (f_equal length) in Eb. rewrite length_app in Eb. lia. }
    rewrite Ed, app_nil_r in Eb. pose proof (cstr_nul_free b) as Hn. rewrite Eb in Hn.
    rewrite Forall_forall in Hn. by eapply Hn. }
  pose proof (length_cstr b). split; [|lia].
  pose proof (cstr_nul_free b) as Hn. apply (Forall_cstr _ b) in Hb.
  rewrite Forall_forall in *. intros c Hc.
  specialize (Hb c Hc). specialize (Hn c Hc). unfold is_byte, is_cchar in *. lia.
Qed.

Lemma text_ok_strtok_r delims s tok rest :
  text_ok s → strtok_r delims s = Some (tok, rest) → text_ok tok ∧ text_ok rest.
Proof.
  intros Hs E. destruct (Forall_strtok_r _ _ _ _ _ (proj1 Hs) E) as [Ht Hr].
  pose proof (strtok_r_Some _ _ _ _ E) as (_ & _ & Hlt).
  split; (eapply text_ok_part; [done|done|]); [|lia]. revert E. unfold strtok_r.
  pose proof (length_drop_while (mem_char delims) s). destruct (drop_while _ s) as [|c k]; [done|].
  pose proof (length_take_while (λ c, negb (mem_char delims c)) (c :: k)). intros [= <- _]. simpl in *. lia.
Qed.

Lemma scan_word_Some width s w k :
  scan_word width s = Some (w, k) →
  w ≠ [] ∧ Forall (λ c, isspace c = false) w ∧ (length w ≤ width)%nat ∧
  (length k < length s)%nat.
Proof.
  unfold scan_word. set (s1 := drop_while isspace s). set (t := take width _).
  destruct t as [|c t'] eqn:E; [done|]. intros [= <- <-].
  assert (Hlen : (length (c :: t') ≤ width)%nat).
  { rewrite <-E. unfold t. rewrite length_take. lia. }
  assert (Hle : (length (c :: t') ≤ length s1)%nat).
  { rewrite <-E. unfold t. rewrite length_take.
    pose proof (length_take_while (λ c, negb (isspace c)) s1). lia. }
  split; [done|]. split; [|split; [done|]].
  - rewrite <-E. unfold t. apply Forall_take.
    eapply Forall_impl; [apply take_while_all|]. intros x Hx. simpl in Hx. by bool_prop.
  - rewrite length_drop. pose proof (length_drop_while isspace s). fold s1 in H.
    simpl in *. lia.
Qed.

Lemma Forall_scan_word (P : Z → Prop) width s w k :
  Forall P s → scan_word width s = Some (w, k) → Forall P w ∧ Forall P k.
Proof.
  intros HP. unfold scan_word. apply (Forall_drop_while _ isspace) in HP.
  set (s1 := drop_while isspace s) in *. set (t := take width _).
  assert (Forall P t) by (unfold t; eauto with cstring).
  destruct t; [done|]. intros [= <- <-]. split; [done|]. by apply Forall_drop.
Qed.

Lemma text_ok_scan_word width s w k :
  text_ok s → scan_word width s = Some (w, k) → text_ok w ∧ text_ok k.
Proof.
  intros Hs E. destruct (Forall_scan_word _ _ _ _ _ (proj1 Hs) E) as [Hw Hk].
  pose proof (scan_word_Some _ _ _ _ E) as (_ & _ & _ & Hlt).
  split; (eapply text_ok_part; [done|done|]); [|lia]. revert E. unfold scan_word.
  pose proof (length_drop_while isspace s). set (s1 := drop_while isspace s) in *.
  set (t := take width _). assert (length t ≤ length s1)%nat.
  { unfold t. rewrite length_take. pose proof (length_take_while (λ c, negb (isspace c)) s1). lia. }
  destruct t as [|c t]; [done|]. intros [= <- _]. lia.
Qed.

(** ** Numbers read back *)

Definition of_digits (base : Z) (ds : list Z) : Z := fold_left (λ acc d, acc * base + d) ds 0.

Lemma fold_digits_rev base fuel : ∀ n, 2 <= base → 0 <= n < base ^ Z.of_nat fuel →
  of_digits base (rev (digits_rev base fuel n)) = n ∧
  Forall (λ d, 0 <= d < base) (digits_rev base fuel n).
Proof.
  induction fuel as [|fuel IH]; intros n Hb Hn.
  - simpl in *. unfold of_digits. simpl. split; [lia|done].
  - cbn [digits_rev]. assert (0 <= n / base < base ^ Z.of_nat fuel) as Hq.
    { split; [apply Z.div_pos; lia|]. apply Z.div_lt_upper_bound; [lia|].
      rewrite <-Z.pow_succ_r by lia. rewrite <-Nat2Z.inj_succ. lia. }
    destruct (IH (n / base) Hb Hq) as [Hv Hd].
    pose proof (Z.mod_pos_bound n base ltac:(lia)) as Hm.
    case_test; bool_prop.
    + split; [|constructor; [done|constructor]]. unfold of_digits. simpl.
      rewrite (Z.div_mod n base) at 2 by lia. lia.
    + split; [|constructor; [done|done]]. simpl. unfold of_digits in *. rewrite fold_left_app, Hv. simpl.
      rewrite (Z.div_mod n base) at 3 by lia. lia.
Qed.

Lemma log2_fuel base n : 2 <= base → 0 <= n → n < base ^ Z.of_nat (S (Z.to_nat (Z.log2 n))).
Proof.
  intros Hb Hn. rewrite Nat2Z.inj_succ, Z2Nat.id by apply Z.log2_nonneg.
  destruct (decide (n = 0)) as [->|Hne].
  - simpl Z.log2. apply Z.lt_le_trans with (2 ^ 1); [lia|]. by apply Z.pow_le_mono_l.
  - destruct (Z.log2_spec n ltac:(lia)) as [_ H].
    eapply Z.lt_le_trans; [exact H|]. apply Z.pow_le_mono_l. lia.
Qed.

Lemma digits_spec base n :
  2 <= base → 0 <= n →
  of_digits base (digits base n) = n ∧ Forall (λ d, 0 <= d < base) (digits base n) ∧
  digits base n ≠ [].
Proof.
  intros Hb Hn. destruct (fold_digits_rev base (S (Z.to_nat (Z.log2 n))) n) as [Hv Hd]; [done| |].
  { split; [done|]. by apply log2_fuel. }
  split_and!; [done|by apply Forall_rev|]. intros E. apply (f_equal length) in E.
  unfold digits in E. by rewrite length_rev in E.
Qed.

Lemma digit_char_range d : 0 <= d < 16 → 48 <= digit_char d <= 57 ∨ 97 <= digit_char d <= 102.
Proof. unfold digit_char. case_test; lia. Qed.

Lemma dec_val_from_digits ds acc :
  Forall (λ d, 0 <= d < 10) ds →
  dec_val_from acc (digit_char <$> ds) = fold_left (λ acc d, acc * 10 + d) ds acc.
Proof.
  intros Hd. revert acc. induction Hd as [|d ds Hd _ IH]; intros acc; [done|]. simpl.
  rewrite IH. f_equal. unfold digit_char. case_test; lia.
Qed.

(** Reading back what was printed. *)
Lemma dec_val_print n : 0 <= n → dec_val (print_nat n) = n.
Proof.
  intros Hn. destruct (digits_spec 10 n ltac:(lia) Hn) as (Hv & Hd & _).
  unfold dec_val, print_nat. by rewrite dec_val_from_digits.
Qed.

Lemma print_nat_digits n : 0 <= n → Forall (λ c, isdigit c = true) (print_nat n).
Proof.
  intros Hn. destruct (digits_spec 10 n ltac:(lia) Hn) as (_ & Hd & _).
  apply Forall_fmap. eapply Forall_impl; [exact Hd|]. intros d Hr. simpl in *.
  unfold isdigit, digit_char. case_test; lia.
Qed.

Lemma print_nat_nonempty n : 0 <= n → print_nat n ≠ [].
Proof.
  intros Hn E. destruct (digits_spec 10 n ltac:(lia) Hn) as (_ & _ & Hne).
  by apply fmap_nil_inv in E.
Qed.

(** Digits and letters only: no control character. *)
Definition plain_char (c : Z) : Prop := 33 <= c < 127.

Lemma print_hex_plain n : 0 <= n → Forall plain_char (print_hex n).
Proof.
  intros Hn. destruct (digits_spec 16 n ltac:(lia) Hn) as (_ & Hd & _).
  apply Forall_fmap. eapply Forall_impl; [exact Hd|]. intros d Hr. simpl in *.
  apply digit_char_range in Hr. unfold plain_char. lia.
Qed.

Lemma print_nat_plain n : 0 <= n → Forall plain_char (print_nat n).
Proof.
  intros Hn. eapply Forall_impl; [by apply print_nat_digits|]. intros c Hc.
  unfold isdigit in Hc. bool_prop. unfold plain_char. lia.
Qed.

Lemma print_int_plain n : Forall plain_char (print_int n).
Proof.
  unfold print_int. case_test; bool_prop; [|by apply print_nat_plain].
  constructor; [by unfold plain_char|]. apply print_nat_plain. lia.
Qed.

Lemma length_digits base n m :
  2 <= base → 0 <= n < base ^ Z.of_nat m → (1 ≤ m)%nat → (length (digits base n) ≤ m)%nat.
Proof.
  intros Hb Hn Hm. unfold digits. rewrite length_rev.
  generalize (S (Z.to_nat (Z.log2 n))) as fuel. intros fuel. revert n m Hn Hm.
  induction fuel as [|fuel IH]; intros n m Hn Hm; simpl; [lia|].
  case_test; simpl; [lia|]. destruct m as [|[|m]]; [lia| |].
  - bool_prop. destruct Heqb. apply Z.div_small. simpl in Hn. lia.
  - apply le_n_S, IH; [|lia]. split; [apply Z.div_pos; lia|].
    apply Z.div_lt_upper_bound; [lia|].
    replace (Z.of_nat (S (S m))) with (Z.succ (Z.of_nat (S m))) in Hn by lia.
    rewrite Z.pow_succ_r in Hn by lia. lia.
Qed.

Lemma length_print_nat n m :
  0 <= n < 10 ^ Z.of_nat m → (1 ≤ m)%nat → (length (print_nat n) ≤ m)%nat.
Proof. intros. unfold print_nat. rewrite length_fmap. by apply length_digits. Qed.

(** ** Tokens of a text *)

(** The pieces between separators, empty ones included. *)
Fixpoint split_on (f : Z → bool) (s : bytes) : list bytes :=
  match s with
  | [] => [[]]
  | c :: s =>
      if f c then [] :: split_on f s
      else match split_on f s with
           | h :: t => (c :: h) :: t
           | [] => [[c]]
           end
  end.

(** The non-empty pieces: what repeated calls of [strtok_r] return. *)
Definition tokens (delims s : bytes) : list bytes :=
  filter (λ t, t ≠ []) (split_on (mem_char delims) s).

Lemma split_on_app f s k :
  Forall (λ c, f c = false) s →
  split_on f (s ++ k) =
  match split_on f k with h :: t => (s ++ h) :: t | [] => [s] end.
Proof.
  intros Hs. induction Hs as [|c s Hc _ IH]; simpl.
  - by destruct (split_on f k) eqn:E; [destruct k; simpl in E; repeat case_match|].
  - rewrite Hc, IH. by destruct (split_on f k).
Qed.

Lemma tokens_drop delims s :
  tokens delims s = tokens delims (drop_while (mem_char delims) s).
Proof.
  induction s as [|c s IH]; [done|]. simpl. destruct (mem_char delims c) eqn:E; [|done].
  rewrite <-IH. unfold tokens. simpl. by rewrite E.
Qed.

Lemma tokens_strtok delims s :
  tokens delims s =
  match strtok_r delims s with
  | None => []
  | Some (t, rest) => t :: tokens delims rest
  end.
Proof.
  rewrite tokens_drop. unfold strtok_r. destruct (drop_while _ s) as [|c s1] eqn:E; [done|].
  apply drop_while_head in E. set (f := λ c, negb (mem_char delims c)).
  unfold tokens at 1. rewrite <-(take_drop_while f (c :: s1)) at 1.
  rewrite split_on_app.
  2:{ eapply Forall_impl; [apply take_while_all|]. intros x Hx. unfold f in Hx. by bool_prop. }
  assert (take_while f (c :: s1) ≠ []) as Hne by (simpl; unfold f; by rewrite E).
  destruct (drop_while f (c :: s1)) as [|d k] eqn:Ed.
  - simpl split_on. cbn iota. rewrite app_nil_r. rewrite filter_cons_True by done. done.
  - apply drop_while_head in Ed. unfold f in Ed. apply negb_false_iff in Ed.
    simpl split_on. rewrite Ed. rewrite app_nil_r. rewrite filter_cons_True by done.
    done.
Qed.

Lemma Forall_split_on (P : Z → Prop) f s : Forall P s → Forall (Forall P) (split_on f s).
Proof.
  intros HP. induction HP as [|c s Hc Hs IH]; simpl; [by repeat constructor|].
  case_test; [by constructor|]. destruct (split_on f s) as [|h t]; [by repeat constructor|].
  apply Forall_cons in IH as [? ?]. by repeat constructor.
Qed.

Lemma Forall_tokens (P : Z → Prop) delims s : Forall P s → Forall (Forall P) (tokens delims s).
Proof.
  intros H. unfold tokens. rewrite Forall_forall. intros t [_ Hin]%list_elem_of_filter.
  pose proof (Forall_split_on P (mem_char delims) s H) as Hs. rewrite Forall_forall in Hs. auto.
Qed.

Lemma split_on_clean f s : Forall (Forall (λ c, f c = false)) (split_on f s).
Proof.
  induction s as [|c s IH]; simpl; [by repeat constructor|].
  destruct (f c) eqn:E; [by constructor|]. destruct (split_on f s) as [|h t]; [by repeat constructor|].
  apply Forall_cons in IH as [? ?]. by repeat constructor.
Qed.

(** No token holds a delimiter. *)
Lemma tokens_clean delims s : Forall (λ t, t ≠ [] ∧ Forall (λ c, c ∉ delims) t) (tokens delims s).
Proof.
  unfold tokens. rewrite Forall_forall. intros t [Hne Hin]%list_elem_of_filter. split; [done|].
  pose proof (split_on_clean (mem_char delims) s) as H. rewrite Forall_forall in H.
  eapply Forall_impl; [by apply H|]. intros c Hc. simpl in Hc. unfold mem_char in Hc.
  by bool_prop.
Qed.

Lemma length_split_on c s :
  length (split_on (mem_char [c]) s) = S (length (filter (λ x, x = c) s)).
Proof.
  induction s as [|x s IH]; [done|]. simpl split_on. unfold mem_char at 1.
  rewrite filter_cons. case_decide as Hx.
  - subst x. rewrite bool_decide_true by set_solver. simpl. by rewrite IH.
  - rewrite bool_decide_false by set_solver. by destruct (split_on (mem_char [c]) s).
Qed.

Lemma length_tokens c s :
  (length (tokens [c] s) ≤ S (length (filter (λ x, x = c) s)))%nat.
Proof. rewrite <-length_split_on. apply length_filter. Qed.
