(* ===== verification/Platform.v ===== *)
(** * The platform layer

    [src/mnet_internal.h], and [mnet_wsa_init] of [src/mnet.c]: the helpers that
    have a POSIX and a Windows version, each version in a module of its own, and
    what relates the two.  The rest of the development follows the POSIX build;
    the theorems here say where the Windows build computes the same.

    The threading wrappers of the same header are in [Threads.v]. *)

From S2P Require Export CString.

Record timespec := MkTimespec { ts_sec : Z; ts_nsec : Z }.
Record timeval := MkTimeval { tv_sec : Z; tv_usec : Z }.

(** What the C library and the system promise of the values they fill in, and ask
    of those they are given. *)
Definition timespec_ok (ts : timespec) : Prop :=
  0 <= ts_sec ts < 2 ^ 53 ∧ 0 <= ts_nsec ts < 1000000000.
Definition timeval_ok (tv : timeval) : Prop := 0 <= tv_sec tv ∧ 0 <= tv_usec tv < 1000000.

Definition nanoseconds (ts : timespec) : Z := ts_sec ts * 1000000000 + ts_nsec ts.
Definition microseconds (tv : timeval) : Z := tv_sec tv * 1000000 + tv_usec tv.

(** Signed 64-bit arithmetic is undefined when it overflows. *)
Definition int64_checked (z : Z) : option Z :=
  if ((- 2 ^ 63 <=? z) && (z <? 2 ^ 63))%bool then Some z else None.

Definition dword (z : Z) : Z := z mod 2 ^ 32.

Module Posix.

(** [now_ms_mono], from what [clock_gettime] has stored *)
Definition now_ms (ts : timespec) : option Z :=
  match int64_checked (ts_sec ts * 1000) with
  | Some s => int64_checked (s + Z.quot (ts_nsec ts) 1000000)
  | None => None
  end.

(** [mnet_sleep_ms]: what is given to [nanosleep]; [ms] is an [unsigned int] *)
Definition mnet_sleep_ms (ms : Z) : timespec := MkTimespec (ms / 1000) (ms mod 1000 * 1000000).

(** [mnet_set_socket_timeout]: what is given to [setsockopt] *)
Definition mnet_set_socket_timeout (seconds : Z) : timeval := MkTimeval seconds 0.

End Posix.

Module Win32.

(** [mnet_poll]: the time given to [select] *)
Definition select_time (timeout_ms : Z) : timeval :=
  MkTimeval (Z.quot timeout_ms 1000) (Z.rem timeout_ms 1000 * 1000).

(** [mnet_set_socket_timeout]: the milliseconds given to [setsockopt] *)
Definition socket_timeout_ms (seconds : Z) : Z := dword (dword seconds * 1000).

(** [_strnicmp (a, b, n) == 0], where the arrays go on with their terminator *)
Fixpoint strnicmp_eq (a b : bytes) (n : nat) : bool :=
  match n with
  | O => true
  | S n =>
      let x := default 0 (head a) in
      let y := default 0 (head b) in
      if tolower x =? tolower y then if x =? 0 then true else strnicmp_eq (tail a) (tail b) n
      else false
  end.

Fixpoint strcasestr_loop (haystack needle : bytes) (needle_len : nat) : option nat :=
  match haystack with
  | [] => None
  | c :: rest =>
      if c =? 0 then None
      else if strnicmp_eq haystack needle needle_len then Some 0%nat
      else S <$> strcasestr_loop rest needle needle_len
  end.

(** [strcasestr]; the result is the offset into the haystack *)
Definition strcasestr (haystack needle : option bytes) : option nat :=
  match haystack, needle with
  | Some haystack, Some needle =>
      let needle_len := strlen needle in
      if (needle_len =? 0)%nat then Some 0%nat else strcasestr_loop haystack needle needle_len
  | _, _ => None
  end.

(** [mnet_wsa_init] of [src/mnet.c]: its result and [started], when [WSAStartup] would return
    [startup]; the last component says whether it was called *)
Definition mnet_wsa_init (started : bool) (startup : Z) : Z * bool * bool :=
  if started then (0, true, false)
  else if startup =? 0 then (0, true, true)
  else (-1, false, true).

(** What [mnet_call] gives to [setsockopt] for [SO_RCVTIMEO] on Windows: the first
    four bytes of a [struct timeval], least significant first, as a [DWORD] *)
Definition recv_timeout_ms (tv : timeval) : Z := dword (tv_sec tv).

End Win32.

(** ** Times *)

Lemma int64_checked_small z : - 2 ^ 63 <= z < 2 ^ 63 → int64_checked z = Some z.
Proof. intros Hz. unfold int64_checked. case_test; bool_prop; [done|lia]. Qed.

(** The clock is the number of whole milliseconds, and it is monotone. *)
Lemma now_ms_floor ts :
  timespec_ok ts → Posix.now_ms ts = Some (nanoseconds ts / 1000000).
Proof.
  intros [Hs Hn]. unfold Posix.now_ms, nanoseconds.
  rewrite Z.quot_div_nonneg by lia. pose proof (Z.div_pos (ts_nsec ts) 1000000 ltac:(lia) ltac:(lia)).
  pose proof (Z.div_lt_upper_bound (ts_nsec ts) 1000000 1000 ltac:(lia) ltac:(lia)).
  rewrite int64_checked_small, int64_checked_small by lia. f_equal.
  replace (ts_sec ts * 1000000000 + ts_nsec ts) with (ts_nsec ts + (ts_sec ts * 1000) * 1000000) by lia.
  rewrite Z.div_add by lia. lia.
Qed.

Lemma now_ms_monotone ts ts' m m' :
  timespec_ok ts → timespec_ok ts' → nanoseconds ts <= nanoseconds ts' →
  Posix.now_ms ts = Some m → Posix.now_ms ts' = Some m' → m <= m'.
Proof.
  intros H1 H2 Hle. rewrite !now_ms_floor by done. intros [= <-] [= <-]. by apply Z.div_le_mono.
Qed.

Lemma sleep_exact ms :
  0 <= ms < 2 ^ 32 →
  timespec_ok (Posix.mnet_sleep_ms ms) ∧ nanoseconds (Posix.mnet_sleep_ms ms) = ms * 1000000.
Proof.
  intros Hms. unfold Posix.mnet_sleep_ms, timespec_ok, nanoseconds. cbn.
  pose proof (Z.div_mod ms 1000 ltac:(lia)). pose proof (Z.mod_pos_bound ms 1000 ltac:(lia)).
  pose proof (Z.div_pos ms 1000 ltac:(lia) ltac:(lia)).
  split; [split|]; lia.
Qed.

Lemma poll_exact ms :
  0 <= ms → timeval_ok (Win32.select_time ms) ∧ microseconds (Win32.select_time ms) = ms * 1000.
Proof.
  intros Hms. unfold Win32.select_time, timeval_ok, microseconds. cbn.
  rewrite Z.quot_div_nonneg, Z.rem_mod_nonneg by lia.
  pose proof (Z.div_mod ms 1000 ltac:(lia)). pose proof (Z.mod_pos_bound ms 1000 ltac:(lia)).
  pose proof (Z.div_pos ms 1000 ltac:(lia) ltac:(lia)). lia.
Qed.

(** The two builds set the same timeout below 49 days; above, the Windows build
    sets a smaller one. *)
Lemma socket_timeout_same seconds :
  0 <= seconds < 2 ^ 31 →
  (microseconds (Posix.mnet_set_socket_timeout seconds) =
     Win32.socket_timeout_ms seconds * 1000 ↔ seconds <= 4294967).
Proof.
  intros Hs. unfold Win32.socket_timeout_ms, dword, microseconds. cbn.
  rewrite (Z.mod_small seconds) by lia. pose proof (Z.mod_pos_bound (seconds * 1000) (2 ^ 32) ltac:(lia)).
  split; intros H1; [lia|]. rewrite Z.mod_small by lia. lia.
Qed.

(** The receive timeout of the client, meant to be 30 seconds, is 30 milliseconds
    in the Windows build. *)
Lemma client_timeout_windows : Win32.recv_timeout_ms (MkTimeval 30 0) = 30.
Proof. done. Qed.

(** Once it has succeeded, Winsock is not started again; after a failure it is
    tried again. *)
Lemma wsa_init_spec started startup :
  Win32.mnet_wsa_init started startup =
    if started then (0, true, false)
    else (if startup =? 0 then 0 else -1, startup =? 0, true).
Proof. unfold Win32.mnet_wsa_init. destruct started; [done|]. by destruct (startup =? 0). Qed.

(** ** Searching *)

Lemma tolower_zero c : tolower c = tolower 0 → c = 0.
Proof. unfold tolower. repeat case_test; bool_prop; lia. Qed.

Lemma cstr_cons c s : cstr (c :: s) = if c =? 0 then [] else c :: cstr s.
Proof. unfold cstr. cbn. unfold not_nul at 1. by destruct (c =? 0). Qed.

Lemma strnicmp_prefix needle : ∀ h,
  Win32.strnicmp_eq h needle (length (cstr needle)) = starts_with eqc_case (cstr needle) (cstr h).
Proof.
  induction needle as [|c needle IH]; intros h; [done|]. rewrite cstr_cons.
  destruct (c =? 0) eqn:Ec; bool_prop; [done|]. cbn [length Win32.strnicmp_eq head tail default].
  destruct h as [|y h]; cbn [head tail default from_option id].
  - case_test; bool_prop; [|done]. by assert (c = 0) by (apply tolower_zero; done).
  - rewrite cstr_cons. cbn [starts_with]. destruct (y =? 0) eqn:Ey; bool_prop.
    + subst y. case_test; bool_prop; [|done]. by assert (c = 0) by (apply tolower_zero; done).
    + cbn [starts_with]. unfold eqc_case at 1. rewrite (Z.eqb_sym (tolower c)), IH. by case_test.
Qed.

Lemma strcasestr_loop_spec needle : cstr needle ≠ [] → ∀ h,
  Win32.strcasestr_loop h needle (length (cstr needle)) = find_sub eqc_case (cstr needle) (cstr h).
Proof.
  intros Hne. induction h as [|c h IH].
  - cbn. by destruct (cstr needle).
  - cbn [Win32.strcasestr_loop]. rewrite strnicmp_prefix, cstr_cons.
    destruct (c =? 0); [by cbn; destruct (cstr needle)|]. rewrite IH. cbn [find_sub]. done.
Qed.

(** ** Properties *)

(** C33: the Windows build's own [strcasestr] computes the same as the one that the
    C library provides elsewhere, on all strings and the empty needle included:
    the parsers of headers and bodies mean the same in both builds. *)
Theorem strcasestr_windows_same (haystack needle : bytes) :
  Win32.strcasestr (Some haystack) (Some needle) = strcasestr haystack (cstr needle) ∧
  Win32.strcasestr None (Some needle) = None ∧ Win32.strcasestr (Some haystack) None = None.
Proof.
  split_and!; [|done..]. unfold Win32.strcasestr, strcasestr, strlen.
  destruct (cstr needle) as [|c n] eqn:E.
  - cbn. by destruct (cstr haystack).
  - cbn [length Nat.eqb]. rewrite <-E. change (S (length n)) with (length (c :: n)).
    rewrite <-E. apply strcasestr_loop_spec. by rewrite E.
Qed.
