(* ===== verification/Mem.v ===== *)
(** * Memory, input/output trace and the effect monad

    The code is modelled as computations over a [world]: the heap of live
    allocations (a block is the list of its bytes), the number of system calls
    made so far and the trace of observable events.  A computation returns
    [None] when it performs an operation that C leaves undefined: it frees a
    block that is not live, reads a dead block or one of the wrong size, or
    reads a string that has no terminator.

    Whether an allocation succeeds is decided by the environment (class
    [Allocator]); every theorem holds for every such choice. *)

From S2P Require Export CString.

Abbreviation loc := nat.

(** A [void *] or [char *] that owns or borrows a whole block; [None] is NULL. *)
Abbreviation ptr := (option loc).

Inductive event :=
  | EvSend (data : bytes)               (* bytes handed to send() *)
  | EvRecv (data : bytes)               (* bytes received from recv() *)
  | EvLog (handler : nat) (level : Z) (msg : bytes)  (* a log handler is called *)
  | EvStderr (msg : bytes)              (* fprintf (stderr, ...) *)
  | EvStdout (msg : bytes)              (* fputs (..., stdout) *)
  | EvOpen (path : bytes) (ok : bool)   (* fopen(), and whether it succeeded *)
  | EvClose                             (* fclose() *)
  | EvResolve (host : option bytes) (service : bytes)  (* getaddrinfo() *)
  | EvSocket                            (* socket() or accept() gave a socket *)
  | EvHangup.                           (* the socket is closed *)

Record world := World {
  w_next : loc;
  w_heap : gmap loc bytes;
  w_calls : nat;
  w_trace : list event;
}.

#[export] Instance event_eq_dec : EqDecision event.
Proof. solve_decision. Defined.
#[export] Instance world_eq_dec : EqDecision world.
Proof. solve_decision. Defined.

Definition M (A : Type) : Type := world → option (A * world).

#[export] Instance M_ret : MRet M := λ A a w, Some (a, w).
#[export] Instance M_bind : MBind M := λ A B f c w,
  match c w with
  | Some (a, w') => f a w'
  | None => None
  end.

(** Undefined behaviour. *)
Definition ub {A} : M A := λ _, None.

Class Allocator := malloc_ok : loc → bool.

(** Some allocation of the run failed. *)
Definition alloc_failure `{!Allocator} : Prop := ∃ l, malloc_ok l = false.

(** ** Primitives *)

Section prims.
Context `{!Allocator}.

(** [malloc] of [length bs] bytes followed by the stores that fill the block
    with [bs]; [None] when the allocation fails. *)
Definition alloc (bs : bytes) : M ptr := λ w,
  let w' := World (S (w_next w)) (w_heap w) (w_calls w) (w_trace w) in
  if malloc_ok (w_next w)
  then Some (Some (w_next w), World (S (w_next w)) (<[w_next w := bs]> (w_heap w))
                                (w_calls w) (w_trace w))
  else Some (None, w').

Definition free (p : ptr) : M unit := λ w,
  match p with
  | None => Some ((), w)
  | Some l =>
      match w_heap w !! l with
      | Some _ => Some ((), World (w_next w) (delete l (w_heap w)) (w_calls w) (w_trace w))
      | None => None
      end
  end.

Definition load (p : ptr) : M bytes := λ w,
  match p with
  | None => None
  | Some l => match w_heap w !! l with Some bs => Some (bs, w) | None => None end
  end.

(** Overwrite a whole block; its size does not change. *)
Definition store (p : ptr) (bs : bytes) : M unit := λ w,
  match p with
  | None => None
  | Some l =>
      match w_heap w !! l with
      | Some old =>
          if (length old =? length bs)%nat
          then Some ((), World (w_next w) (<[l := bs]> (w_heap w)) (w_calls w) (w_trace w))
          else None
      | None => None
      end
  end.

(** Read a block as a C string; it must be terminated inside the block. *)
Definition load_str (p : ptr) : M bytes :=
  bs ← load p;
  if bool_decide (0 ∈ bs) then mret (cstr bs) else ub.

(** [strdup] *)
Definition strdup (s : bytes) : M ptr := alloc (s ++ [0]).

(** [realloc (p, length bs)] after which the block holds [bs]: on failure the
    old block is left as it was. *)
Definition realloc (p : ptr) (bs : bytes) : M ptr :=
  q ← alloc bs;
  match q with
  | None => mret None
  | Some _ => free p;; mret q
  end.

Definition emit (e : event) : M unit := λ w,
  Some ((), World (w_next w) (w_heap w) (w_calls w) (w_trace w ++ [e])).
End prims.

(** ** Total correctness *)

(** [wp c Q w]: run from [w], the computation [c] meets no undefined behaviour
    and ends in a result and a world that satisfy [Q]. *)
Definition wp {A} (c : M A) (Q : A → world → Prop) (w : world) : Prop :=
  match c w with
  | Some (a, w') => Q a w'
  | None => False
  end.

Lemma wp_ret {A} (a : A) Q w : Q a w → wp (mret a) Q w.
Proof. done. Qed.

Lemma wp_bind {A B} (c : M A) (f : A → M B) Q w :
  wp c (λ a w', wp (f a) Q w') w → wp (c ≫= f) Q w.
Proof. unfold wp, mbind, M_bind. by destruct (c w) as [[a w']|]. Qed.

Lemma wp_mono {A} (c : M A) (Q R : A → world → Prop) w :
  wp c Q w → (∀ a w', Q a w' → R a w') → wp c R w.
Proof. unfold wp. destruct (c w) as [[a w']|]; auto. Qed.

Lemma wp_run {A} (c : M A) Q w : wp c Q w ↔ ∃ a w', c w = Some (a, w') ∧ Q a w'.
Proof.
  unfold wp. destruct (c w) as [[a w']|].
  - split; [eauto|]. by intros (? & ? & [= <- <-] & ?).
  - split; [done|]. by intros (? & ? & ? & ?).
Qed.

Lemma wp_defined {A} (c : M A) Q w : wp c Q w → c w ≠ None.
Proof. intros Hw E. unfold wp in Hw. by rewrite E in Hw. Qed.

Lemma wp_ran {A} (c : M A) Q w a w' : wp c Q w → c w = Some (a, w') → Q a w'.
Proof. intros Hw E. unfold wp in Hw. by rewrite E in Hw. Qed.

Lemma wp_bind_ran {A B} (c : M A) (f : A → M B) Q w a w1 :
  c w = Some (a, w1) → wp (f a) Q w1 → wp (c ≫= f) Q w.
Proof. intros E Hw. apply wp_bind. unfold wp at 1. by rewrite E. Qed.

Lemma bind_ran {A B} (c : M A) (f : A → M B) w r :
  (c ≫= f) w = Some r → ∃ a w1, c w = Some (a, w1) ∧ f a w1 = Some r.
Proof. unfold mbind, M_bind. destruct (c w) as [[a w1]|]; [eauto|done]. Qed.

Lemma wp_conj {A} (c : M A) Q R w : wp c Q w → wp c R w → wp c (λ a w', Q a w' ∧ R a w') w.
Proof. unfold wp. destruct (c w) as [[a w']|]; auto. Qed.

(** ** Ownership *)

(** [owns w0 w bs]: the heap of [w] is the heap of [w0] plus the blocks [bs],
    which were all allocated since [w0]; nothing else of [w0] changed. *)
Record owns (w0 w : world) (bs : list (loc * bytes)) : Prop := {
  owns_wf : ∀ l, (w_next w0 ≤ l)%nat → w_heap w0 !! l = None;
  owns_heap : w_heap w = list_to_map bs ∪ w_heap w0;
  owns_nodup : NoDup bs.*1;
  owns_fresh : Forall (λ l, (w_next w0 ≤ l < w_next w)%nat) bs.*1;
  owns_next : (w_next w0 ≤ w_next w)%nat;
  owns_calls : w_calls w = w_calls w0;
  owns_trace : w_trace w = w_trace w0;
}.

(** Allocation never hands out a live location. *)
Definition wf_world (w : world) : Prop := ∀ l, (w_next w ≤ l)%nat → w_heap w !! l = None.

Lemma owns_refl w : wf_world w → owns w w [].
Proof.
  intros Hwf. split; simpl; auto using NoDup_nil_2.
  by rewrite (left_id_L ∅ (∪)).
Qed.

Lemma owns_nil_heap w0 w : owns w0 w [] → w_heap w = w_heap w0.
Proof. intros [? -> _ _ _ _ _]. simpl. by rewrite (left_id_L ∅ (∪)). Qed.

#[export] Instance owns_proper w0 w : Proper ((≡ₚ) ==> iff) (owns w0 w).
Proof.
  assert (∀ bs bs', bs ≡ₚ bs' → owns w0 w bs → owns w0 w bs') as Hle.
  { intros bs bs' E [Hwf Hh Hnd Hf Hn Hc Ht]. split; try done.
    - rewrite Hh. f_equal. by apply list_to_map_proper.
    - by rewrite <-E.
    - by rewrite <-E. }
  intros bs bs' E. split; apply Hle; [done|]. by symmetry.
Qed.

Lemma owns_in_heap w0 w bs l b : owns w0 w bs → (l, b) ∈ bs → w_heap w !! l = Some b.
Proof.
  intros [_ -> Hnd _ _ _ _] Hin. apply lookup_union_Some_l.
  by apply elem_of_list_to_map_1.
Qed.

Lemma owns_old_heap w0 w bs l b :
  owns w0 w bs → w_heap w0 !! l = Some b → w_heap w !! l = Some b.
Proof.
  intros [Hwf -> Hnd Hf _ _ _] Hl. rewrite lookup_union_r; [done|].
  apply not_elem_of_list_to_map_1. intros Hin.
  rewrite Forall_forall in Hf. specialize (Hf _ Hin).
  rewrite Hwf in Hl; [done|lia].
Qed.

Lemma owns_wf_world w0 w bs : owns w0 w bs → wf_world w.
Proof.
  intros [Hwf Hh Hnd Hf Hn _ _] l Hl. rewrite Hh, lookup_union_None. split.
  - apply not_elem_of_list_to_map_1. intros Hin.
    rewrite Forall_forall in Hf. specialize (Hf _ Hin). lia.
  - apply Hwf. lia.
Qed.

(** What a callee does relative to its own starting world composes with what
    the caller owned. *)
Lemma owns_trans w0 w1 w2 bs1 bs2 :
  owns w0 w1 bs1 → owns w1 w2 bs2 → owns w0 w2 (bs2 ++ bs1).
Proof.
  intros [Hwf1 Hh1 Hnd1 Hf1 Hn1 Hc1 Ht1] [Hwf2 Hh2 Hnd2 Hf2 Hn2 Hc2 Ht2].
  split; [done| | | |lia|congruence|congruence].
  - rewrite Hh2, Hh1, list_to_map_app. by rewrite (assoc_L (∪)).
  - rewrite fmap_app. apply NoDup_app. split; [done|]. split; [|done].
    rewrite !Forall_forall in Hf1, Hf2.
    intros l H2 H1. apply Hf1 in H1. apply Hf2 in H2. lia.
  - rewrite fmap_app. apply Forall_app. split.
    + eapply Forall_impl; [exact Hf2|]. simpl. lia.
    + eapply Forall_impl; [exact Hf1|]. simpl. lia.
Qed.

Section rules.
Context `{!Allocator}.

Lemma wp_alloc w0 w bs b (Q : ptr → world → Prop) :
  owns w0 w bs →
  (∀ w', alloc_failure → owns w0 w' bs → Q None w') →
  (∀ l w', owns w0 w' ((l, b) :: bs) → Q (Some l) w') →
  wp (alloc b) Q w.
Proof.
  intros Ho Hnone Hsome. unfold wp, alloc. case_test.
  - apply Hsome. pose proof (owns_wf_world _ _ _ Ho) as Hwfw.
    destruct Ho as [Hwf Hh Hnd Hf Hn Hc Ht].
    assert (w_next w ∉ bs.*1).
    { intros Hin. rewrite Forall_forall in Hf. apply Hf in Hin. lia. }
    split; simpl; try done; [| | |lia].
    + rewrite Hh. by rewrite <-insert_union_l.
    + by constructor.
    + constructor; [lia|]. eapply Forall_impl; [exact Hf|]. simpl. lia.
  - apply Hnone; [by eexists|]. destruct Ho as [Hwf Hh Hnd Hf Hn Hc Ht].
    split; simpl; try done; [|lia]. eapply Forall_impl; [exact Hf|]. simpl. lia.
Qed.

Lemma wp_strdup w0 w bs s (Q : ptr → world → Prop) :
  owns w0 w bs →
  (∀ w', alloc_failure → owns w0 w' bs → Q None w') →
  (∀ l w', owns w0 w' ((l, s ++ [0]) :: bs) → Q (Some l) w') →
  wp (strdup s) Q w.
Proof. apply wp_alloc. Qed.

Lemma wp_free_null w (Q : unit → world → Prop) : Q () w → wp (free None) Q w.
Proof. done. Qed.

Lemma wp_free w0 w bs bs' l b (Q : unit → world → Prop) :
  owns w0 w bs' → bs' ≡ₚ (l, b) :: bs →
  (∀ w', owns w0 w' bs → Q () w') →
  wp (free (Some l)) Q w.
Proof.
  intros Ho Hp HQ. rewrite Hp in Ho.
  unfold wp, free. rewrite (owns_in_heap _ _ _ l b Ho) by set_solver.
  apply HQ. destruct Ho as [Hwf Hh Hnd Hf Hn Hc Ht]. simpl in *.
  apply NoDup_cons in Hnd as [Hni Hnd]. apply Forall_cons in Hf as [Hl Hf].
  split; simpl; try done. rewrite Hh.
  rewrite <-insert_union_l, delete_insert_id; [done|].
  apply lookup_union_None. split; [by apply not_elem_of_list_to_map_1|]. apply Hwf. lia.
Qed.

Lemma wp_load w0 w bs l b (Q : bytes → world → Prop) :
  owns w0 w bs → (l, b) ∈ bs → Q b w → wp (load (Some l)) Q w.
Proof. intros Ho Hin HQ. unfold wp, load. by rewrite (owns_in_heap _ _ _ _ _ Ho Hin). Qed.

Lemma wp_load_at w l b (Q : bytes → world → Prop) :
  w_heap w !! l = Some b → Q b w → wp (load (Some l)) Q w.
Proof. intros Hl HQ. unfold wp, load. by rewrite Hl. Qed.

Lemma wp_load_str_at w l s k (Q : bytes → world → Prop) :
  w_heap w !! l = Some (s ++ 0 :: k) → Forall (λ c, c ≠ 0) s →
  Q s w → wp (load_str (Some l)) Q w.
Proof.
  intros Hl Hs HQ. apply wp_bind. eapply wp_load_at; [done|].
  rewrite bool_decide_true by set_solver. by rewrite cstr_app_nul.
Qed.

Lemma wp_load_str w0 w bs l s k (Q : bytes → world → Prop) :
  owns w0 w bs → (l, s ++ 0 :: k) ∈ bs → Forall (λ c, c ≠ 0) s →
  Q s w → wp (load_str (Some l)) Q w.
Proof. intros. eapply wp_load_str_at; eauto using owns_in_heap. Qed.

Lemma wp_store w0 w bs bs' l b b' (Q : unit → world → Prop) :
  owns w0 w bs' → bs' ≡ₚ (l, b) :: bs → length b = length b' →
  (∀ w', owns w0 w' ((l, b') :: bs) → Q () w') →
  wp (store (Some l) b') Q w.
Proof.
  intros Ho Hp Hlen HQ. rewrite Hp in Ho.
  unfold wp, store. rewrite (owns_in_heap _ _ _ l b Ho) by set_solver.
  rewrite Hlen, Nat.eqb_refl. apply HQ.
  destruct Ho as [Hwf Hh Hnd Hf Hn Hc Ht]. split; simpl in *; try done.
  rewrite Hh. rewrite <-!insert_union_l. by rewrite insert_insert_eq.
Qed.

Lemma wp_realloc w0 w bs bs' p b b' (Q : ptr → world → Prop) :
  owns w0 w bs' →
  (bs' ≡ₚ match p with None => bs | Some l => (l, b) :: bs end) →
  (∀ w', alloc_failure → owns w0 w' bs' → Q None w') →
  (∀ l w', owns w0 w' ((l, b') :: bs) → Q (Some l) w') →
  wp (realloc p b') Q w.
Proof.
  intros Ho Hp Hnone Hsome. unfold realloc. apply wp_bind.
  eapply wp_alloc; [done|by intros; apply wp_ret; auto|]. intros l w' Ho'.
  destruct p as [l'|].
  - apply wp_bind. eapply (wp_free _ _ ((l, b') :: bs)); [done|rewrite Hp; solve_Permutation|].
    intros w'' Ho''. apply wp_ret. by apply Hsome.
  - apply wp_bind, wp_free_null, wp_ret, Hsome. by rewrite <-Hp.
Qed.

(** Run a callee whose effect is known from any well-formed world. *)
Lemma wp_call {A} (c : M A) w0 w bs (bs2 : A → list (loc * bytes)) (P : A → Prop)
    (Q : A → world → Prop) :
  owns w0 w bs →
  wp c (λ a w', owns w w' (bs2 a) ∧ P a) w →
  (∀ a w', owns w0 w' (bs2 a ++ bs) → P a → Q a w') →
  wp c Q w.
Proof.
  intros Ho Hc HQ. eapply wp_mono; [done|]. intros a w' [Ha HP].
  apply HQ; [|done]. by eapply owns_trans.
Qed.
End rules.

(** Concrete inputs for the witnesses: memory never runs out, nothing happened yet. *)
Definition all_ok : Allocator := λ _, true.
Definition empty_world : world := World 0 ∅ 0 [].

Lemma empty_world_wf : wf_world empty_world.
Proof. intros l _. apply lookup_empty. Qed.

Arguments wp : simpl never.
Arguments mret : simpl never.
Arguments mbind : simpl never.
Arguments alloc : simpl never.
Arguments strdup : simpl never.
Arguments realloc : simpl never.
Arguments free : simpl never.
Arguments load : simpl never.
Arguments load_str : simpl never.
Arguments store : simpl never.
Arguments emit : simpl never.
