(* ===== verification/Codec.v ===== *)
(** * Percent decoding, header validation and JSON escaping

    The byte-level routines of [src/mnet_response.c]: [hex_value],
    [mnet_url_decode_ex], [mnet_url_decode_safe], [mnet_url_decode],
    [mnet_header_value_valid], [mnet_header_name_valid], [mnet_json_escape].

    The decoder is modelled on one array that holds both the source and the
    destination, because the request parser runs it with source and destination
    at the same address. *)

From S2P Require Export CString.

(** ** Percent decoding *)

Definition hex_value (c : Z) : Z :=
  if ((ch0 <=? c) && (c <=? ch9))%bool then c - ch0
  else if ((97 <=? c) && (c <=? 102))%bool then c - 97 + 10
  else if ((65 <=? c) && (c <=? 70))%bool then c - 65 + 10
  else -1.

(** A store into the array; [None] is an access out of bounds. *)
Definition write (a : bytes) (k : nat) (v : Z) : option bytes :=
  if (k <? length a)%nat then Some (<[k := v]> a) else None.

(** The loop of [mnet_url_decode_ex]: the source is at [a + so], the
    destination at [a + d].  [None] is an access out of bounds. *)
Fixpoint url_decode_loop (fuel : nat) (a : bytes)
    (so d src_len dst_size i pos : nat) : option (bytes * Z) :=
  if (src_len <=? i)%nat then
    a' ← write a (d + pos) chNUL; Some (a', to_int (Z.of_nat pos))
  else
    match fuel with
    | O => None
    | S fuel =>
        let put (i : nat) (out : Z) :=
          if out =? chNUL then Some (a, -1)
          else if (dst_size <=? pos + 1)%nat then Some (a, -1)
          else a' ← write a (d + pos) out;
               url_decode_loop fuel a' so d src_len dst_size (S i) (S pos) in
        c ← a !! (so + i)%nat;
        if c =? chPERCENT then
          if (src_len <=? i + 2)%nat then Some (a, -1)
          else
            h ← a !! (so + (i + 1))%nat;
            l ← a !! (so + (i + 2))%nat;
            let hi := hex_value h in
            let lo := hex_value l in
            if ((hi <? 0) || (lo <? 0))%bool then Some (a, -1)
            else put (i + 2)%nat (Z.lor (Z.shiftl hi 4) lo)
        else if c =? chPLUS then put i chSP
        else put i c
    end.

Definition mnet_url_decode_ex (a : bytes) (src : option nat) (src_len : nat)
    (dst : option nat) (dst_size : nat) : option (bytes * Z) :=
  match src, dst with
  | Some so, Some d =>
      if (dst_size =? 0)%nat then Some (a, -1)
      else url_decode_loop src_len a so d src_len dst_size 0 0
  | _, _ => Some (a, -1)
  end.

(** [strlen (a + so)]; undefined without a terminator. *)
Definition strlen_at (a : bytes) (so : nat) : option nat :=
  if bool_decide (0 ∈ drop so a) then Some (strlen (drop so a)) else None.

Definition mnet_url_decode_safe (a : bytes) (src dst : option nat) (dst_size : nat) :
    option (bytes * Z) :=
  match src with
  | None => Some (a, -1)
  | Some so =>
      n ← strlen_at a so;
      mnet_url_decode_ex a src n dst dst_size
  end.

Definition mnet_url_decode (a : bytes) (out : option nat) (out_size : nat)
    (s : option nat) : option (bytes * Z) :=
  match out, s with
  | Some d, Some so =>
      if (out_size =? 0)%nat then Some (a, 0)
      else
        len ← strlen_at a so;
        '(a', n) ← mnet_url_decode_ex a s len out out_size;
        if n <? 0 then a'' ← write a' d chNUL; Some (a'', 0)
        else Some (a', n)
  | _, _ => Some (a, 0)
  end.

(** The reference decoder: what a percent-encoded text stands for, or [None]
    for a malformed or truncated escape and for an encoded or literal NUL. *)
Fixpoint percent_decode (s : bytes) : option bytes :=
  let cons_char c k := if c =? chNUL then None else cons c <$> k in
  match s with
  | [] => Some []
  | c :: s1 =>
      if c =? chPERCENT then
        match s1 with
        | h :: l :: s2 =>
            if ((hex_value h <? 0) || (hex_value l <? 0))%bool then None
            else cons_char (16 * hex_value h + hex_value l) (percent_decode s2)
        | _ => None
        end
      else if c =? chPLUS then cons chSP <$> percent_decode s1
      else cons_char c (percent_decode s1)
  end.

(** The reference encoder, for the round trip: every byte but the unreserved
    ones as an escape. *)
Definition unreserved (c : Z) : bool :=
  (isdigit c || ((65 <=? c) && (c <=? 90)) || ((97 <=? c) && (c <=? 122))
   || (c =? chMINUS) || (c =? chDOT) || (c =? 95) || (c =? 126))%bool.

Definition percent_encode_char (c : Z) : bytes :=
  if unreserved c then [c]
  else if c =? chSP then [chPLUS]
  else [chPERCENT; digit_char (c / 16); digit_char (c mod 16)].

Definition percent_encode (s : bytes) : bytes := flat_map percent_encode_char s.

(** ** Header validation *)

Definition mnet_header_value_valid (value : option bytes) : bool :=
  match value with
  | None => true
  | Some v =>
      forallb (λ p, negb ((p =? chCR) || (p =? chLF) || (p <? 32) || (p =? chDEL))%bool) v
  end.

Definition token_punct : bytes := lit "!#$%&'*+-.^_`|~".

Definition token_char (c : Z) : bool :=
  (((97 <=? c) && (c <=? 122)) || ((65 <=? c) && (c <=? 90)) ||
   ((ch0 <=? c) && (c <=? ch9)) ||
   match strchr token_punct c with Some _ => true | None => false end)%bool.

Definition mnet_header_name_valid (name : option bytes) : bool :=
  match name with
  | None | Some [] => false
  | Some n => forallb token_char n
  end.

(** ** JSON escaping *)

(** [%04x] of a byte *)
Definition print_hex4 (n : Z) : bytes :=
  let h := print_hex n in replicate (4 - length h) ch0 ++ h.

(** The loop of [mnet_json_escape]; [acc] is what [out] holds so far, so [pos]
    is its length. *)
Fixpoint json_escape_loop (out_size : nat) (s acc : bytes) : bytes :=
  match s with
  | [] => acc
  | p :: s =>
      if (length acc <? out_size - 1)%nat then
        let put2 x :=
          if (length acc + 2 <=? out_size - 1)%nat then acc ++ [chBACKSLASH; x] else acc in
        let acc' :=
          if p =? chQUOTE then put2 chQUOTE
          else if p =? chBACKSLASH then put2 chBACKSLASH
          else if p =? chLF then put2 110
          else if p =? chCR then put2 114
          else if p =? chTAB then put2 116
          else if p <? 32 then
            if (length acc + 6 <=? out_size - 1)%nat
            then acc ++ [chBACKSLASH; 117] ++ print_hex4 p
            else acc
          else acc ++ [p] in
        json_escape_loop out_size s acc'
      else acc
  end.

(** What is stored in [out] (terminator included) and the value returned. *)
Definition mnet_json_escape (out_size : nat) (s : option bytes) : bytes * nat :=
  let s := match s with None => [] | Some s => s end in
  if (out_size =? 0)%nat then ([], 0%nat)
  else let out := json_escape_loop out_size s [] in (out ++ [chNUL], length out).

(** The escape sequence of one byte, and the reference reader of escaped text. *)
Definition json_escape_char (c : Z) : bytes :=
  if c =? chQUOTE then [chBACKSLASH; chQUOTE]
  else if c =? chBACKSLASH then [chBACKSLASH; chBACKSLASH]
  else if c =? chLF then [chBACKSLASH; 110]
  else if c =? chCR then [chBACKSLASH; 114]
  else if c =? chTAB then [chBACKSLASH; 116]
  else if c <? 32 then [chBACKSLASH; 117] ++ print_hex4 c
  else [c].

Definition json_escape_all (s : bytes) : bytes := flat_map json_escape_char s.

Fixpoint json_unescape (s : bytes) : option bytes :=
  match s with
  | [] => Some []
  | c :: s =>
      if c =? chBACKSLASH then
        match s with
        | e :: s =>
            if e =? chQUOTE then cons chQUOTE <$> json_unescape s
            else if e =? chBACKSLASH then cons chBACKSLASH <$> json_unescape s
            else if e =? 110 then cons chLF <$> json_unescape s
            else if e =? 114 then cons chCR <$> json_unescape s
            else if e =? 116 then cons chTAB <$> json_unescape s
            else if e =? 117 then
              match s with
              | x :: y :: h :: l :: s =>
                  if ((x =? ch0) && (y =? ch0) && (0 <=? hex_value h) && (0 <=? hex_value l))%bool
                  then cons (16 * hex_value h + hex_value l) <$> json_unescape s
                  else None
              | _ => None
              end
            else None
        | [] => None
        end
      else if ((c =? chQUOTE) || (c <? 32))%bool then None
      else cons c <$> json_unescape s
  end.

(** ** Lemmas on the decoder *)

Lemma hex_value_range c : -1 <= hex_value c < 16.
Proof. unfold hex_value. repeat case_test; bool_prop; lia. Qed.

Lemma hex_join hi lo :
  0 <= hi < 16 → 0 <= lo < 16 → Z.lor (Z.shiftl hi 4) lo = 16 * hi + lo.
Proof.
  intros Hhi Hlo. rewrite Z.shiftl_mul_pow2 by lia.
  rewrite <-(Z.add_0_r (Z.lor _ _)).
  assert (Z.land (hi * 2 ^ 4) lo = 0) as <-.
  { apply Z.bits_inj'. intros n Hn. rewrite Z.land_spec, Z.bits_0.
    destruct (decide (n < 4)).
    - by rewrite Z.mul_pow2_bits_low.
    - rewrite andb_comm. destruct (decide (lo = 0)) as [->|]; [by rewrite Z.bits_0|].
      rewrite (Z.bits_above_log2 lo); [done|lia|].
      assert (Z.log2 lo < 4) by (apply Z.log2_lt_pow2; lia). lia. }
  rewrite Z.add_lor_land. lia.
Qed.

Lemma percent_decode_length s o : percent_decode s = Some o → (length o ≤ length s)%nat.
Proof.
  revert o. induction s as [s IH] using (induction_ltof1 _ length). unfold ltof in IH.
  destruct s as [|c s1]; simpl; intros o.
  - by intros [= <-].
  - case_test.
    + destruct s1 as [|h [|l s2]]; [done..|]. case_test; [done|]. case_test; [done|].
      intros (k & Hk & ->)%fmap_Some. apply IH in Hk; simpl in *; lia.
    + case_test.
      * intros (k & Hk & ->)%fmap_Some. apply IH in Hk; simpl in *; lia.
      * case_test; [done|]. intros (k & Hk & ->)%fmap_Some. apply IH in Hk; simpl in *; lia.
Qed.

(** A decoded text never holds a NUL. *)
Lemma percent_decode_bytes s o : percent_decode s = Some o → Forall is_byte s → Forall is_byte o.
Proof.
  revert o. induction s as [s IH] using (induction_ltof1 _ length). unfold ltof in IH.
  destruct s as [|c s1]; simpl; intros o.
  - by intros [= <-].
  - intros Ho [Hc Hs]%Forall_cons. revert Ho. case_test.
    + destruct s1 as [|h [|l s2]]; [done..|]. case_test; [done|]. case_test; [done|]. bool_prop.
      intros (k & Hk & ->)%fmap_Some. apply Forall_cons in Hs as [_ [_ Hs]%Forall_cons].
      pose proof (hex_value_range h). pose proof (hex_value_range l).
      constructor; [unfold is_byte; lia|]. apply (IH s2); [simpl; lia|done..].
    + case_test.
      * intros (k & Hk & ->)%fmap_Some. constructor; [by unfold is_byte|].
        by apply (IH s1); [simpl; lia|..].
      * case_test; [done|]. intros (k & Hk & ->)%fmap_Some. constructor; [done|].
        by apply (IH s1); [simpl; lia|..].
Qed.

Lemma percent_decode_nul_free s o : percent_decode s = Some o → Forall (λ c, c ≠ 0) o.
Proof.
  revert o. induction s as [s IH] using (induction_ltof1 _ length). unfold ltof in IH.
  destruct s as [|c s1]; simpl; intros o.
  - by intros [= <-].
  - case_test.
    + destruct s1 as [|h [|l s2]]; [done..|]. case_test; [done|]. case_test; [done|].
      bool_prop. intros (k & Hk & ->)%fmap_Some.
      constructor; [done|]. apply (IH s2); [simpl; lia|done].
    + case_test.
      * intros (k & Hk & ->)%fmap_Some. constructor; [lia|]. by apply (IH s1); [simpl; lia|].
      * case_test; [done|]. bool_prop. intros (k & Hk & ->)%fmap_Some.
        constructor; [done|]. by apply (IH s1); [simpl; lia|].
Qed.

(** The text [r] is stored at [a + k]. *)
Definition at_off (a : bytes) (k : nat) (r : bytes) : Prop :=
  ∀ j x, r !! j = Some x → a !! (k + j)%nat = Some x.

Lemma at_off_cons (a : bytes) k x r : at_off a k (x :: r) ↔ a !! k = Some x ∧ at_off a (S k) r.
Proof.
  split.
  - intros H. split.
    + specialize (H 0%nat x eq_refl). by rewrite Nat.add_0_r in H.
    + intros j y Hj. specialize (H (S j) y Hj). by rewrite Nat.add_succ_r in H.
  - intros [Hx H] [|j] y; simpl.
    + intros [= <-]. by rewrite Nat.add_0_r.
    + intros Hj. rewrite Nat.add_succ_r. by apply H.
Qed.

Lemma at_off_insert (a : bytes) k r p v :
  (p < k ∨ k + length r ≤ p)%nat → at_off a k r → at_off (<[p := v]> a) k r.
Proof.
  intros Hp H j x Hj. rewrite list_lookup_insert_ne; [by apply H|].
  apply lookup_lt_Some in Hj. lia.
Qed.

Lemma at_off_here (r k : bytes) : at_off (r ++ k) 0 r.
Proof. intros j x Hj. simpl. by apply lookup_app_l_Some. Qed.

(** [r] is the outcome of decoding [rest] to [a + d + pos], within a
    destination of [dst_size] bytes at [a + d]. *)
Definition decode_fails (a : bytes) (d dst_size : nat) (r : option (bytes * Z)) : Prop :=
  ∃ a', r = Some (a', -1) ∧ length a' = length a ∧
    ∀ j, (j < d ∨ d + dst_size ≤ j)%nat → a' !! j = a !! j.

Definition decode_outcome (a : bytes) (d pos dst_size : nat) (rest : bytes)
    (r : option (bytes * Z)) : Prop :=
  match percent_decode rest with
  | Some out =>
      if (pos + length out <? dst_size)%nat
      then r = Some (splice (d + pos) (out ++ [0]) a, Z.of_nat (pos + length out))
      else decode_fails a d dst_size r
  | None => decode_fails a d dst_size r
  end.

Lemma decode_fails_refl a d n : decode_fails a d n (Some (a, -1)).
Proof. by exists a. Qed.

Lemma decode_fails_insert a d n p v r :
  (d ≤ p < d + n)%nat → decode_fails (<[p := v]> a) d n r → decode_fails a d n r.
Proof.
  intros Hp (a' & -> & Hl & Ha). exists a'. rewrite length_insert in Hl.
  split_and!; [done..|]. intros j Hj. rewrite Ha by done.
  by rewrite list_lookup_insert_ne by lia.
Qed.

Lemma splice_insert (p : nat) c out (a : bytes) :
  (p < length a)%nat → splice (S p) out (<[p := c]> a) = splice p (c :: out) a.
Proof.
  intros Hp. unfold splice.
  assert (<[p := c]> a = (take p a ++ [c]) ++ drop (S p) a) as ->.
  { by rewrite insert_take_drop, <-app_assoc. }
  assert (length (take p a ++ [c]) = S p) as Hl.
  { rewrite length_app, length_take. simpl. lia. }
  rewrite (take_app_length' _ _ _ (eq_sym Hl)).
  rewrite drop_app_ge by lia. rewrite Hl, drop_drop, <-app_assoc. simpl.
  do 4 f_equal. lia.
Qed.

(** One decoded byte is written and decoding goes on after it. *)
Lemma decode_outcome_cons a d pos n c rest rest' r :
  c ≠ 0 → (pos + 1 < n)%nat → (d + pos < length a)%nat →
  percent_decode rest = cons c <$> percent_decode rest' →
  decode_outcome (<[(d + pos)%nat := c]> a) d (S pos) n rest' r →
  decode_outcome a d pos n rest r.
Proof.
  intros Hc Hpos Hp Hd. unfold decode_outcome. rewrite Hd.
  destruct (percent_decode rest') as [out|]; simpl.
  - replace (S (pos + length out)) with (pos + S (length out))%nat by lia.
    case_test.
    + intros ->. rewrite Nat.add_succ_r. by rewrite splice_insert.
    + apply decode_fails_insert. lia.
  - apply decode_fails_insert. lia.
Qed.

Lemma decode_outcome_full a d pos n c rest k :
  (n ≤ pos + 1)%nat → percent_decode rest = cons c <$> k →
  decode_outcome a d pos n rest (Some (a, -1)).
Proof.
  intros Hn Hd. unfold decode_outcome. rewrite Hd.
  destruct k as [out|]; simpl; [|apply decode_fails_refl].
  rewrite (proj2 (Nat.ltb_ge _ _)) by lia. apply decode_fails_refl.
Qed.

Lemma write_in (a : bytes) k v : (k < length a)%nat → write a k v = Some (<[k := v]> a).
Proof. intros. unfold write. by rewrite (proj2 (Nat.ltb_lt _ _)). Qed.

Lemma insert_splice (a : bytes) p v : (p < length a)%nat → <[p := v]> a = splice p [v] a.
Proof.
  intros. rewrite <-(splice_insert p v []) by done. unfold splice. simpl.
  rewrite Nat.add_0_r, take_drop. done.
Qed.

Lemma decode_outcome_nil a d pos n :
  (pos < n)%nat → (d + n ≤ length a)%nat → Z.of_nat pos < 2 ^ 31 →
  decode_outcome a d pos n [] (a' ← write a (d + pos) 0; Some (a', to_int (Z.of_nat pos))).
Proof.
  intros. unfold decode_outcome. simpl. rewrite Nat.add_0_r.
  rewrite (proj2 (Nat.ltb_lt _ _)) by done. rewrite write_in by lia. simpl.
  rewrite to_int_small by lia. by rewrite insert_splice by lia.
Qed.

(** The loop decodes the rest of the source, also when it overwrites the part
    of the source that it has read. *)
Lemma url_decode_loop_spec fuel : ∀ (a : bytes) so d src_len n i pos rest,
  (i + length rest = src_len)%nat → (length rest ≤ fuel)%nat →
  at_off a (so + i) rest → (pos ≤ i)%nat →
  (d ≤ so ∨ so + src_len ≤ d)%nat → (d + n ≤ length a)%nat → (pos < n)%nat →
  Z.of_nat src_len < 2 ^ 31 →
  decode_outcome a d pos n rest (url_decode_loop fuel a so d src_len n i pos).
Proof.
  induction fuel as [|fuel IH]; intros a so d src_len n i pos rest Hi Hfuel Hat Hpos Hdis Hd Hn Hlen.
  { destruct rest; [|simpl in Hfuel; lia]. simpl in Hi. simpl.
    rewrite (proj2 (Nat.leb_le _ _)) by lia. apply decode_outcome_nil; lia. }
  destruct rest as [|c r1]; simpl in Hi, Hfuel; cbn [url_decode_loop].
  { rewrite (proj2 (Nat.leb_le _ _)) by lia. apply decode_outcome_nil; lia. }
  rewrite (proj2 (Nat.leb_gt _ _)) by lia.
  apply at_off_cons in Hat as [Hc Hat]. rewrite Hc. simpl.
  (* writing one byte and going on with what follows it *)
  assert (∀ j x (r : bytes), (i < j)%nat → (j + length r = src_len)%nat → at_off a (so + j) r →
    percent_decode (c :: r1) = (if x =? 0 then None else cons x <$> percent_decode r) →
    decode_outcome a d pos n (c :: r1)
      (if x =? 0 then Some (a, -1)
       else if (n <=? pos + 1)%nat then Some (a, -1)
       else a' ← write a (d + pos) x; url_decode_loop fuel a' so d src_len n j (S pos)))
    as Hput.
  { intros j x r Hj Hr Hatr Hdec. destruct (x =? 0) eqn:E; bool_prop.
    { unfold decode_outcome. rewrite Hdec. apply decode_fails_refl. }
    case_test; bool_prop; [by eapply decode_outcome_full|].
    rewrite write_in by lia. simpl. eapply decode_outcome_cons; [done|lia..|done|].
    apply IH; rewrite ?length_insert; try lia.
    apply at_off_insert; [|done]. lia. }
  simpl in Hput.
  case_test; bool_prop.
  - case_test; bool_prop.
    { unfold decode_outcome. subst c. simpl.
      destruct r1 as [|h [|l r2]]; try apply decode_fails_refl. simpl in *. lia. }
    destruct r1 as [|h [|l r2]]; simpl in Hi; try lia.
    apply at_off_cons in Hat as [Hh Hat]. apply at_off_cons in Hat as [Hl Hat].
    replace (so + (i + 1))%nat with (S (so + i)) by lia.
    replace (so + (i + 2))%nat with (S (S (so + i))) by lia. rewrite Hh, Hl. simpl.
    pose proof (hex_value_range h). pose proof (hex_value_range l).
    destruct ((hex_value h <? 0) || (hex_value l <? 0))%bool eqn:E.
    { unfold decode_outcome. subst c. simpl. rewrite E. apply decode_fails_refl. }
    pose proof (orb_false_elim _ _ E) as [?%Z.ltb_ge ?%Z.ltb_ge]. rewrite hex_join by lia.
    apply Hput with r2; try lia.
    + by replace (so + S (i + 2))%nat with (S (S (S (so + i)))) by lia.
    + subst c. simpl. by rewrite ?E.
  - case_test; bool_prop.
    + apply (Hput (S i) 32 r1); try lia.
      * by rewrite Nat.add_succ_r.
      * by subst c.
    + apply Hput with r1; try lia.
      * by rewrite Nat.add_succ_r.
      * done.
Qed.

(** Decoding in place never runs out of room and leaves the decoded text (or
    the empty string when the text is malformed) terminated at the start of the
    block. *)
Lemma mnet_url_decode_in_place s k :
  Forall is_cchar s → Z.of_nat (length s) < 2 ^ 31 →
  ∃ a' n, mnet_url_decode (s ++ 0 :: k) (Some 0%nat) (strlen (s ++ 0 :: k) + 1) (Some 0%nat)
    = Some (a', n) ∧
    length a' = length (s ++ 0 :: k) ∧ 0 ∈ a' ∧
    cstr a' = default [] (percent_decode s) ∧
    n = Z.of_nat (length (cstr a')).
Proof.
  intros Hs Hlen. unfold mnet_url_decode, strlen_at, strlen. rewrite drop_0.
  rewrite cstr_app_nul by eauto using cchar_nonzero.
  rewrite (proj2 (Nat.eqb_neq _ _)) by lia. rewrite bool_decide_true by set_solver. simpl.
  rewrite (proj2 (Nat.eqb_neq _ _)) by lia.
  assert (length (s ++ 0 :: k) = S (length s + length k)) as Hl.
  { rewrite length_app. simpl. lia. }
  pose proof (url_decode_loop_spec (length s) (s ++ 0 :: k) 0 0 (length s) (length s + 1) 0 0 s)
    as H.
  unfold decode_outcome in H.
  assert (∀ r, decode_fails (s ++ 0 :: k) 0 (length s + 1) r →
    ∃ a' n, ('(a', n) ← r; if n <? 0 then a'' ← write a' 0 0; Some (a'', 0) else Some (a', n))
      = Some (a', n) ∧ length a' = length (s ++ 0 :: k) ∧ 0 ∈ a' ∧ cstr a' = [] ∧
      n = Z.of_nat (length (cstr a'))) as Hfail.
  { intros r (a' & -> & Ha' & _). simpl. rewrite write_in by lia. simpl.
    destruct a' as [|x a']; [simpl in Ha'; lia|]. eexists _, _. simpl in *.
    split_and!; [done|done|by left|done|done]. }
  destruct (percent_decode s) as [out|] eqn:E; simpl in *.
  - pose proof (percent_decode_length _ _ E).
    rewrite (proj2 (Nat.ltb_lt _ _)) in H by lia.
    rewrite H; try lia; [|apply at_off_here]. simpl.
    rewrite (proj2 (Z.ltb_ge _ _)) by lia.
    eexists _, _. split; [done|]. split; [|split; [|split]].
    + apply length_splice. rewrite length_app. simpl. lia.
    + unfold splice. set_solver.
    + unfold splice. simpl. rewrite <-app_assoc. simpl. apply cstr_app_nul.
      by eapply percent_decode_nul_free.
    + f_equal. unfold splice. simpl. rewrite <-app_assoc. simpl.
      rewrite cstr_app_nul; [done|]. by eapply percent_decode_nul_free.
  - apply Hfail, H; try lia. apply at_off_here.
Qed.

Lemma decode_text_ok s : text_ok s → text_ok (default [] (percent_decode s)).
Proof.
  intros Hs. destruct (percent_decode s) as [o|] eqn:E; [|apply text_ok_nil]. simpl.
  assert (Forall is_byte o) as Hb.
  { eapply percent_decode_bytes; [done|]. eapply Forall_impl; [apply Hs|].
    unfold is_cchar, is_byte. lia. }
  apply percent_decode_length in E as Hl. apply percent_decode_nul_free in E.
  eapply text_ok_part; [done| |done]. rewrite Forall_forall in *. intros c Hc.
  specialize (E c Hc). specialize (Hb c Hc). unfold is_byte, is_cchar in *. lia.
Qed.

(** ** Lemmas on encoding *)

Lemma digit_hex d : 0 <= d < 16 → hex_value (digit_char d) = d.
Proof.
  intros Hd. unfold digit_char. destruct (d <? 10) eqn:E; unfold hex_value; repeat case_test; lia.
Qed.

Lemma percent_decode_encode s : Forall is_cchar s → percent_decode (percent_encode s) = Some s.
Proof.
  induction 1 as [|c s Hc Hs IH]; [done|]. unfold percent_encode. simpl.
  unfold is_cchar in Hc. unfold percent_encode_char. destruct (unreserved c) eqn:U.
  - change (percent_decode (c :: percent_encode s) = Some (c :: s)). simpl.
    rewrite IH. simpl. unfold unreserved, isdigit in U.
    repeat case_test; first [done | lia].
  - destruct (c =? 32) eqn:E; bool_prop.
    + change (percent_decode (43 :: percent_encode s) = Some (c :: s)). simpl.
      rewrite IH. by subst c.
    + change (percent_decode (37 :: digit_char (c / 16) :: digit_char (c mod 16) ::
        percent_encode s) = Some (c :: s)). cbn [percent_decode].
      pose proof (Z.mod_pos_bound c 16 ltac:(lia)). pose proof (Z.div_mod c 16 ltac:(lia)).
      assert (0 <= c / 16 < 16).
      { split; [apply Z.div_pos; lia|]. apply Z.div_lt_upper_bound; lia. }
      rewrite !digit_hex by lia. rewrite IH. simpl.
      rewrite !(proj2 (Z.ltb_ge _ _)) by lia. simpl.
      rewrite (proj2 (Z.eqb_neq _ _)) by lia. simpl. do 2 f_equal. lia.
Qed.

Lemma percent_encode_nul_free s : Forall is_cchar s → Forall (λ c, c ≠ 0) (percent_encode s).
Proof.
  induction 1 as [|c s Hc Hs IH]; [constructor|]. unfold percent_encode in *. simpl.
  unfold is_cchar in Hc. apply Forall_app. split; [|done].
  pose proof (Z.mod_pos_bound c 16 ltac:(lia)). pose proof (Z.div_pos c 16 ltac:(lia) ltac:(lia)).
  unfold percent_encode_char. repeat case_test; rewrite ?Forall_cons, Forall_nil;
    unfold digit_char; repeat case_test; lia.
Qed.

(** ** Lemmas on header validation *)

Definition header_value_char (c : Z) : Prop := 32 <= c ∧ c ≠ 127.

Lemma header_value_valid_Forall v :
  mnet_header_value_valid (Some v) = true ↔ Forall header_value_char v.
Proof.
  simpl. rewrite Forall_forallb. apply Forall_iff. intros c. unfold header_value_char.
  rewrite negb_true_iff, !orb_false_iff, !Z.eqb_neq, Z.ltb_ge. lia.
Qed.

Lemma token_char_spec c :
  c ≠ 0 → token_char c = true ↔
  (97 <= c <= 122 ∨ 65 <= c <= 90 ∨ 48 <= c <= 57 ∨ c ∈ token_punct).
Proof.
  intros Hc. unfold token_char. rewrite <-(strchr_is_Some token_punct c Hc).
  destruct (strchr token_punct c) as [i|]; rewrite !orb_true_iff, !andb_true_iff, !Z.leb_le.
  - split; [|by auto]. intros _. by do 3 right.
  - split; [intros [[[?|?]|?]|?]; [by auto..|done]|]. intros [?|[?|[?|?]]]; by auto.
Qed.

(** ** Lemmas on JSON escaping *)

Lemma print_hex4_control c :
  0 <= c < 32 → print_hex4 c = [ch0; ch0; digit_char (c / 16); digit_char (c mod 16)].
Proof.
  intros Hc.
  assert (forallb (λ n, bool_decide (print_hex4 (Z.of_nat n) =
    [48; 48; digit_char (Z.of_nat n / 16); digit_char (Z.of_nat n mod 16)])) (seq 0 32) = true)
    as H by (vm_compute; reflexivity).
  rewrite forallb_forall in H. specialize (H (Z.to_nat c)).
  rewrite bool_decide_eq_true, Z2Nat.id in H by lia. apply H, in_seq. lia.
Qed.

Lemma json_unescape_char c k :
  0 <= c → json_unescape (json_escape_char c ++ k) = cons c <$> json_unescape k.
Proof.
  intros Hc. unfold json_escape_char.
  repeat (case_test; [bool_prop; subst; done|]).
  case_test; bool_prop.
  - rewrite print_hex4_control by lia.
    change (json_unescape (92 :: 117 :: 48 :: 48 :: digit_char (c / 16) ::
      digit_char (c mod 16) :: k) = cons c <$> json_unescape k).
    cbn [json_unescape]. pose proof (Z.mod_pos_bound c 16 ltac:(lia)).
    pose proof (Z.div_mod c 16 ltac:(lia)). assert (0 <= c / 16 < 16) by lia.
    rewrite !digit_hex by lia. simpl.
    rewrite !(proj2 (Z.leb_le _ _)) by lia. simpl. do 2 f_equal. lia.
  - simpl. rewrite !(proj2 (Z.eqb_neq _ _)) by done. by rewrite (proj2 (Z.ltb_ge _ _)).
Qed.

Lemma json_unescape_escape s :
  Forall (λ c, 0 <= c) s → json_unescape (json_escape_all s) = Some s.
Proof.
  induction 1 as [|c s Hc Hs IH]; [done|]. unfold json_escape_all in *. simpl.
  rewrite json_unescape_char by done. by rewrite IH.
Qed.

Lemma json_escape_char_length c : (1 ≤ length (json_escape_char c))%nat.
Proof. unfold json_escape_char. repeat case_test; simpl; lia. Qed.

(** One step of the loop appends the whole escape of the byte, or nothing when
    it does not fit. *)
Lemma json_escape_loop_cons n p s acc :
  0 <= p → (length acc < n - 1)%nat →
  json_escape_loop n (p :: s) acc =
  json_escape_loop n s
    (if (length acc + length (json_escape_char p) <=? n - 1)%nat
     then acc ++ json_escape_char p else acc).
Proof.
  intros Hp Hacc. cbn [json_escape_loop]. rewrite (proj2 (Nat.ltb_lt _ _)) by done.
  f_equal. unfold json_escape_char.
  repeat (case_test; [done|]).
  case_test; bool_prop.
  - by rewrite print_hex4_control by lia.
  - simpl. by rewrite (proj2 (Nat.leb_le _ _)) by lia.
Qed.

Lemma json_escape_loop_spec n s acc :
  Forall (λ c, 0 <= c) s → (length acc ≤ n - 1)%nat →
  ∃ s', s' `sublist_of` s ∧
    json_escape_loop n s acc = acc ++ json_escape_all s' ∧
    (length (json_escape_loop n s acc) ≤ n - 1)%nat ∧
    ((length acc + length (json_escape_all s) ≤ n - 1)%nat → s' = s).
Proof.
  intros Hs. revert acc. induction Hs as [|p s Hp Hs IH]; intros acc Hacc.
  { exists []. simpl. by rewrite app_nil_r. }
  pose proof (json_escape_char_length p).
  destruct (decide (length acc < n - 1)%nat) as [Hlt|Hge].
  - rewrite json_escape_loop_cons by done.
    assert (length (json_escape_all (p :: s)) =
      length (json_escape_char p) + length (json_escape_all s))%nat as Hl by apply length_app.
    case_test; bool_prop.
    + destruct (IH (acc ++ json_escape_char p)) as (s' & Hsub & E & Hlen & Hfull).
      { rewrite length_app. lia. }
      exists (p :: s'). split_and!; [by constructor| |done|].
      * rewrite E. by rewrite <-app_assoc.
      * intros. f_equal. apply Hfull. rewrite length_app. lia.
    + destruct (IH acc) as (s' & Hsub & E & Hlen & Hfull); [done|].
      exists s'. split_and!; [by constructor|done|done|lia].
  - exists []. simpl. rewrite (proj2 (Nat.ltb_ge _ _)) by lia. rewrite app_nil_r.
    split_and!; [apply sublist_nil_l|done|lia|]. rewrite length_app. lia.
Qed.

(** ** Properties *)

(** [mnet_url_decode_ex] refines the reference decoder on every input,
    including when the destination overlaps the source from below or starts at
    the same address: it accesses only the source and the destination, writes
    only inside the [n] bytes of the destination, and either leaves exactly the
    decoded text with its terminator there and returns its length, or returns -1
    (malformed or truncated escape, NUL, or a text that does not fit). *)
Theorem url_decode_ex_correct (a src : bytes) (so d n : nat) :
  at_off a so src → (d ≤ so ∨ so + length src ≤ d)%nat →
  (d + n ≤ length a)%nat → (0 < n)%nat → Z.of_nat (length src) < 2 ^ 31 →
  decode_outcome a d 0 n src (mnet_url_decode_ex a (Some so) (length src) (Some d) n).
Proof.
  intros Hat Hdis Hd Hn Hlen. unfold mnet_url_decode_ex.
  rewrite (proj2 (Nat.eqb_neq _ _)) by lia.
  apply url_decode_loop_spec; rewrite ?Nat.add_0_r; auto with lia.
Qed.

Lemma url_decode_ex_correct_witness :
  decode_outcome (lit "a%20b" ++ [0]) 0 0 6 (lit "a%20b")
    (mnet_url_decode_ex (lit "a%20b" ++ [0]) (Some 0%nat) 5 (Some 0%nat) 6).
Proof.
  apply (url_decode_ex_correct (lit "a%20b" ++ [0]) (lit "a%20b") 0 0 6).
  - apply at_off_here.
  - left. lia.
  - simpl. lia.
  - lia.
  - simpl. lia.
Defined.

(** decoding the percent-encoding of a text with [mnet_url_decode_safe] into
    a buffer with room for it and its terminator gives the text back. *)
Theorem url_decode_safe_encode (s dst : bytes) :
  Forall is_cchar s → (length s < length dst)%nat →
  Z.of_nat (length (percent_encode s)) < 2 ^ 31 →
  ∃ a', mnet_url_decode_safe (percent_encode s ++ 0 :: dst) (Some 0%nat)
          (Some (S (length (percent_encode s)))) (length dst)
        = Some (a', Z.of_nat (length s)) ∧
      cstr (drop (S (length (percent_encode s))) a') = s.
Proof.
  intros Hs Hdst Hlen. set (e := percent_encode s) in *.
  unfold mnet_url_decode_safe, strlen_at, strlen. rewrite drop_0, bool_decide_true by set_solver.
  pose proof (percent_decode_encode s Hs) as Hdec. fold e in Hdec.
  rewrite cstr_app_nul by apply percent_encode_nul_free, Hs. simpl.
  rewrite (proj2 (Nat.eqb_neq _ _)) by lia.
  pose proof (url_decode_loop_spec (length e) (e ++ 0 :: dst) 0 (S (length e)) (length e)
    (length dst) 0 0 e) as H.
  unfold decode_outcome in H. rewrite Hdec, (proj2 (Nat.ltb_lt _ _)) in H by lia.
  rewrite length_app in H. simpl in H. rewrite H; try lia; [|apply at_off_here].
  eexists. split; [done|]. unfold splice.
  rewrite Nat.add_0_r. rewrite drop_app_length'.
  2:{ rewrite length_take, length_app. cbn [length]. lia. }
  rewrite <-app_assoc. simpl. by apply cstr_app_nul, cchar_nonzero.
Qed.

Lemma url_decode_safe_encode_witness :
  ∃ a', mnet_url_decode_safe (percent_encode (lit "a b&c") ++ 0 :: replicate 8 7) (Some 0%nat)
          (Some (S (length (percent_encode (lit "a b&c"))))) (length (replicate 8 7))
        = Some (a', Z.of_nat (length (lit "a b&c"))) ∧
      cstr (drop (S (length (percent_encode (lit "a b&c")))) a') = lit "a b&c".
Proof.
  apply (url_decode_safe_encode (lit "a b&c") (replicate 8 7)).
  - repeat constructor.
  - simpl. lia.
  - simpl. lia.
Defined.


