(* ===== verification/Types.v ===== *)
(** * The data types of the framework

    The structures of [include/mnet/mnet_router.h], [mnet_request.h],
    [mnet_response.h], [mnet_app.h] and [src/mnet_internal.h].

    A string that lives as long as the program or the caller ([const char *] to
    a literal, to the request line copied in [parsed_request_t], to a pattern
    passed by the application) is given by its characters.  A string the
    program allocates is a [ptr] into the heap.  An allocated array of pointers
    is a [parr]: the block that holds the array, and its elements. *)

From S2P Require Export Mem.

Record parr := PArr { pa_block : loc; pa_elems : list ptr }.

(** The number of bytes of an array of [n] pointers; its contents are kept in
    [pa_elems], so the block itself is filled with zeros. *)
Definition ptr_array (n : nat) : bytes := replicate (8 * n) 0.

(** [mnet_http_method_t] *)
Inductive mnet_http_method_t :=
  | MNET_HTTP_GET | MNET_HTTP_POST | MNET_HTTP_PUT | MNET_HTTP_PATCH
  | MNET_HTTP_DELETE | MNET_HTTP_HEAD | MNET_HTTP_OPTIONS.

#[export] Instance http_method_eq_dec : EqDecision mnet_http_method_t.
Proof. solve_decision. Defined.

(** [mnet_response_t] *)
Record mnet_response_t := MkResponse {
  rs_status : Z;
  rs_content_type : option bytes;
  rs_body : ptr;
  rs_body_length : nat;
  rs_chunked : bool;
}.

(** [(mnet_response_t){0}] *)
Definition zero_response : mnet_response_t := MkResponse 0 None None 0 false.

(** [request_extras_t]: parallel arrays of names and values *)
Record name_values := MkNameValues {
  nv_names : option parr;
  nv_values : option parr;
  nv_count : nat;
}.

Definition no_name_values : name_values := MkNameValues None None 0.

Record request_extras_t := MkExtras {
  ex_param_names : option (list ptr);
  ex_param_values : option (list ptr);
  ex_param_count : nat;
  ex_query : name_values;
  ex_header : name_values;
  ex_cookie : name_values;
}.

(** [memset (e, 0, sizeof ( *e))] *)
Definition zero_extras : request_extras_t :=
  MkExtras None None 0 no_name_values no_name_values no_name_values.

(** The request body: absent, inside the connection's read buffer (the bytes
    from there to the end of the buffer), or in its own allocation. *)
Inductive body_ptr :=
  | BodyNull
  | BodyInBuffer (rest : bytes)
  | BodyHeap (p : ptr).

(** [static_config_t]: the blocks of the structure and of its two strings. *)
Record static_config_t := MkStatic {
  sc_block : loc;
  sc_url_prefix : ptr;
  sc_fs_path : ptr;
}.

(** [mnet_request_t] *)
Record mnet_request_t := MkRequest {
  rq_method : bytes;
  rq_path : bytes;
  rq_query_string : option bytes;
  rq_body : body_ptr;
  rq_body_length : nat;
  rq_param_count : nat;
  rq_param_names : option (list ptr);
  rq_param_values : option (list ptr);
  rq_query_count : nat;
  rq_query_names : option (list ptr);
  rq_query_values : option (list ptr);
  rq_header_count : nat;
  rq_header_names : option (list ptr);
  rq_header_values : option (list ptr);
  rq_cookie_count : nat;
  rq_cookie_names : option (list ptr);
  rq_cookie_values : option (list ptr);
  rq_extras : request_extras_t;
  rq_user_data : option static_config_t;
}.

(** [mnet_handler_t]: the built-in static file handler or a function of the
    application. *)
Inductive mnet_handler_t :=
  | HandlerStatic
  | HandlerUser (f : mnet_request_t → M mnet_response_t).

(** [mnet_middleware_t]: receives the request and the handler to call next. *)
Abbreviation mnet_middleware_t :=
  (mnet_request_t → (mnet_request_t → M mnet_response_t) → M mnet_response_t).

(** [mnet_route_t].  [rt_param_names] is NULL-terminated in the code; here its
    elements are the names before the terminator. *)
Record mnet_route_t := MkRoute {
  rt_method : mnet_http_method_t;
  rt_path : option bytes;
  rt_handler : mnet_handler_t;
  rt_param_names : option parr;
  rt_user_data : option static_config_t;
  rt_path_allocated : ptr;
}.

(** [struct mnet_app_t] *)
Record mnet_app_t := MkApp {
  app_block : loc;
  app_table : ptr;
  app_routes : list mnet_route_t;
  app_route_capacity : nat;
  app_running : bool;
  app_debug : Z;
  app_dev : Z;
  app_https : Z;
  app_port : Z;
  app_not_found_handler : option (mnet_request_t → M mnet_response_t);
  app_middleware : option mnet_middleware_t;
  app_timeout_seconds : Z;
  app_max_connections : Z;
  app_keep_alive_timeout : Z;
  app_max_body_size : Z;
  app_log_handler : option nat;
  app_workers : Z;
  app_active_connections : Z;
}.

Definition app_route_count (app : mnet_app_t) : nat := length (app_routes app).

(** [parsed_request_t] *)
Record parsed_request_t := MkParsed {
  pr_method : bytes;
  pr_path : bytes;
  pr_path_only : bytes;
  pr_query_string : option bytes;
  pr_body : body_ptr;
  pr_body_length : nat;
  pr_body_heap : bool;
  pr_method_enum : option mnet_http_method_t;
  pr_extras : request_extras_t;
  pr_keep_alive : bool;
}.

(** ** Limits of [src/mnet_internal.h] *)

Definition MNET_INITIAL_ROUTE_CAPACITY : nat := 8.
Definition MNET_REQUEST_BUFFER_SIZE : nat := Z.to_nat 8192.
Definition MNET_MAX_HEADERS : nat := 100.
Definition MNET_MAX_HEADER_LINE : nat := Z.to_nat 4096.
Definition MNET_MAX_QUERY_NAME : nat := Z.to_nat 1024.
Definition MNET_MAX_QUERY_VALUE : nat := Z.to_nat 1024.
Definition MNET_MAX_BODY_SIZE : Z := 16 * 1024 * 1024.
Definition MNET_MAX_PARAMS : nat := 16.
Definition MNET_MAX_QUERY : nat := 16.
Definition MNET_MAX_WORKERS : Z := 64.
Definition MNET_DEFAULT_WORKERS : Z := 4.
Definition MNET_DEFAULT_TIMEOUT : Z := 30.
Definition MNET_DEFAULT_KEEP_ALIVE_TIMEOUT : Z := 5.

(** The blocks of an allocated array of strings stored as [strs] at [locs]. *)
Definition string_block (s : bytes) : bytes := s ++ [0].
