(* ===== verification/Sys.v ===== *)
(** * System calls and logging

    The socket calls of [src/mnet.c] and [src/mnet_internal.h] ([mnet_send],
    [mnet_recv], [mnet_poll], [now_ms_mono]) over an operating system that is a
    parameter of the model, and [src/mnet_log.c]. *)

From S2P Require Export Types.

(** ** The operating system

    The [k]-th system call of a run gets its answer from these functions.
    [os_recv] is [None] when recv() returns -1; data it returns is never longer
    than the buffer it was given. *)

Class OS := {
  os_clock : nat → Z;
  os_poll : nat → Z → Z;
  os_recv : nat → nat → option bytes;
  os_send : nat → bytes → Z;
  os_recv_bytes k n bs : os_recv k n = Some bs → Forall is_byte bs;
  os_recv_length k n bs : os_recv k n = Some bs → (length bs ≤ n)%nat;
}.

(** The process-wide log handler, written before the server starts. *)
Class Process := { g_log_handler : option nat }.

(** A system call: the answer depends on its number in the run. *)
Definition sys {A} (f : nat → A) : M A := λ w,
  Some (f (w_calls w), World (w_next w) (w_heap w) (S (w_calls w)) (w_trace w)).

Section sys.
Context `{!OS}.

Definition now_ms_mono : M Z := sys os_clock.

Definition mnet_poll (timeout_ms : Z) : M Z := sys (λ k, os_poll k timeout_ms).

(** The length is converted to [int], then to the [size_t] of recv(). *)
Definition recv_size (len : nat) : nat := Z.to_nat (wrap_size (to_int (Z.of_nat len))).

(** The result is the data received; [None] stands for a negative result. *)
Definition mnet_recv (len : nat) : M (option bytes) :=
  r ← sys (λ k, os_recv k (recv_size len));
  match r with
  | Some data => emit (EvRecv data);; mret r
  | None => mret None
  end.

(** [mnet_send (client, data, length)] with a buffer of the program. *)
Definition mnet_send (data : bytes) : M Z :=
  emit (EvSend data);; sys (λ k, os_send k data).
End sys.

(** [fprintf (stderr, ...)] of an already formatted text. *)
Definition fprintf_stderr (text : bytes) : M unit := emit (EvStderr text).

(** ** Logging *)

Definition MNET_LOG_ERROR : Z := 0.
Definition MNET_LOG_WARN : Z := 1.
Definition MNET_LOG_INFO : Z := 2.
Definition MNET_LOG_DEBUG : Z := 3.

Definition log_tag (level : Z) : bytes :=
  if level =? MNET_LOG_ERROR then lit "ERROR"
  else if level =? MNET_LOG_WARN then lit "WARN"
  else if level =? MNET_LOG_INFO then lit "INFO"
  else if level =? MNET_LOG_DEBUG then lit "DEBUG"
  else lit "INFO".

(** [vsnprintf (buf, 1024, fmt, args)] of the formatted text *)
Definition log_buf (text : bytes) : bytes := snd (snprintf (Z.to_nat 1024) text).

Section log.
Context `{!Process}.

Definition mnet_log_msg (level : Z) (text : bytes) : M unit :=
  match g_log_handler with
  | Some h => emit (EvLog h level (log_buf text))
  | None =>
      fprintf_stderr (lit "[mnet] " ++ log_tag level ++ lit ": ");;
      fprintf_stderr text;;
      fprintf_stderr [chLF]
  end.

(** The handler of the application is [None] when the application is NULL or
    has none. *)
Definition mnet_app_log (app_handler : option nat) (level : Z) (text : bytes) : M unit :=
  match app_handler with
  | Some h => emit (EvLog h level (log_buf text))
  | None => mnet_log_msg level (log_buf text)
  end.

(** What a log call emits. *)
Definition log_msg_events (level : Z) (text : bytes) : list event :=
  match g_log_handler with
  | Some h => [EvLog h level (log_buf text)]
  | None => [EvStderr (lit "[mnet] " ++ log_tag level ++ lit ": "); EvStderr text; EvStderr [chLF]]
  end.

Definition app_log_events (app_handler : option nat) (level : Z) (text : bytes) : list event :=
  match app_handler with
  | Some h => [EvLog h level (log_buf text)]
  | None => log_msg_events level (log_buf text)
  end.
End log.

(** ** Effects on the world *)

(** [io w n evs]: the world [w] after [n] system calls and the events [evs]. *)
Definition io (w : world) (n : nat) (evs : list event) : world :=
  World (w_next w) (w_heap w) (w_calls w + n) (w_trace w ++ evs).

Lemma io_nil w : io w 0 [] = w.
Proof. destruct w. unfold io. simpl. by rewrite Nat.add_0_r, app_nil_r. Qed.

Lemma io_io w n1 evs1 n2 evs2 : io (io w n1 evs1) n2 evs2 = io w (n1 + n2) (evs1 ++ evs2).
Proof. unfold io. simpl. by rewrite Nat.add_assoc, app_assoc. Qed.

Lemma owns_io_trans w0 w1 w2 n1 n2 evs1 evs2 bs1 bs2 :
  owns (io w0 n1 evs1) w1 bs1 → owns (io w1 n2 evs2) w2 bs2 →
  owns (io w0 (n1 + n2) (evs1 ++ evs2)) w2 (bs2 ++ bs1).
Proof.
  intros [Hwf1 Hh1 Hnd1 Hf1 Hn1 Hc1 Ht1] Ho2.
  assert (owns (io w0 (n1 + n2) (evs1 ++ evs2)) (io w1 n2 evs2) bs1) as Ho1.
  { split; simpl in *; try done; [by rewrite Hc1, Nat.add_assoc|by rewrite Ht1, app_assoc]. }
  by eapply owns_trans.
Qed.

(** ** Sockets of a trace *)

(** How many sockets the events leave open. *)
Definition open_sockets (evs : list event) : Z :=
  foldr (λ e n, n + match e with EvSocket => 1 | EvHangup => -1 | _ => 0 end) 0 evs.

Definition not_socket (e : event) : Prop := e ≠ EvSocket ∧ e ≠ EvHangup.

Lemma open_sockets_app evs1 evs2 : open_sockets (evs1 ++ evs2) = open_sockets evs1 + open_sockets evs2.
Proof. induction evs1 as [|e evs1 IH]; [done|]. simpl. rewrite IH. lia. Qed.

Lemma open_sockets_none evs : Forall not_socket evs → open_sockets evs = 0.
Proof. induction 1 as [|e evs [H1 H2] _ IH]; [done|]. simpl. rewrite IH. by destruct e. Qed.

Lemma open_sockets_send ls : open_sockets (EvSend <$> ls) = 0.
Proof. apply open_sockets_none, Forall_fmap, Forall_true. by intros l. Qed.

Lemma open_sockets_recv ls : open_sockets (EvRecv <$> ls) = 0.
Proof. apply open_sockets_none, Forall_fmap, Forall_true. by intros l. Qed.

Lemma open_sockets_log_msg `{!Process} level text : open_sockets (log_msg_events level text) = 0.
Proof. unfold log_msg_events. by destruct g_log_handler. Qed.

Lemma open_sockets_log `{!Process} h level text : open_sockets (app_log_events h level text) = 0.
Proof. destruct h; [done|]. apply open_sockets_log_msg. Qed.

(** The sockets a list of events leaves open, computed part by part. *)
#[export] Hint Rewrite open_sockets_app open_sockets_send open_sockets_recv
  @open_sockets_log_msg @open_sockets_log : sockets.

Ltac sockets := autorewrite with sockets; cbn; lia.

(** [held w0 w bs]: [owns], whatever system calls and events happened since, as
    long as every socket opened was closed. *)
Definition held (w0 w : world) (bs : list (loc * bytes)) : Prop :=
  ∃ n evs, owns (io w0 n evs) w bs ∧ open_sockets evs = 0.

Lemma held_owns w0 w bs : owns w0 w bs → held w0 w bs.
Proof. intros Ho. exists 0%nat, []. by rewrite io_nil. Qed.

Lemma held_io w0 w n evs bs : owns (io w0 n evs) w bs → open_sockets evs = 0 → held w0 w bs.
Proof. intros Ho Hs. by exists n, evs. Qed.

Lemma held_trans w0 w1 w2 bs1 bs2 :
  held w0 w1 bs1 → held w1 w2 bs2 → held w0 w2 (bs2 ++ bs1).
Proof.
  intros (n1 & evs1 & H1 & E1) (n2 & evs2 & H2 & E2).
  exists (n1 + n2)%nat, (evs1 ++ evs2). split; [by eapply owns_io_trans|sockets].
Qed.

Lemma held_wf_world w0 w bs : held w0 w bs → wf_world w.
Proof. intros (n & evs & Ho & _). by eapply owns_wf_world. Qed.

Lemma held_nil_heap w0 w : held w0 w [] → w_heap w = w_heap w0.
Proof. intros (n & evs & Ho & _). by apply owns_nil_heap in Ho. Qed.

(** Everything acquired since [w] is released: the heap is what it was and no
    socket is left open. *)
Definition released (w w' : world) : Prop :=
  w_heap w' = w_heap w ∧ ∃ evs, w_trace w' = w_trace w ++ evs ∧ open_sockets evs = 0.

Lemma held_released w w' : held w w' [] → released w w'.
Proof.
  intros Hh. split; [by apply held_nil_heap|]. destruct Hh as (n & evs & Ho & Es).
  exists evs. split; [by apply owns_trace in Ho|done].
Qed.

Section sys_rules.
Lemma wp_sys {A} (f : nat → A) w0 w bs (Q : A → world → Prop) :
  owns w0 w bs → (∀ a w', owns (io w0 1 []) w' bs → Q a w') → wp (sys f) Q w.
Proof.
  intros [Hwf Hh Hnd Hf Hn Hc Ht] HQ. unfold wp, sys. apply HQ.
  split; simpl; try done; [by rewrite Hc, Nat.add_1_r|by rewrite app_nil_r].
Qed.

Lemma wp_sys_at {A} (f : nat → A) w0 w bs (Q : A → world → Prop) :
  owns w0 w bs → (∀ w', owns (io w0 1 []) w' bs → Q (f (w_calls w0)) w') → wp (sys f) Q w.
Proof.
  intros [Hwf Hh Hnd Hf Hn Hc Ht] HQ. unfold wp, sys. rewrite Hc. apply HQ.
  split; simpl; try done; [by rewrite Nat.add_1_r|by rewrite app_nil_r].
Qed.

Lemma wp_emit e w0 w bs (Q : unit → world → Prop) :
  owns w0 w bs → (∀ w', owns (io w0 0 [e]) w' bs → Q () w') → wp (emit e) Q w.
Proof.
  intros [Hwf Hh Hnd Hf Hn Hc Ht] HQ. unfold wp, emit. apply HQ.
  split; simpl; try done; [by rewrite Nat.add_0_r|by rewrite Ht].
Qed.

Lemma wp_send `{!OS} data w0 w bs (Q : Z → world → Prop) :
  owns w0 w bs → (∀ n w', owns (io w0 1 [EvSend data]) w' bs → Q n w') →
  wp (mnet_send data) Q w.
Proof.
  intros Ho HQ. unfold mnet_send. apply wp_bind. eapply wp_emit; [done|]. intros w1 Ho1.
  eapply wp_sys; [done|]. intros n w2 Ho2. apply HQ. rewrite io_io in Ho2. done.
Qed.

Lemma recv_size_small len : Z.of_nat len < 2 ^ 31 → recv_size len = len.
Proof.
  intros Hl. unfold recv_size. rewrite to_int_small, wrap_size_small, Nat2Z.id; unfold size_mod; lia.
Qed.

Definition recv_events (r : option bytes) : list event :=
  match r with Some d => [EvRecv d] | None => [] end.

Lemma wp_recv_at `{!OS} len w0 w bs (Q : option bytes → world → Prop) :
  Z.of_nat len < 2 ^ 31 → owns w0 w bs →
  (∀ r w', r = os_recv (w_calls w0) len → owns (io w0 1 (recv_events r)) w' bs →
     Forall is_byte (default [] r) → (length (default [] r) ≤ len)%nat → Q r w') →
  wp (mnet_recv len) Q w.
Proof.
  intros Hlen Ho HQ. unfold mnet_recv. rewrite recv_size_small by done.
  apply wp_bind. eapply wp_sys_at; [done|]. intros w1 Ho1.
  destruct (os_recv (w_calls w0) len) as [d|] eqn:E.
  - apply wp_bind. eapply wp_emit; [done|]. intros w2 Ho2. rewrite io_io in Ho2. apply wp_ret.
    apply HQ; [done|done|by eapply os_recv_bytes|by eapply os_recv_length].
  - apply wp_ret, HQ; [done|done|constructor|simpl; lia].
Qed.

Lemma wp_recv `{!OS} len w0 w bs (Q : option bytes → world → Prop) :
  Z.of_nat len < 2 ^ 31 → owns w0 w bs →
  (∀ r w', owns (io w0 1 (recv_events r)) w' bs →
     Forall is_byte (default [] r) → (length (default [] r) ≤ len)%nat → Q r w') →
  wp (mnet_recv len) Q w.
Proof. intros Hlen Ho HQ. eapply wp_recv_at; eauto. Qed.

Lemma wp_stderr text w0 w bs (Q : unit → world → Prop) :
  owns w0 w bs → (∀ w', owns (io w0 0 [EvStderr text]) w' bs → Q () w') →
  wp (fprintf_stderr text) Q w.
Proof. apply wp_emit. Qed.

Lemma wp_log_msg `{!Process} level text w0 w bs (Q : unit → world → Prop) :
  owns w0 w bs → (∀ w', owns (io w0 0 (log_msg_events level text)) w' bs → Q () w') →
  wp (mnet_log_msg level text) Q w.
Proof.
  unfold mnet_log_msg, log_msg_events. intros Ho HQ. destruct g_log_handler as [h|].
  - by eapply wp_emit.
  - apply wp_bind. eapply wp_stderr; [done|]. intros w1 Ho1.
    apply wp_bind. eapply wp_stderr; [done|]. intros w2 Ho2.
    eapply wp_stderr; [done|]. intros w3 Ho3. rewrite !io_io in Ho3. by apply HQ.
Qed.

Lemma wp_app_log `{!Process} h level text w0 w bs (Q : unit → world → Prop) :
  owns w0 w bs → (∀ w', owns (io w0 0 (app_log_events h level text)) w' bs → Q () w') →
  wp (mnet_app_log h level text) Q w.
Proof.
  unfold mnet_app_log, app_log_events. intros Ho HQ. destruct h as [h|].
  - by eapply wp_emit.
  - by eapply wp_log_msg.
Qed.
End sys_rules.

Arguments lit : simpl never.
Arguments sys : simpl never.
Arguments mnet_send : simpl never.
Arguments mnet_recv : simpl never.
Arguments mnet_poll : simpl never.
Arguments now_ms_mono : simpl never.
Arguments fprintf_stderr : simpl never.
Arguments mnet_log_msg : simpl never.
Arguments mnet_app_log : simpl never.
Arguments io : simpl never.
Arguments recv_size : simpl never.

(** ** An operating system for the witnesses *)

(** An operating system that delivers [input] on the third system call, and
    then the end of the stream. *)
Program Definition one_shot_os (input : bytes) (H : Forall is_byte input) : OS := {|
  os_clock _ := 0;
  os_poll _ _ := 1;
  os_recv k n := if (k =? 3)%nat then Some (take n input) else Some [];
  os_send _ d := Z.of_nat (length d);
|}.
Next Obligation.
  intros input H k n bs. simpl. case_match; intros [= <-]; [by apply Forall_take|done].
Qed.
Next Obligation.
  intros input H k n bs. simpl. case_match; intros [= <-]; [|simpl; lia].
  rewrite length_take. lia.
Qed.

Definition silent_os : OS := one_shot_os [] (Forall_nil_2 _).

(** ** Properties *)

(** a message logged for an application reaches exactly one sink: the
    application's handler when it has one, else the process-wide handler, else
    standard error under the tag of its level; a handler never receives more
    than 1023 characters. *)
Theorem app_log_one_sink `{!Process} (h : option nat) (level : Z) (text : bytes) (w : world) :
  wp (mnet_app_log h level text)
    (λ _ w', w_heap w' = w_heap w ∧
      ((∃ k msg, w_trace w' = w_trace w ++ [EvLog k level msg] ∧
          (h = Some k ∨ h = None ∧ g_log_handler = Some k) ∧
          msg = take (Z.to_nat 1023) text) ∨
       (h = None ∧ g_log_handler = None ∧
        w_trace w' = w_trace w ++ [EvStderr (lit "[mnet] " ++ log_tag level ++ lit ": ");
                                   EvStderr (take (Z.to_nat 1023) text); EvStderr [chLF]]))) w.
Proof.
  assert (log_buf text = take (Z.to_nat 1023) text ∧
          log_buf (log_buf text) = take (Z.to_nat 1023) text) as [E1 E2].
  { unfold log_buf, snprintf. simpl snd. change (Z.to_nat 1024 - 1)%nat with (Z.to_nat 1023).
    by rewrite take_take, Nat.min_id. }
  unfold mnet_app_log, mnet_log_msg. destruct h as [h|].
  - rewrite E1. split; [done|]. left. exists h, (take (Z.to_nat 1023) text).
    split_and!; [done|by left|done].
  - destruct g_log_handler as [h|] eqn:Hg.
    + rewrite E2. split; [done|]. left. exists h, (take (Z.to_nat 1023) text).
      split_and!; [done|by right|done].
    + rewrite E1. split; [done|]. right. split_and!; [done..|]. simpl. by rewrite <-!app_assoc.
Qed.
