(* ===== verification/Net.v ===== *)
(** * Sockets

    [src/mnet.c]: [mnet_tcp_listen], [mnet_tcp_accept], [mnet_close], and
    [mnet_socket_connect] of [src/mnet_client.c], over a network that is a
    parameter of the model.  The trace records every socket the program is given
    and every one it closes. *)

From S2P Require Export Sys.

(** The answers of the network calls; the first argument is the number of the
    system call.  [getaddrinfo] gives an error code or the addresses, each one a
    number; the other calls succeed or fail.  [nt_eintr] tells whether [errno]
    is EINTR after a call that failed. *)
Class Network := {
  nt_addrinfo : nat → option bytes → bytes → Z + list nat;
  nt_socket : nat → nat → bool;
  nt_setsockopt : nat → bool;
  nt_bind : nat → nat → bool;
  nt_listen : nat → Z → bool;
  nt_connect : nat → nat → bool;
  nt_accept : nat → bool;
  nt_eintr : nat → bool;
}.

(** A socket is valid ([true]) or [MNET_INVALID_SOCKET]. *)
Abbreviation socket_t := bool.

Section net.
Context `{!Network, !Process}.

Definition getaddrinfo (host : option bytes) (service : bytes) : M (Z + list nat) :=
  emit (EvResolve host service);; sys (λ k, nt_addrinfo k host service).

(** A call that gives a socket when it succeeds. *)
Definition new_socket (f : nat → bool) : M socket_t :=
  ok ← sys f;
  (if ok : bool then emit EvSocket else mret ());;
  mret ok.

Definition mnet_close (socket : socket_t) : M unit :=
  if socket then emit EvHangup;; sys (λ _, ()) else mret ().

(** The loop over the addresses in [mnet_tcp_listen]. *)
Fixpoint listen_loop (results : list nat) (backlog : Z) : M socket_t :=
  match results with
  | [] => mret false
  | entry :: results =>
      fd ← new_socket (λ k, nt_socket k entry);
      if negb fd then listen_loop results backlog
      else
        ok ← sys nt_setsockopt;
        if negb ok then mnet_close fd;; listen_loop results backlog
        else
          ok ← sys (λ k, nt_bind k entry);
          if negb ok then mnet_close fd;; listen_loop results backlog
          else
            ok ← sys (λ k, nt_listen k backlog);
            if negb ok then mnet_close fd;; listen_loop results backlog
            else mret fd
  end.

Definition mnet_tcp_listen (port backlog : Z) : M socket_t :=
  if backlog <=? 0 then
    mnet_log_msg MNET_LOG_ERROR (lit "invalid listen backlog " ++ print_int backlog);;
    mret false
  else
    let '(written, port_string) := snprintf 6 (print_nat port) in
    if ((written <? 0) || (6 <=? written))%bool then mret false
    else
      r ← getaddrinfo None port_string;
      match r with
      | inl error =>
          mnet_log_msg MNET_LOG_ERROR
            (lit "getaddrinfo failed for port " ++ print_nat port ++ lit ": " ++ print_int error);;
          mret false
      | inr results => listen_loop results backlog
      end.

Definition mnet_tcp_accept : M socket_t := new_socket nt_accept.

(** The loop over the addresses in [mnet_socket_connect]. *)
Fixpoint connect_loop (result : list nat) : M socket_t :=
  match result with
  | [] => mret false
  | rp :: result =>
      sock ← new_socket (λ k, nt_socket k rp);
      if negb sock then connect_loop result
      else
        ok ← sys (λ k, nt_connect k rp);
        if ok : bool then mret sock
        else mnet_close sock;; connect_loop result
  end.

Definition mnet_socket_connect (host : option bytes) (port : Z) : M socket_t :=
  match host with
  | None => mret false
  | Some host =>
      let port_str := snd (snprintf 16 (print_nat port)) in
      r ← getaddrinfo (Some host) port_str;
      match r with
      | inl _ => mret false
      | inr result => connect_loop result
      end
  end.
End net.


Arguments mnet_close : simpl never.
Arguments new_socket : simpl never.
Arguments getaddrinfo : simpl never.
Arguments mnet_tcp_accept : simpl never.

(** ** Rules *)

Section net_rules.
Context `{!Network, !Process}.

Lemma wp_new_socket f w0 w bs (Q : socket_t → world → Prop) :
  owns w0 w bs →
  (∀ ok w', owns (io w0 1 (if ok : bool then [EvSocket] else [])) w' bs → Q ok w') →
  wp (new_socket f) Q w.
Proof.
  intros Ho HQ. unfold new_socket. apply wp_bind. eapply wp_sys; [exact Ho|].
  intros ok w1 Ho1. apply wp_bind. destruct ok.
  - eapply wp_emit; [exact Ho1|]. intros w2 Ho2. rewrite io_io in Ho2. by apply wp_ret, HQ.
  - by apply wp_ret, wp_ret, HQ.
Qed.

Lemma wp_close (s : socket_t) w0 w bs (Q : unit → world → Prop) :
  owns w0 w bs →
  (∀ n w', owns (io w0 n (if s then [EvHangup] else [])) w' bs → Q () w') →
  wp (mnet_close s) Q w.
Proof.
  intros Ho HQ. unfold mnet_close. destruct s.
  - apply wp_bind. eapply wp_emit; [exact Ho|]. intros w1 Ho1. eapply wp_sys; [exact Ho1|].
    intros [] w2 Ho2. rewrite io_io in Ho2. by eapply HQ.
  - apply wp_ret, (HQ 0%nat). by rewrite io_nil.
Qed.

(** What a call that gives at most one socket does. *)
Definition gives_socket (w0 : world) (bs : list (loc * bytes)) (P : event → Prop)
    (ok : socket_t) (w : world) : Prop :=
  ∃ n evs, owns (io w0 n evs) w bs ∧ open_sockets evs = Z.b2z ok ∧ Forall P evs.

Lemma gives_socket_again w0 n evs bs (P : event → Prop) ok w :
  open_sockets evs = 0 → Forall P evs →
  gives_socket (io w0 n evs) bs P ok w → gives_socket w0 bs P ok w.
Proof.
  intros Hevs HP (n2 & evs2 & Ho & Hs & HP2). rewrite io_io in Ho.
  eexists _, _. split; [exact Ho|]. split; [|by apply Forall_app].
  rewrite open_sockets_app. lia.
Qed.

Definition socket_event (e : event) : Prop := e = EvSocket ∨ e = EvHangup.

Ltac socket_events :=
  repeat first [apply Forall_nil_2 | apply Forall_cons_2; [first [by left|by right]|]].

(** Closing a fresh socket and going on with the next address. *)
Lemma wp_close_again w0 n w bs (c : M socket_t) :
  owns (io w0 n [EvSocket]) w bs →
  (∀ w1 w', owns w1 w' bs → wp c (gives_socket w1 bs socket_event) w') →
  wp (mnet_close true;; c) (gives_socket w0 bs socket_event) w.
Proof.
  intros Ho Hc. apply wp_bind. eapply wp_close; [exact Ho|]. intros n2 w2 Ho2.
  rewrite io_io in Ho2. eapply wp_mono; [by apply Hc, Ho2|]. intros ok w3.
  apply gives_socket_again; [done|]. socket_events.
Qed.

Lemma listen_loop_spec results backlog : ∀ w0 w bs,
  owns w0 w bs → wp (listen_loop results backlog) (gives_socket w0 bs socket_event) w.
Proof.
  induction results as [|entry results IH]; intros w0 w bs Ho; cbn [listen_loop].
  { apply wp_ret. exists 0%nat, []. by rewrite io_nil. }
  apply wp_bind. eapply wp_new_socket; [exact Ho|]. intros fd w1 Ho1. destruct fd; cbn [negb].
  2:{ eapply wp_mono; [by apply IH|]. intros ok w2. by apply gives_socket_again. }
  assert (∀ n w', owns (io w0 n [EvSocket]) w' bs →
            wp (mnet_close true;; listen_loop results backlog)
               (gives_socket w0 bs socket_event) w') as Hclose.
  { intros n w' Ho'. eapply wp_close_again; [exact Ho'|]. intros w2 w3. apply IH. }
  do 3 (apply wp_bind; eapply wp_sys; [exact Ho1|]; clear w1 Ho1; intros ok w1 Ho1;
        rewrite io_io in Ho1; destruct ok; cbn [negb]; [|by eapply Hclose]).
  apply wp_ret. eexists _, _. split; [exact Ho1|]. split; [done|]. socket_events.
Qed.

Lemma connect_loop_spec result : ∀ w0 w bs,
  owns w0 w bs → wp (connect_loop result) (gives_socket w0 bs socket_event) w.
Proof.
  induction result as [|rp result IH]; intros w0 w bs Ho; cbn [connect_loop].
  { apply wp_ret. exists 0%nat, []. by rewrite io_nil. }
  apply wp_bind. eapply wp_new_socket; [exact Ho|]. intros fd w1 Ho1. destruct fd; cbn [negb].
  2:{ eapply wp_mono; [by apply IH|]. intros ok w2. by apply gives_socket_again. }
  apply wp_bind. eapply wp_sys; [exact Ho1|]. intros ok w2 Ho2. rewrite io_io in Ho2. destruct ok.
  - apply wp_ret. eexists _, _. split; [exact Ho2|]. split; [done|]. socket_events.
  - eapply wp_close_again; [exact Ho2|]. intros w3 w4. apply IH.
Qed.

Lemma tcp_listen_spec port backlog w0 w bs :
  owns w0 w bs → wp (mnet_tcp_listen port backlog) (gives_socket w0 bs (λ _, True)) w.
Proof.
  intros Ho. unfold mnet_tcp_listen. case_test.
  { apply wp_bind. eapply wp_log_msg; [exact Ho|]. intros w1 Ho1. apply wp_ret.
    eexists _, _. split; [exact Ho1|]. split; [sockets|by apply Forall_true]. }
  destruct (snprintf 6 (print_nat port)) as [written port_string]. case_test.
  { apply wp_ret. exists 0%nat, []. by rewrite io_nil. }
  apply wp_bind. unfold getaddrinfo. apply wp_bind. eapply wp_emit; [exact Ho|]. intros w1 Ho1.
  eapply wp_sys; [exact Ho1|]. intros r w2 Ho2. rewrite io_io in Ho2. destruct r as [e|results].
  - apply wp_bind. eapply wp_log_msg; [exact Ho2|]. intros w3 Ho3. rewrite io_io in Ho3.
    apply wp_ret. eexists _, _. split; [exact Ho3|]. split; [sockets|by apply Forall_true].
  - eapply wp_mono; [by apply listen_loop_spec|]. intros ok w3 (n & evs & Ho3 & Hs & _).
    rewrite io_io in Ho3. eexists _, _. split; [exact Ho3|]. split; [|by apply Forall_true].
    rewrite open_sockets_app. cbn. lia.
Qed.

(** Connecting resolves the host and the port it was given, and then leaves one
    open socket or none. *)
Lemma socket_connect_spec host port w0 w bs :
  owns w0 w bs → 0 <= port < 65536 →
  wp (mnet_socket_connect (Some host) port)
    (λ ok w', ∃ n evs, owns (io w0 n (EvResolve (Some host) (print_nat port) :: evs)) w' bs ∧
       open_sockets evs = Z.b2z ok ∧ Forall socket_event evs) w.
Proof.
  intros Ho Hp. unfold mnet_socket_connect. cbn [snprintf snd].
  assert (take (16 - 1) (print_nat port) = print_nat port) as ->.
  { apply take_ge. pose proof (length_print_nat port 5 ltac:(lia) ltac:(lia)). lia. }
  apply wp_bind. unfold getaddrinfo. apply wp_bind. eapply wp_emit; [exact Ho|]. intros w1 Ho1.
  eapply wp_sys; [exact Ho1|]. intros r w2 Ho2. rewrite io_io in Ho2. destruct r as [e|result].
  - apply wp_ret. eexists _, []. split; [exact Ho2|done].
  - eapply wp_mono; [by apply connect_loop_spec|]. intros ok w3 (n & evs & Ho3 & Hs & HP).
    rewrite io_io in Ho3. eexists _, evs. split; [exact Ho3|done].
Qed.
End net_rules.

(** A network on which every call succeeds. *)
Definition demo_network : Network := {|
  nt_addrinfo _ _ _ := inr [0%nat];
  nt_socket _ _ := true;
  nt_setsockopt _ := true;
  nt_bind _ _ := true;
  nt_listen _ _ := true;
  nt_connect _ _ := true;
  nt_accept _ := true;
  nt_eintr _ := false;
|}.
