(* ===== verification/Response.v ===== *)
(** * Response constructors

    [src/mnet_response.c]: [mnet_text], [mnet_html], [mnet_json], [mnet_error],
    [mnet_status], [mnet_chunked] and [mnet_response_free].  A response owns the
    heap copy of its body unless it is chunked, in which case the body belongs
    to the application. *)

From S2P Require Export Sys Codec.

Section response.
Context `{!Allocator}.

Definition mnet_text (text : option bytes) : M mnet_response_t :=
  match text with
  | None => mret zero_response
  | Some text =>
      let len := length text in
      copy ← alloc (text ++ [chNUL]);
      match copy with
      | None => mret zero_response
      | Some _ =>
          mret (MkResponse 200 (Some (lit "text/plain; charset=utf-8")) copy len false)
      end
  end.

Definition mnet_html (html : option bytes) : M mnet_response_t :=
  match html with
  | None => mret zero_response
  | Some html =>
      let len := length html in
      copy ← alloc (html ++ [chNUL]);
      match copy with
      | None => mret zero_response
      | Some _ =>
          mret (MkResponse 200 (Some (lit "text/html; charset=utf-8")) copy len false)
      end
  end.

Definition mnet_json (json : option bytes) : M mnet_response_t :=
  match json with
  | None => mret zero_response
  | Some json =>
      let len := length json in
      copy ← strdup json;
      match copy with
      | None => mret zero_response
      | Some _ => mret (MkResponse 200 (Some (lit "application/json")) copy len false)
      end
  end.

Definition mnet_error (status : Z) (message : option bytes) : M mnet_response_t :=
  let message := match message with None => [] | Some m => m end in
  let r := MkResponse status (Some (lit "text/plain; charset=utf-8")) None 0 false in
  let len := length message in
  copy ← alloc (message ++ [chNUL]);
  match copy with
  | None => mret r
  | Some _ => mret (MkResponse (rs_status r) (rs_content_type r) copy len (rs_chunked r))
  end.

Definition mnet_status (status : Z) (body : option bytes) : M mnet_response_t :=
  let body := match body with None => [] | Some b => b end in
  let r := MkResponse status (Some (lit "text/plain; charset=utf-8")) None 0 false in
  let len := length body in
  copy ← alloc (body ++ [chNUL]);
  match copy with
  | None => mret r
  | Some _ => mret (MkResponse (rs_status r) (rs_content_type r) copy len (rs_chunked r))
  end.
End response.

Definition mnet_chunked (status : Z) (content_type : option bytes) (body : ptr)
    (body_length : nat) : mnet_response_t :=
  MkResponse status
    (Some match content_type with Some ct => ct | None => lit "application/octet-stream" end)
    body body_length true.

(** The response is updated in place. *)
Definition mnet_response_free (response : option mnet_response_t) :
    M (option mnet_response_t) :=
  match response with
  | None => mret None
  | Some r =>
      r ← (match rs_body r with
           | Some l =>
               if negb (rs_chunked r) then
                 free (Some l);;
                 mret (MkResponse (rs_status r) (rs_content_type r) None (rs_body_length r)
                         (rs_chunked r))
               else mret r
           | None => mret r
           end);
      mret (Some (MkResponse (rs_status r) (rs_content_type r) (rs_body r) 0 (rs_chunked r)))
  end.

(** The constructors that copy a text. *)
Inductive text_constructor := CText | CHtml | CJson | CError (status : Z) | CStatus (status : Z).

Definition construct `{!Allocator} (c : text_constructor) (text : option bytes) :
    M mnet_response_t :=
  match c with
  | CText => mnet_text text
  | CHtml => mnet_html text
  | CJson => mnet_json text
  | CError s => mnet_error s text
  | CStatus s => mnet_status s text
  end.

Definition construct_status (c : text_constructor) : Z :=
  match c with CError s | CStatus s => s | _ => 200 end.

Definition construct_type (c : text_constructor) : bytes :=
  match c with
  | CHtml => lit "text/html; charset=utf-8"
  | CJson => lit "application/json"
  | _ => lit "text/plain; charset=utf-8"
  end.

(** ** Ownership of a response *)

(** The blocks [bs] belong to [r]: the block of its body, if it has one, which is
    at least as long as the length the response announces. *)
Definition response_owned (r : mnet_response_t) (bs : list (loc * bytes)) : Prop :=
  if rs_chunked r then bs = []
  else match rs_body r with
       | None => bs = []
       | Some l => ∃ b, bs = [(l, b)] ∧ (rs_body_length r ≤ length b)%nat
       end.

(** [r] is the response with this status, type and body, or a response without a
    body because an allocation failed. *)
Definition response_result `{!Allocator} (fail_status : Z) (status : Z) (ct text : bytes)
    (r : mnet_response_t) (bs : list (loc * bytes)) : Prop :=
  (∃ l, r = MkResponse status (Some ct) (Some l) (length text) false ∧
        bs = [(l, text ++ [chNUL])]) ∨
  (alloc_failure ∧ rs_status r = fail_status ∧ rs_body r = None ∧ rs_body_length r = 0%nat ∧
   rs_chunked r = false ∧ bs = []).

Section response_proofs.
Context `{!Allocator}.

Lemma response_result_owned fs status ct text r bs :
  response_result fs status ct text r bs → response_owned r bs.
Proof.
  intros [(l & -> & ->)|(_ & _ & Hb & Hl & Hc & ->)]; unfold response_owned; simpl.
  - eexists. split; [done|]. rewrite length_app. lia.
  - by rewrite Hb, Hc.
Qed.

(** The common shape of the constructors: copy [text], fall back to [r0]. *)
Lemma wp_copy_body w0 w bs text status ct r0 fs (Q : mnet_response_t → world → Prop) :
  owns w0 w bs → rs_status r0 = fs → rs_body r0 = None → rs_body_length r0 = 0%nat →
  rs_chunked r0 = false →
  (∀ r w' bs', response_result fs status ct text r bs' → owns w0 w' (bs' ++ bs) → Q r w') →
  wp (copy ← alloc (text ++ [chNUL]);
      match copy with
      | None => mret r0
      | Some _ => mret (MkResponse status (Some ct) copy (length text) false)
      end) Q w.
Proof.
  intros Ho Hs Hb Hl Hc HQ. apply wp_bind. eapply wp_alloc; [done| |].
  - intros w' Hf Ho'. apply wp_ret. apply (HQ _ _ []); [|done]. right. by split_and!.
  - intros l w' Ho'. apply wp_ret. apply (HQ _ _ [(l, text ++ [chNUL])]); [|done]. left. eauto.
Qed.

Lemma wp_mnet_error w0 w bs status m (Q : mnet_response_t → world → Prop) :
  owns w0 w bs →
  (∀ r w' bs', response_result status status (lit "text/plain; charset=utf-8") m r bs' →
     owns w0 w' (bs' ++ bs) → Q r w') →
  wp (mnet_error status (Some m)) Q w.
Proof. intros Ho HQ. unfold mnet_error. by eapply wp_copy_body. Qed.

Lemma wp_response_free w0 w bs r rb (Q : option mnet_response_t → world → Prop) :
  response_owned r rb → owns w0 w (rb ++ bs) →
  (∀ r' w', owns w0 w' bs → response_owned r' [] → Q (Some r') w') →
  wp (mnet_response_free (Some r)) Q w.
Proof.
  unfold response_owned, mnet_response_free. intros Hr Ho HQ. apply wp_bind.
  destruct (rs_body r) as [l|] eqn:Hb.
  - destruct (rs_chunked r) eqn:Hc; simpl.
    + subst rb. apply wp_ret, wp_ret, HQ; [done|]. by rewrite Hc.
    + destruct Hr as (b & -> & _). simpl in Ho. apply wp_bind.
      eapply wp_free; [done|done|]. intros w' Ho'. apply wp_ret, wp_ret, HQ; [done|].
      by destruct (rs_chunked r).
  - assert (rb = []) as -> by (destruct (rs_chunked r); [done|by destruct Hr]).
    apply wp_ret, wp_ret, HQ; [done|]. simpl. rewrite Hb. by destruct (rs_chunked r).
Qed.
Lemma construct_spec c text w :
  wf_world w →
  wp (construct c (Some text))
    (λ r w', ∃ bs, owns w w' bs ∧
       response_result (match c with CError s | CStatus s => s | _ => 0 end)
         (construct_status c) (construct_type c) text r bs) w.
Proof.
  intros Hwf.
  destruct c as [| | |s|s]; cbn [construct];
    unfold mnet_text, mnet_html, mnet_json, mnet_error, mnet_status, strdup; cbn zeta;
    (eapply wp_copy_body; [by apply owns_refl|done..|]);
    intros r w' bs' Hr Ho; exists bs'; (split; [by rewrite app_nil_r in Ho|done]).
Qed.

Lemma construct_null_spec c w :
  wf_world w → wp (construct c None) (λ r w', ∃ bs, owns w w' bs ∧ response_owned r bs) w.
Proof.
  intros Hwf.
  destruct c as [| | |s|s]; cbn [construct];
    try (apply wp_ret; exists []; split; [by apply owns_refl|done]);
    [apply (wp_mono _ _ _ _ (construct_spec (CError s) [] w Hwf))
    |apply (wp_mono _ _ _ _ (construct_spec (CStatus s) [] w Hwf))];
    intros r w' (bs & Ho & Hr); eauto using response_result_owned.
Qed.
End response_proofs.

(** ** Properties *)

(** each constructor returns a response with its status and content type
    whose body is a fresh heap copy of the text, or (only when the allocation
    fails) a response without a body: status 0 for the 200 constructors, the
    requested status for [mnet_error] and [mnet_status]. *)
Theorem construct_correct `{!Allocator} (c : text_constructor) (text : bytes) (w : world) :
  wf_world w →
  wp (construct c (Some text))
    (λ r w', ∃ bs, owns w w' bs ∧
       response_result (match c with CError s | CStatus s => s | _ => 0 end)
         (construct_status c) (construct_type c) text r bs) w.
Proof. apply construct_spec. Qed.

Lemma construct_correct_witness :
  wp (construct (H := λ l, negb (l =? 7)%nat) CJson (Some (lit "{}")))
    (λ r w', ∃ bs, owns (World 7 ∅ 0 []) w' bs ∧
       response_result (H := λ l, negb (l =? 7)%nat) 0 200 (lit "application/json") (lit "{}") r bs)
    (World 7 ∅ 0 []).
Proof.
  apply (construct_correct (H := λ l, negb (l =? 7)%nat) CJson). intros l _; apply lookup_empty.
Defined.

(** releasing a response gives back exactly the memory its constructor took,
    also when the constructor was given NULL or ran out of memory, and
    releasing it a second time does nothing. *)
Theorem response_free_twice `{!Allocator} (c : text_constructor) (text : option bytes) (w : world) :
  wf_world w →
  wp (r ← construct c text; r ← mnet_response_free (Some r); mnet_response_free r)
    (λ _ w', w_heap w' = w_heap w ∧ w_trace w' = w_trace w) w.
Proof.
  intros Hwf.
  assert (wp (construct c text) (λ r w', ∃ bs, owns w w' bs ∧ response_owned r bs) w) as Hc.
  { destruct text as [text|]; [|by apply construct_null_spec].
    eapply wp_mono; [by apply construct_spec|]. intros r w' (bs & Ho & Hr).
    eauto using response_result_owned. }
  apply wp_bind. eapply wp_mono; [exact Hc|]. intros r w1 (bs & Ho & Hr).
  apply wp_bind. eapply wp_response_free; [done|by rewrite app_nil_r|]. intros r' w2 Ho2 Hr'.
  eapply wp_response_free; [done|done|]. intros _ w3 Ho3 _.
  split; [by eapply owns_nil_heap|]. by destruct Ho3.
Qed.

Lemma response_free_twice_witness :
  wp (r ← construct (H := all_ok) (CError 404) (Some (lit "no"));
      r ← mnet_response_free (Some r); mnet_response_free r)
    (λ _ w', w_heap w' = w_heap empty_world ∧ w_trace w' = w_trace empty_world)
    empty_world.
Proof. apply (response_free_twice (H := all_ok)). apply empty_world_wf. Defined.
