(* ===== verification/Printf.v ===== *)
(** * The conversions of [printf] that the program uses

    [snprintf] of one number, for the formats that [mnet_jsonfv] builds: a
    directive is [%], flags, a width, a precision, a length modifier and a
    conversion character.  A format that is not of this form, or whose
    conversion does not fit the argument, is undefined ([None]).  How a floating
    point number is written is left to the platform (class [Floats]). *)

From S2P Require Export CString.

(** ** Directives *)

Definition flag_char (c : Z) : bool := mem_char (lit "-+ #0") c.

(** Flags, width (0 without one) and precision. *)
Record directive := MkDirective {
  d_flags : bytes;
  d_width : Z;
  d_precision : option Z;
}.

Definition has_flag (d : directive) (c : Z) : bool := mem_char (d_flags d) c.

(** The directive at the start of [s] (after the [%]), and what follows it. *)
Definition parse_directive (s : bytes) : directive * bytes :=
  let flags := take_while flag_char s in
  let s := drop_while flag_char s in
  let width := dec_val (take_while isdigit s) in
  let s := drop_while isdigit s in
  match s with
  | c :: k =>
      if c =? chDOT
      then (MkDirective flags width (Some (dec_val (take_while isdigit k))), drop_while isdigit k)
      else (MkDirective flags width None, s)
  | [] => (MkDirective flags width None, s)
  end.

(** ** Integers *)

Definition conv_signed (conv : Z) : bool := mem_char (lit "di") conv.

Definition toupper (c : Z) : Z := if ((97 <=? c) && (c <=? 122))%bool then c - 32 else c.

(** What stands before the digits. *)
Definition integer_prefix (d : directive) (conv v : Z) : bytes :=
  if conv_signed conv then
    if v <? 0 then lit "-"
    else if has_flag d chPLUS then lit "+"
    else if has_flag d chSP then lit " "
    else []
  else if (has_flag d chHASH && negb (v =? 0))%bool then
    if mem_char (lit "x") conv then lit "0x"
    else if mem_char (lit "X") conv then lit "0X"
    else []
  else [].

Definition integer_base (conv : Z) : Z :=
  if mem_char (lit "o") conv then 8 else if mem_char (lit "xX") conv then 16 else 10.

Definition integer_digits (d : directive) (conv v : Z) : bytes :=
  let ds :=
    if ((v =? 0) && bool_decide (d_precision d = Some 0))%bool then []
    else (if mem_char (lit "X") conv then toupper else id) <$>
         (digit_char <$> digits (integer_base conv) (Z.abs v)) in
  let ds :=
    match d_precision d with
    | Some p => replicate (Z.to_nat p - length ds) ch0 ++ ds
    | None => ds
    end in
  if (mem_char (lit "o") conv && has_flag d chHASH && negb (bool_decide (head ds = Some ch0)))%bool
  then ch0 :: ds else ds.

(** The text of the value [v], which the conversion takes as it is. *)
Definition print_integer (d : directive) (conv v : Z) : bytes :=
  let prefix := integer_prefix d conv v in
  let ds := integer_digits d conv v in
  let n := (Z.to_nat (d_width d) - (length prefix + length ds))%nat in
  if has_flag d chMINUS then prefix ++ ds ++ replicate n chSP
  else if (has_flag d ch0 && bool_decide (d_precision d = None))%bool
  then prefix ++ replicate n ch0 ++ ds
  else replicate n chSP ++ prefix ++ ds.

(** The value [snprintf] returns for a text: negative when it is too long. *)
Definition printf_length (text : bytes) : Z :=
  if 2 ^ 31 - 1 <? Z.of_nat (length text) then -1 else Z.of_nat (length text).

(** [#] has no meaning for a decimal conversion. *)
Definition integer_conv (d : directive) (conv : Z) : bool :=
  (mem_char (lit "diouxX") conv && negb (has_flag d chHASH && mem_char (lit "diu") conv))%bool.

(** The text of [format] with one [(unsigned) long long] argument. *)
Definition sprintf_ll (format : bytes) (v : Z) : option bytes :=
  match format with
  | c :: s =>
      if c =? chPERCENT then
        let '(d, rest) := parse_directive s in
        match rest with
        | [l1; l2; conv] =>
            if ((l1 =? 108) && (l2 =? 108) && integer_conv d conv)%bool
            then Some (print_integer d conv v) else None
        | _ => None
        end
      else None
  | [] => None
  end.

(** ** Floating point numbers

    A number is written as a text without NUL, with at most 4933 digits before
    the point (those of the largest [long double]). *)

Class Floats := {
  double : Type;
  long_double : Type;
  print_double : directive → Z → double → bytes;
  print_long_double : directive → Z → long_double → bytes;
  print_double_cchar d conv x : Forall is_cchar (print_double d conv x);
  print_long_double_cchar d conv x : Forall is_cchar (print_long_double d conv x);
  print_double_length d conv x :
    0 < Z.of_nat (length (print_double d conv x)) <=
      Z.max 0 (d_width d) + Z.max 0 (default 6 (d_precision d)) + 5000;
  print_long_double_length d conv x :
    0 < Z.of_nat (length (print_long_double d conv x)) <=
      Z.max 0 (d_width d) + Z.max 0 (default 6 (d_precision d)) + 5000;
}.

Definition float_conv (conv : Z) : bool := mem_char (lit "fFeEgGaA") conv.

Section floats.
Context `{!Floats}.

(** The text of [format] with one [double] argument; [%lf] is [%f]. *)
Definition sprintf_double (format : bytes) (x : double) : option bytes :=
  match format with
  | c :: s =>
      if c =? chPERCENT then
        let '(d, rest) := parse_directive s in
        match rest with
        | [conv] => if float_conv conv then Some (print_double d conv x) else None
        | [l1; conv] =>
            if ((l1 =? 108) && float_conv conv)%bool then Some (print_double d conv x) else None
        | _ => None
        end
      else None
  | [] => None
  end.

(** The text of [format] with one [long double] argument. *)
Definition sprintf_long_double (format : bytes) (x : long_double) : option bytes :=
  match format with
  | c :: s =>
      if c =? chPERCENT then
        let '(d, rest) := parse_directive s in
        match rest with
        | [l1; conv] =>
            if ((l1 =? 76) && float_conv conv)%bool then Some (print_long_double d conv x) else None
        | _ => None
        end
      else None
  | [] => None
  end.
End floats.

(** ** Laws *)

(** Characters that cannot belong to a directive. *)
Definition not_directive (c : Z) : bool :=
  negb (flag_char c || isdigit c || (c =? chDOT))%bool.

(** A complete directive is read the same when something else follows it. *)
Lemma parse_directive_app mid d rest :
  parse_directive mid = (d, []) → match rest with c :: _ => not_directive c = true | [] => True end →
  parse_directive (mid ++ rest) = (d, rest).
Proof.
  intros Hmid Hrest.
  assert (∀ f : Z → bool, (∀ c, not_directive c = true → f c = false) →
            ∀ c, head rest = Some c → f c = false) as Hhead.
  { intros f Hf c Hc. destruct rest as [|x rest]; [done|]. injection Hc as ->. auto. }
  assert (∀ c, not_directive c = true → flag_char c = false ∧ isdigit c = false ∧ (c =? chDOT) = false)
    as Hnd by (unfold not_directive; intros c Hc; apply negb_true_iff, orb_false_iff in Hc as [[? ?]%orb_false_iff ?]; done).
  unfold parse_directive in *.
  destruct (while_app_r flag_char mid rest) as [-> ->]; [apply Hhead; intros x Hx; apply Hnd in Hx; tauto|].
  destruct (while_app_r isdigit (drop_while flag_char mid) rest) as [-> ->]; [apply Hhead; intros x Hx; apply Hnd in Hx; tauto|].
  destruct (drop_while isdigit (drop_while flag_char mid)) as [|c k]; cbn [app] in *.
  - injection Hmid as <-. destruct rest as [|x rest]; [done|].
    by destruct (Hnd x Hrest) as (_ & _ & ->).
  - destruct (c =? chDOT); [|by injection Hmid]. injection Hmid as <- Hk.
    destruct (while_app_r isdigit k rest) as [-> ->]; [apply Hhead; intros x Hx; apply Hnd in Hx; tauto|]. by rewrite Hk.
Qed.

(** The characters of a complete directive. *)
Lemma parse_directive_chars mid d :
  parse_directive mid = (d, []) → Forall (λ c, not_directive c = false) mid.
Proof.
  unfold parse_directive. intros Hmid.
  assert (∀ (f : Z → bool) (s : bytes), (∀ c, f c = true → not_directive c = false) →
            Forall (λ c, not_directive c = false) (take_while f s)) as Htake.
  { intros f s Hf. eapply Forall_impl; [apply take_while_all|]. intros c. apply Hf. }
  assert (∀ c, flag_char c = true → not_directive c = false) as H1
    by (intros c Hc; unfold not_directive; by rewrite Hc).
  assert (∀ c, isdigit c = true → not_directive c = false) as H2
    by (intros c Hc; unfold not_directive; by rewrite Hc, orb_true_r).
  rewrite <-(take_drop_while flag_char mid), Forall_app. split; [by apply Htake|].
  set (s := drop_while flag_char mid) in *.
  rewrite <-(take_drop_while isdigit s), Forall_app. split; [by apply Htake|].
  destruct (drop_while isdigit s) as [|c k]; [done|].
  destruct (c =? chDOT) eqn:Hc; [|by injection Hmid]. injection Hmid as _ Hk.
  constructor; [unfold not_directive; by rewrite Hc, orb_true_r|].
  rewrite <-(take_drop_while isdigit k), Hk, app_nil_r. by apply Htake.
Qed.

(** Without flags, width and precision an integer is written in full. *)
Lemma print_integer_plain conv v :
  conv ∈ lit "diu" → (conv_signed conv = false → 0 <= v) →
  print_integer (MkDirective [] 0 None) conv v = print_int v.
Proof.
  intros Hc Hv. unfold print_integer. cbn [has_flag d_flags d_width d_precision].
  unfold print_int, print_nat.
  assert (∀ ds : list Z, id <$> ds = ds) as Hid by (intros; apply list_fmap_id).
  assert (conv = 100 ∨ conv = 105 ∨ conv = 117) as Hcs by (cbn in Hc; set_solver).
  assert ((v <? 0) = true ∧ conv_signed conv = true ∨ (v <? 0) = false ∧ 0 <= v) as Hneg.
  { destruct (v <? 0) eqn:E; bool_prop; [left|right; lia]. split; [done|].
    destruct (conv_signed conv); [done|]. specialize (Hv eq_refl). lia. }
  destruct Hneg as [[Hneg Hs]|[Hneg Hpos]]; destruct Hcs as [->|[->| ->]]; try done.
  all: unfold integer_prefix, integer_digits; rewrite ?Hneg.
  all: first [rewrite Z.abs_eq by lia|bool_prop; rewrite Z.abs_neq by lia]; cbn -[digits Z.abs].
  all: by rewrite ?andb_false_r, ?Hid, ?app_nil_l, ?app_nil_r.
Qed.

Lemma length_integer_digits d conv v :
  Z.abs v < 2 ^ 64 →
  Z.of_nat (length (integer_digits d conv v)) <= 66 + Z.max 0 (default 0 (d_precision d)).
Proof.
  intros Hv. unfold integer_digits. set (ds0 := if _ && _ then [] else _).
  assert (length ds0 ≤ 64)%nat as H0.
  { unfold ds0. case_test; [cbn; lia|]. rewrite !length_fmap. apply length_digits; [| |lia].
    - unfold integer_base. repeat case_test; lia.
    - split; [lia|]. eapply Z.lt_le_trans; [exact Hv|]. change (Z.of_nat 64) with 64.
      unfold integer_base. repeat case_test; vm_compute; discriminate. }
  set (ds1 := match d_precision d with Some _ => _ | None => ds0 end).
  assert (Z.of_nat (length ds1) <= 65 + Z.max 0 (default 0 (d_precision d))) as H1.
  { unfold ds1, default. destruct (d_precision d) as [p|]; [|lia].
    rewrite length_app, length_replicate. cbn [from_option]. unfold id. lia. }
  case_test; cbn [length]; lia.
Qed.

(** The length of a printed integer is bounded by its width and precision. *)
Lemma length_print_integer d conv v :
  Z.abs v < 2 ^ 64 →
  Z.of_nat (length (print_integer d conv v)) <=
    Z.max 0 (d_width d) + 68 + Z.max 0 (default 0 (d_precision d)).
Proof.
  intros Hv. pose proof (length_integer_digits d conv v Hv).
  assert (length (integer_prefix d conv v) ≤ 2)%nat.
  { unfold integer_prefix. repeat case_test; vm_compute; lia. }
  unfold print_integer. repeat case_test; rewrite !length_app, length_replicate; lia.
Qed.

Example sprintf_ll_example :
  sprintf_ll (lit "%+05lld") 42 = Some (lit "+0042") ∧
  sprintf_ll (lit "%-6.3lldx") 7 = None ∧
  sprintf_ll (lit "%-6.3lld") (-7) = Some (lit "-007  ") ∧
  sprintf_ll (lit "%#8llx") 255 = Some (lit "    0xff") ∧
  sprintf_ll (lit "%#llo") 8 = Some (lit "010").
Proof. vm_compute. by repeat split. Qed.

(** A platform with two numbers, to instantiate the class. *)
Program Definition demo_floats : Floats := {|
  double := bool;
  long_double := bool;
  print_double _ _ x := if x : bool then lit "1.5" else lit "nan";
  print_long_double _ _ x := if x : bool then lit "1.5" else lit "nan";
|}.
Solve All Obligations with (intros; destruct x; first [by repeat constructor; unfold is_cchar; lia|vm_compute (length _); lia]).
