(* ===== verification/Jsonf.v ===== *)
(** * Formatted JSON

    [src/mnet_response.c]: [mnet_jsonfv], which [mnet_jsonf] calls with its
    variadic arguments.  The arguments are a list of typed values: [va_arg] of a
    type that does not fit the next value is undefined. *)

From S2P Require Export Response Printf.

(** ** Variadic arguments *)

(** [int], [long], [long long], and the types of [size_t] and [ptrdiff_t]. *)
Inductive int_rank := RInt | RLong | RLongLong | RSize | RPtrdiff.

#[export] Instance int_rank_eq_dec : EqDecision int_rank.
Proof. solve_decision. Defined.

Inductive arg `{!Floats} :=
  | ArgInt (rank : int_rank) (signed : bool) (v : Z)
  | ArgDouble (x : double)
  | ArgLongDouble (x : long_double)
  | ArgString (s : option bytes).

Definition rank_bits (r : int_rank) : Z := match r with RInt => 32 | _ => 64 end.

(** Conversion to an unsigned and a signed type of [bits] bits. *)
Definition to_unsigned (bits v : Z) : Z := v mod 2 ^ bits.
Definition to_signed (bits v : Z) : Z := (v + 2 ^ (bits - 1)) mod 2 ^ bits - 2 ^ (bits - 1).

Section va_arg.
Context `{!Floats}.

(** A value of the other signedness fits when both types represent it. *)
Definition va_arg_int (rank : int_rank) (signed : bool) (args : list arg) : option (Z * list arg) :=
  match args with
  | ArgInt rank' signed' v :: args =>
      if (bool_decide (rank = rank') &&
          (Bool.eqb signed signed' || (0 <=? v) && (v <? 2 ^ (rank_bits rank - 1))))%bool
      then Some (v, args) else None
  | _ => None
  end.

Definition va_arg_string (args : list arg) : option (option bytes * list arg) :=
  match args with ArgString s :: args => Some (s, args) | _ => None end.

Definition va_arg_double (args : list arg) : option (double * list arg) :=
  match args with ArgDouble x :: args => Some (x, args) | _ => None end.

Definition va_arg_long_double (args : list arg) : option (long_double * list arg) :=
  match args with ArgLongDouble x :: args => Some (x, args) | _ => None end.
End va_arg.

(** What is undefined outside the memory. *)
Definition defined {A} (o : option A) : M A := match o with Some a => mret a | None => ub end.

(** ** The directives *)

(** The conversion characters that end a directive. *)
Definition conv_char (c : Z) : bool := mem_char (lit "diouxXfFeEgGaAcCpPn") c.
Definition numeric_conv (c : Z) : bool := mem_char (lit "diouxXfFeEgGaA") c.

(** The search for [p] from [f]: what precedes it, and what starts at it. *)
Definition spec_middle (f : bytes) : bytes :=
  take_while (λ c, negb ((c =? chPERCENT) || conv_char c)%bool) f.
Definition spec_end (f : bytes) : bytes :=
  drop_while (λ c, negb ((c =? chPERCENT) || conv_char c)%bool) f.

(** The loop over [scan] that sets [reject], for the conversion [conv]. *)
Definition reject_char (conv x : Z) : bool :=
  ((mem_char (lit "0123456789+-# *.") x && negb (numeric_conv conv)) ||
   mem_char (lit "npa") x ||
   (mem_char (lit "lhzjtL") x && negb (numeric_conv conv)))%bool.

Definition reject_spec (spec : bytes) (conv : Z) : bool :=
  (existsb (reject_char conv) (take_while (λ c, negb (c =? chPERCENT)) (drop 1 spec)) ||
   mem_char (lit "npa") conv)%bool.

(** [width]; undefined when it overflows [long]. *)
Definition spec_width (spec : bytes) : option Z :=
  let width := dec_val (take_while isdigit (drop 1 spec)) in
  if long_max <? width then None else Some width.

(** The format without its length modifier; [None] when it overruns [nspec]. *)
Definition integer_nspec (spec : bytes) (conv : Z) : option bytes :=
  let nspec := lit "%" ++
    List.filter (λ c, negb (mem_char (lit "lhzjt") c)) (take (length spec - 2) (drop 1 spec)) ++
    lit "ll" ++ [conv] in
  if (length nspec <? 64)%nat then Some nspec else None.

Definition long_double_nspec (spec : bytes) (conv : Z) : bytes :=
  lit "%" ++ List.filter (λ c, negb (c =? 76)) (take (length spec - 2) (drop 1 spec)) ++
  lit "L" ++ [conv].

Definition contains (spec m : bytes) : bool :=
  match strstr spec m with Some _ => true | None => false end.

Section read_args.
Context `{!Floats}.

(** [sv] and [uv]: the argument, read and converted by the length modifier. *)
Definition read_signed (spec : bytes) (args : list arg) : option (Z * list arg) :=
  if contains spec (lit "ll") then va_arg_int RLongLong true args
  else if contains spec (lit "l") then va_arg_int RLong true args
  else if contains spec (lit "hh") then prod_map (to_signed 8) id <$> va_arg_int RInt true args
  else if contains spec (lit "h") then prod_map (to_signed 16) id <$> va_arg_int RInt true args
  else if contains spec (lit "z") then va_arg_int RSize true args
  else if contains spec (lit "j") then va_arg_int RLongLong true args
  else if contains spec (lit "t") then va_arg_int RPtrdiff true args
  else va_arg_int RInt true args.

Definition read_unsigned (spec : bytes) (args : list arg) : option (Z * list arg) :=
  if contains spec (lit "ll") then va_arg_int RLongLong false args
  else if contains spec (lit "l") then va_arg_int RLong false args
  else if contains spec (lit "hh") then prod_map (to_unsigned 8) id <$> va_arg_int RInt false args
  else if contains spec (lit "h") then prod_map (to_unsigned 16) id <$> va_arg_int RInt false args
  else if contains spec (lit "z") then va_arg_int RSize false args
  else if contains spec (lit "j") then va_arg_int RLongLong false args
  else if contains spec (lit "t") then prod_map (to_unsigned 64) id <$> va_arg_int RPtrdiff true args
  else va_arg_int RInt false args.

(** The text of the argument that [spec] formats, and the arguments left. *)
Definition spec_text (spec : bytes) (conv : Z) (args : list arg) : option (bytes * list arg) :=
  if float_conv conv then
    if contains spec (lit "L") then
      '(x, args) ← va_arg_long_double args;
      text ← sprintf_long_double (long_double_nspec spec conv) x;
      Some (text, args)
    else
      '(x, args) ← va_arg_double args;
      text ← sprintf_double spec x;
      Some (text, args)
  else
    nspec ← integer_nspec spec conv;
    '(v, args) ← (if conv_signed conv then read_signed spec args else read_unsigned spec args);
    text ← sprintf_ll nspec v;
    Some (text, args).
End read_args.

(** ** Strings and characters *)

(** [slen] for the precision: the prefix of at most [precision] bytes that does
    not end inside a UTF-8 sequence. *)
Fixpoint back_up (s : bytes) (trunc : nat) : nat :=
  match trunc with
  | O => O
  | S t => if Z.land (nth trunc s 0) 192 =? 128 then back_up s t else trunc
  end.

Definition truncate_utf8 (s : bytes) (precision : nat) : nat :=
  if (precision <? length s)%nat then
    let trunc := back_up s precision in
    if ((0 <? trunc)%nat && negb (Z.land (nth trunc s 0) 128 =? 0))%bool then
      let b := nth trunc s 0 in
      let seq_len :=
        if Z.land b 224 =? 192 then 2%nat
        else if Z.land b 240 =? 224 then 3%nat
        else if Z.land b 248 =? 240 then 4%nat
        else 0%nat in
      if ((0 <? seq_len)%nat && (precision <? trunc + seq_len)%nat)%bool then 0%nat else trunc
    else trunc
  else length s.

(** [precision]; undefined when it overflows [int]. *)
Definition spec_precision (ds : bytes) : option nat :=
  if 2 ^ 31 - 1 <? dec_val ds then None else Some (Z.to_nat (dec_val ds)).

(** [escaped] and [elen] for [%c]. *)
Definition escape_int_char (c : Z) : bytes :=
  if c =? chQUOTE then [chBACKSLASH; chQUOTE]
  else if c =? chBACKSLASH then [chBACKSLASH; chBACKSLASH]
  else if c =? chLF then [chBACKSLASH; 110]
  else if c =? chCR then [chBACKSLASH; 114]
  else if c =? chTAB then [chBACKSLASH; 116]
  else if c =? 0 then lit "\u0000"
  else if c <? 32 then take 6 ([chBACKSLASH; 117] ++ print_hex4 (to_unsigned 32 c))
  else [to_unsigned 8 c].

(** The text that replaces a number that JSON does not have. *)
Definition not_finite (text : bytes) : bool :=
  (contains text (lit "nan") || contains text (lit "inf") ||
   contains text (lit "NAN") || contains text (lit "INF"))%bool.

(** ** The output buffer *)

(** [buf], [cap] and [pos] *)
Record jbuf := MkJbuf { jb_ptr : ptr; jb_cap : Z; jb_pos : nat }.

Section jsonf.
Context `{!Allocator, !Floats}.

(** The answer when something is wrong. *)
Definition jsonf_null : M mnet_response_t :=
  body ← strdup (lit "null");
  mret (MkResponse 500 (Some (lit "application/json")) body 4 false).

Definition jsonf_fail (b : jbuf) : M mnet_response_t := free (jb_ptr b);; jsonf_null.

(** [cap *= 2] and [realloc]; [false] when there is no memory. *)
Definition grow_once (b : jbuf) : M (bool * jbuf) :=
  let cap := wrap_size (jb_cap b * 2) in
  old ← load (jb_ptr b);
  nb ← realloc (jb_ptr b) (old ++ replicate (Z.to_nat cap - length old) 0);
  match nb with
  | None => mret (false, b)
  | Some _ => mret (true, MkJbuf nb cap (jb_pos b))
  end.

(** [while (pos + elen + 1 >= cap)] *)
Fixpoint grow_loop (fuel : nat) (elen : nat) (b : jbuf) : M (bool * jbuf) :=
  if jb_cap b <=? Z.of_nat (jb_pos b) + Z.of_nat elen + 1 then
    match fuel with
    | O => ub
    | S fuel =>
        '(ok, b) ← grow_once b;
        if ok : bool then grow_loop fuel elen b else mret (false, b)
    end
  else mret (true, b).

(** [memcpy (buf + pos, xs, |xs|); pos += |xs|] *)
Definition put_bytes (xs : bytes) (b : jbuf) : M jbuf :=
  old ← load (jb_ptr b);
  if (jb_pos b + length xs <=? length old)%nat then
    store (jb_ptr b) (splice (jb_pos b) xs old);;
    mret (MkJbuf (jb_ptr b) (jb_cap b) (jb_pos b + length xs))
  else ub.

(** Write the escaped text of [s] into the block [escaped]. *)
Definition write_escaped (escaped : ptr) (s : bytes) : M nat :=
  let '(out, elen) := mnet_json_escape (length s * 6 + 1) (Some s) in
  old ← load escaped;
  (if (length out <=? length old)%nat then store escaped (splice 0 out old) else ub);;
  mret elen.

(** The end of both string conversions; [false] when there is no memory. *)
Definition append_escaped (escaped : ptr) (elen : nat) (b : jbuf) : M (bool * jbuf) :=
  '(ok, b) ← grow_loop 64 elen b;
  if ok : bool then
    e ← load escaped;
    b ← put_bytes (take elen e) b;
    free escaped;;
    mret (true, b)
  else free escaped;; mret (false, b).

(** A step ends with a response or goes on. *)
Abbreviation jstep := (mnet_response_t + jbuf * bytes * list arg)%type.

Definition continue_or_fail (r : bool * jbuf) (f : bytes) (args : list arg) : M jstep :=
  let '(ok, b) := r in
  if ok : bool then mret (inr (b, f, args)) else r ← jsonf_fail b; mret (inl r).

Definition jsonf_give_up (b : jbuf) : M jstep := r ← jsonf_fail b; mret (inl r).

(** [%s] *)
Definition step_string (s : option bytes) (b : jbuf) (f : bytes) (args : list arg) : M jstep :=
  let s := match s with None => lit "(null)" | Some s => s end in
  escaped ← alloc (replicate (length s * 6 + 1) 0);
  match escaped with
  | None => jsonf_give_up b
  | Some _ =>
      elen ← write_escaped escaped s;
      r ← append_escaped escaped elen b;
      continue_or_fail r f args
  end.

(** [%.<precision>s] *)
Definition step_precision (precision : nat) (s : option bytes) (b : jbuf) (f : bytes)
    (args : list arg) : M jstep :=
  let s := match s with None => lit "(null)" | Some s => s end in
  let slen := truncate_utf8 s precision in
  escaped ← alloc (replicate (slen * 6 + 1) 0);
  match escaped with
  | None => jsonf_give_up b
  | Some _ =>
      truncated ← alloc (take slen s ++ [chNUL]);
      match truncated with
      | None => jsonf_give_up b
      | Some _ =>
          t ← load_str truncated;
          elen ← write_escaped escaped t;
          free truncated;;
          r ← append_escaped escaped elen b;
          continue_or_fail r f args
      end
  end.

(** [%c] *)
Definition step_char (c : Z) (b : jbuf) (f : bytes) (args : list arg) : M jstep :=
  let escaped := escape_int_char c in
  '(ok, b) ← grow_loop 64 (length escaped) b;
  if ok : bool then b ← put_bytes escaped b; mret (inr (b, f, args)) else jsonf_give_up b.

(** The formatted number [text]; [val] is a block when it does not fit 64 bytes. *)
Definition step_number (is_float : bool) (text : bytes) (b : jbuf) (f : bytes) (args : list arg) :
    M jstep :=
  let need := printf_length text in
  let need0 := if need <? 0 then 0 else need in
  let on_heap := 64 <? need0 + 1 in
  val ← (if on_heap then alloc (text ++ [chNUL]) else mret None);
  if (on_heap && bool_decide (val = None))%bool then jsonf_give_up b
  else
    let vlen := need in
    if 0 <? vlen then
      let out := if (is_float && not_finite text)%bool then lit "null" else text in
      '(ok, b) ← grow_loop 64 (length out) b;
      if ok : bool then
        b ← put_bytes out b;
        free val;;
        mret (inr (b, f, args))
      else free val;; jsonf_give_up b
    else free val;; mret (inr (b, f, args)).

(** The other conversions; [f] follows the [%]. *)
Definition step_general (b : jbuf) (f : bytes) (args : list arg) : M jstep :=
  match spec_end f with
  | [] => jsonf_give_up b
  | conv :: f' =>
      let spec := lit "%" ++ spec_middle f ++ [conv] in
      if (length spec <? 64)%nat then
        if reject_spec spec conv then jsonf_give_up b
        else
          width ← defined (spec_width spec);
          if 4096 <? width then jsonf_give_up b
          else
            '(text, args) ← defined (spec_text spec conv args);
            step_number (float_conv conv) text b f' args
      else mret (inr (b, f', args))
  end.

(** What a round does once there is room for a character. *)
Definition jsonf_piece (b : jbuf) (f : bytes) (args : list arg) : M jstep :=
  match f with
  | [] => ub
  | c :: f =>
      if negb (c =? chPERCENT) then b ← put_bytes [c] b; mret (inr (b, f, args))
      else
        match f with
        | [] => jsonf_give_up b
        | c :: f1 =>
            let pf := drop_while isdigit f1 in
            if c =? chPERCENT then b ← put_bytes [chPERCENT] b; mret (inr (b, f1, args))
            else if c =? chSTAR then jsonf_give_up b
            else if ((c =? chDOT) && bool_decide (head pf = Some 115))%bool then
              precision ← defined (spec_precision (take_while isdigit f1));
              '(s, args) ← defined (va_arg_string args);
              step_precision precision s b (tail pf) args
            else if c =? 115 then
              '(s, args) ← defined (va_arg_string args);
              step_string s b f1 args
            else if c =? 99 then
              '(c, args) ← defined (va_arg_int RInt true args);
              step_char c b f1 args
            else step_general b f args
        end
  end.

(** One round of the loop; [f] is not at the end. *)
Definition jsonf_step (b : jbuf) (f : bytes) (args : list arg) : M jstep :=
  '(ok, b) ← (if jb_cap b <=? Z.of_nat (jb_pos b) + 1 then grow_once b else mret (true, b));
  if negb ok then jsonf_give_up b else jsonf_piece b f args.

Fixpoint jsonf_loop (fuel : nat) (b : jbuf) (f : bytes) (args : list arg) : M mnet_response_t :=
  match f with
  | [] =>
      old ← load (jb_ptr b);
      (if (jb_pos b <? length old)%nat then store (jb_ptr b) (splice (jb_pos b) [chNUL] old) else ub);;
      mret (MkResponse 200 (Some (lit "application/json")) (jb_ptr b) (jb_pos b) false)
  | _ =>
      match fuel with
      | O => ub
      | S fuel =>
          r ← jsonf_step b f args;
          match r with
          | inl r => mret r
          | inr (b, f, args) => jsonf_loop fuel b f args
          end
      end
  end.

Definition mnet_jsonfv (format : option bytes) (args : list arg) : M mnet_response_t :=
  buf ← alloc (replicate 256 0);
  match buf with
  | None => jsonf_null
  | Some _ =>
      match format with
      | None => free buf;; jsonf_null
      | Some format => jsonf_loop (length format) (MkJbuf buf 256 0) format args
      end
  end.

(** The caller of [mnet_jsonf] passes the arguments themselves. *)
Definition mnet_jsonf (format : option bytes) (args : list arg) : M mnet_response_t :=
  mnet_jsonfv format args.
End jsonf.

(** ** The buffer *)

(** [b] is a live buffer that holds [text] and has room for a terminator. *)
Definition buf_at (b : jbuf) (text : bytes) (bs : list (loc * bytes)) : Prop :=
  ∃ l k, jb_ptr b = Some l ∧ bs = [(l, text ++ k)] ∧ jb_pos b = length text ∧
    jb_cap b = Z.of_nat (length (text ++ k)) ∧ 256 <= jb_cap b <= 2 ^ 61 ∧
    Z.of_nat (length text) < jb_cap b.

(** The most that is ever written. *)
Definition MAX_TEXT : Z := 2 ^ 60.

Section buffer_proofs.
Context `{!Allocator, !Floats}.

Lemma grow_once_spec w0 w R b text bs :
  owns w0 w (bs ++ R) → buf_at b text bs → jb_cap b <= 2 ^ 60 →
  wp (grow_once b)
    (λ '(ok, b') w', ∃ bs', owns w0 w' (bs' ++ R) ∧ buf_at b' text bs' ∧
       if ok : bool then jb_cap b' = jb_cap b * 2 else alloc_failure) w.
Proof.
  intros Ho (l & k & Hl & -> & Hp & Hcap & Hr & Hroom) Hle. unfold grow_once.
  rewrite wrap_size_small by (unfold size_mod; lia). rewrite Hl.
  apply wp_bind. eapply wp_load; [exact Ho|by left|]. apply wp_bind.
  set (more := replicate _ 0).
  assert (Z.of_nat (length (text ++ k ++ more)) = jb_cap b * 2) as Hlen.
  { rewrite (assoc_L app), length_app. unfold more. rewrite length_replicate. lia. }
  eapply (wp_realloc _ _ R _ (Some l) (text ++ k)); [exact Ho|done| |].
  - intros w1 Hf Ho1. apply wp_ret. eexists. split; [exact Ho1|]. split; [|done].
    exists l, k. by rewrite Hl.
  - intros l' w1 Ho1. apply wp_ret. rewrite <-(assoc_L app) in Ho1. eexists [_]. split; [exact Ho1|].
    split; [|done]. exists l', (k ++ more). cbn [jb_ptr jb_cap jb_pos]. split_and!; try done; lia.
Qed.

Lemma grow_loop_spec w0 R elen text fuel : ∀ w b bs,
  owns w0 w (bs ++ R) → buf_at b text bs → Z.of_nat (length text) + Z.of_nat elen < MAX_TEXT →
  MAX_TEXT < jb_cap b * 2 ^ Z.of_nat fuel →
  wp (grow_loop fuel elen b)
    (λ '(ok, b') w', ∃ bs', owns w0 w' (bs' ++ R) ∧ buf_at b' text bs' ∧
       if ok : bool then Z.of_nat (length text + elen) + 1 < jb_cap b' else alloc_failure) w.
Proof.
  unfold MAX_TEXT. induction fuel as [|fuel IH]; intros w b bs Ho Hb Hlen Hfuel; cbn [grow_loop];
    (assert (jb_pos b = length text) as Hp by (by destruct Hb as (? & ? & _ & _ & ? & _)));
    case_test; bool_prop; [exfalso; lia| | |];
    try (apply wp_ret; exists bs; split_and!; [done|done|lia]).
  apply wp_bind. eapply wp_mono; [eapply grow_once_spec; [exact Ho|exact Hb|lia]|].
  intros [ok b'] w1 (bs' & Ho1 & Hb1 & Hok). destruct ok.
  - eapply IH; [exact Ho1|exact Hb1|lia|]. rewrite Hok.
    rewrite Nat2Z.inj_succ, Z.pow_succ_r in Hfuel by lia. lia.
  - apply wp_ret. by exists bs'.
Qed.

(** The loop with the fuel the program's word size allows. *)
Lemma grow_spec w0 w R b text bs elen :
  owns w0 w (bs ++ R) → buf_at b text bs → Z.of_nat (length text) + Z.of_nat elen < MAX_TEXT →
  wp (grow_loop 64 elen b)
    (λ '(ok, b') w', ∃ bs', owns w0 w' (bs' ++ R) ∧ buf_at b' text bs' ∧
       if ok : bool then Z.of_nat (length text + elen) + 1 < jb_cap b' else alloc_failure) w.
Proof.
  intros Ho Hb Hlen. apply (grow_loop_spec w0 R elen text 64 w b bs); [done..|].
  destruct Hb as (? & ? & _ & _ & _ & _ & ? & _). unfold MAX_TEXT. change (2 ^ Z.of_nat 64) with (2 ^ 64). lia.
Qed.

Lemma put_bytes_spec w0 w R b text bs xs (Q : jbuf → world → Prop) :
  owns w0 w (bs ++ R) → buf_at b text bs → Z.of_nat (length text + length xs) < jb_cap b →
  (∀ b' bs' w', owns w0 w' (bs' ++ R) → buf_at b' (text ++ xs) bs' → jb_cap b' = jb_cap b → Q b' w') →
  wp (put_bytes xs b) Q w.
Proof.
  intros Ho (l & k & Hl & -> & Hp & Hcap & Hr & Hroom) Hfit HQ. unfold put_bytes. rewrite Hl, Hp.
  apply wp_bind. eapply wp_load; [exact Ho|by left|].
  rewrite length_app in *. rewrite (proj2 (Nat.leb_le _ _)) by lia.
  assert (splice (length text) xs (text ++ k) = (text ++ xs) ++ drop (length xs) k) as E.
  { unfold splice. rewrite take_app_length, drop_app_ge by lia. rewrite <-(assoc_L app).
    by replace (length text + length xs - length text)%nat with (length xs) by lia. }
  apply wp_bind. eapply (wp_store _ _ R _ _ (text ++ k)); [exact Ho|done| |].
  { rewrite length_splice; [done|]. rewrite length_app. lia. }
  intros w1 Ho1. apply wp_ret. rewrite E in Ho1. eapply (HQ _ [_]); [exact Ho1| |done].
  exists l, (drop (length xs) k). cbn [jb_ptr jb_cap jb_pos]. rewrite !length_app, length_drop.
  split_and!; try done; try lia.
Qed.

(** ** Giving up *)

Definition json_type : bytes := lit "application/json".

(** The answer [null] with status 500; its body can be missing. *)
Definition null_response (r : mnet_response_t) (bs : list (loc * bytes)) : Prop :=
  ∃ p, r = MkResponse 500 (Some json_type) p 4 false ∧
    ((p = None ∧ bs = [] ∧ alloc_failure) ∨ ∃ l, p = Some l ∧ bs = [(l, lit "null" ++ [0])]).

Lemma jsonf_null_spec w0 w R :
  owns w0 w R →
  wp jsonf_null (λ r w', ∃ bs, owns w0 w' (bs ++ R) ∧ null_response r bs) w.
Proof.
  intros Ho. unfold jsonf_null. apply wp_bind. eapply wp_strdup; [exact Ho| |].
  - intros w1 Hf Ho1. apply wp_ret. exists []. split; [done|]. exists None. split; [done|by left].
  - intros l w1 Ho1. apply wp_ret. eexists [_]. split; [exact Ho1|]. exists (Some l).
    split; [done|right]. by exists l.
Qed.

Lemma jsonf_fail_spec w0 w R b text bs :
  owns w0 w (bs ++ R) → buf_at b text bs →
  wp (jsonf_fail b) (λ r w', ∃ bs', owns w0 w' (bs' ++ R) ∧ null_response r bs') w.
Proof.
  intros Ho (l & k & Hl & -> & _). unfold jsonf_fail. rewrite Hl. apply wp_bind.
  eapply (wp_free _ _ R _ _ (text ++ k)); [exact Ho|done|]. intros w1 Ho1. by apply jsonf_null_spec.
Qed.
End buffer_proofs.

(** ** The steps *)

Lemma json_escape_length s :
  Forall (λ c, 0 <= c) s → (length (json_escape_all s) ≤ length s * 6)%nat.
Proof.
  intros Hs. induction Hs as [|c s Hc Hs IH]; [done|].
  assert (length (json_escape_all (c :: s)) =
    length (json_escape_char c) + length (json_escape_all s))%nat as -> by apply length_app.
  cbn [length]. assert (length (json_escape_char c) ≤ 6)%nat; [|lia].
  unfold json_escape_char. repeat (case_test; [cbn; lia|]). case_test; bool_prop; [|cbn; lia].
  by rewrite print_hex4_control by lia.
Qed.

(** With six bytes for each character the whole string is escaped. *)
Lemma json_escape_whole s :
  Forall (λ c, 0 <= c) s →
  mnet_json_escape (length s * 6 + 1) (Some s) = (json_escape_all s ++ [chNUL], length (json_escape_all s)).
Proof.
  intros Hs. unfold mnet_json_escape. rewrite (proj2 (Nat.eqb_neq _ _)) by lia.
  destruct (json_escape_loop_spec (length s * 6 + 1) s [] Hs) as (s' & _ & E & _ & Hfull);
    [cbn; lia|].
  rewrite Hfull in E by (pose proof (json_escape_length s Hs); cbn [length]; lia). by rewrite E.
Qed.

Section step_proofs.
Context `{!Allocator, !Floats}.

(** The step ended with the answer [null]; the blocks [leak] stay allocated. *)
Definition gave_up (w0 : world) (R leak : list (loc * bytes)) (r : mnet_response_t + jbuf * bytes * list arg)
    (w' : world) : Prop :=
  ∃ resp bs, r = inl resp ∧ null_response resp bs ∧ owns w0 w' (bs ++ leak ++ R).

(** The step went on to [f] and [args] with [text] in the buffer. *)
Definition went_on (w0 : world) (R : list (loc * bytes)) (text f : bytes) (args : list arg)
    (r : mnet_response_t + jbuf * bytes * list arg) (w' : world) : Prop :=
  ∃ b bs, r = inr (b, f, args) ∧ buf_at b text bs ∧ owns w0 w' (bs ++ R).

(** A block can be lost only in the conversion that makes two of them. *)
Definition step_post (precise : bool) (w0 : world) (R : list (loc * bytes)) (text f : bytes)
    (args : list arg) (r : mnet_response_t + jbuf * bytes * list arg) (w' : world) : Prop :=
  went_on w0 R text f args r w' ∨
  (alloc_failure ∧ ∃ leak, (precise = false → leak = []) ∧ gave_up w0 R leak r w').

Lemma give_up_spec w0 w R leak b text bs :
  owns w0 w (bs ++ leak ++ R) → buf_at b text bs → wp (jsonf_give_up b) (gave_up w0 R leak) w.
Proof.
  intros Ho Hb. unfold jsonf_give_up. apply wp_bind.
  eapply wp_mono; [eapply (jsonf_fail_spec _ _ (leak ++ R)); [exact Ho|exact Hb]|].
  intros r w' (bs' & Ho' & Hr). apply wp_ret. by exists r, bs'.
Qed.

Lemma give_up_post w0 w R b text bs precise text' f args :
  owns w0 w (bs ++ R) → buf_at b text bs → alloc_failure →
  wp (jsonf_give_up b) (step_post precise w0 R text' f args) w.
Proof.
  intros Ho Hb Hf. eapply wp_mono; [eapply (give_up_spec _ _ R []); [exact Ho|exact Hb]|].
  intros r w' Hr. right. split; [done|]. by exists [].
Qed.

Lemma write_escaped_spec w0 w R l s n (Q : nat → world → Prop) :
  owns w0 w ((l, replicate n 0) :: R) → Forall (λ c, 0 <= c) s → n = (length s * 6 + 1)%nat →
  (∀ w' k, owns w0 w' ((l, json_escape_all s ++ k) :: R) → Q (length (json_escape_all s)) w') →
  wp (write_escaped (Some l) s) Q w.
Proof.
  intros Ho Hs -> HQ. unfold write_escaped. rewrite json_escape_whole by done.
  apply wp_bind. eapply wp_load; [exact Ho|by left|].
  pose proof (json_escape_length s Hs). rewrite length_app, length_replicate. cbn [length].
  rewrite (proj2 (Nat.leb_le _ _)) by lia. apply wp_bind.
  eapply (wp_store _ _ R _ _ (replicate (length s * 6 + 1) 0)); [exact Ho|done| |].
  { rewrite length_splice; [done|]. rewrite length_app, length_replicate. cbn [length]. lia. }
  intros w1 Ho1. apply wp_ret. unfold splice in Ho1. rewrite take_0, app_nil_l, <-(assoc_L app) in Ho1.
  eapply HQ; exact Ho1.
Qed.

(** Appending the escaped text that the block [l] starts with. *)
Lemma append_escaped_spec w0 w R l e k b text bs precise f args :
  owns w0 w (bs ++ (l, e ++ k) :: R) → buf_at b text bs →
  Z.of_nat (length text) + Z.of_nat (length e) < MAX_TEXT →
  wp (r ← append_escaped (Some l) (length e) b; continue_or_fail r f args)
    (step_post precise w0 R (text ++ e) f args) w.
Proof.
  intros Ho Hb Hlen. apply wp_bind. unfold append_escaped. apply wp_bind.
  eapply wp_mono; [eapply grow_spec; [exact Ho|exact Hb|exact Hlen]|].
  intros [ok b1] w1 (bs1 & Ho1 & Hb1 & Hok). destruct ok.
  - apply wp_bind. eapply (wp_load _ _ _ _ (e ++ k)); [exact Ho1|apply elem_of_app; right; by left|].
    rewrite take_app_length.
    apply wp_bind. eapply put_bytes_spec; [exact Ho1|exact Hb1|lia|].
    intros b2 bs2 w2 Ho2 Hb2 _. apply wp_bind.
    eapply (wp_free _ _ (bs2 ++ R) _ _ (e ++ k)); [exact Ho2|solve_Permutation|].
    intros w3 Ho3. apply wp_ret. unfold continue_or_fail. apply wp_ret. left. by exists b2, bs2.
  - apply wp_bind. eapply (wp_free _ _ (bs1 ++ R) _ _ (e ++ k)); [exact Ho1|solve_Permutation|].
    intros w2 Ho2. apply wp_ret. unfold continue_or_fail. by eapply give_up_post.
Qed.

Lemma step_string_spec w0 w R b text bs s f args :
  owns w0 w (bs ++ R) → buf_at b text bs →
  let s0 := default (lit "(null)") s in
  Forall (λ c, 0 <= c) s0 → Z.of_nat (length text) + Z.of_nat (length (json_escape_all s0)) < MAX_TEXT →
  wp (step_string s b f args) (step_post false w0 R (text ++ json_escape_all s0) f args) w.
Proof.
  intros Ho Hb s0 Hs Hlen. unfold step_string.
  change (match s with Some s => s | None => lit "(null)" end) with s0.
  apply wp_bind. eapply wp_alloc; [exact Ho| |].
  - intros w1 Hf Ho1. by eapply give_up_post.
  - intros l w1 Ho1. apply wp_bind. eapply write_escaped_spec; [exact Ho1|done|done|].
    intros w2 k Ho2. eapply append_escaped_spec; [|exact Hb|done].
    eapply owns_proper; [|exact Ho2]. solve_Permutation.
Qed.

Lemma truncate_utf8_le s n :
  (truncate_utf8 s n ≤ length s)%nat ∧ (truncate_utf8 s n ≤ n ∨ truncate_utf8 s n ≤ length s ≤ n)%nat.
Proof.
  assert (∀ t, back_up s t ≤ t)%nat as Hb.
  { intros t. induction t as [|t IH]; cbn [back_up]; [lia|]. case_test; lia. }
  specialize (Hb n). unfold truncate_utf8. case_test; bool_prop; [|lia].
  case_test; [case_test|]; lia.
Qed.

Lemma step_precision_spec w0 w R b text bs n s f args :
  owns w0 w (bs ++ R) → buf_at b text bs →
  let s0 := default (lit "(null)") s in
  let t := take (truncate_utf8 s0 n) s0 in
  Forall is_cchar s0 → Z.of_nat (length text) + Z.of_nat (length (json_escape_all t)) < MAX_TEXT →
  wp (step_precision n s b f args) (step_post true w0 R (text ++ json_escape_all t) f args) w.
Proof.
  intros Ho Hb s0 t Hs Hlen. unfold step_precision.
  change (match s with Some s => s | None => lit "(null)" end) with s0. cbv zeta. fold t.
  assert (length t = truncate_utf8 s0 n) as Ht.
  { unfold t. rewrite length_take. pose proof (truncate_utf8_le s0 n). lia. }
  assert (Forall is_cchar t) as Htc by (unfold t; by apply Forall_take).
  apply wp_bind. eapply wp_alloc; [exact Ho| |].
  { intros w1 Hf Ho1. by eapply give_up_post. }
  intros l w1 Ho1. apply wp_bind. eapply wp_alloc; [exact Ho1| |].
  - intros w2 Hf Ho2. eapply wp_mono; [eapply (give_up_spec _ _ R [(l, _)]); [|exact Hb]|].
    { eapply owns_proper; [|exact Ho2]. solve_Permutation. }
    intros r w3 Hr. right. split; [done|]. eexists. split; [|exact Hr]. done.
  - intros l2 w2 Ho2. apply wp_bind. eapply wp_load_str; [exact Ho2|left|by apply cchar_nonzero|].
    apply wp_bind. eapply (write_escaped_spec _ _ ((l2, t ++ [chNUL]) :: bs ++ R)).
    + eapply owns_proper; [|exact Ho2]. solve_Permutation.
    + eapply Forall_impl; [exact Htc|]. unfold is_cchar. lia.
    + by rewrite Ht.
    + intros w3 k Ho3. apply wp_bind.
      eapply (wp_free _ _ (bs ++ (l, json_escape_all t ++ k) :: R) _ _ (t ++ [chNUL])); [exact Ho3|solve_Permutation|].
      intros w4 Ho4. by eapply append_escaped_spec.
Qed.

Lemma step_char_spec w0 w R b text bs c f args :
  owns w0 w (bs ++ R) → buf_at b text bs →
  Z.of_nat (length text) + Z.of_nat (length (escape_int_char c)) < MAX_TEXT →
  wp (step_char c b f args) (step_post false w0 R (text ++ escape_int_char c) f args) w.
Proof.
  intros Ho Hb Hlen. unfold step_char. apply wp_bind.
  eapply wp_mono; [eapply grow_spec; [exact Ho|exact Hb|exact Hlen]|].
  intros [ok b1] w1 (bs1 & Ho1 & Hb1 & Hok). destruct ok; [|by eapply give_up_post].
  apply wp_bind. eapply put_bytes_spec; [exact Ho1|exact Hb1|lia|].
  intros b2 bs2 w2 Ho2 Hb2 _. apply wp_ret. left. by exists b2, bs2.
Qed.

(** What a formatted number becomes. *)
Definition number_text (is_float : bool) (text : bytes) : bytes :=
  if (is_float && not_finite text)%bool then lit "null" else text.

(** The block of a long number, when there is one. *)
Definition val_block (val : ptr) (text : bytes) : list (loc * bytes) :=
  match val with None => [] | Some l => [(l, text ++ [chNUL])] end.

Lemma free_val_spec w0 w R val text (Q : unit → world → Prop) :
  owns w0 w (val_block val text ++ R) → (∀ w', owns w0 w' R → Q () w') → wp (free val) Q w.
Proof.
  intros Ho HQ. destruct val as [l|]; [|by apply wp_free_null, HQ].
  by eapply (wp_free _ _ R _ _ (text ++ [chNUL])); [exact Ho|..].
Qed.

Lemma step_number_spec w0 w R b text bs is_float t f args :
  owns w0 w (bs ++ R) → buf_at b text bs → Z.of_nat (length t) < 2 ^ 31 →
  Z.of_nat (length text) + Z.of_nat (length (number_text is_float t)) < MAX_TEXT →
  (t = [] → is_float = false) →
  wp (step_number is_float t b f args) (step_post false w0 R (text ++ number_text is_float t) f args) w.
Proof.
  intros Ho Hb Ht Hlen Hnil. unfold step_number, printf_length.
  rewrite (proj2 (Z.ltb_ge (2 ^ 31 - 1) _)) by lia. rewrite (proj2 (Z.ltb_ge (Z.of_nat _) 0)) by lia.
  set (on_heap := 64 <? _). apply wp_bind.
  apply (wp_mono _ (λ val w', owns w0 w' (val_block val t ++ bs ++ R) ∧
    (on_heap = true → val = None → alloc_failure))).
  { destruct on_heap; [|by apply wp_ret]. eapply wp_alloc; [exact Ho|by intros|].
    intros l w1 Ho1. by split. }
  intros val w1 [Ho1 Hval]. case_test; bool_prop.
  { subst val. by eapply give_up_post; [exact Ho1|exact Hb|apply Hval]. }
  assert (owns w0 w1 (bs ++ val_block val t ++ R)) as Ho2.
  { eapply owns_proper; [|exact Ho1]. solve_Permutation. }
  case_test; bool_prop.
  - cbv zeta. change (if _ && _ then lit "null" else t) with (number_text is_float t).
    apply wp_bind.
    eapply wp_mono; [eapply grow_spec; [exact Ho2|exact Hb|exact Hlen]|].
    intros [ok b1] w2 (bs1 & Ho3 & Hb1 & Hok). destruct ok.
    + apply wp_bind. eapply put_bytes_spec; [exact Ho3|exact Hb1|lia|].
      intros b2 bs2 w3 Ho4 Hb2 _. apply wp_bind. eapply (free_val_spec _ _ (bs2 ++ R) _ t).
      { eapply owns_proper; [|exact Ho4]. solve_Permutation. }
      intros w4 Ho5. apply wp_ret. left. by exists b2, bs2.
    + apply wp_bind. eapply (free_val_spec _ _ (bs1 ++ R) _ t).
      { eapply owns_proper; [|exact Ho3]. solve_Permutation. }
      intros w3 Ho4. by eapply give_up_post.
  - destruct t as [|c t]; [|cbn in *; lia]. rewrite Hnil by done. apply wp_bind.
    eapply (free_val_spec _ _ (bs ++ R)); [exact Ho1|].
    intros w2 Ho3. apply wp_ret. left. exists b, bs. split; [done|]. by rewrite app_nil_r.
Qed.
End step_proofs.

(** ** Well-typed formats

    A format with its arguments, given as a list of pieces. *)

Inductive length_mod := ModNone | ModHH | ModH | ModL | ModLL | ModZ | ModJ | ModT.

Definition mod_text (m : length_mod) : bytes :=
  match m with
  | ModNone => [] | ModHH => lit "hh" | ModH => lit "h" | ModL => lit "l" | ModLL => lit "ll"
  | ModZ => lit "z" | ModJ => lit "j" | ModT => lit "t"
  end.

(** The type of the argument and the value that is printed. *)
Definition mod_rank (m : length_mod) : int_rank :=
  match m with
  | ModNone | ModHH | ModH => RInt
  | ModL => RLong
  | ModLL | ModJ => RLongLong
  | ModZ => RSize
  | ModT => RPtrdiff
  end.

Definition mod_signed (m : length_mod) (conv : Z) : bool :=
  (conv_signed conv || match m with ModT => true | _ => false end)%bool.

Definition mod_value (m : length_mod) (conv v : Z) : Z :=
  let convert := if conv_signed conv then to_signed else to_unsigned in
  match m with
  | ModHH => convert 8 v
  | ModH => convert 16 v
  | ModT => if conv_signed conv then v else to_unsigned 64 v
  | _ => v
  end.

Inductive segment `{!Floats} :=
  | SegText (c : Z)                                  (* an ordinary character *)
  | SegPercent                                       (* [%%] *)
  | SegString (s : option bytes)                     (* [%s] *)
  | SegPrecision (ds : bytes) (s : option bytes)     (* [%.<ds>s] *)
  | SegChar (c : Z)                                  (* [%c] *)
  | SegInteger (mid : bytes) (m : length_mod) (conv v : Z)
  | SegDouble (mid : bytes) (conv : Z) (x : double)
  | SegLongDouble (mid : bytes) (conv : Z) (x : long_double).

Section segments.
Context `{!Floats}.

Definition seg_format (s : segment) : bytes :=
  match s with
  | SegText c => [c]
  | SegPercent => lit "%%"
  | SegString _ => lit "%s"
  | SegPrecision ds _ => lit "%." ++ ds ++ lit "s"
  | SegChar _ => lit "%c"
  | SegInteger mid m conv _ => lit "%" ++ (mid ++ mod_text m) ++ [conv]
  | SegDouble mid conv _ => lit "%" ++ (mid ++ []) ++ [conv]
  | SegLongDouble mid conv _ => lit "%" ++ (mid ++ lit "L") ++ [conv]
  end.

Definition seg_args (s : segment) : list arg :=
  match s with
  | SegText _ | SegPercent => []
  | SegString s | SegPrecision _ s => [ArgString s]
  | SegChar c => [ArgInt RInt true c]
  | SegInteger _ m conv v => [ArgInt (mod_rank m) (mod_signed m conv) v]
  | SegDouble _ _ x => [ArgDouble x]
  | SegLongDouble _ _ x => [ArgLongDouble x]
  end.

Definition string_text (s : option bytes) : bytes := default (lit "(null)") s.

(** What the piece becomes. *)
Definition seg_text (s : segment) : bytes :=
  match s with
  | SegText c => [c]
  | SegPercent => lit "%"
  | SegString s => json_escape_all (string_text s)
  | SegPrecision ds s =>
      json_escape_all (take (truncate_utf8 (string_text s) (Z.to_nat (dec_val ds))) (string_text s))
  | SegChar c => escape_int_char c
  | SegInteger mid m conv v => print_integer (fst (parse_directive mid)) conv (mod_value m conv v)
  | SegDouble mid conv x => number_text true (print_double (fst (parse_directive mid)) conv x)
  | SegLongDouble mid conv x =>
      number_text true (print_long_double (fst (parse_directive mid)) conv x)
  end.

(** [mid] is flags, width and precision, with a width the code accepts. *)
Definition directive_ok (mid : bytes) : Prop :=
  snd (parse_directive mid) = [] ∧ dec_val (take_while isdigit mid) <= 4096.

Definition rank_range (r : int_rank) (signed : bool) (v : Z) : Prop :=
  if signed then - 2 ^ (rank_bits r - 1) <= v < 2 ^ (rank_bits r - 1)
  else 0 <= v < 2 ^ rank_bits r.

Definition fits_int (text : bytes) : Prop := Z.of_nat (length text) < 2 ^ 31.

Definition string_ok (s : option bytes) : Prop :=
  match s with Some s => Forall is_cchar s | None => True end.

(** The pieces that the code supports. *)
Definition seg_ok (s : segment) : Prop :=
  match s with
  | SegText c => c ≠ 0 ∧ c ≠ chPERCENT
  | SegPercent => True
  | SegString s => string_ok s
  | SegPrecision ds s => Forall (λ c, isdigit c = true) ds ∧ dec_val ds < 2 ^ 31 ∧ string_ok s
  | SegChar c => rank_range RInt true c
  | SegInteger mid m conv v =>
      directive_ok mid ∧ integer_conv (fst (parse_directive mid)) conv = true ∧
      (length mid + 4 < 64)%nat ∧ rank_range (mod_rank m) (mod_signed m conv) v ∧
      fits_int (print_integer (fst (parse_directive mid)) conv (mod_value m conv v))
  | SegDouble mid conv x =>
      directive_ok mid ∧ mem_char (lit "fFeEgGA") conv = true ∧ (length mid + 2 < 64)%nat ∧
      print_double (fst (parse_directive mid)) conv x ≠ [] ∧
      fits_int (print_double (fst (parse_directive mid)) conv x)
  | SegLongDouble mid conv x =>
      directive_ok mid ∧ mem_char (lit "fFeEgGA") conv = true ∧ (length mid + 3 < 64)%nat ∧
      print_long_double (fst (parse_directive mid)) conv x ≠ [] ∧
      fits_int (print_long_double (fst (parse_directive mid)) conv x)
  end.

Definition is_precision (s : segment) : bool :=
  match s with SegPrecision _ _ => true | _ => false end.

Definition format_of (segs : list segment) : bytes := concat (seg_format <$> segs).
Definition args_of (segs : list segment) : list arg := concat (seg_args <$> segs).
Definition text_of (segs : list segment) : bytes := concat (seg_text <$> segs).
End segments.

(** ** Directives as the code reads them *)

Lemma not_directive_cases c :
  not_directive c = false → mem_char (lit "-+ #0123456789.") c = true.
Proof.
  unfold not_directive, flag_char, mem_char. intros Hc. apply negb_false_iff in Hc.
  apply bool_decide_eq_true. rewrite !orb_true_iff, bool_decide_eq_true, Z.eqb_eq in Hc.
  destruct Hc as [[Hc|Hc]| ->]; [|unfold isdigit in Hc|]; cbn in *.
  - set_solver.
  - assert (c = 48 ∨ c = 49 ∨ c = 50 ∨ c = 51 ∨ c = 52 ∨ c = 53 ∨ c = 54 ∨ c = 55 ∨ c = 56 ∨ c = 57)
      as Hcs by lia. set_solver.
  - set_solver.
Qed.

(** A property of the directive characters is checked on each of them. *)
Lemma directive_forall (P : Z → bool) mid :
  snd (parse_directive mid) = [] → forallb P (lit "-+ #0123456789.") = true →
  Forall (λ c, P c = true) mid.
Proof.
  intros Hmid HP. destruct (parse_directive mid) as [d r] eqn:E. cbn in Hmid. subst r.
  eapply Forall_impl; [by eapply parse_directive_chars|]. intros c Hc. cbv beta in Hc.
  apply not_directive_cases in Hc. unfold mem_char in Hc. apply bool_decide_eq_true in Hc.
  apply Forall_forallb in HP. rewrite Forall_forall in HP. by apply HP.
Qed.

(** A search for text that starts with a character that [pre] does not have. *)
Lemma contains_skip pre k c n :
  Forall (λ x, negb ((x =? 0) || (x =? c))%bool = true) pre →
  contains (pre ++ k) (c :: n) = contains k (c :: n).
Proof.
  intros Hpre. unfold contains, strstr. induction Hpre as [|x pre Hx Hpre IH]; [done|].
  apply negb_true_iff, orb_false_iff in Hx as [Hx0 Hxc].
  rewrite <-IH. cbn [app]. unfold cstr. cbn [take_while]. unfold not_nul at 1. rewrite Hx0.
  cbn [negb find_sub starts_with]. rewrite Z.eqb_sym in Hxc. rewrite Hxc. cbn [andb].
  by destruct (find_sub _ _ _).
Qed.

Lemma filter_all {A} (P : A → bool) l : Forall (λ x, P x = true) l → List.filter P l = l.
Proof. intros Hl. induction Hl as [|x l Hx Hl IH]; [done|]. cbn. by rewrite Hx, IH. Qed.

(** A directive with its length modifier [mt] and its conversion. *)
Section spec.
Context (mid mt : bytes) (conv : Z).
Context (Hmid : directive_ok mid) (Hmt : Forall (λ c, mem_char (lit "hlzjtL") c = true) mt).
Context (Hconv : mem_char (lit "diouxXfFeEgGA") conv = true).

Let spec : bytes := lit "%" ++ (mid ++ mt) ++ [conv].

Lemma spec_chars (P : Z → bool) :
  forallb P (lit "-+ #0123456789.") = true → forallb P (lit "hlzjtL") = true →
  Forall (λ c, P c = true) (mid ++ mt).
Proof.
  intros H1 H2. apply Forall_app. split; [by apply directive_forall; destruct Hmid|].
  eapply Forall_impl; [exact Hmt|]. intros c Hc. unfold mem_char in Hc. apply bool_decide_eq_true in Hc.
  apply Forall_forallb in H2. rewrite Forall_forall in H2. by apply H2.
Qed.

(** A property of the conversion characters is checked on each of them. *)
Lemma conv_forall (P : Z → bool) : forallb P (lit "diouxXfFeEgGA") = true → P conv = true.
Proof.
  intros HP. apply Forall_forallb in HP. rewrite Forall_forall in HP. apply HP.
  pose proof Hconv as Hc. unfold mem_char in Hc. by apply bool_decide_eq_true in Hc.
Qed.

Lemma spec_found f :
  spec_middle (((mid ++ mt) ++ [conv]) ++ f) = mid ++ mt ∧ spec_end (((mid ++ mt) ++ [conv]) ++ f) = conv :: f.
Proof.
  rewrite <-(assoc_L app (mid ++ mt)). apply take_while_app.
  - by apply spec_chars.
  - intros x [= <-]. apply negb_true_iff.
    by apply (conv_forall (λ c, (negb (negb ((c =? chPERCENT) || conv_char c)))%bool)).
Qed.

Lemma spec_accepted : reject_spec spec conv = false.
Proof.
  unfold reject_spec. apply orb_false_iff. split.
  - change (drop 1 spec) with ((mid ++ mt) ++ [conv]).
    apply not_true_iff_false. intros Hex. apply existsb_exists in Hex as (x & Hin & Hx).
    revert Hx. apply not_true_iff_false.
    assert (numeric_conv conv = true) as Hn by (by apply (conv_forall numeric_conv)).
    unfold reject_char. rewrite Hn, !andb_false_r, orb_false_r. cbn [orb].
    assert (Forall (λ x, negb (mem_char (lit "npa") x) = true) ((mid ++ mt) ++ [conv])) as Hall.
    { apply Forall_app. split; [by apply spec_chars|]. constructor; [|done].
      by apply (conv_forall (λ x, negb (mem_char (lit "npa") x))). }
    apply (Forall_take_while _ (λ c, negb (c =? chPERCENT))) in Hall. rewrite Forall_forall in Hall.
    apply negb_true_iff, Hall. by apply list_elem_of_In.
  - apply negb_true_iff. by apply (conv_forall (λ x, negb (mem_char (lit "npa") x))).
Qed.

Lemma spec_width_ok : ∃ n, spec_width spec = Some n ∧ n <= 4096.
Proof.
  destruct Hmid as [_ Hw]. exists (dec_val (take_while isdigit mid)). split; [|done].
  unfold spec_width. change (drop 1 spec) with ((mid ++ mt) ++ [conv]).
  rewrite <-(assoc_L app). destruct (while_app_r isdigit mid (mt ++ [conv])) as [-> _].
  - intros x Hx. apply negb_true_iff. pose proof Hmt as Hm.
    destruct mt as [|y mt']; cbn [app head] in Hx; injection Hx as Hx; rewrite <-Hx.
    + by apply (conv_forall (λ c, negb (isdigit c))).
    + apply Forall_cons in Hm as [Hy _]. unfold mem_char in Hy. apply bool_decide_eq_true in Hy.
      cbn in Hy. repeat (apply elem_of_cons in Hy as [->|Hy]; [done|]). by apply elem_of_nil in Hy.
  - rewrite (proj2 (Z.ltb_ge _ _)); [done|]. unfold long_max. lia.
Qed.

(** A search for letters sees only the modifier and the conversion. *)
Lemma spec_contains c n :
  mem_char (lit "-+ #0123456789.") c = false → c ≠ chPERCENT →
  contains spec (c :: n) = contains (mt ++ [conv]) (c :: n).
Proof.
  intros Hc Hp. unfold spec. rewrite <-(assoc_L app mid), (assoc_L app (lit "%")). apply contains_skip.
  apply Forall_app. split.
  - repeat constructor. apply negb_true_iff, orb_false_iff. split; [done|].
    apply Z.eqb_neq. intros E. by apply Hp.
  - destruct Hmid as [Hp' _]. pose proof (directive_forall (mem_char (lit "-+ #0123456789.")) mid Hp' eq_refl) as Hall.
    eapply Forall_impl; [exact Hall|]. intros x Hx. cbv beta in *. apply negb_true_iff, orb_false_iff.
    split; apply Z.eqb_neq; intros ->; [by vm_compute in Hx|congruence].
Qed.

Lemma spec_core : take (length spec - 2) (drop 1 spec) = mid ++ mt.
Proof.
  clear Hmid Hmt Hconv. unfold spec. change (drop 1 (lit "%" ++ (mid ++ mt) ++ [conv])) with ((mid ++ mt) ++ [conv]).
  rewrite !length_app. cbn [length]. change (length (lit "%")) with 1%nat. rewrite <-length_app.
  replace (1 + (length (mid ++ mt) + 1) - 2)%nat with (length (mid ++ mt)) by lia.
  apply take_app_length.
Qed.

Lemma spec_parse rest :
  match rest with c :: _ => not_directive c = true | [] => True end →
  parse_directive (mid ++ rest) = (fst (parse_directive mid), rest).
Proof.
  intros Hr. destruct Hmid as [Hm _]. apply parse_directive_app; [|done].
  destruct (parse_directive mid). cbn in *. by subst.
Qed.
End spec.

Section texts.
Context `{!Allocator, !Floats}.

Lemma mod_text_letters m : Forall (λ c, mem_char (lit "hlzjtL") c = true) (mod_text m).
Proof. by destruct m; repeat constructor. Qed.

Lemma va_arg_int_same r s v args : va_arg_int r s (ArgInt r s v :: args) = Some (v, args).
Proof. unfold va_arg_int. by rewrite bool_decide_true, Bool.eqb_reflx. Qed.

(** The length modifier decides how the argument is read. *)
Lemma read_integer mid m conv v args :
  directive_ok mid → mem_char (lit "diouxX") conv = true →
  let spec := lit "%" ++ (mid ++ mod_text m) ++ [conv] in
  let args' := ArgInt (mod_rank m) (mod_signed m conv) v :: args in
  (if conv_signed conv then read_signed spec args' else read_unsigned spec args') =
    Some (mod_value m conv v, args).
Proof.
  intros Hmid Hconv spec args'.
  assert (∀ c n, mem_char (lit "-+ #0123456789.") c = false → c ≠ chPERCENT →
            contains spec (c :: n) = contains (mod_text m ++ [conv]) (c :: n)) as Hcon.
  { intros c n Hc Hp. by apply spec_contains. }
  assert (contains spec (lit "ll") = contains (mod_text m ++ [conv]) (lit "ll") ∧
          contains spec (lit "l") = contains (mod_text m ++ [conv]) (lit "l") ∧
          contains spec (lit "hh") = contains (mod_text m ++ [conv]) (lit "hh") ∧
          contains spec (lit "h") = contains (mod_text m ++ [conv]) (lit "h") ∧
          contains spec (lit "z") = contains (mod_text m ++ [conv]) (lit "z") ∧
          contains spec (lit "j") = contains (mod_text m ++ [conv]) (lit "j") ∧
          contains spec (lit "t") = contains (mod_text m ++ [conv]) (lit "t"))
    as (E1 & E2 & E3 & E4 & E5 & E6 & E7) by (by split_and!; apply Hcon).
  unfold read_signed, read_unsigned. rewrite E1, E2, E3, E4, E5, E6, E7. clearbody spec.
  unfold mem_char in Hconv. apply bool_decide_eq_true in Hconv. cbn in Hconv.
  repeat (apply elem_of_cons in Hconv as [->|Hconv]; [|]).
  all: try by apply elem_of_nil in Hconv.
  all: subst args'; destruct m; cbn -[va_arg_int]; rewrite va_arg_int_same; done.
Qed.

Lemma filter_mods (P : Z → bool) mid mt :
  directive_ok mid → forallb P (lit "-+ #0123456789.") = true → List.filter P mt = [] →
  List.filter P (mid ++ mt) = mid.
Proof.
  intros [Hm _] HP Hmt. rewrite List.filter_app, Hmt, app_nil_r. by apply filter_all, directive_forall.
Qed.

Lemma spec_text_integer mid m conv v args :
  directive_ok mid → integer_conv (fst (parse_directive mid)) conv = true → (length mid + 4 < 64)%nat →
  spec_text (lit "%" ++ (mid ++ mod_text m) ++ [conv]) conv
    (ArgInt (mod_rank m) (mod_signed m conv) v :: args) =
  Some (print_integer (fst (parse_directive mid)) conv (mod_value m conv v), args).
Proof.
  intros Hmid Hic Hlen. assert (mem_char (lit "diouxX") conv = true) as Hconv
    by (by apply andb_prop in Hic as [? _]).
  assert (mem_char (lit "diouxXfFeEgGA") conv = true ∧ float_conv conv = false) as [Hc2 Hfc].
  { unfold mem_char in Hconv. apply bool_decide_eq_true in Hconv. cbn in Hconv.
    repeat (apply elem_of_cons in Hconv as [->|Hconv]; [done|]). by apply elem_of_nil in Hconv. }
  unfold spec_text. rewrite Hfc. unfold integer_nspec. rewrite (spec_core mid (mod_text m) conv).
  rewrite (filter_mods _ _ (mod_text m)); [|done|done|by destruct m].
  assert (length (lit "%" ++ mid ++ lit "ll" ++ [conv]) = length mid + 4)%nat as El
    by (rewrite !length_app; change (length (lit "%")) with 1%nat; change (length (lit "ll")) with 2%nat;
        cbn [length]; lia).
  rewrite El, (proj2 (Nat.ltb_lt _ _)) by lia. rewrite some_bind.
  rewrite (read_integer mid m conv v args) by done.
  unfold sprintf_ll. change (lit "%") with [chPERCENT]. change (lit "ll") with [108; 108].
  cbn [app]. rewrite !some_bind, Z.eqb_refl.
  change (mid ++ 108 :: 108 :: [conv]) with (mid ++ [108; 108; conv]).
  rewrite (spec_parse mid Hmid [108; 108; conv] eq_refl), Hic. by rewrite !Z.eqb_refl.
Qed.

Lemma float_conv_facts conv :
  mem_char (lit "fFeEgGA") conv = true →
  mem_char (lit "diouxXfFeEgGA") conv = true ∧ float_conv conv = true ∧
  not_directive conv = true ∧ (conv =? 76) = false.
Proof.
  intros Hconv. unfold mem_char in Hconv. apply bool_decide_eq_true in Hconv. cbn in Hconv.
  repeat (apply elem_of_cons in Hconv as [->|Hconv]; [done|]). by apply elem_of_nil in Hconv.
Qed.

Lemma spec_text_double mid conv x args :
  directive_ok mid → mem_char (lit "fFeEgGA") conv = true →
  spec_text (lit "%" ++ (mid ++ []) ++ [conv]) conv (ArgDouble x :: args) =
  Some (print_double (fst (parse_directive mid)) conv x, args).
Proof.
  intros Hmid Hconv. destruct (float_conv_facts conv Hconv) as (Hc & Hfc & Hnd & HL).
  unfold spec_text. rewrite Hfc.
  assert (contains (lit "%" ++ (mid ++ []) ++ [conv]) (lit "L") = false) as ->.
  { change (lit "L") with [76]. rewrite (spec_contains mid [] conv Hmid 76 []) by done.
    unfold contains, strstr, cstr, not_nul.
    cbn [app take_while]. destruct (negb (conv =? 0)); [|done].
    cbn [find_sub starts_with]. by rewrite Z.eqb_sym, HL. }
  cbn [va_arg_double]. rewrite some_bind. unfold sprintf_double.
  change (lit "%") with [chPERCENT]. cbn [app]. rewrite Z.eqb_refl.
  rewrite app_nil_r. rewrite (spec_parse mid Hmid [conv] Hnd), Hfc. done.
Qed.

Lemma spec_text_long_double mid conv x args :
  directive_ok mid → mem_char (lit "fFeEgGA") conv = true →
  spec_text (lit "%" ++ (mid ++ lit "L") ++ [conv]) conv (ArgLongDouble x :: args) =
  Some (print_long_double (fst (parse_directive mid)) conv x, args).
Proof.
  intros Hmid Hconv. destruct (float_conv_facts conv Hconv) as (Hc & Hfc & Hnd & HL).
  unfold spec_text. rewrite Hfc.
  assert (contains (lit "%" ++ (mid ++ lit "L") ++ [conv]) (lit "L") = true) as ->.
  { etrans; [by apply (spec_contains mid (lit "L") conv Hmid)|]. done. }
  cbn [va_arg_long_double]. rewrite some_bind. unfold long_double_nspec.
  rewrite (spec_core mid (lit "L") conv), (filter_mods _ _ (lit "L")) by done.
  unfold sprintf_long_double.
  change (lit "%") with [chPERCENT]. change (lit "L") with [76]. cbn [app]. rewrite Z.eqb_refl.
  change (mid ++ 76 :: [conv]) with (mid ++ [76; conv]).
  rewrite (spec_parse mid Hmid [76; conv] eq_refl), Hfc. done.
Qed.

(** A supported directive goes to [step_number]. *)
Lemma step_general_spec mid mt conv b f args text args' (Q : _ → world → Prop) w :
  directive_ok mid → Forall (λ c, mem_char (lit "hlzjtL") c = true) mt →
  mem_char (lit "diouxXfFeEgGA") conv = true → (length (mid ++ mt) + 2 < 64)%nat →
  spec_text (lit "%" ++ (mid ++ mt) ++ [conv]) conv args = Some (text, args') →
  wp (step_number (float_conv conv) text b f args') Q w →
  wp (step_general b (((mid ++ mt) ++ [conv]) ++ f) args) Q w.
Proof.
  intros Hmid Hmt Hconv Hlen Htext HQ. unfold step_general.
  destruct (spec_found mid mt conv Hmid Hmt Hconv f) as [-> ->].
  assert (length (lit "%" ++ (mid ++ mt) ++ [conv]) = length (mid ++ mt) + 2)%nat as ->
    by (rewrite !length_app; change (length (lit "%")) with 1%nat; cbn [length]; lia).
  rewrite (proj2 (Nat.ltb_lt _ _)) by lia. rewrite (spec_accepted mid mt conv) by done.
  destruct (spec_width_ok mid mt conv Hmid Hmt Hconv) as (n & -> & Hn).
  apply wp_bind, wp_ret. rewrite (proj2 (Z.ltb_ge _ _)) by lia. rewrite Htext.
  by apply wp_bind, wp_ret.
Qed.
End texts.

(** ** The loop *)

Section loop.
Context `{!Allocator, !Floats}.

(** The first test of a round: there is room for one more character. *)
Lemma step_room_spec w0 w R b text bs :
  owns w0 w (bs ++ R) → buf_at b text bs → Z.of_nat (length text) < MAX_TEXT →
  wp (if jb_cap b <=? Z.of_nat (jb_pos b) + 1 then grow_once b else mret (true, b))
    (λ '(ok, b') w', ∃ bs', owns w0 w' (bs' ++ R) ∧ buf_at b' text bs' ∧
       if ok : bool then Z.of_nat (length text + 1) < jb_cap b' else alloc_failure) w.
Proof.
  intros Ho Hb Hlen. assert (jb_pos b = length text) as Hp by (by destruct Hb as (? & ? & _ & _ & ? & _)).
  assert (256 <= jb_cap b) by (by destruct Hb as (? & ? & _ & _ & _ & _ & [? _] & _)).
  assert (Z.of_nat (length text) < jb_cap b) by (by destruct Hb as (? & ? & _ & _ & _ & _ & _ & ?)).
  unfold MAX_TEXT in Hlen. case_test; bool_prop.
  - eapply wp_mono; [eapply grow_once_spec; [exact Ho|exact Hb|lia]|].
    intros [ok b'] w1 (bs' & Ho1 & Hb1 & Hok). exists bs'. split_and!; try done. destruct ok; [lia|done].
  - apply wp_ret. exists bs. split_and!; try done. lia.
Qed.

Lemma step_put_spec w0 w R b text bs c f args :
  owns w0 w (bs ++ R) → buf_at b text bs → Z.of_nat (length text + 1) < jb_cap b →
  wp (b ← put_bytes [c] b; mret (inr (b, f, args))) (step_post false w0 R (text ++ [c]) f args) w.
Proof.
  intros Ho Hb Hroom. apply wp_bind. eapply put_bytes_spec; [exact Ho|exact Hb|cbn [length]; lia|].
  intros b' bs' w' Ho' Hb' _. apply wp_ret. left. by exists b', bs'.
Qed.

Lemma string_ok_text s : string_ok s → Forall is_cchar (string_text s).
Proof.
  destruct s as [s|]; [done|]. intros _. unfold is_cchar. by repeat constructor.
Qed.

Lemma number_step w0 w R b tx bs mid mt conv f args args' t text :
  owns w0 w (bs ++ R) → buf_at b tx bs →
  directive_ok mid → Forall (λ c, mem_char (lit "hlzjtL") c = true) mt →
  mem_char (lit "diouxXfFeEgGA") conv = true → (length (mid ++ mt) + 2 < 64)%nat →
  spec_text (lit "%" ++ (mid ++ mt) ++ [conv]) conv args = Some (t, args') →
  fits_int t → (t = [] → float_conv conv = false) → text = number_text (float_conv conv) t →
  Z.of_nat (length tx) + Z.of_nat (length text) < MAX_TEXT →
  wp (step_general b (((mid ++ mt) ++ [conv]) ++ f) args) (step_post false w0 R (tx ++ text) f args') w.
Proof.
  intros Ho Hb Hmid Hmt Hconv Hlen Htext Hfit Hnil -> Hmax.
  eapply step_general_spec; [done..|]. by eapply step_number_spec.
Qed.

(** What follows the digits is still in the list when something else is. *)
Lemma head_drop_while (f P : Z → bool) l k y :
  Forall (λ x, P x = true) l → Exists (λ x, f x = false) l →
  head (drop_while f (l ++ k)) = Some y → P y = true.
Proof.
  intros Hall Hex. induction Hall as [|x l Hx Hall IH]; [by inversion Hex|]. cbn [app drop_while].
  destruct (f x) eqn:Ef; [|by intros [= <-]]. apply IH.
  apply Exists_cons in Hex as [?|?]; [congruence|done].
Qed.

(** A directive that is none of the special ones goes to the general case. *)
Lemma general_first mid mt conv f (c : Z) (k : bytes) :
  directive_ok mid → Forall (λ c, mem_char (lit "hlzjtL") c = true) mt →
  mem_char (lit "diouxXfFeEgGA") conv = true →
  ((mid ++ mt) ++ [conv]) ++ f = c :: k →
  c =? chPERCENT = false ∧ c =? chSTAR = false ∧ c =? 115 = false ∧ c =? 99 = false ∧
  ((c =? chDOT) && bool_decide (head (drop_while isdigit k) = Some 115))%bool = false.
Proof.
  intros Hmid Hmt Hconv E.
  set (P := λ x, negb ((x =? chPERCENT) || (x =? chSTAR) || (x =? 115) || (x =? 99))%bool).
  assert (Forall (λ x, P x = true) ((mid ++ mt) ++ [conv])) as Hall.
  { apply Forall_app. split; [by apply (spec_chars mid mt Hmid Hmt)|]. constructor; [|done].
    by apply (conv_forall conv Hconv). }
  destruct ((mid ++ mt) ++ [conv]) as [|x l] eqn:El; [by apply app_nil in El as [_ ?]|].
  cbn [app] in E. injection E as -> <-. apply Forall_cons in Hall as [Hc Hall].
  unfold P in Hc. apply negb_true_iff, orb_false_iff in Hc as [[[? ?]%orb_false_iff ?]%orb_false_iff ?].
  split_and!; try done. apply andb_false_iff. destruct (c =? chDOT) eqn:Edot; [right|by left].
  apply bool_decide_eq_false. intros Hs. apply (head_drop_while isdigit P l f 115 Hall) in Hs; [done|].
  destruct l as [|z l _] using rev_ind.
  { destruct (mid ++ mt) as [|? ?] eqn:Em; [|by injection El as _ [_ ?]%app_nil].
    injection El as ->. bool_prop. subst c. by vm_compute in Hconv. }
  rewrite app_comm_cons in El. apply app_inj_tail in El as [_ <-]. apply Exists_app. right. constructor.
  apply negb_true_iff. by apply (conv_forall conv Hconv (λ c, negb (isdigit c))).
Qed.

(** A piece that goes to the general case. *)
Lemma number_piece w0 w R b tx bs mid mt conv f args args' t text :
  owns w0 w (bs ++ R) → buf_at b tx bs →
  directive_ok mid → Forall (λ c, mem_char (lit "hlzjtL") c = true) mt →
  mem_char (lit "diouxXfFeEgGA") conv = true → (length (mid ++ mt) + 2 < 64)%nat →
  spec_text (lit "%" ++ (mid ++ mt) ++ [conv]) conv args = Some (t, args') →
  fits_int t → (t = [] → float_conv conv = false) → text = number_text (float_conv conv) t →
  Z.of_nat (length tx) + Z.of_nat (length text) < MAX_TEXT →
  wp (jsonf_piece b ((lit "%" ++ (mid ++ mt) ++ [conv]) ++ f) args)
    (step_post false w0 R (tx ++ text) f args') w.
Proof.
  intros Ho Hb Hmid Hmt Hc Hlen Htext Hfit Hnil Htx Hmax.
  destruct (((mid ++ mt) ++ [conv]) ++ f) as [|c k] eqn:E; [by destruct mid, mt|].
  rewrite <-(assoc_L app (lit "%")), E. change (lit "%" ++ c :: k) with (chPERCENT :: c :: k).
  destruct (general_first mid mt conv f c k Hmid Hmt Hc E) as (H1 & H2 & H3 & H4 & H5).
  unfold jsonf_piece. rewrite Z.eqb_refl, H1, H2, H3, H4, H5. cbn [negb]. rewrite <-E.
  by eapply number_step.
Qed.

Lemma integer_conv_facts d conv :
  integer_conv d conv = true →
  mem_char (lit "diouxXfFeEgGA") conv = true ∧ float_conv conv = false.
Proof.
  intros [Hc _]%andb_prop. unfold mem_char in Hc. apply bool_decide_eq_true in Hc.
  cbn in Hc. repeat (apply elem_of_cons in Hc as [->|Hc]; [done|]). by apply elem_of_nil in Hc.
Qed.

(** One round of the loop for a supported piece. *)
Lemma seg_piece_spec w0 w R b text bs s f args :
  owns w0 w (bs ++ R) → buf_at b text bs → Z.of_nat (length text + 1) < jb_cap b → seg_ok s →
  Z.of_nat (length text) + Z.of_nat (length (seg_text s)) < MAX_TEXT →
  wp (jsonf_piece b (seg_format s ++ f) (seg_args s ++ args))
    (step_post (is_precision s) w0 R (text ++ seg_text s) f args) w.
Proof.
  intros Ho Hb Hroom Hs Hlen.
  destruct s as [c| |s|ds s|c|mid m conv v|mid conv x|mid conv x];
    cbn [seg_format seg_args seg_text seg_ok is_precision] in *.
  - destruct Hs as [_ Hp]. unfold jsonf_piece. cbn [app]. rewrite (proj2 (Z.eqb_neq _ _)) by done.
    by eapply step_put_spec.
  - by eapply step_put_spec.
  - change (lit "%s" ++ f) with (chPERCENT :: 115 :: f). unfold jsonf_piece.
    cbn [Z.eqb Pos.eqb negb andb app]. apply wp_bind, wp_ret.
    apply step_string_spec with (s := s) (bs := bs); [done|done| |done].
    eapply Forall_impl; [by apply string_ok_text|]. unfold is_cchar. lia.
  - destruct Hs as (Hds & Hmax & Hs). rewrite <-!(assoc_L app).
    change (lit "%." ++ ds ++ lit "s" ++ f) with (chPERCENT :: chDOT :: ds ++ 115 :: f).
    unfold jsonf_piece. cbn [Z.eqb Pos.eqb negb andb app].
    destruct (take_while_app isdigit ds (115 :: f) Hds) as [-> ->]; [by intros x [= <-]|].
    rewrite bool_decide_true by done. unfold spec_precision.
    rewrite (proj2 (Z.ltb_ge (2 ^ 31 - 1) (dec_val ds))) by lia.
    apply wp_bind, wp_ret, wp_bind, wp_ret.
    by apply step_precision_spec with (s := s) (bs := bs); [..|apply string_ok_text|].
  - change (lit "%c" ++ f) with (chPERCENT :: 99 :: f). unfold jsonf_piece.
    cbn [Z.eqb Pos.eqb negb andb app]. rewrite va_arg_int_same. apply wp_bind, wp_ret.
    by eapply step_char_spec.
  - destruct Hs as (Hmid & Hconv & Hl & _ & Hfit). destruct (integer_conv_facts _ _ Hconv) as [Hc Hf].
    eapply number_piece;
      [exact Ho|exact Hb|done|apply mod_text_letters|done| |by apply spec_text_integer|exact Hfit|by rewrite Hf..|lia].
    assert (length (mod_text m) ≤ 2)%nat by (destruct m; vm_compute; lia). rewrite length_app. lia.
  - destruct Hs as (Hmid & Hconv & Hl & Hne & Hfit). destruct (float_conv_facts _ Hconv) as (Hc & Hf & _).
    eapply number_piece;
      [exact Ho|exact Hb|done|done|done| |by apply spec_text_double|exact Hfit|done|by rewrite Hf|lia].
    rewrite length_app. cbn. lia.
  - destruct Hs as (Hmid & Hconv & Hl & Hne & Hfit). destruct (float_conv_facts _ Hconv) as (Hc & Hf & _).
    eapply number_piece;
      [exact Ho|exact Hb|done|by repeat constructor|done| |by apply spec_text_long_double|exact Hfit|done|by rewrite Hf|lia].
    rewrite length_app. change (length (lit "L")) with 1%nat. lia.
Qed.

Lemma seg_step_spec w0 w R b text bs s f args :
  owns w0 w (bs ++ R) → buf_at b text bs → seg_ok s →
  Z.of_nat (length text) + Z.of_nat (length (seg_text s)) < MAX_TEXT →
  wp (jsonf_step b (seg_format s ++ f) (seg_args s ++ args))
    (step_post (is_precision s) w0 R (text ++ seg_text s) f args) w.
Proof.
  intros Ho Hb Hs Hlen. unfold jsonf_step. apply wp_bind.
  eapply wp_mono; [eapply step_room_spec; [exact Ho|exact Hb|lia]|].
  intros [ok b1] w1 (bs1 & Ho1 & Hb1 & Hok). destruct ok; cbn [negb]; [|by eapply give_up_post].
  by eapply seg_piece_spec.
Qed.

(** What happens when there is no memory for a piece of [segs]. *)
Definition out_of_memory (w0 : world) (R : list (loc * bytes)) (segs : list segment)
    (r : mnet_response_t) (w' : world) : Prop :=
  alloc_failure ∧ ∃ bs leak, null_response r bs ∧ (existsb is_precision segs = false → leak = []) ∧
    owns w0 w' (bs ++ leak ++ R).

Lemma seg_format_nonempty s : seg_format s ≠ [].
Proof. by destruct s. Qed.

(** The loop works off the supported pieces at the start of the format. *)
Lemma jsonf_loop_spec w0 R segs f args (Q : mnet_response_t → world → Prop) : ∀ fuel w b bs text,
  owns w0 w (bs ++ R) → buf_at b text bs → Forall seg_ok segs →
  Z.of_nat (length text) + Z.of_nat (length (text_of segs)) < MAX_TEXT →
  (length (format_of segs ++ f) ≤ fuel)%nat →
  (∀ fuel' w' b' bs', owns w0 w' (bs' ++ R) → buf_at b' (text ++ text_of segs) bs' →
     (length f ≤ fuel')%nat → wp (jsonf_loop fuel' b' f args) Q w') →
  (∀ r w', out_of_memory w0 R segs r w' → Q r w') →
  wp (jsonf_loop fuel b (format_of segs ++ f) (args_of segs ++ args)) Q w.
Proof.
  induction segs as [|s segs IH]; intros fuel w b bs text Ho Hb Hok Hlen Hfuel HQ Hfail.
  { eapply HQ; [exact Ho| |exact Hfuel]. by rewrite app_nil_r. }
  apply Forall_cons in Hok as [Hs Hok]. unfold text_of, format_of, args_of in *.
  rewrite !fmap_cons in *. cbn [concat] in *. rewrite <-!(assoc_L app) in *. rewrite !length_app in Hlen.
  pose proof (seg_format_nonempty s) as Hne.
  destruct (seg_format s ++ concat (seg_format <$> segs) ++ f) as [|c k] eqn:E;
    [apply app_nil in E as [? _]; congruence|].
  destruct fuel as [|fuel]; [cbn in Hfuel; lia|]. cbn [jsonf_loop]. rewrite <-E.
  assert (length (concat (seg_format <$> segs) ++ f) ≤ fuel)%nat as Hfuel'.
  { apply (f_equal length) in E. rewrite length_app in E. cbn [length] in *.
    destruct (seg_format s); [done|]. cbn [length] in E. lia. }
  apply wp_bind. eapply wp_mono; [eapply seg_step_spec; [exact Ho|exact Hb|exact Hs|lia]|].
  intros r w1 [(b1 & bs1 & -> & Hb1 & Ho1)|(Hf & leak & Hleak & resp & bs1 & -> & Hr & Ho1)].
  - apply (IH fuel w1 b1 bs1 (text ++ seg_text s)); [done..| |done| |].
    + rewrite length_app. lia.
    + intros fuel' w' b' bs' Ho' Hb' Hfuel2. rewrite <-(assoc_L app) in Hb'. by eapply HQ.
    + intros r w' (Hf & bs' & leak & Hr & Hleak & Ho'). apply Hfail. split; [done|].
      exists bs', leak. split_and!; [done| |done]. cbn [existsb]. intros [_ ?]%orb_false_iff. by apply Hleak.
  - apply wp_ret, Hfail. split; [done|]. exists bs1, leak. split_and!; [done| |done].
    cbn [existsb]. intros [? _]%orb_false_iff. by apply Hleak.
Qed.

(** The rendered text, or the answer [null] because there is no memory. *)
Definition jsonf_result (w0 : world) (segs : list segment) (r : mnet_response_t) (w' : world) : Prop :=
  (∃ l k, r = MkResponse 200 (Some json_type) (Some l) (length (text_of segs)) false ∧
     owns w0 w' [(l, text_of segs ++ 0 :: k)]) ∨
  out_of_memory w0 [] segs r w'.

Lemma jsonf_end_spec w0 w R fuel b text bs args (Q : mnet_response_t → world → Prop) :
  owns w0 w (bs ++ R) → buf_at b text bs →
  (∀ l k w', owns w0 w' ((l, text ++ 0 :: k) :: R) →
     Q (MkResponse 200 (Some json_type) (Some l) (length text) false) w') →
  wp (jsonf_loop fuel b [] args) Q w.
Proof.
  intros Ho (l & k & Hl & -> & Hp & Hcap & Hr & Hroom) HQ.
  destruct k as [|x k]; [rewrite app_nil_r in Hcap; lia|].
  assert (wp (old ← load (jb_ptr b);
     (if (jb_pos b <? length old)%nat then store (jb_ptr b) (splice (jb_pos b) [chNUL] old) else ub);;
     mret (MkResponse 200 (Some json_type) (jb_ptr b) (jb_pos b) false)) Q w) as Hend.
  { rewrite Hl, Hp. apply wp_bind. eapply wp_load; [exact Ho|by left|].
    rewrite (proj2 (Nat.ltb_lt _ _)) by (rewrite length_app; cbn [length]; lia).
    apply wp_bind. eapply (wp_store _ _ R _ _ (text ++ x :: k)); [exact Ho|done| |].
    { rewrite length_splice; [done|]. rewrite length_app. cbn [length]. lia. }
    intros w1 Ho1. apply wp_ret. apply (HQ l k).
    unfold splice in Ho1. rewrite take_app_length, drop_app_ge in Ho1 by (cbn [length]; lia).
    replace (length text + length [chNUL] - length text)%nat with 1%nat in Ho1 by (cbn [length]; lia).
    exact Ho1. }
  destruct fuel; exact Hend.
Qed.

Lemma jsonfv_spec segs w :
  wf_world w → Forall seg_ok segs → Z.of_nat (length (text_of segs)) < MAX_TEXT →
  wp (mnet_jsonfv (Some (format_of segs)) (args_of segs)) (jsonf_result w segs) w.
Proof.
  intros Hwf Hok Hlen. unfold mnet_jsonfv. apply wp_bind. eapply wp_alloc; [by apply owns_refl| |].
  - intros w1 Hf Ho1. eapply wp_mono; [by eapply (jsonf_null_spec _ _ [])|].
    intros r w2 (bs & Ho2 & Hr). right. split; [done|]. by exists bs, [].
  - intros l w1 Ho1.
    rewrite <-(app_nil_r (format_of segs)) at 2. rewrite <-(app_nil_r (args_of segs)).
    eapply (jsonf_loop_spec w [] segs [] [] _ _ _ _ [(l, replicate 256 0)] []); [exact Ho1| |done|done| | |].
    + exists l, (replicate 256 0). by split_and!.
    + by rewrite app_nil_r.
    + intros fuel w2 b bs Ho2 Hb _. eapply jsonf_end_spec; [exact Ho2|exact Hb|].
      intros l2 k w3 Ho3. left. by exists l2, k.
    + intros r w2 Hr. by right.
Qed.
End loop.

(** *** As part of a handler *)

(** The blocks [rb] of the answer to a call with [segs]. *)
Definition jsonf_answer `{!Allocator, !Floats} (segs : list segment) (r : mnet_response_t)
    (rb : list (loc * bytes)) : Prop :=
  (∃ l k, r = MkResponse 200 (Some json_type) (Some l) (length (text_of segs)) false ∧
     rb = [(l, text_of segs ++ 0 :: k)]) ∨
  (alloc_failure ∧ null_response r rb).

(** Ordinary characters of a format. *)
Definition text_segs `{!Floats} (s : bytes) : list segment := SegText <$> s.

Section answer.
Context `{!Allocator, !Floats}.

Lemma jsonf_answer_spec w0 w R segs :
  owns w0 w R → Forall seg_ok segs → Z.of_nat (length (text_of segs)) < MAX_TEXT →
  existsb is_precision segs = false →
  wp (mnet_jsonf (Some (format_of segs)) (args_of segs))
    (λ r w', ∃ rb, owns w0 w' (rb ++ R) ∧ jsonf_answer segs r rb) w.
Proof.
  intros Ho Hok Hlen Hp. eapply wp_mono; [apply jsonfv_spec; [by eapply owns_wf_world|done..]|].
  intros r w' [(l & k & -> & Ho')|(Hf & bs & leak & Hr & Hleak & Ho')].
  - eexists. split; [by eapply owns_trans|]. left. by eexists _, _.
  - rewrite (Hleak Hp), !app_nil_r in Ho'. exists bs. split; [by eapply owns_trans|by right].
Qed.

Lemma jsonf_answer_owned segs r rb : jsonf_answer segs r rb → response_owned r rb.
Proof.
  unfold response_owned.
  intros [(l & k & -> & ->)|(_ & p & -> & [(-> & -> & _)|(l & -> & ->)])]; cbn; [|done|].
  - eexists. split; [done|]. rewrite length_app. lia.
  - eexists. split; [done|]. vm_compute. lia.
Qed.

Lemma format_of_app segs segs' : format_of (segs ++ segs') = format_of segs ++ format_of segs'.
Proof. unfold format_of. by rewrite fmap_app, concat_app. Qed.
Lemma args_of_app segs segs' : args_of (segs ++ segs') = args_of segs ++ args_of segs'.
Proof. unfold args_of. by rewrite fmap_app, concat_app. Qed.
Lemma text_of_app segs segs' : text_of (segs ++ segs') = text_of segs ++ text_of segs'.
Proof. unfold text_of. by rewrite fmap_app, concat_app. Qed.

Lemma text_segs_of s :
  format_of (text_segs s) = s ∧ args_of (text_segs s) = [] ∧ text_of (text_segs s) = s.
Proof.
  unfold format_of, args_of, text_of, text_segs. rewrite <-!list_fmap_compose.
  induction s as [|c s (IH1 & IH2 & IH3)]; [done|]. rewrite !fmap_cons. cbn.
  by rewrite IH1, IH2, IH3.
Qed.

Lemma text_segs_ok s : Forall (λ c, c ≠ 0 ∧ c ≠ chPERCENT) s → Forall seg_ok (text_segs s).
Proof. intros Hs. by apply Forall_fmap. Qed.
End answer.

(** ** Formats that are refused *)

(** What follows the [%] is one of the directives the code refuses: nothing, a
    dynamic width, an unfinished directive, one with a conversion or a modifier
    that is not allowed, or one with a width above 4096. *)
Definition bad_directive (f : bytes) : bool :=
  match f with
  | [] => true
  | c :: f1 =>
      if c =? chSTAR then true
      else if ((c =? chPERCENT) || (c =? 115) || (c =? 99) ||
               (c =? chDOT) && bool_decide (head (drop_while isdigit f1) = Some 115))%bool
      then false
      else
        match spec_end f with
        | [] => true
        | conv :: _ =>
            let spec := lit "%" ++ spec_middle f ++ [conv] in
            ((length spec <? 64)%nat &&
             (reject_spec spec conv ||
              match spec_width spec with Some width => 4096 <? width | None => false end))%bool
        end
  end.

Section refuse.
Context `{!Allocator, !Floats}.

Lemma bad_piece_spec w0 w R b text bs f args :
  owns w0 w (bs ++ R) → buf_at b text bs → bad_directive f = true →
  wp (jsonf_piece b (chPERCENT :: f) args) (gave_up w0 R []) w.
Proof.
  intros Ho Hb Hbad.
  assert (wp (jsonf_give_up b) (gave_up w0 R []) w) as Hgive
    by (by eapply (give_up_spec _ _ R []); [exact Ho|exact Hb]).
  unfold jsonf_piece, bad_directive in *. rewrite Z.eqb_refl. cbn [negb].
  destruct f as [|c f1]; [done|]. destruct (c =? chSTAR) eqn:Estar.
  { bool_prop. subst c. done. }
  destruct (_ || _)%bool eqn:Especial; [done|].
  apply orb_false_iff in Especial as [[[E1 E2]%orb_false_iff E3]%orb_false_iff E4].
  rewrite E1, E4, E2, E3. unfold step_general.
  destruct (spec_end (c :: f1)) as [|conv f']; [done|]. cbv zeta in Hbad.
  apply andb_prop in Hbad as [-> Hbad]. destruct (reject_spec _ conv) eqn:Er; [done|]. cbn [orb] in Hbad.
  destruct (spec_width _) as [width|]; [|done]. apply wp_bind, wp_ret. by rewrite Hbad.
Qed.

Lemma jsonfv_bad_spec segs f args w :
  wf_world w → Forall seg_ok segs → Z.of_nat (length (text_of segs)) < MAX_TEXT - 1 →
  bad_directive f = true →
  wp (mnet_jsonfv (Some (format_of segs ++ chPERCENT :: f)) (args_of segs ++ args))
    (λ r w', ∃ bs leak, null_response r bs ∧ owns w w' (bs ++ leak) ∧
       (leak ≠ [] → alloc_failure ∧ existsb is_precision segs = true)) w.
Proof.
  intros Hwf Hok Hlen Hbad. unfold mnet_jsonfv. apply wp_bind. eapply wp_alloc; [by apply owns_refl| |].
  - intros w1 Hf Ho1. eapply wp_mono; [by eapply (jsonf_null_spec _ _ [])|].
    intros r w2 (bs & Ho2 & Hr). rewrite app_nil_r in Ho2. exists bs, []. by rewrite app_nil_r.
  - intros l w1 Ho1.
    eapply (jsonf_loop_spec w [] segs (chPERCENT :: f) args _ _ _ _ [(l, replicate 256 0)] []);
      [exact Ho1| |done|cbn [length]; lia|done| |].
    + exists l, (replicate 256 0). by split_and!.
    + cbn [app]. intros fuel w2 b bs Ho2 Hb Hfuel. destruct fuel as [|fuel]; [cbn in Hfuel; lia|].
      cbn [jsonf_loop]. apply wp_bind. unfold jsonf_step. apply wp_bind.
      assert (∀ r v, gave_up w [] [] r v → wp (match r with
          | inl r => mret r | inr (b, f, args) => jsonf_loop fuel b f args end)
        (λ r w', ∃ bs leak, null_response r bs ∧ owns w w' (bs ++ leak) ∧
           (leak ≠ [] → alloc_failure ∧ existsb is_precision segs = true)) v) as Hgive.
      { intros r v (resp & bs' & -> & Hr & Ho'). apply wp_ret. by exists bs', []. }
      eapply wp_mono; [eapply step_room_spec; [exact Ho2|exact Hb|lia]|].
      intros [ok b1] w3 (bs1 & Ho3 & Hb1 & Hok1). destruct ok; cbn [negb].
      * eapply wp_mono; [by eapply bad_piece_spec|exact Hgive].
      * eapply wp_mono; [by eapply (give_up_spec _ _ [] [])|exact Hgive].
    + intros r w2 (Hf & bs & leak & Hr & Hleak & Ho2). rewrite app_nil_r in Ho2. exists bs, leak.
      split_and!; [done|done|]. intros Hne. split; [done|].
      destruct (existsb is_precision segs); [done|]. by destruct Hne; apply Hleak.
Qed.
End refuse.

(** ** Strings inside JSON strings *)

(** The raw text of a JSON string up to its closing quote, and what follows. *)
Fixpoint json_string_end (s : bytes) : option (bytes * bytes) :=
  match s with
  | [] => None
  | c :: s =>
      if c =? chQUOTE then Some ([], s)
      else if c =? chBACKSLASH then
        match s with
        | e :: s => prod_map (λ raw, c :: e :: raw) id <$> json_string_end s
        | [] => None
        end
      else prod_map (cons c) id <$> json_string_end s
  end.

Lemma json_string_end_plain l k :
  Forall (λ c, c ≠ chQUOTE ∧ c ≠ chBACKSLASH) l →
  json_string_end (l ++ k) = prod_map (app l) id <$> json_string_end k.
Proof.
  intros Hl. induction Hl as [|c l [Hq Hb] Hl IH]; cbn [app].
  - by destruct (json_string_end k) as [[? ?]|].
  - cbn [json_string_end]. rewrite (proj2 (Z.eqb_neq c chQUOTE)), (proj2 (Z.eqb_neq c chBACKSLASH)) by done.
    rewrite IH. by destruct (json_string_end k) as [[? ?]|].
Qed.

Lemma json_string_end_char c k :
  0 <= c → json_string_end (json_escape_char c ++ k) =
           prod_map (app (json_escape_char c)) id <$> json_string_end k.
Proof.
  intros Hc. unfold json_escape_char.
  do 5 (case_test; [by cbn; destruct (json_string_end k) as [[? ?]|]|]). case_test; bool_prop.
  - rewrite print_hex4_control by lia.
    assert (∀ d, 0 <= d < 16 → digit_char d ≠ chQUOTE ∧ digit_char d ≠ chBACKSLASH) as Hd.
    { intros d Hr. apply digit_char_range in Hr. lia. }
    pose proof (Z.mod_pos_bound c 16 ltac:(lia)). pose proof (Z.div_mod c 16 ltac:(lia)).
    set (ds := [ch0; ch0; digit_char (c / 16); digit_char (c mod 16)]).
    assert (json_string_end (ds ++ k) = prod_map (app ds) id <$> json_string_end k) as E.
    { apply json_string_end_plain. unfold ds.
      repeat apply Forall_cons_2; [done|done|apply Hd; lia|apply Hd; lia|constructor]. }
    rewrite <-(assoc_L app). change ([chBACKSLASH; 117] ++ ds ++ k) with (chBACKSLASH :: 117 :: ds ++ k).
    generalize dependent (ds ++ k). intros rest E. cbn. rewrite E. by destruct (json_string_end k) as [[? ?]|].
  - apply (json_string_end_plain [c]). by repeat constructor.
Qed.

(** An escaped string does not close the string it stands in. *)
Lemma json_string_end_escape s k :
  Forall (λ c, 0 <= c) s →
  json_string_end (json_escape_all s ++ chQUOTE :: k) = Some (json_escape_all s, k).
Proof.
  intros Hs. induction Hs as [|c s Hc Hs IH]; [done|].
  change (json_escape_all (c :: s)) with (json_escape_char c ++ json_escape_all s).
  rewrite <-(assoc_L app), json_string_end_char, IH by done. done.
Qed.

(** ** Typed formats

    The types of the arguments a format asks for. *)

Inductive arg_type := TInt (rank : int_rank) (signed : bool) | TDouble | TLongDouble | TString.

(** The longest string, and the largest width and precision, of a typed call. *)
Definition MAX_STRING : Z := 2 ^ 31.
Definition MAX_FIELD : Z := 2 ^ 20.

Section typing.
Context `{!Floats}.

Definition arg_has_type (a : arg) (t : arg_type) : Prop :=
  match a, t with
  | ArgInt r s v, TInt r' s' => r = r' ∧ s = s' ∧ rank_range r s v
  | ArgDouble _, TDouble | ArgLongDouble _, TLongDouble => True
  | ArgString s, TString => string_ok s ∧ Z.of_nat (length (string_text s)) <= MAX_STRING
  | _, _ => False
  end.
End typing.

Definition field_sizes_ok (mid : bytes) : Prop :=
  directive_ok mid ∧ d_width (fst (parse_directive mid)) <= MAX_FIELD ∧
  default 0 (d_precision (fst (parse_directive mid))) <= MAX_FIELD.

Inductive piece_typed : bytes → list arg_type → Prop :=
  | pt_text c : c ≠ 0 → c ≠ chPERCENT → piece_typed [c] []
  | pt_percent : piece_typed (lit "%%") []
  | pt_string : piece_typed (lit "%s") [TString]
  | pt_precision ds : Forall (λ c, isdigit c = true) ds → dec_val ds < 2 ^ 31 →
      piece_typed (lit "%." ++ ds ++ lit "s") [TString]
  | pt_char : piece_typed (lit "%c") [TInt RInt true]
  | pt_integer mid m conv : field_sizes_ok mid →
      integer_conv (fst (parse_directive mid)) conv = true → (length mid + 4 < 64)%nat →
      piece_typed (lit "%" ++ (mid ++ mod_text m) ++ [conv]) [TInt (mod_rank m) (mod_signed m conv)]
  | pt_double mid conv : field_sizes_ok mid → mem_char (lit "fFeEgGA") conv = true →
      (length mid + 2 < 64)%nat → piece_typed (lit "%" ++ (mid ++ []) ++ [conv]) [TDouble]
  | pt_long_double mid conv : field_sizes_ok mid → mem_char (lit "fFeEgGA") conv = true →
      (length mid + 3 < 64)%nat → piece_typed (lit "%" ++ (mid ++ lit "L") ++ [conv]) [TLongDouble].

Inductive format_typed : bytes → list arg_type → Prop :=
  | ft_end : format_typed [] []
  | ft_piece p ts f us : piece_typed p ts → format_typed f us → format_typed (p ++ f) (ts ++ us).

Section soundness.
Context `{!Floats}.

Lemma mod_value_range m conv v :
  rank_range (mod_rank m) (mod_signed m conv) v → Z.abs (mod_value m conv v) < 2 ^ 64.
Proof.
  unfold rank_range, mod_value, mod_signed, to_signed, to_unsigned. intros Hv.
  destruct m; cbn [mod_rank rank_bits] in Hv; destruct (conv_signed conv); cbn [orb] in *;
    try lia; try (apply Z.abs_lt; split);
    try (pose proof (Z.mod_pos_bound v (2 ^ 8) ltac:(lia)));
    try (pose proof (Z.mod_pos_bound v (2 ^ 16) ltac:(lia)));
    try (pose proof (Z.mod_pos_bound v (2 ^ 64) ltac:(lia)));
    try (pose proof (Z.mod_pos_bound (v + 2 ^ (8 - 1)) (2 ^ 8) ltac:(lia)));
    try (pose proof (Z.mod_pos_bound (v + 2 ^ (16 - 1)) (2 ^ 16) ltac:(lia))); lia.
Qed.

Definition piece_sizes (s : segment) : Prop := Z.of_nat (length (seg_text s)) < 2 ^ 34.

Lemma string_sizes s :
  string_ok s → Z.of_nat (length (string_text s)) <= MAX_STRING →
  ∀ n, Z.of_nat (length (json_escape_all (take n (string_text s)))) < 2 ^ 34.
Proof.
  intros Hs Hl n. unfold MAX_STRING in Hl.
  assert (Forall (λ c, 0 <= c) (take n (string_text s))) as Hc.
  { apply Forall_take. eapply Forall_impl; [by apply string_ok_text|]. unfold is_cchar. lia. }
  pose proof (json_escape_length _ Hc). rewrite length_take in *. lia.
Qed.

Lemma float_fits (text : bytes) (w p : Z) :
  0 < Z.of_nat (length text) <= Z.max 0 w + Z.max 0 p + 5000 → w <= MAX_FIELD → p <= MAX_FIELD + 6 →
  text ≠ [] ∧ fits_int text ∧ Z.of_nat (length (number_text true text)) < 2 ^ 34.
Proof.
  unfold MAX_FIELD, fits_int, number_text. intros Hl Hw Hp. split_and!; [destruct text; [cbn in Hl; lia|done]|lia|].
  case_test; [vm_compute; done|lia].
Qed.

Lemma default_precision d :
  default 0 (d_precision d) <= MAX_FIELD → default 6 (d_precision d) <= MAX_FIELD + 6.
Proof. unfold MAX_FIELD. destruct (d_precision d); cbn; unfold id; lia. Qed.

Lemma length_escape_int_char c : (length (escape_int_char c) ≤ 6)%nat.
Proof.
  unfold escape_int_char. do 5 (case_test; [cbn; lia|]). case_test; [vm_compute; lia|].
  case_test; [rewrite length_take; lia|cbn; lia].
Qed.

(** Arguments of the right types make a typed piece a supported one. *)
Lemma piece_segment p ts args :
  piece_typed p ts → Forall2 arg_has_type args ts →
  ∃ s, seg_format s = p ∧ seg_args s = args ∧ seg_ok s ∧ piece_sizes s.
Proof.
  intros Hp Hargs. destruct Hp as [c H0 Hc| | |ds Hds Hm| |mid m conv (Hd & Hw & Hpr) Hi Hl
    |mid conv (Hd & Hw & Hpr) Hc Hl|mid conv (Hd & Hw & Hpr) Hc Hl];
    try (apply Forall2_nil_inv_r in Hargs as ->);
    try (apply Forall2_cons_inv_r in Hargs as (a & ? & Ha & ->%Forall2_nil_inv_r & ->); destruct a; try done).
  - by exists (SegText c).
  - by exists SegPercent.
  - destruct Ha as [Hs Hl]. exists (SegString s). split_and!; [done..|]. unfold piece_sizes. cbn [seg_text].
    pose proof (string_sizes s Hs Hl (length (string_text s))) as Hsz. by rewrite take_ge in Hsz.
  - destruct Ha as [Hs Hl]. exists (SegPrecision ds s). split_and!; [done..|]. by apply string_sizes.
  - destruct Ha as (-> & -> & Hr). exists (SegChar v). split_and!; [done..|].
    unfold piece_sizes. cbn [seg_text]. pose proof (length_escape_int_char v). lia.
  - destruct Ha as (-> & -> & Hr). exists (SegInteger mid m conv v). pose proof (mod_value_range _ _ _ Hr) as Hv.
    pose proof (length_print_integer (fst (parse_directive mid)) conv _ Hv) as Hlen. unfold MAX_FIELD in *.
    cbn [seg_format seg_args seg_ok]. unfold fits_int, piece_sizes. cbn [seg_text]. split_and!; try done; lia.
  - exists (SegDouble mid conv x). cbn [seg_format seg_args seg_ok]. unfold piece_sizes. cbn [seg_text].
    edestruct float_fits as (? & ? & ?); [apply (print_double_length (fst (parse_directive mid)) conv x)|done|
      by apply default_precision|]. by split_and!.
  - exists (SegLongDouble mid conv x). cbn [seg_format seg_args seg_ok]. unfold piece_sizes. cbn [seg_text].
    edestruct float_fits as (? & ? & ?); [apply (print_long_double_length (fst (parse_directive mid)) conv x)|done|
      by apply default_precision|]. by split_and!.
Qed.

Lemma format_segments f ts args :
  format_typed f ts → Forall2 arg_has_type args ts →
  ∃ segs, format_of segs = f ∧ args_of segs = args ∧ Forall seg_ok segs ∧ Forall piece_sizes segs.
Proof.
  intros Hf. revert args. induction Hf as [|p ts f us Hp Hf IH]; intros args Hargs.
  - apply Forall2_nil_inv_r in Hargs as ->. by exists [].
  - apply Forall2_app_inv_r in Hargs as (a1 & a2 & H1 & H2 & ->).
    destruct (piece_segment p ts a1 Hp H1) as (s & <- & <- & ? & ?).
    destruct (IH a2 H2) as (segs & <- & <- & ? & ?). exists (s :: segs).
    split_and!; [done|done|by constructor|by constructor].
Qed.

Lemma text_sizes segs :
  Forall piece_sizes segs → (Z.of_nat (length (format_of segs)) < 2 ^ 20) →
  Z.of_nat (length (text_of segs)) < MAX_TEXT.
Proof.
  intros Hs Hf. unfold MAX_TEXT.
  assert (Z.of_nat (length (text_of segs)) <= Z.of_nat (length (format_of segs)) * 2 ^ 34) as Hle; [|lia].
  clear Hf. induction Hs as [|s segs Hs _ IH]; [cbn; lia|]. unfold piece_sizes in Hs.
  unfold text_of, format_of in *. rewrite !fmap_cons. cbn [concat]. rewrite !length_app.
  pose proof (seg_format_nonempty s) as Hne.
  assert (1 ≤ length (seg_format s))%nat by (destruct (seg_format s); [done|cbn; lia]). lia.
Qed.
End soundness.

(** ** Properties *)


Lemma demo_format_typed :
  format_typed (lit "[%s,%05d%%]") [TString; TInt RInt true].
Proof.
  apply (ft_piece (lit "[") [] _ _); [by apply (pt_text 91)|].
  apply (ft_piece (lit "%s") [TString] _ _); [apply pt_string|].
  apply (ft_piece (lit ",") [] _ _); [by apply (pt_text 44)|].
  apply (ft_piece (lit "%05d") [TInt RInt true] _ _).
  { apply (pt_integer (lit "05") ModNone 100); [|done|vm_compute; lia].
    split; [split; [done|vm_compute; discriminate]|split; vm_compute; discriminate]. }
  apply (ft_piece (lit "%%") [] _ _); [apply pt_percent|].
  apply (ft_piece (lit "]") [] [] []); [by apply (pt_text 93)|apply ft_end].
Qed.



Definition demo_segments `{!Floats} : list segment :=
  [SegText 123; SegText 34; SegString (Some [97; 34; 10]); SegText 34; SegText 58;
   SegInteger (lit "05") ModHH 100 (-3); SegChar 34; SegPrecision (lit "2") (Some (lit "xyz"));
   SegPercent; SegText 125].

Lemma demo_segments_ok `{!Floats} : Forall seg_ok demo_segments.
Proof.
  unfold demo_segments. repeat apply Forall_cons_2; [..|by constructor]; cbn [seg_ok string_ok]; try done.
  all: split_and?; try done; by repeat constructor.
Qed.


Example jsonf_example :
  let f := lit "[%5d,%.1f,%s]" in
  let a := [ArgInt RInt true 42; @ArgDouble demo_floats false; ArgString (Some [34])] in
  match mnet_jsonfv (H := all_ok) (H0 := demo_floats) (Some f) a empty_world with
  | Some (r, w) => (λ b, take (rs_body_length r + 1) b) <$> (rs_body r ≫= λ l, w_heap w !! l)
  | None => None
  end = Some ([91; 32; 32; 32; 52; 50; 44; 110; 117; 108; 108; 44; 92; 34; 93; 0]).
Proof. by vm_compute. Qed.

(** C25: a string argument cannot leave the JSON string it is placed in: where a
    supported format has [%s] between quotes, a JSON reader that starts after the
    opening quote finds its end exactly where the argument ends, goes on with the
    rest of the format, and unescapes the argument unchanged. *)
Theorem jsonf_no_breakout `{!Allocator, !Floats} (pre post : list segment) (s : bytes) (w : world) :
  wf_world w → Forall seg_ok pre → Forall seg_ok post → Forall is_cchar s →
  let segs := pre ++ [SegText chQUOTE; SegString (Some s); SegText chQUOTE] ++ post in
  Z.of_nat (length (text_of segs)) < MAX_TEXT →
  wp (mnet_jsonfv (Some (format_of segs)) (args_of segs))
    (λ r w', (alloc_failure ∧ rs_status r = 500) ∨
       ∃ l e k, rs_status r = 200 ∧ rs_body r = Some l ∧
         w_heap w' !! l = Some ((text_of pre ++ [chQUOTE] ++ e ++ [chQUOTE] ++ text_of post) ++ 0 :: k) ∧
         json_string_end (e ++ [chQUOTE] ++ text_of post) = Some (e, text_of post) ∧
         json_unescape e = Some s) w.
Proof.
  intros Hwf Hpre Hpost Hs segs Hlen.
  assert (Forall seg_ok segs) as Hok.
  { unfold segs. apply Forall_app. split; [done|]. by repeat (apply Forall_cons_2; [done|]). }
  eapply wp_mono; [by eapply jsonfv_spec|].
  assert (Forall (λ c, 0 <= c) s) as Hpos by (eapply Forall_impl; [exact Hs|]; unfold is_cchar; lia).
  intros r w' [(l & k & -> & Ho)|(Hf & bs & leak & (p & -> & _) & _)]; [right|by left].
  exists l, (json_escape_all s), k. split_and!; [done|done| | |by apply json_unescape_escape].
  - eapply owns_in_heap; [exact Ho|].
    assert (text_of segs = text_of pre ++ [chQUOTE] ++ json_escape_all s ++ [chQUOTE] ++ text_of post) as ->.
    { unfold segs, text_of. rewrite !fmap_app, !concat_app.
      change (concat (seg_text <$> [SegText 34; SegString (Some s); SegText 34])) with
        ([chQUOTE] ++ json_escape_all s ++ [chQUOTE] ++ []).
      by rewrite <-!(assoc_L app). }
    left.
  - by apply json_string_end_escape.
Qed.

Lemma jsonf_no_breakout_witness :
  let s := lit "x\" ++ [34; 44; 34] in
  let segs := [SegText 123] ++ [SegText chQUOTE; SegString (Some s); SegText chQUOTE] ++ [SegText 125] in
  wp (mnet_jsonfv (H := all_ok) (H0 := demo_floats) (Some (format_of (H := demo_floats) segs))
        (args_of (H := demo_floats) segs))
    (λ r w', (alloc_failure (H := all_ok) ∧ rs_status r = 500) ∨
       ∃ l e k, rs_status r = 200 ∧ rs_body r = Some l ∧
         w_heap w' !! l = Some ((text_of (H := demo_floats) [SegText 123] ++ [chQUOTE] ++ e ++ [chQUOTE] ++
                                 text_of (H := demo_floats) [SegText 125]) ++ 0 :: k) ∧
         json_string_end (e ++ [chQUOTE] ++ text_of (H := demo_floats) [SegText 125]) =
           Some (e, text_of (H := demo_floats) [SegText 125]) ∧
         json_unescape e = Some s) empty_world.
Proof.
  apply (jsonf_no_breakout (H := all_ok) (H0 := demo_floats) [SegText 123] [SegText 125]).
  - apply empty_world_wf.
  - by repeat constructor.
  - by repeat constructor.
  - by repeat constructor.
  - by vm_compute.
Defined.



Example bad_directives :
  Forall (λ f, bad_directive f = true)
    [lit ""; lit "*d"; lit "5"; lit "n"; lit "p"; lit "a"; lit "5c"; lit "lc"; lit "-C"; lit "4097d";
     lit "ln"; lit "hs"].
Proof. by repeat constructor. Qed.

(** ** What modelling showed *)

(** A modifier on [%s] is not refused when a conversion letter comes later: here
    the [i] of the next name, so the format passed on is ["%10s","lli"] with an
    integer where [%s] takes a pointer. *)
Lemma string_modifier_accepted `{!Floats} (s : bytes) (args : list arg) :
  let f := lit "%10s" ++ [34; 44; 34] ++ lit "id" ++ [34] ++ lit ":%d" in
  bad_directive (drop 1 f) = false ∧
  spec_middle (drop 1 f) = lit "10s" ++ [34; 44; 34] ∧
  mnet_jsonfv (H := all_ok) (Some f) (ArgString (Some s) :: args) empty_world = None.
Proof. split; [done|]. split; by vm_compute. Qed.

(** Adding [ll] to a directive of 62 or 63 characters overruns [nspec]. *)
Lemma nspec_overrun `{!Floats} :
  let f := lit "%" ++ replicate 60 ch0 ++ lit "d" in
  length f = 62%nat ∧ bad_directive (drop 1 f) = false ∧
  mnet_jsonfv (H := all_ok) (Some f) [ArgInt RInt true 1] empty_world = None.
Proof. split; [done|]. split; by vm_compute. Qed.

(** A directive of 64 characters or more is dropped without reading its argument,
    so the next directive reads the wrong one. *)
Lemma long_directive_dropped `{!Floats} :
  let f := lit "%" ++ replicate 62 ch0 ++ lit "d%d" in
  match mnet_jsonfv (H := all_ok) (Some f) [ArgInt RInt true 1; ArgInt RInt true 2] empty_world with
  | Some (r, w) => (λ b, take (rs_body_length r) b) <$> (rs_body r ≫= λ l, w_heap w !! l)
  | None => None
  end = Some (lit "1").
Proof. by vm_compute. Qed.

(** A [*] after a flag is not refused, and the directive is then undefined. *)
Lemma star_after_flag `{!Floats} :
  bad_directive (lit "-*d") = false ∧
  mnet_jsonfv (H := all_ok) (Some (lit "%-*d")) [ArgInt RInt true 5; ArgInt RInt true 1] empty_world = None.
Proof. by split; vm_compute. Qed.

(** A precision that ends right before a multibyte character drops the string. *)
Lemma precision_drops_string : truncate_utf8 (lit "a" ++ [195; 169]) 1 = 0%nat.
Proof. reflexivity. Qed.

(** When the second allocation of [%.Ns] fails, the first is never freed. *)
Lemma precision_leak `{!Floats} :
  match mnet_jsonfv (H := λ l, negb (l =? 2)%nat) (Some (lit "%.1s")) [ArgString (Some (lit "a"))] empty_world with
  | Some (r, w) => rs_status r = 500 ∧ rs_body r = Some 3%nat ∧ is_Some (w_heap w !! 1%nat)
  | None => False
  end.
Proof. vm_compute. split_and!; [done|done|by eexists]. Qed.
