(* ===== verification/Handlers.v ===== *)
(** * Built-in handlers

    [src/mnet_handlers.c]: [welcome_response], [mime_type] and [static_handler],
    over a file system that is a parameter of the model. *)

From S2P Require Export Response.

(** ** The file system

    Answers by the number of the system call.  [fs_realpath] is realpath(): an
    absolute path without empty, [.] or [..] components (POSIX).  [fs_gets] is
    the first line fgets() stores in 256 bytes; [fs_time] the text of the local
    time, [None] when localtime_r() fails. *)

Definition path_components (path : bytes) : list bytes := tokens [chSLASH] path.

Class Files := {
  fs_realpath : nat → bytes → option bytes;
  fs_open : nat → bytes → bool;
  fs_seek_end : nat → bool;
  fs_tell : nat → Z;
  fs_read : nat → nat → bytes;
  fs_gets : nat → option bytes;
  fs_time : nat → option bytes;
  fs_realpath_abs k p r : fs_realpath k p = Some r →
    Forall (λ c, c ≠ 0) r ∧ head r = Some chSLASH;
  fs_realpath_canonical k p r : fs_realpath k p = Some r →
    lit "." ∉ path_components r ∧ lit ".." ∉ path_components r;
  fs_read_length k n : (length (fs_read k n) ≤ n)%nat;
}.

(** ** Formatting the welcome page *)

(** [printf] of a template whose conversions are [%s], [%d], [%zu] and [%12s],
    the arguments already converted to text. *)
Fixpoint format_args (template : bytes) (args : list bytes) : bytes :=
  match template with
  | [] => []
  | c :: t =>
      if c =? chPERCENT then
        (fix conversion (t : bytes) : bytes :=
           match t with
           | [] => []
           | d :: t =>
               if ((d =? 115) || (d =? 100) || (d =? 117))%bool
               then default [] (head args) ++ format_args t (tail args)
               else conversion t
           end) t
      else c :: format_args t args
  end.

(** [%12s] *)
Definition pad_left (width : nat) (s : bytes) : bytes := replicate (width - length s) chSP ++ s.

Definition welcome_html : bytes :=
  lit "<!DOCTYPE html>" ++ [chLF] ++ lit "<html>" ++ [chLF] ++
  lit "<head><title>mnet Server</title></head>" ++ [chLF] ++ lit "<body>" ++ [chLF] ++
  lit "<h1>Congratulations!</h1>" ++ [chLF] ++
  lit "<p>You successfully started the mnet server.</p>" ++ [chLF] ++
  lit "<p>Go to <a href=" ++ [chQUOTE] ++
  lit "https://github.com/mnet-web/mnet/blob/main/README.md" ++ [chQUOTE] ++ lit ">" ++ [chLF] ++
  lit "README.md</a> for more information about MNET.</p>" ++ [chLF] ++
  lit "<p>Go to <a href=" ++ [chQUOTE] ++
  lit "https://github.com/mnet-web/mnet/blob/main/docs/clib.md" ++ [chQUOTE] ++ lit ">" ++ [chLF] ++
  lit "clib.md</a> for further setup.</p>" ++ [chLF] ++
  lit "<p>Development state: %s</p>" ++ [chLF] ++
  lit "<p>Reported https state: %s (display only, TLS is not implemented)</p>" ++ [chLF] ++
  lit "<p>Listening port: %d</p>" ++ [chLF] ++ lit "<p>Debug mode: %s</p>" ++ [chLF] ++
  lit "<p>Worker count: %d</p>" ++ [chLF] ++ lit "<p>Max connections: %d</p>" ++ [chLF] ++
  lit "<p>Timeout: %d seconds</p>" ++ [chLF] ++
  lit "<p>Keep-alive timeout: %d seconds</p>" ++ [chLF] ++
  lit "<p>Max body size: %zu bytes</p>" ++ [chLF] ++ lit "<p>Routes defined: %zu</p>" ++ [chLF] ++
  lit "<p>Build time: %s</p>" ++ [chLF] ++ lit "<p>Git commit: <code>%12s</code></p>" ++ [chLF] ++
  lit "</body>" ++ [chLF] ++ lit "</html>".

Section handlers.
Context `{!Allocator, !Process, !Files}.

Definition fopen (path : bytes) : M bool :=
  ok ← sys (λ k, fs_open k path);
  emit (EvOpen path ok);;
  mret ok.

Definition fclose : M unit := emit EvClose.

Definition mnet_realpath (path : bytes) : M ptr :=
  r ← sys (λ k, fs_realpath k path);
  match r with
  | Some r => strdup r
  | None => mret None
  end.

(** The commit named by the first line of [.git/HEAD]. *)
Definition commit_of_line (line : bytes) : bytes :=
  let line := take_while (λ c, negb (c =? chLF)) line in
  if strncmp_eq line (lit "ref:") 4 then
    take 12 (drop_while (λ c, (c =? chSP) || (c =? chTAB))%bool (drop 4 line))
  else take 12 line.

Definition welcome_response (app : mnet_app_t) : M mnet_response_t :=
  let dev_state := snd (snprintf 8 (if negb (app_dev app =? 0) then lit "true" else lit "false")) in
  let https_state := snd (snprintf 8 (if negb (app_https app =? 0) then lit "https" else lit "http")) in
  let total_len := (length welcome_html + length dev_state + length https_state + 512)%nat in
  body ← alloc (replicate total_len 0);
  match body with
  | None => mnet_error 500 (Some (lit "internal server error"))
  | Some _ =>
      now ← sys fs_time;
      let time_str := match now with Some t => t | None => lit "unknown" end in
      fp ← fopen (lit ".git/HEAD");
      commit_hash ←
        (if fp : bool then
           line ← sys fs_gets;
           fclose;;
           mret (match line with
                 | Some line => commit_of_line line
                 | None => lit "unknown"
                 end)
         else mret (lit "unknown"));
      let '(written, text) := snprintf total_len (format_args welcome_html
        [dev_state; https_state; print_int (app_port app);
         if negb (app_debug app =? 0) then lit "true" else lit "false";
         print_int (app_workers app); print_int (app_max_connections app);
         print_int (app_timeout_seconds app); print_int (app_keep_alive_timeout app);
         print_nat (app_max_body_size app); print_nat (Z.of_nat (app_route_count app));
         time_str; pad_left 12 commit_hash]) in
      let written := if written <? 0 then 0 else written in
      let written := if Z.of_nat total_len <=? written then Z.of_nat total_len - 1 else written in
      store body (splice 0 (text ++ [chNUL]) (replicate total_len 0));;
      mret (MkResponse 200 (Some (lit "text/html")) body (Z.to_nat written) false)
  end.

Definition mime_type (path : bytes) : bytes :=
  match strrchr path chDOT with
  | None => lit "application/octet-stream"
  | Some i =>
      let dot := drop (S i) path in
      if (strcasecmp_eq dot (lit "html") || strcasecmp_eq dot (lit "htm"))%bool then lit "text/html"
      else if strcasecmp_eq dot (lit "css") then lit "text/css"
      else if strcasecmp_eq dot (lit "js") then lit "application/javascript"
      else if strcasecmp_eq dot (lit "json") then lit "application/json"
      else if strcasecmp_eq dot (lit "png") then lit "image/png"
      else if (strcasecmp_eq dot (lit "jpg") || strcasecmp_eq dot (lit "jpeg"))%bool then lit "image/jpeg"
      else if strcasecmp_eq dot (lit "gif") then lit "image/gif"
      else if strcasecmp_eq dot (lit "svg") then lit "image/svg+xml"
      else if strcasecmp_eq dot (lit "ico") then lit "image/x-icon"
      else if strcasecmp_eq dot (lit "txt") then lit "text/plain"
      else if strcasecmp_eq dot (lit "xml") then lit "application/xml"
      else if strcasecmp_eq dot (lit "pdf") then lit "application/pdf"
      else lit "application/octet-stream"
  end.

(** The character at index [i] of a string, its terminator included. *)
Definition char_at (s : bytes) (i : nat) : option Z := (s ++ [chNUL]) !! i.

(** The test that the resolved path is the root or lies underneath it. *)
Definition is_inside (real base_real : bytes) : bool :=
  let base_len := length base_real in
  (strncmp_eq real base_real base_len &&
   (bool_decide (char_at real base_len = Some chNUL) ||
    bool_decide (char_at real base_len = Some chSLASH) ||
    bool_decide (char_at base_real (base_len - 1) = Some chSLASH)))%bool.

(** From an opened file to the response. *)
Definition serve_file (fs_path : bytes) (real : ptr) : M mnet_response_t :=
  ok ← sys fs_seek_end;
  if negb ok then fclose;; free real;; mnet_error 404 (Some (lit "not found"))
  else
    file_size ← sys fs_tell;
    if file_size <? 0 then fclose;; free real;; mnet_error 404 (Some (lit "not found"))
    else
      let size := Z.to_nat file_size in
      data ← alloc (replicate (size + 1) 0);
      match data with
      | None => fclose;; free real;; mnet_error 500 (Some (lit "internal server error"))
      | Some _ =>
          content ← sys (λ k, fs_read k size);
          store data (splice 0 content (replicate (size + 1) 0));;
          fclose;;
          free real;;
          mret (MkResponse 200 (Some (mime_type fs_path)) data (length content) false)
      end.

(** [app_log] is the log handler of [cfg->app]. *)
Definition static_handler (app_log : option nat) (req : mnet_request_t) : M mnet_response_t :=
  match rq_user_data req with
  | None => mnet_error 500 (Some (lit "internal server error"))
  | Some cfg =>
      let url_path := rq_path req in
      url_prefix ← load_str (sc_url_prefix cfg);
      if (length url_path <? length url_prefix)%nat then ub
      else
        let rel := drop (length url_prefix) url_path in
        let rel := match rel with
                   | c :: k => if c =? chSLASH then k else rel
                   | [] => rel
                   end in
        root ← load_str (sc_fs_path cfg);
        let '(written, fs_path) := snprintf (Z.to_nat 4096) (root ++ lit "/" ++ rel) in
        if ((written <? 0) || (4096 <=? written))%bool then mnet_error 404 (Some (lit "not found"))
        else
          real ← mnet_realpath fs_path;
          match real with
          | None => mnet_error 404 (Some (lit "not found"))
          | Some _ =>
              base_real ← mnet_realpath root;
              match base_real with
              | None => free real;; mnet_error 404 (Some (lit "not found"))
              | Some _ =>
                  real_s ← load_str real;
                  base_s ← load_str base_real;
                  if (length base_s =? 0)%nat then ub
                  else if negb (is_inside real_s base_s) then
                    mnet_app_log app_log MNET_LOG_WARN
                      (lit "blocked path traversal attempt: '" ++ rq_path req ++
                       lit "' resolves outside the root");;
                    free real;;
                    free base_real;;
                    mnet_error 403 (Some (lit "forbidden"))
                  else
                    free base_real;;
                    fp ← fopen real_s;
                    if negb fp then free real;; mnet_error 404 (Some (lit "not found"))
                    else serve_file fs_path real
              end
          end
  end.
End handlers.

(** ** Containment *)

(** [path] is [base] or lies underneath it. *)
Definition under (base path : bytes) : Prop := path_components base `prefix_of` path_components path.

Lemma split_on_sep f s c k :
  f c = true → split_on f (s ++ c :: k) = split_on f s ++ split_on f k.
Proof.
  intros Hc. induction s as [|x s IH]; simpl; [by rewrite Hc|].
  destruct (f x); simpl; [by rewrite IH|]. rewrite IH.
  destruct (split_on f s) as [|h t] eqn:E; [|done].
  exfalso. destruct s as [|y s]; simpl in E; [done|]. destruct (f y); [done|].
  by destruct (split_on f s).
Qed.

Lemma components_slash s k :
  path_components (s ++ chSLASH :: k) = path_components s ++ path_components k.
Proof.
  unfold path_components, tokens. rewrite split_on_sep; [by rewrite filter_app|].
  unfold mem_char. apply bool_decide_eq_true. set_solver.
Qed.

(** The test of the code implies containment on path components. *)
Lemma is_inside_under real base :
  Forall (λ c, c ≠ 0) real → base ≠ [] → is_inside real base = true → under base real.
Proof.
  intros Hr Hb. unfold is_inside, strncmp_eq. intros [H1 H2]%andb_prop. bool_prop.
  rewrite (take_ge base) in H1 by done.
  assert (real = base ++ drop (length base) real) as E by (by rewrite <-H1 at 1; rewrite take_drop).
  set (rest := drop (length base) real) in *. unfold under. rewrite E.
  destruct rest as [|c rest].
  { rewrite app_nil_r. done. }
  destruct H2 as [H2|H2]; [apply orb_true_iff in H2 as [H2|H2]|]; bool_prop;
    unfold char_at in H2.
  - rewrite E, <-app_assoc in H2. simpl app in H2.
    rewrite list_lookup_middle in H2 by done. injection H2 as ->.
    exfalso. rewrite E in Hr. apply Forall_app in Hr as [_ Hr]. by apply Forall_cons in Hr as [? _].
  - rewrite E, <-app_assoc in H2. simpl app in H2.
    rewrite list_lookup_middle in H2 by done. injection H2 as ->.
    rewrite components_slash. by apply prefix_app_r.
  - destruct (exists_last Hb) as (base1 & x & ->). clear Hb.
    rewrite length_app in H2. simpl in H2. rewrite Nat.add_sub, <-app_assoc in H2. simpl app in H2.
    rewrite list_lookup_middle in H2 by done. injection H2 as ->.
    rewrite <-app_assoc. simpl. rewrite !components_slash.
    apply prefix_app. apply prefix_nil.
Qed.

Section handlers_proofs.
Context `{!Allocator, !Process, !Files}.

(** Every file opened lies under the resolved [root]. *)
Definition opens_under (root : bytes) (evs : list event) : Prop :=
  ∀ p ok, EvOpen p ok ∈ evs → ∃ k base, fs_realpath k root = Some base ∧ under base p ∧
    lit ".." ∉ path_components p.

(** No file is opened. *)
Definition opens_none (evs : list event) : Prop := ∀ p ok, EvOpen p ok ∉ evs.

(** The streams opened and not yet closed. *)
Definition open_streams (evs : list event) : Z :=
  foldr (λ e n, n + match e with EvOpen _ true => 1 | EvClose => -1 | _ => 0 end) 0 evs.

Definition contained (root : bytes) (evs : list event) : Prop :=
  opens_under root evs ∧ open_streams evs = 0 ∧ open_sockets evs = 0.

Lemma contained_nil root : contained root [].
Proof. split; [|done]. intros p ok Hp. by apply not_elem_of_nil in Hp. Qed.

Lemma contained_no_files root evs :
  opens_none evs → EvClose ∉ evs → open_sockets evs = 0 → contained root evs.
Proof.
  intros Ho Hc Hs. split; [intros p ok Hp; by apply Ho in Hp|]. split; [clear Hs|done].
  induction evs as [|e evs IH]; [done|]. cbn [open_streams foldr].
  fold (open_streams evs). rewrite IH.
  - destruct e as [| | | | |p ok| | | |]; try done; [by destruct (Ho p ok); left|by destruct Hc; left].
  - intros p ok Hp. apply (Ho p ok). by right.
  - intros Hp. apply Hc. by right.
Qed.

Lemma app_log_opens_none h level text : opens_none (app_log_events h level text).
Proof.
  unfold opens_none, app_log_events, log_msg_events. intros p ok Hp.
  destruct h, g_log_handler; set_solver.
Qed.

Lemma app_log_no_close h level text : EvClose ∉ app_log_events h level text.
Proof.
  unfold app_log_events, log_msg_events. intros Hp. destruct h, g_log_handler; set_solver.
Qed.

Lemma wp_fopen path w0 w bs (Q : bool → world → Prop) :
  owns w0 w bs → (∀ ok w', owns (io w0 1 [EvOpen path ok]) w' bs → Q ok w') → wp (fopen path) Q w.
Proof.
  intros Ho HQ. unfold fopen. apply wp_bind. eapply wp_sys; [done|]. intros ok w1 Ho1.
  apply wp_bind. eapply wp_emit; [done|]. intros w2 Ho2. rewrite io_io in Ho2.
  by apply wp_ret, HQ.
Qed.

Lemma wp_realpath path w0 w bs (Q : ptr → world → Prop) :
  owns w0 w bs →
  (∀ w', owns (io w0 1 []) w' bs → Q None w') →
  (∀ l k r w', fs_realpath k path = Some r → owns (io w0 1 []) w' ((l, r ++ [0]) :: bs) →
     Q (Some l) w') →
  wp (mnet_realpath path) Q w.
Proof.
  intros Ho Hnone Hsome. unfold mnet_realpath. apply wp_bind. eapply wp_sys_at; [done|].
  intros w1 Ho1. destruct (fs_realpath (w_calls w0) path) as [r|] eqn:E.
  - eapply wp_strdup; [done|by eauto|by eauto].
  - by apply wp_ret, Hnone.
Qed.

(** What a handler leaves: its response, and events that satisfy [P]. *)
Definition handler_post (w0 : world) (bs : list (loc * bytes)) (P : list event → Prop)
    (r : mnet_response_t) (w' : world) : Prop :=
  ∃ n evs rb, owns (io w0 n evs) w' (rb ++ bs) ∧ response_owned r rb ∧
    rs_status r ≠ 0 ∧ rs_chunked r = false ∧ P evs.

Lemma handler_post_error w0 w bs n evs status m (P : list event → Prop) :
  owns (io w0 n evs) w bs → status ≠ 0 → P evs →
  wp (mnet_error status (Some m)) (handler_post w0 bs P) w.
Proof.
  intros Ho Hs HP. eapply wp_mnet_error; [exact Ho|]. intros r w' bs' Hr Ho'.
  exists n, evs, bs'. split_and!; [done|by eapply response_result_owned| | |done];
    destruct Hr as [(l & -> & _)|(_ & Hst & _ & _ & Hch & _)]; simpl; congruence.
Qed.

Lemma serve_file_spec w0 w bs n evs fs_path l b (P : list event → Prop) :
  owns (io w0 n evs) w ((l, b) :: bs) → P (evs ++ [EvClose]) →
  wp (serve_file fs_path (Some l)) (handler_post w0 bs P) w.
Proof.
  intros Ho HP. unfold serve_file.
  assert (∀ k w1 status m, owns (io w0 k evs) w1 ((l, b) :: bs) → status ≠ 0 →
    wp (fclose;; free (Some l);; mnet_error status (Some m)) (handler_post w0 bs P) w1) as Hfail.
  { intros k w1 status m Ho1 Hs. apply wp_bind. eapply wp_emit; [exact Ho1|]. intros w2 Ho2.
    rewrite io_io in Ho2. apply wp_bind. eapply wp_free; [done|done|]. intros w3 Ho3.
    by eapply handler_post_error. }
  apply wp_bind. eapply wp_sys; [done|]. intros ok w1 Ho1. rewrite io_io, app_nil_r in Ho1.
  destruct ok; cbn [negb]; [|by eapply Hfail].
  apply wp_bind. eapply wp_sys; [done|]. intros size w2 Ho2. rewrite io_io, app_nil_r in Ho2.
  case_test; [by eapply Hfail|].
  apply wp_bind. eapply wp_alloc; [done|by intros w3 _ Ho3; eapply Hfail|].
  intros d w3 Ho3. apply wp_bind. eapply wp_sys_at; [done|]. intros w4 Ho4.
  rewrite io_io, app_nil_r in Ho4.
  set (content := fs_read _ _). pose proof (fs_read_length (w_calls (io w0 (n + 1 + 1) evs))
    (Z.to_nat size)) as Hlen. fold content in Hlen.
  assert (length (splice 0 content (replicate (Z.to_nat size + 1) 0)) =
          length (replicate (Z.to_nat size + 1) 0)) as Hs.
  { apply length_splice. rewrite length_replicate. lia. }
  apply wp_bind. eapply wp_store; [done|done|done|]. intros w5' Ho5'.
  apply wp_bind. eapply wp_emit; [exact Ho5'|]. intros w5 Ho5. rewrite io_io in Ho5.
  apply wp_bind. eapply (wp_free _ _ ((d, splice 0 content (replicate (Z.to_nat size + 1) 0)) :: bs));
    [done|apply Permutation_swap|].
  intros w6 Ho6. apply wp_ret. eexists _, (evs ++ [EvClose]), [_]. split; [exact Ho6|].
  split_and!; [|done..].
  unfold response_owned. cbn [rs_chunked rs_body rs_body_length]. eexists. split; [done|].
  rewrite Hs, length_replicate. lia.
Qed.

(** A static route's configuration as the application stores it. *)
Definition config_at (w : world) (cfg : static_config_t) (url_prefix root : bytes) : Prop :=
  ∃ u f ku kf, sc_url_prefix cfg = Some u ∧ sc_fs_path cfg = Some f ∧
    w_heap w !! u = Some (url_prefix ++ 0 :: ku) ∧ w_heap w !! f = Some (root ++ 0 :: kf) ∧
    Forall (λ c, c ≠ 0) url_prefix ∧ Forall (λ c, c ≠ 0) root.

Lemma static_handler_spec w0 w bs app_log req cfg url_prefix root :
  owns w0 w bs → rq_user_data req = Some cfg → config_at w cfg url_prefix root →
  (length url_prefix ≤ length (rq_path req))%nat →
  wp (static_handler app_log req) (handler_post w0 bs (contained root)) w.
Proof.
  intros Ho Hd (u & f & ku & kf & Hu & Hf & Hhu & Hhf & Hnu & Hnf) Hlen. unfold static_handler.
  rewrite Hd, Hu, Hf. apply wp_bind. eapply wp_load_str_at; [done..|].
  rewrite (proj2 (Nat.ltb_ge _ _)) by done. cbn zeta.
  apply wp_bind. eapply wp_load_str_at; [done..|]. unfold snprintf.
  set (rel := match drop _ _ with [] => _ | _ => _ end).
  case_test.
  { eapply (handler_post_error w0 w bs 0 []); [by rewrite io_nil|done|]. apply contained_nil. }
  apply wp_bind. eapply wp_realpath; [done| |].
  { intros w1 Ho1. eapply handler_post_error; [done|done|]. apply contained_nil. }
  intros l k r w1 Hreal Ho1. destruct (fs_realpath_abs _ _ _ Hreal) as [Hrn _].
  apply wp_bind. eapply wp_realpath; [done| |].
  { intros w2 Ho2. rewrite io_io in Ho2. apply wp_bind. eapply wp_free; [done|done|].
    intros w3 Ho3. eapply handler_post_error; [done|done|]. apply contained_nil. }
  intros l' k' base w2 Hbase Ho2. rewrite io_io in Ho2.
  destruct (fs_realpath_abs _ _ _ Hbase) as [Hbn Hbs].
  apply wp_bind. eapply wp_load_str; [done|by right; left|done|].
  apply wp_bind. eapply wp_load_str; [done|by left|done|].
  assert (base ≠ []) as Hne by (by destruct base).
  rewrite (proj2 (Nat.eqb_neq _ _)) by (by destruct base).
  destruct (is_inside r base) eqn:Hin; cbn [negb].
  - apply wp_bind. eapply wp_free; [done|done|]. intros w3 Ho3.
    apply wp_bind. eapply wp_fopen; [done|]. intros ok w4 Ho4. rewrite io_io in Ho4.
    assert (∀ evs, opens_none evs →
            opens_under root (EvOpen r ok :: evs)) as Hopen.
    { intros evs Hno p ok' [[= -> ->]|Hp]%elem_of_cons; [|by apply Hno in Hp]. exists k', base.
      split_and!; [done|by apply is_inside_under|by apply (fs_realpath_canonical _ _ _ Hreal)]. }
    destruct ok; cbn [negb].
    + eapply serve_file_spec; [exact Ho4|]. split; [|done]. apply Hopen.
      intros p ok Hp. by apply list_elem_of_singleton in Hp.
    + apply wp_bind. eapply wp_free; [done|done|]. intros w5 Ho5.
      eapply handler_post_error; [done|done|]. split; [|done].
      apply Hopen. intros p ok. apply not_elem_of_nil.
  - apply wp_bind. eapply wp_app_log; [done|]. intros w3 Ho3. rewrite io_io in Ho3.
    apply wp_bind. eapply (wp_free _ _ ((l', base ++ [0]) :: bs)); [done|apply Permutation_swap|].
    intros w4 Ho4. apply wp_bind. eapply wp_free; [done|done|]. intros w5 Ho5.
    eapply handler_post_error; [done|done|]. apply contained_no_files;
      [apply app_log_opens_none|apply app_log_no_close|sockets].
Qed.

(** The welcome page looks at one file. *)
Definition welcome_events (evs : list event) : Prop :=
  open_streams evs = 0 ∧ open_sockets evs = 0 ∧
  ∀ p ok, EvOpen p ok ∈ evs → p = lit ".git/HEAD".

Lemma welcome_response_spec w0 w bs app :
  owns w0 w bs →
  wp (welcome_response app) (handler_post w0 bs welcome_events) w.
Proof.
  intros Ho. unfold welcome_response. cbn zeta.
  set (total := (length welcome_html + _ + _ + 512)%nat).
  assert (1 ≤ total)%nat as Htotal by (unfold total; lia). clearbody total.
  apply wp_bind. eapply wp_alloc; [done| |].
  { intros w1 _ Ho1. eapply (handler_post_error w0 w1 bs 0 []); [by rewrite io_nil|done|].
    split_and!; [done..|]. by intros p ok ?%not_elem_of_nil. }
  intros l w1 Ho1. apply wp_bind. eapply wp_sys; [done|]. intros now w2 Ho2.
  apply wp_bind. eapply wp_fopen; [done|]. intros fp w3 Ho3. rewrite io_io in Ho3.
  apply wp_bind.
  assert (∀ n evs commit w4, welcome_events evs → owns (io w0 n evs) w4 ((l, replicate total 0) :: bs) →
    wp (let '(written, text) := snprintf total (format_args welcome_html commit) in
        let written := if written <? 0 then 0 else written in
        let written := if Z.of_nat total <=? written then Z.of_nat total - 1 else written in
        store (Some l) (splice 0 (text ++ [chNUL]) (replicate total 0));;
        mret (MkResponse 200 (Some (lit "text/html")) (Some l) (Z.to_nat written) false))
      (handler_post w0 bs welcome_events) w4) as Hrest.
  { intros n evs args w4 Hevs Ho4. unfold snprintf. set (text := format_args welcome_html args).
    assert (length (splice 0 (take (total - 1) text ++ [chNUL]) (replicate total 0)) = total) as Hs.
    { rewrite length_splice; [by rewrite length_replicate|].
      rewrite length_app, length_take, length_replicate. simpl. lia. }
    cbn zeta. apply wp_bind. eapply wp_store; [done|done|by rewrite Hs, length_replicate|].
    intros w5 Ho5. apply wp_ret. exists n, evs, [(l, splice 0 (take (total - 1) text ++ [chNUL])
      (replicate total 0))]. split; [exact Ho5|].
    split_and!; [|done..].
    unfold response_owned. cbn [rs_chunked rs_body rs_body_length]. eexists. split; [done|].
    rewrite Hs. repeat case_test; lia. }
  destruct fp.
  - apply wp_bind. eapply wp_sys; [done|]. intros line w4 Ho4. rewrite io_io, app_nil_r in Ho4.
    apply wp_bind. eapply wp_emit; [exact Ho4|]. intros w5 Ho5. rewrite io_io in Ho5.
    apply wp_ret. eapply Hrest; [|exact Ho5]. split_and!; [done..|].
    by intros p ok [[= -> _]|[[=]|[]%not_elem_of_nil]%elem_of_cons]%elem_of_cons.
  - apply wp_ret. eapply Hrest; [|exact Ho3]. split_and!; [done..|].
    by intros p ok [[= -> _]|[]%not_elem_of_nil]%elem_of_cons.
Qed.
End handlers_proofs.

(** ** Properties *)

(** C11: the static file handler opens no file outside the directory it serves:
    every path it opens is the resolved path of the request, and its components
    start with the components of the resolved root, with no [..] left; requests
    that resolve outside are refused.  On every branch the handler returns a
    response that owns its body, and everything else it allocated is freed and
    every stream it opened is closed. *)
Theorem static_handler_contained `{!Allocator, !Process, !Files} (app_log : option nat)
    (req : mnet_request_t) (cfg : static_config_t) (url_prefix root : bytes) (w : world) :
  wf_world w → rq_user_data req = Some cfg → config_at w cfg url_prefix root →
  (length url_prefix ≤ length (rq_path req))%nat →
  wp (static_handler app_log req)
    (λ r w', ∃ n evs rb, owns (io w n evs) w' rb ∧ response_owned r rb ∧ contained root evs) w.
Proof.
  intros Hwf Hd Hc Hlen. eapply wp_mono; [by eapply static_handler_spec; [apply owns_refl|..]|].
  intros r w' (n & evs & rb & Ho & Hr & _ & _ & Hop). exists n, evs, rb. by rewrite app_nil_r in Ho.
Qed.

(** A file system with one file, [/www/a.txt]. *)
Program Definition demo_files : Files := {|
  fs_realpath _ p :=
    if bool_decide (p = lit "/www") then Some (lit "/www")
    else if bool_decide (p = lit "/www//a.txt") then Some (lit "/www/a.txt") else None;
  fs_open _ _ := true;
  fs_seek_end _ := true;
  fs_tell _ := 2;
  fs_read _ n := take n (lit "hi");
  fs_gets _ := None;
  fs_time _ := None;
|}.
Next Obligation.
  intros k p r H. simpl in H. repeat case_bool_decide; simplify_eq;
    (split; [by repeat constructor|by vm_compute]).
Qed.
Next Obligation.
  intros k p r H. simpl in H. repeat case_bool_decide; simplify_eq;
    (split; vm_compute; set_solver).
Qed.
Next Obligation. intros k n. simpl. rewrite length_take. lia. Qed.

Definition quiet : Process := {| g_log_handler := None |}.

Definition demo_static_world : world :=
  World 2 {[ 0%nat := lit "/s" ++ [0]; 1%nat := lit "/www" ++ [0] ]} 0 [].
Definition demo_static_request : mnet_request_t :=
  MkRequest (lit "GET") (lit "/s//a.txt") None BodyNull 0 0 None None 0 None None 0 None None
    0 None None zero_extras (Some (MkStatic 5 (Some 0%nat) (Some 1%nat))).

Lemma static_handler_contained_witness :
  wp (static_handler (H := all_ok) (H0 := quiet) (H1 := demo_files) None demo_static_request)
    (λ r w', ∃ n evs rb, owns (io demo_static_world n evs) w' rb ∧ response_owned r rb ∧
       contained (H1 := demo_files) (lit "/www") evs) demo_static_world.
Proof.
  apply (static_handler_contained (H := all_ok) (H0 := quiet) (H1 := demo_files)
    None demo_static_request (MkStatic 5 (Some 0%nat) (Some 1%nat)) (lit "/s") (lit "/www")).
  - intros l Hl. simpl in *. rewrite lookup_insert_ne by lia. apply lookup_singleton_None. lia.
  - done.
  - exists 0%nat, 1%nat, [], []. split_and!; [done..|by repeat constructor|by repeat constructor].
  - vm_compute; lia.
Defined.

(** for a root that does not end in a slash, the check accepts exactly the
    root itself and the paths that continue it after a slash: a sibling whose
    name merely starts with the root's is refused. *)
Theorem is_inside_iff (real base : bytes) :
  Forall (λ c, c ≠ 0) real → base ≠ [] → last base ≠ Some chSLASH →
  is_inside real base = true ↔ real = base ∨ ∃ rest, real = base ++ chSLASH :: rest.
Proof.
  intros Hr Hne Hlast. unfold is_inside, strncmp_eq, char_at.
  assert (bool_decide ((base ++ [0]) !! (length base - 1)%nat = Some chSLASH) = false) as ->.
  { apply bool_decide_eq_false. rewrite lookup_app_l by (destruct base; [done|simpl; lia]).
    replace (length base - 1)%nat with (pred (length base)) by lia. by rewrite <-last_lookup. }
  rewrite orb_false_r, (take_ge base) by done. split.
  - intros [H1 H2]%andb_prop. bool_prop.
    assert (real = base ++ drop (length base) real) as E by (by rewrite <-H1 at 1; rewrite take_drop).
    set (rest := drop (length base) real) in *. rewrite E in Hr, H2 |- *.
    destruct rest as [|c rest]; [left; by rewrite app_nil_r|right].
    rewrite <-app_assoc in H2. simpl app in H2. rewrite list_lookup_middle in H2 by done.
    apply Forall_app in Hr as [_ Hr]. apply Forall_cons in Hr as [Hc _].
    destruct H2 as [H2|H2]; bool_prop; injection H2 as ->; [done|by eexists].
  - intros [->|[rest ->]]; apply andb_true_iff.
    + split; [apply bool_decide_eq_true; by rewrite take_ge|]. apply orb_true_iff. left.
      apply bool_decide_eq_true. by rewrite list_lookup_middle.
    + split; [apply bool_decide_eq_true; by rewrite take_app_length|]. apply orb_true_iff. right.
      apply bool_decide_eq_true. rewrite <-app_assoc. simpl app. by rewrite list_lookup_middle.
Qed.

Lemma is_inside_iff_witness :
  is_inside (lit "/var/www2/x") (lit "/var/www") = true ↔
  lit "/var/www2/x" = lit "/var/www" ∨ ∃ rest, lit "/var/www2/x" = lit "/var/www" ++ chSLASH :: rest.
Proof. apply is_inside_iff; [by repeat constructor|done|done]. Defined.

(** the welcome page opens no file but [.git/HEAD], never announces more
    bytes than its buffer holds whatever the length of the inserted texts, and
    degrades to a 500 response when the buffer cannot be allocated. *)
Theorem welcome_response_ok `{!Allocator, !Files} (app : mnet_app_t) (w : world) :
  wf_world w →
  wp (welcome_response app)
    (λ r w', ∃ n evs rb, owns (io w n evs) w' rb ∧ response_owned r rb ∧
       welcome_events evs) w.
Proof.
  intros Hwf. eapply wp_mono; [by eapply welcome_response_spec, owns_refl|].
  intros r w' (n & evs & rb & Ho & Hr & _ & _ & Hop). exists n, evs, rb. by rewrite app_nil_r in Ho.
Qed.

Lemma welcome_response_ok_witness :
  wp (welcome_response (H := all_ok) (H1 := demo_files)
        (MkApp 0 None [] 0 true 0 1 0 8080 None None 30 0 5 0 None 4 0))
    (λ r w', ∃ n evs rb, owns (io empty_world n evs) w' rb ∧ response_owned r rb ∧
       welcome_events evs) empty_world.
Proof.
  apply (welcome_response_ok (H := all_ok) (H0 := demo_files)).
  apply empty_world_wf.
Defined.
