(* ===== verification/Send.v ===== *)
(** * Response writing

    [src/mnet_dispatch.c]: [send_response], [send_simple_error],
    [send_not_found], [send_method_not_allowed], and a reader for HTTP
    responses against which their output is checked. *)

From S2P Require Export Response.

Definition status_text (status : Z) : bytes :=
  if status =? 200 then lit "OK"
  else if status =? 201 then lit "Created"
  else if status =? 204 then lit "No Content"
  else if status =? 301 then lit "Moved Permanently"
  else if status =? 302 then lit "Found"
  else if status =? 400 then lit "Bad Request"
  else if status =? 401 then lit "Unauthorized"
  else if status =? 403 then lit "Forbidden"
  else if status =? 404 then lit "Not Found"
  else if status =? 405 then lit "Method Not Allowed"
  else if status =? 413 then lit "Payload Too Large"
  else if status =? 429 then lit "Too Many Requests"
  else if status =? 431 then lit "Request Header Fields Too Large"
  else if status =? 500 then lit "Internal Server Error"
  else if status =? 503 then lit "Service Unavailable"
  else lit "Unknown".

Definition connection_text (keep_alive : bool) : bytes :=
  if keep_alive then lit "keep-alive" else lit "close".

(** The text of [header], before [snprintf] cuts it. *)
Definition response_header (r : mnet_response_t) (ct : bytes) (keep_alive : bool) : bytes :=
  if rs_chunked r then
    lit "HTTP/1.1 " ++ print_int (rs_status r) ++ lit " " ++ status_text (rs_status r) ++ CRLF ++
    lit "Transfer-Encoding: chunked" ++ CRLF ++
    lit "Content-Type: " ++ ct ++ CRLF ++
    lit "Connection: " ++ connection_text keep_alive ++ CRLF ++ CRLF
  else
    lit "HTTP/1.1 " ++ print_int (rs_status r) ++ lit " " ++ status_text (rs_status r) ++ CRLF ++
    lit "Content-Length: " ++ print_nat (Z.of_nat (rs_body_length r)) ++ CRLF ++
    lit "Content-Type: " ++ ct ++ CRLF ++
    lit "Connection: " ++ connection_text keep_alive ++ CRLF ++ CRLF.

Definition default_type (r : mnet_response_t) : bytes :=
  match rs_content_type r with Some ct => ct | None => lit "application/octet-stream" end.

(** The [rs_body_length] bytes at [rs_body]. *)
Definition read_body (r : mnet_response_t) : M bytes :=
  b ← load (rs_body r);
  if (rs_body_length r <=? length b)%nat then mret (take (rs_body_length r) b) else ub.

Definition has_body (r : mnet_response_t) : bool :=
  (bool_decide (rs_body r ≠ None) && (0 <? rs_body_length r)%nat)%bool.

Section send.
Context `{!Allocator, !OS}.

Definition send_response (r : mnet_response_t) (head_only keep_alive : bool) : M unit :=
  let ct := default_type r in
  if negb (mnet_header_value_valid (Some ct)) then mret ()
  else
    let '(hlen, header) := snprintf (Z.to_nat 1024) (response_header r ct keep_alive) in
    if ((hlen <? 0) || (1024 <=? hlen))%bool then mret ()
    else if (negb head_only && negb (rs_chunked r) && has_body r)%bool then
      body ← read_body r;
      combined ← alloc (header ++ body);
      match combined with
      | None => mret ()
      | Some _ =>
          text ← load combined;
          mnet_send text;;
          free combined
      end
    else
      mnet_send header;;
      if negb head_only then
        if rs_chunked r then
          (if has_body r then
             let '(chlen, chunk_header) :=
               snprintf 32 (print_hex (Z.of_nat (rs_body_length r)) ++ CRLF) in
             (if ((0 <? chlen) && (chlen <? 32))%bool then mnet_send chunk_header;; mret ()
              else mret ());;
             body ← read_body r;
             mnet_send body;;
             mnet_send CRLF;;
             mret ()
           else mret ());;
          mnet_send (lit "0" ++ CRLF ++ CRLF);;
          mret ()
        else mret ()
      else mret ().

(** The page, before [snprintf] cuts it. *)
Definition simple_error_text (status : Z) (status_text message : bytes) : bytes :=
  lit "<!doctype html><html><head><title>" ++ print_int status ++ lit " " ++ status_text ++
  lit "</title></head><body><h1>" ++ print_int status ++ lit " " ++ status_text ++
  lit "</h1><p>" ++ message ++ lit "</p></body></html>".

(** [message] is the text shown to the client. *)
Definition send_simple_error (status : Z) (status_text message : bytes) (debug : Z) : M unit :=
  (if negb (debug =? 0)
   then fprintf_stderr (lit "[mnet] " ++ print_int status ++ lit " " ++ message ++ [chLF])
   else mret ());;
  let '(blen, body) := snprintf (Z.to_nat 256)
    (simple_error_text status status_text message) in
  if blen <? 0 then mret ()
  else
    let blen := if 256 <=? blen then 255 else blen in
    let '(hlen, header) := snprintf (Z.to_nat 512)
      (lit "HTTP/1.1 " ++ print_int status ++ lit " " ++ status_text ++ CRLF ++
       lit "Content-Length: " ++ print_int blen ++ CRLF ++
       lit "Content-Type: text/html; charset=utf-8" ++ CRLF ++
       lit "Connection: close" ++ CRLF ++ CRLF) in
    if ((hlen <? 0) || (512 <=? hlen))%bool then mret ()
    else
      mnet_send header;;
      mnet_send (take (Z.to_nat blen) body);;
      mret ().

Definition not_found_body : bytes :=
  lit "<!doctype html><html><head><title>404 Not Found</title></head><body>" ++
  lit "<h1>404 Not Found</h1><p>The requested URL was not found on this server.</p></body></html>".

Definition send_not_found (path : bytes) (debug : Z) (keep_alive : bool) : M unit :=
  (if negb (debug =? 0) then fprintf_stderr (lit "[mnet] 404  " ++ path ++ [chLF])
   else mret ());;
  let '(hlen, header) := snprintf (Z.to_nat 512)
    (lit "HTTP/1.1 404 Not Found" ++ CRLF ++
     lit "Content-Length: " ++ print_nat (Z.of_nat (length not_found_body)) ++ CRLF ++
     lit "Content-Type: text/html; charset=utf-8" ++ CRLF ++
     lit "Connection: " ++ connection_text keep_alive ++ CRLF ++ CRLF) in
  if ((0 <? hlen) && (hlen <? 512))%bool then
    mnet_send header;;
    mnet_send not_found_body;;
    mret ()
  else mret ().

Definition method_not_allowed_body : bytes :=
  lit "<!doctype html><html><head><title>405 Method Not Allowed</title></head><body>" ++
  lit "<h1>405 Method Not Allowed</h1><p>The method is not allowed for this URL.</p></body></html>".

Definition send_method_not_allowed (method : bytes) (debug : Z) (keep_alive : bool) : M unit :=
  (if negb (debug =? 0) then fprintf_stderr (lit "[mnet] 405  " ++ method ++ [chLF])
   else mret ());;
  let '(hlen, header) := snprintf (Z.to_nat 512)
    (lit "HTTP/1.1 405 Method Not Allowed" ++ CRLF ++
     lit "Content-Length: " ++ print_nat (Z.of_nat (length method_not_allowed_body)) ++ CRLF ++
     lit "Content-Type: text/html; charset=utf-8" ++ CRLF ++
     lit "Connection: " ++ connection_text keep_alive ++ CRLF ++ CRLF) in
  if ((0 <? hlen) && (hlen <? 512))%bool then
    mnet_send header;;
    mnet_send method_not_allowed_body;;
    mret ()
  else mret ().
End send.

(** ** A reader of HTTP responses

    Any client that splits lines at CRLF and stops at the first empty line reads
    a header block this way. *)

Fixpoint read_line (s : bytes) : option (bytes * bytes) :=
  match s with
  | [] => None
  | c :: k =>
      if ((c =? chCR) && bool_decide (head k = Some chLF))%bool then Some ([], tail k)
      else match read_line k with
           | Some (l, rest) => Some (c :: l, rest)
           | None => None
           end
  end.

Fixpoint read_header (fuel : nat) (s : bytes) : option (list bytes * bytes) :=
  match fuel with
  | O => None
  | S fuel =>
      match read_line s with
      | None => None
      | Some ([], rest) => Some ([], rest)
      | Some (l, rest) =>
          match read_header fuel rest with
          | Some (ls, rest) => Some (l :: ls, rest)
          | None => None
          end
      end
  end.

Definition hex_digit (c : Z) : Z := if isdigit c then c - ch0 else c - 97 + 10.
Definition hex_number (s : bytes) : Z := of_digits 16 (hex_digit <$> s).

(** The body of a chunked response. *)
Fixpoint read_chunks (fuel : nat) (s : bytes) : option (bytes * bytes) :=
  match fuel with
  | O => None
  | S fuel =>
      match read_line s with
      | None => None
      | Some (size, rest) =>
          let n := Z.to_nat (hex_number size) in
          match read_line (drop n rest) with
          | Some ([], rest') =>
              if (n =? 0)%nat then Some ([], rest')
              else match read_chunks fuel rest' with
                   | Some (more, rest'') => Some (take n rest ++ more, rest'')
                   | None => None
                   end
          | _ => None
          end
      end
  end.

(** ** Reading what was written *)

Definition no_crlf (s : bytes) : Prop := Forall (λ c, c ≠ chCR) s.

Lemma no_crlf_app s k : no_crlf (s ++ k) ↔ no_crlf s ∧ no_crlf k.
Proof. apply Forall_app. Qed.

Lemma plain_no_crlf s : Forall plain_char s → no_crlf s.
Proof. intros H. eapply Forall_impl; [exact H|]. unfold plain_char. simpl. lia. Qed.

Lemma valid_no_crlf v : mnet_header_value_valid (Some v) = true → no_crlf v.
Proof.
  intros H. apply header_value_valid_Forall in H. eapply Forall_impl; [exact H|].
  unfold header_value_char. simpl. lia.
Qed.

Lemma read_line_app l rest : no_crlf l → read_line (l ++ CRLF ++ rest) = Some (l, rest).
Proof.
  intros Hl. induction Hl as [|c l Hc Hl IH]; [done|]. simpl read_line.
  rewrite (proj2 (Z.eqb_neq _ _)) by done. simpl andb. cbn iota. simpl app in IH. by rewrite IH.
Qed.

(** The lines of a header block are read back as they were written. *)
Lemma read_header_app ls rest :
  Forall (λ l, no_crlf l ∧ l ≠ []) ls →
  read_header (S (length ls)) (concat ((λ l, l ++ CRLF) <$> ls) ++ CRLF ++ rest) = Some (ls, rest).
Proof.
  intros Hls. induction Hls as [|l ls [Hl Hne] Hls IH].
  - done.
  - rewrite fmap_cons. cbn [concat length]. rewrite <-!app_assoc.
    set (n := S (length ls)) in *. cbn [read_header]. rewrite read_line_app by done. destruct l; [done|]. by rewrite IH.
Qed.

Lemma hex_number_print n : 0 <= n → hex_number (print_hex n) = n.
Proof.
  intros Hn. destruct (digits_spec 16 n ltac:(lia) Hn) as (Hv & Hd & _).
  unfold hex_number, print_hex. rewrite <-list_fmap_compose.
  rewrite (Forall_fmap_ext_1 _ id); [by rewrite list_fmap_id|].
  eapply Forall_impl; [exact Hd|]. intros d Hr. simpl in *.
  unfold hex_digit, digit_char, isdigit. repeat case_test; lia.
Qed.

(** One chunk and the terminating chunk give the body back. *)
Lemma read_chunks_one body rest :
  body ≠ [] →
  read_chunks 2 (print_hex (Z.of_nat (length body)) ++ CRLF ++ body ++ CRLF ++
                 lit "0" ++ CRLF ++ CRLF ++ rest) = Some (body, rest).
Proof.
  intros Hne. cbn [read_chunks].
  rewrite read_line_app by (apply plain_no_crlf, print_hex_plain; lia).
  rewrite hex_number_print, Nat2Z.id by lia. rewrite drop_app_length, take_app_length.
  change (CRLF ++ lit "0" ++ CRLF ++ CRLF ++ rest) with ([] ++ CRLF ++ lit "0" ++ CRLF ++ CRLF ++ rest).
  rewrite read_line_app by constructor.
  rewrite (proj2 (Nat.eqb_neq _ _)) by (by destruct body).
  rewrite read_line_app by (by repeat constructor). change (hex_number (lit "0")) with 0.
  change (drop (Z.to_nat 0) (CRLF ++ rest)) with ([] ++ CRLF ++ rest).
  rewrite read_line_app by constructor. simpl. by rewrite app_nil_r.
Qed.

(** ** The specification of the senders *)

(** [body] is what the response [r] carries in the world [w]. *)
Definition body_at (w : world) (r : mnet_response_t) (body : bytes) : Prop :=
  length body = rs_body_length r ∧
  (body ≠ [] → ∃ l k, rs_body r = Some l ∧ w_heap w !! l = Some (body ++ k)).

(** [body] is what is sent of [r]: nothing of a body that is missing, whatever
    length is announced. *)
Definition body_or_none (w : world) (r : mnet_response_t) (body : bytes) : Prop :=
  body_at w r body ∨ (rs_body r = None ∧ body = []).

(** The lines of the header block. *)
Definition response_lines (r : mnet_response_t) (keep_alive : bool) : list bytes :=
  [lit "HTTP/1.1 " ++ print_int (rs_status r) ++ lit " " ++ status_text (rs_status r);
   if rs_chunked r then lit "Transfer-Encoding: chunked"
   else lit "Content-Length: " ++ print_nat (Z.of_nat (rs_body_length r));
   lit "Content-Type: " ++ default_type r;
   lit "Connection: " ++ connection_text keep_alive].

(** The data of the successive sends. *)
Definition response_sends (r : mnet_response_t) (head_only keep_alive : bool) (body : bytes) :
    list bytes :=
  let h := response_header r (default_type r) keep_alive in
  if head_only then [h]
  else if rs_chunked r then
    h :: (if has_body r
          then [print_hex (Z.of_nat (rs_body_length r)) ++ CRLF; body; CRLF] else []) ++
    [lit "0" ++ CRLF ++ CRLF]
  else if has_body r then [h ++ body] else [h].

(** Why a response is not sent. *)
Definition unsendable `{!Allocator} (r : mnet_response_t) (keep_alive : bool) : Prop :=
  mnet_header_value_valid (Some (default_type r)) = false ∨
  1024 <= Z.of_nat (length (response_header r (default_type r) keep_alive)) ∨
  alloc_failure.

(** What follows the header block on the wire. *)
Definition carries (r : mnet_response_t) (head_only : bool) (body rest : bytes) : Prop :=
  if head_only then rest = []
  else if rs_chunked r then read_chunks 2 rest = Some (body, [])
  else rest = body.

Lemma status_text_plain s : no_crlf (status_text s).
Proof.
  unfold status_text. repeat case_test; vm_compute; by repeat constructor.
Qed.

Lemma lit_no_crlf s : forallb (λ c, negb (c =? chCR)) (lit s) = true → no_crlf (lit s).
Proof.
  rewrite Forall_forallb. intros H. eapply Forall_impl; [exact H|].
  intros c Hc. simpl in Hc. by bool_prop.
Qed.

Lemma response_header_lines r ka :
  response_header r (default_type r) ka =
  concat ((λ l, l ++ CRLF) <$> response_lines r ka) ++ CRLF.
Proof.
  unfold response_header, response_lines. destruct (rs_chunked r);
    rewrite !fmap_cons; cbn [fmap list_fmap concat]; by rewrite <-!app_assoc.
Qed.

Lemma response_lines_ok r ka :
  mnet_header_value_valid (Some (default_type r)) = true →
  Forall (λ l, no_crlf l ∧ l ≠ []) (response_lines r ka).
Proof.
  intros Hv. apply valid_no_crlf in Hv. unfold response_lines.
  assert (no_crlf (connection_text ka)) by (destruct ka; by apply lit_no_crlf).
  assert (no_crlf (lit " ")) by (by apply lit_no_crlf).
  repeat apply Forall_cons_2; [..|by constructor];
    try (split; [|done]; rewrite ?no_crlf_app; split_and?;
         eauto using status_text_plain, lit_no_crlf, plain_no_crlf, print_int_plain).
  destruct (rs_chunked r); (split; [|done]); rewrite ?no_crlf_app; split_and?;
    auto using lit_no_crlf. apply plain_no_crlf, print_nat_plain. lia.
Qed.

(** Whatever [send_response] sends is read back as the lines it wrote and the
    body it was given. *)
Lemma response_sends_read r head ka body :
  mnet_header_value_valid (Some (default_type r)) = true →
  length body = rs_body_length r → (body ≠ [] → rs_body r ≠ None) →
  ∃ rest, read_header 5 (concat (response_sends r head ka body)) = Some (response_lines r ka, rest) ∧
          carries r head body rest.
Proof.
  intros Hv Hlen Hb.
  assert (∀ rest, read_header 5 (response_header r (default_type r) ka ++ rest) =
                  Some (response_lines r ka, rest)) as Hread.
  { intros rest. rewrite response_header_lines, <-app_assoc.
    change 5%nat with (S (length (response_lines r ka))).
    by apply read_header_app, response_lines_ok. }
  assert (has_body r = bool_decide (body ≠ [])) as Hhas.
  { unfold has_body. rewrite <-Hlen. destruct body as [|c body]; simpl.
    - by rewrite andb_false_r.
    - rewrite (bool_decide_true (rs_body r ≠ None)) by auto. done. }
  unfold response_sends, carries. rewrite Hhas. clear Hhas. destruct head.
  { exists []. simpl. split; [|done]. apply Hread. }
  destruct (rs_chunked r).
  - cbn [concat]. eexists. split; [apply Hread|]. case_bool_decide as Hne.
    + cbn [concat app]. rewrite <-Hlen, <-!app_assoc, app_nil_r.
      pose proof (read_chunks_one body [] Hne) as E. by rewrite app_nil_r in E.
    + subst body. by vm_compute.
  - case_bool_decide as Hne; cbn [concat].
    + exists body. split; [|done]. rewrite app_nil_r. apply Hread.
    + exists []. split; [apply Hread|by subst].
Qed.

Section send_proofs.
Context `{!Allocator, !OS}.

Lemma wp_read_body w r body (Q : bytes → world → Prop) :
  body_or_none w r body → has_body r = true → Q body w → wp (read_body r) Q w.
Proof.
  unfold has_body. intros [[Hlen Hb]|[Hn _]] Hh HQ; bool_prop; [|done].
  destruct Hb as (l & k & Hl & Hk); [intros ->; simpl in Hlen; lia|].
  unfold read_body. rewrite Hl. apply wp_bind. eapply wp_load_at; [done|].
  rewrite (proj2 (Nat.leb_le _ _)) by (rewrite length_app; lia). apply wp_ret.
  by rewrite <-Hlen, take_app_length.
Qed.

Lemma body_at_heap w1 w2 r body :
  w_heap w2 = w_heap w1 → body_or_none w1 r body → body_or_none w2 r body.
Proof. intros E [[Hlen Hb]|Hn]; [left; split; [done|by rewrite E]|by right]. Qed.

Lemma owns_same_heap w0 w1 w2 n evs bs :
  owns w0 w1 bs → owns (io w0 n evs) w2 bs → w_heap w2 = w_heap w1.
Proof. intros [_ -> _ _ _ _ _] [_ -> _ _ _ _ _]. done. Qed.

Lemma chunk_size_fits (len : nat) :
  Z.of_nat len < size_mod →
  (0 <? Z.of_nat (length (print_hex (Z.of_nat len) ++ CRLF))) = true ∧
  (Z.of_nat (length (print_hex (Z.of_nat len) ++ CRLF)) <? 32) = true.
Proof.
  intros Hl. assert (length (print_hex (Z.of_nat len)) ≤ 16)%nat.
  { unfold print_hex. rewrite length_fmap. apply length_digits; [lia| |lia].
    unfold size_mod in Hl. simpl Z.of_nat. lia. }
  rewrite length_app. simpl. lia.
Qed.

Lemma send_chunks_spec w0 w bs r h body (Q : unit → world → Prop) :
  owns w0 w bs → body_or_none w r body → Z.of_nat (rs_body_length r) < size_mod →
  (∀ sent n w', owns (io w0 n (EvSend <$> sent)) w' bs →
     sent = h :: (if has_body r
        then [print_hex (Z.of_nat (rs_body_length r)) ++ CRLF; body; CRLF] else []) ++
        [lit "0" ++ CRLF ++ CRLF] → Q () w') →
  wp (mnet_send h;;
      (if has_body r then
         let '(chlen, chunk_header) :=
           snprintf 32 (print_hex (Z.of_nat (rs_body_length r)) ++ CRLF) in
         (if ((0 <? chlen) && (chlen <? 32))%bool then mnet_send chunk_header;; mret ()
          else mret ());;
         body ← read_body r;
         mnet_send body;;
         mnet_send CRLF;;
         mret ()
       else mret ());;
      mnet_send (lit "0" ++ CRLF ++ CRLF);;
      mret ()) Q w.
Proof.
  intros Ho Hb Hlen HQ. apply wp_bind. eapply wp_send; [done|]. intros _ w1 Ho1.
  pose proof (owns_same_heap _ _ _ _ _ _ Ho Ho1) as E1.
  apply wp_bind. destruct (has_body r) eqn:Hh.
  - unfold snprintf. destruct (chunk_size_fits _ Hlen) as [F1 F2]. rewrite F1, F2. cbn iota.
    rewrite take_ge by (bool_prop; lia).
    apply wp_bind, wp_bind. eapply wp_send; [done|]. intros _ w2 Ho2.
    pose proof (owns_same_heap _ _ _ _ _ _ Ho1 Ho2) as E2. apply wp_ret.
    apply wp_bind. eapply wp_read_body; [|done|].
    { eapply body_at_heap; [|exact Hb]. congruence. }
    apply wp_bind. eapply wp_send; [done|]. intros _ w3 Ho3.
    apply wp_bind. eapply wp_send; [done|]. intros _ w4 Ho4. apply wp_ret.
    apply wp_bind. eapply wp_send; [done|]. intros _ w5 Ho5. apply wp_ret.
    rewrite !io_io in Ho5.
    by eapply (HQ [h; print_hex (Z.of_nat (rs_body_length r)) ++ CRLF; body; CRLF;
                   lit "0" ++ CRLF ++ CRLF]).
  - apply wp_ret, wp_bind. eapply wp_send; [done|]. intros _ w2 Ho2. apply wp_ret.
    rewrite !io_io in Ho2. by eapply (HQ [h; lit "0" ++ CRLF ++ CRLF]).
Qed.

(** Either nothing is sent, for one of three reasons, or exactly the
    specified data; no memory is kept. *)
Lemma send_response_spec w0 w bs r head ka body (Q : unit → world → Prop) :
  owns w0 w bs → body_or_none w r body →
  (rs_chunked r = true → Z.of_nat (rs_body_length r) < size_mod) →
  (∀ sent n w', owns (io w0 n (EvSend <$> sent)) w' bs →
     sent = [] ∧ unsendable r ka ∨
     mnet_header_value_valid (Some (default_type r)) = true ∧
     sent = response_sends r head ka body →
     Q () w') →
  wp (send_response r head ka) Q w.
Proof.
  intros Ho Hb Hlen HQ. unfold send_response. cbn zeta.
  assert (∀ w', owns w0 w' bs → unsendable r ka → Q () w') as Hnone.
  { intros w' Ho' Hu. apply (HQ [] 0%nat); [by rewrite io_nil|by left]. }
  case_test; bool_prop; [apply wp_ret, Hnone; [done|by left]|].
  unfold snprintf. case_test; [apply wp_ret, Hnone; [done|]; right; left; bool_prop; lia|].
  bool_prop. rewrite take_ge by lia.
  set (h := response_header r (default_type r) ka) in *.
  assert (∀ sent n w', owns (io w0 n (EvSend <$> sent)) w' bs →
    sent = response_sends r head ka body → Q () w') as Hsent by (intros; eapply HQ; eauto).
  clear HQ. unfold response_sends in Hsent. fold h in Hsent. cbn zeta in Hsent.
  destruct head; simpl.
  { apply wp_bind. eapply wp_send; [done|]. intros _ w1 Ho1. by eapply Hsent with (sent := [h]). }
  destruct (rs_chunked r) eqn:Hc; simpl.
  - by eapply send_chunks_spec; [exact Ho|exact Hb|apply Hlen|].
  - destruct (has_body r) eqn:Hh.
    + apply wp_bind. eapply wp_read_body; [done..|].
      apply wp_bind. eapply wp_alloc; [done| |].
      * intros w1 Hf Ho1. apply wp_ret, Hnone; [done|]. by right; right.
      * intros l w1 Ho1. apply wp_bind. eapply wp_load; [done|left|].
        apply wp_bind. eapply wp_send; [done|]. intros _ w2 Ho2.
        eapply wp_free; [done|done|]. intros w3 Ho3. by eapply Hsent with (sent := [h ++ body]).
    + apply wp_bind. eapply wp_send; [done|]. intros _ w1 Ho1. apply wp_ret.
      by eapply Hsent with (sent := [h]).
Qed.

(** ** Error pages *)

(** The lines of the header block of an error page. *)
Definition page_lines (first conn : bytes) (len : nat) : list bytes :=
  [lit "HTTP/1.1 " ++ first; lit "Content-Length: " ++ print_nat (Z.of_nat len);
   lit "Content-Type: text/html; charset=utf-8"; lit "Connection: " ++ conn].

Definition block_of (ls : list bytes) : bytes := concat ((λ l, l ++ CRLF) <$> ls) ++ CRLF.

Definition error_page (status : Z) (st message : bytes) : bytes :=
  take 255 (simple_error_text status st message).

Definition debug_events (debug : Z) (text : bytes) : list event :=
  if negb (debug =? 0) then [EvStderr text] else [].

Lemma open_sockets_debug debug text : open_sockets (debug_events debug text) = 0.
Proof. unfold debug_events. by case_test. Qed.
Hint Rewrite open_sockets_debug : sockets.

(** A page of which the header block [ls] and the body are sent, or nothing. *)
Definition page_sends (ls : list bytes) (page : bytes) : list bytes :=
  if (512 <=? Z.of_nat (length (block_of ls))) then [] else [block_of ls; page].

Lemma print_int_of_nat n : print_int (Z.of_nat n) = print_nat (Z.of_nat n).
Proof. unfold print_int. by rewrite (proj2 (Z.ltb_ge _ _)) by lia. Qed.

Lemma wp_debug w0 w bs debug text (Q : unit → world → Prop) :
  owns w0 w bs → (∀ w', owns (io w0 0 (debug_events debug text)) w' bs → Q () w') →
  wp (if negb (debug =? 0) then fprintf_stderr text else mret ()) Q w.
Proof.
  unfold debug_events. intros Ho HQ. case_test.
  - by eapply wp_stderr.
  - apply wp_ret, HQ. by rewrite io_nil.
Qed.

Lemma simple_error_spec w0 w bs status st message debug (Q : unit → world → Prop) :
  owns w0 w bs →
  (∀ n w', owns (io w0 n (debug_events debug
               (lit "[mnet] " ++ print_int status ++ lit " " ++ message ++ [chLF]) ++
             (EvSend <$> page_sends (page_lines (print_int status ++ lit " " ++ st) (lit "close")
                (length (error_page status st message))) (error_page status st message)))) w' bs →
     Q () w') →
  wp (send_simple_error status st message debug) Q w.
Proof.
  intros Ho HQ. unfold send_simple_error. apply wp_bind. eapply wp_debug; [done|].
  intros w1 Ho1. unfold snprintf.
  rewrite (proj2 (Z.ltb_ge (Z.of_nat _) 0)) by lia.
  set (text := simple_error_text status st message) in *.
  assert ((if 256 <=? Z.of_nat (length text) then 255 else Z.of_nat (length text)) =
          Z.of_nat (length (error_page status st message))) as ->.
  { unfold error_page. fold text. rewrite length_take. case_test; lia. }
  rewrite Nat2Z.id. change (Z.to_nat 256 - 1)%nat with 255%nat.
  change (take 255 text) with (error_page status st message).
  rewrite (take_ge (error_page status st message)) by done.
  set (page := error_page status st message) in *.
  set (ls := page_lines (print_int status ++ lit " " ++ st) (lit "close") (length page)) in *.
  match goal with |- context [Z.of_nat (length ?h) <? 0] => replace h with (block_of ls) end.
  2:{ unfold block_of, ls, page_lines. rewrite !fmap_cons. cbn [fmap list_fmap concat].
      rewrite <-!app_assoc, print_int_of_nat. by rewrite ?app_nil_l. }
  rewrite (proj2 (Z.ltb_ge (Z.of_nat _) 0)) by lia. cbn [orb].
  destruct (512 <=? Z.of_nat (length (block_of ls))) eqn:Hfit.
  - apply wp_ret, (HQ 0%nat). unfold page_sends. by rewrite Hfit, app_nil_r.
  - rewrite take_ge by (bool_prop; lia).
    apply wp_bind. eapply wp_send; [done|]. intros _ w2 Ho2.
    apply wp_bind. eapply wp_send; [done|]. intros _ w3 Ho3. apply wp_ret.
    rewrite !io_io in Ho3. eapply HQ. unfold page_sends. rewrite Hfit.
    exact Ho3.
Qed.

(** The two fixed pages. *)
Lemma fixed_page_spec w0 w bs first page ka text debug header (Q : unit → world → Prop) :
  owns w0 w bs →
  header = block_of (page_lines first (connection_text ka) (length page)) →
  Z.of_nat (length header) < 512 →
  (∀ n w', owns (io w0 n (debug_events debug text ++
      [EvSend (block_of (page_lines first (connection_text ka) (length page))); EvSend page])) w' bs →
     Q () w') →
  wp ((if negb (debug =? 0) then fprintf_stderr text else mret ());;
      let '(hlen, header) := snprintf (Z.to_nat 512) header in
      if ((0 <? hlen) && (hlen <? 512))%bool then
        mnet_send header;; mnet_send page;; mret ()
      else mret ()) Q w.
Proof.
  intros Ho -> Hlen HQ. apply wp_bind. eapply wp_debug; [done|].
  intros w1 Ho1. unfold snprintf. set (h := block_of _) in *.
  assert (0 < Z.of_nat (length h)) by (unfold h, block_of; rewrite length_app; simpl; lia).
  rewrite (proj2 (Z.ltb_lt 0 _)), (proj2 (Z.ltb_lt _ 512)) by lia. cbn [andb].
  rewrite take_ge by lia.
  apply wp_bind. eapply wp_send; [done|]. intros _ w2 Ho2.
  apply wp_bind. eapply wp_send; [done|]. intros _ w3 Ho3. apply wp_ret.
  rewrite !io_io in Ho3. by eapply HQ.
Qed.

Definition not_found_lines (ka : bool) : list bytes :=
  page_lines (lit "404 Not Found") (connection_text ka) (length not_found_body).

Definition method_not_allowed_lines (ka : bool) : list bytes :=
  page_lines (lit "405 Method Not Allowed") (connection_text ka)
    (length method_not_allowed_body).

Lemma not_found_spec w0 w bs path debug ka (Q : unit → world → Prop) :
  owns w0 w bs →
  (∀ n w', owns (io w0 n (debug_events debug (lit "[mnet] 404  " ++ path ++ [chLF]) ++
      [EvSend (block_of (not_found_lines ka)); EvSend not_found_body])) w' bs → Q () w') →
  wp (send_not_found path debug ka) Q w.
Proof.
  intros Ho HQ. unfold send_not_found. eapply fixed_page_spec; [done| | |exact HQ].
  - by destruct ka.
  - destruct ka; by vm_compute.
Qed.

Lemma method_not_allowed_spec w0 w bs method debug ka (Q : unit → world → Prop) :
  owns w0 w bs →
  (∀ n w', owns (io w0 n (debug_events debug (lit "[mnet] 405  " ++ method ++ [chLF]) ++
      [EvSend (block_of (method_not_allowed_lines ka)); EvSend method_not_allowed_body])) w' bs →
     Q () w') →
  wp (send_method_not_allowed method debug ka) Q w.
Proof.
  intros Ho HQ. unfold send_method_not_allowed. eapply fixed_page_spec; [done| | |exact HQ].
  - by destruct ka.
  - destruct ka; by vm_compute.
Qed.
End send_proofs.

#[export] Hint Rewrite open_sockets_debug : sockets.

(** ** Properties *)



(** C38: a response whose content type holds a CR, an LF or any other control
    character is not sent: untrusted input in a content type cannot inject
    header lines or split the response. *)
Theorem send_response_no_injection `{!Allocator, !OS} (r : mnet_response_t) (ct : bytes)
    (head_only keep_alive : bool) (w : world) :
  rs_content_type r = Some ct → Exists (λ c, c < 32 ∨ c = chDEL) ct →
  send_response r head_only keep_alive w = Some ((), w).
Proof.
  intros Hct Hbad. unfold send_response, default_type. rewrite Hct.
  destruct (mnet_header_value_valid (Some ct)) eqn:Hv; [|done]. exfalso.
  apply header_value_valid_Forall in Hv. revert Hbad.
  rewrite Exists_exists. intros (c & Hin & Hc). rewrite Forall_forall in Hv.
  specialize (Hv c Hin). unfold header_value_char in Hv. lia.
Qed.

Lemma send_response_no_injection_witness :
  send_response (H := all_ok) (H0 := silent_os)
    (MkResponse 200 (Some (lit "text/html" ++ CRLF ++ lit "Set-Cookie: a=b")) None 0 false)
    false false empty_world = Some ((), World 0 ∅ 0 []).
Proof.
  eapply (send_response_no_injection (H := all_ok) (H0 := silent_os)); [done|].
  apply Exists_app. right. apply Exists_cons_hd. by left.
Defined.

(** an error page of [send_simple_error] is framed correctly: the header
    block reads back as its four lines, the announced length is the length of
    the page that follows, and at most 255 bytes of page are sent (the 256-byte
    buffer is never read past its end). *)
Theorem simple_error_framed `{!Allocator, !OS} (status : Z) (st message : bytes) (debug : Z)
    (w : world) :
  wf_world w → no_crlf st →
  wp (send_simple_error status st message debug)
    (λ _ w', w_heap w' = w_heap w ∧ ∃ pre sent,
       w_trace w' = w_trace w ++ pre ++ (EvSend <$> sent) ∧
       (debug = 0 → pre = []) ∧
       (sent = [] ∨
        ∃ page, read_header 5 (concat sent) =
            Some (page_lines (print_int status ++ lit " " ++ st) (lit "close") (length page), page) ∧
          (length page ≤ 255)%nat)) w.
Proof.
  intros Hwf Hst. eapply simple_error_spec; [by apply owns_refl|].
  intros n w' Ho. split; [by eapply owns_nil_heap in Ho|].
  eexists _, _. split; [exact (owns_trace _ _ _ Ho)|]. split; [by intros ->|].
  unfold page_sends. case_test; [by left|right].
  set (page := error_page status st message). exists page. split.
  - cbn [concat]. rewrite app_nil_r. unfold block_of. rewrite <-app_assoc.
    apply (read_header_app (page_lines _ _ _)). unfold page_lines.
    repeat apply Forall_cons_2; [..|by constructor]; (split; [|done]); rewrite ?no_crlf_app;
      split_and?; auto using lit_no_crlf, plain_no_crlf, print_int_plain.
    apply plain_no_crlf, print_nat_plain. lia.
  - unfold page, error_page. rewrite length_take. lia.
Qed.

Lemma simple_error_framed_witness :
  wp (send_simple_error (H0 := silent_os) 413 (lit "Payload Too Large") (lit "too big") 1)
    (λ _ w', w_heap w' = w_heap empty_world ∧ ∃ pre sent,
       w_trace w' = w_trace empty_world ++ pre ++ (EvSend <$> sent) ∧
       (1 = 0 → pre = []) ∧
       (sent = [] ∨
        ∃ page, read_header 5 (concat sent) =
            Some (page_lines (print_int 413 ++ lit " " ++ lit "Payload Too Large") (lit "close")
                    (length page), page) ∧
          (length page ≤ 255)%nat)) empty_world.
Proof.
  apply (simple_error_framed (H := all_ok) (H0 := silent_os)).
  - apply empty_world_wf.
  - by apply lit_no_crlf.
Defined.
