(* ===== verification/Fields.v ===== *)
(** * Query parameters, headers and cookies

    [src/mnet_parse.c]: [parse_query_string], [parse_headers], [parse_cookies]
    and [free_extras], which fill and release the name/value arrays of a
    request.  [strtok_r] works on a private copy of the text; the tokens are
    computed from the text itself and the copy is only allocated and released. *)

From S2P Require Export Types Codec.

(** [for (j = 0; j < count; j++) { free (names[j]); free (values[j]); }] *)
Fixpoint free_pairs (names values : list ptr) (count : nat) {struct count} : M unit :=
  match count with
  | O => mret ()
  | S count =>
      match names, values with
      | n :: names, v :: values => free n;; free v;; free_pairs names values count
      | _, _ => ub
      end
  end.

Definition elems (a : option parr) : list ptr :=
  match a with Some a => pa_elems a | None => [] end.

Definition block (a : option parr) : ptr := pa_block <$> a.

Definition free_name_values (nv : name_values) : M unit :=
  free_pairs (elems (nv_names nv)) (elems (nv_values nv)) (nv_count nv);;
  free (block (nv_names nv));;
  free (block (nv_values nv)).

Definition free_extras (e : option request_extras_t) : M (option request_extras_t) :=
  match e with
  | None => mret None
  | Some e =>
      free_name_values (ex_query e);;
      free_name_values (ex_header e);;
      free_name_values (ex_cookie e);;
      mret (Some zero_extras)
  end.

Section fields.
Context `{!Allocator}.

(** [names[idx] = strdup (n); values[idx] = strdup (v)], both released when
    one of them is NULL. *)
Definition dup_pair (n v : bytes) : M (option (ptr * ptr)) :=
  np ← strdup n;
  vp ← strdup v;
  match np, vp with
  | Some _, Some _ => mret (Some (np, vp))
  | _, _ => free np;; free vp;; mret None
  end.

(** The two arrays of [cap] pointers and the copy of the text; [None] when one
    of them cannot be allocated. *)
Definition alloc_arrays (cap : nat) (text : bytes) : M (option (loc * loc * ptr)) :=
  names ← alloc (ptr_array cap);
  values ← alloc (ptr_array cap);
  match names, values with
  | Some nl, Some vl =>
      copy ← strdup text;
      match copy with
      | None => free names;; free values;; mret None
      | Some _ => mret (Some (nl, vl, copy))
      end
  | _, _ => free names;; free values;; mret None
  end.

(** Release everything a parser holds, the first [length names] pairs
    included. *)
Definition drop_arrays (nl vl : loc) (copy : ptr) (names values : list ptr) : M unit :=
  free_pairs names values (length names);;
  free (Some nl);; free (Some vl);; free copy.

Definition keep_arrays (nl vl : loc) (names values : list ptr) : name_values :=
  MkNameValues (Some (PArr nl names)) (Some (PArr vl values)) (length names).

(** [mnet_url_decode (p, strlen (p) + 1, p)] *)
Definition decode_in_place (p : ptr) : M unit :=
  s ← load_str p;
  b ← load p;
  match mnet_url_decode b (Some 0%nat) (length s + 1) (Some 0%nat) with
  | Some (b', _) => store p b'
  | None => ub
  end.

(** A token cut at its first ['='] *)
Definition cut_field (token : bytes) : bytes * bytes :=
  match strchr token chEQ with
  | Some i => (take i token, drop (S i) token)
  | None => (token, [])
  end.

Fixpoint query_loop (fuel cap : nat) (nl vl : loc) (copy : ptr) (rest : bytes)
    (names values : list ptr) : M (Z * name_values) :=
  match strtok_r [chAMP] rest with
  | Some (token, rest') =>
      if (length names <? cap)%nat then
        match fuel with
        | O => ub
        | S fuel =>
            let '(n, v) := cut_field token in
            d ← dup_pair n v;
            match d with
            | None => drop_arrays nl vl copy names values;; mret (-1, no_name_values)
            | Some (np, vp) =>
                sn ← load_str np;
                sv ← load_str vp;
                if ((MNET_MAX_QUERY_NAME <? length sn)%nat ||
                    (MNET_MAX_QUERY_VALUE <? length sv)%nat)%bool then
                  free np;; free vp;;
                  drop_arrays nl vl copy names values;; mret (-1, no_name_values)
                else
                  decode_in_place np;;
                  decode_in_place vp;;
                  query_loop fuel cap nl vl copy rest' (names ++ [np]) (values ++ [vp])
            end
        end
      else free copy;; mret (0, keep_arrays nl vl names values)
  | None => free copy;; mret (0, keep_arrays nl vl names values)
  end.

(** The number of separators, plus one. *)
Definition field_count (sep : Z) (s : bytes) : nat :=
  S (length (filter (λ c, c = sep) s)).

Definition parse_query_string (qs : option bytes) : M (Z * name_values) :=
  match qs with
  | None | Some [] => mret (0, no_name_values)
  | Some qs =>
      let count := field_count chAMP qs in
      let count := if (MNET_MAX_QUERY <? count)%nat then MNET_MAX_QUERY else count in
      a ← alloc_arrays count qs;
      match a with
      | None => mret (-1, no_name_values)
      | Some (nl, vl, copy) => query_loop (length qs) count nl vl copy qs [] []
      end
  end.

Definition skip_blanks (s : bytes) : bytes :=
  drop_while (λ c, (c =? chSP) || (c =? chTAB))%bool s.

Fixpoint headers_loop (fuel : nat) (nl vl : loc) (copy : ptr) (rest : bytes)
    (names values : list ptr) : M (Z * name_values) :=
  match strtok_r CRLF rest with
  | None => free copy;; mret (0, keep_arrays nl vl names values)
  | Some (line, rest') =>
      match fuel with
      | O => ub
      | S fuel =>
          if (MNET_MAX_HEADERS <=? length names)%nat then
            drop_arrays nl vl copy names values;; mret (-1, no_name_values)
          else if (MNET_MAX_HEADER_LINE <=? length line)%nat then
            drop_arrays nl vl copy names values;; mret (-1, no_name_values)
          else
            match strchr line chCOLON with
            | Some i =>
                let n := take i line in
                let v := skip_blanks (drop (S i) line) in
                if negb (mnet_header_name_valid (Some n)) then
                  headers_loop fuel nl vl copy rest' names values
                else
                  d ← dup_pair n v;
                  match d with
                  | None => drop_arrays nl vl copy names values;; mret (-1, no_name_values)
                  | Some (np, vp) =>
                      headers_loop fuel nl vl copy rest' (names ++ [np]) (values ++ [vp])
                  end
            | None => headers_loop fuel nl vl copy rest' names values
            end
      end
  end.

Definition parse_headers (headers_raw : option bytes) : M (Z * name_values) :=
  match headers_raw with
  | None | Some [] => mret (0, no_name_values)
  | Some raw =>
      a ← alloc_arrays MNET_MAX_HEADERS raw;
      match a with
      | None => mret (-1, no_name_values)
      | Some (nl, vl, copy) => headers_loop (length raw) nl vl copy raw [] []
      end
  end.

Definition skip_spaces (s : bytes) : bytes := drop_while (λ c, c =? chSP) s.

(** The name and value of a cookie token. *)
Definition cut_cookie (token : bytes) : bytes * bytes :=
  let token := skip_spaces token in
  match strchr token chEQ with
  | Some i => (take i token, skip_spaces (drop (S i) token))
  | None => (token, [])
  end.

Fixpoint cookies_loop (fuel cap : nat) (nl vl : loc) (copy : ptr) (rest : bytes)
    (names values : list ptr) : M name_values :=
  match strtok_r [chSEMI] rest with
  | Some (token, rest') =>
      if (length names <? cap)%nat then
        match fuel with
        | O => ub
        | S fuel =>
            let '(n, v) := cut_cookie token in
            d ← dup_pair n v;
            match d with
            | None => drop_arrays nl vl copy names values;; mret no_name_values
            | Some (np, vp) =>
                cookies_loop fuel cap nl vl copy rest' (names ++ [np]) (values ++ [vp])
            end
        end
      else free copy;; mret (keep_arrays nl vl names values)
  | None => free copy;; mret (keep_arrays nl vl names values)
  end.

Definition parse_cookies (cookie_header : option bytes) : M name_values :=
  match cookie_header with
  | None | Some [] => mret no_name_values
  | Some h =>
      let count := field_count chSEMI h in
      a ← alloc_arrays count h;
      match a with
      | None => mret no_name_values
      | Some (nl, vl, copy) => cookies_loop (length h) count nl vl copy h [] []
      end
  end.
End fields.

(** ** Reference definitions: what the parsers should produce *)

Definition decode_or_empty (s : bytes) : bytes := default [] (percent_decode s).

Definition query_field (token : bytes) : option (bytes * bytes) :=
  let '(n, v) := cut_field token in
  if ((MNET_MAX_QUERY_NAME <? length n)%nat || (MNET_MAX_QUERY_VALUE <? length v)%nat)%bool
  then None else Some (decode_or_empty n, decode_or_empty v).

(** The first sixteen non-empty pieces between ['&'], cut and decoded; [None]
    when one of them is too long. *)
Definition query_fields (qs : bytes) : option (list (bytes * bytes)) :=
  mapM query_field (take MNET_MAX_QUERY (tokens [chAMP] qs)).

Definition header_field (line : bytes) : option (bytes * bytes) :=
  match strchr line chCOLON with
  | Some i =>
      if mnet_header_name_valid (Some (take i line))
      then Some (take i line, skip_blanks (drop (S i) line)) else None
  | None => None
  end.

(** The lines that are headers; [None] when a line is too long or comes after
    the hundredth header. *)
Fixpoint collect_headers (count : nat) (lines : list bytes) : option (list (bytes * bytes)) :=
  match lines with
  | [] => Some []
  | line :: lines =>
      if (MNET_MAX_HEADERS <=? count)%nat then None
      else if (MNET_MAX_HEADER_LINE <=? length line)%nat then None
      else match header_field line with
           | Some f => cons f <$> collect_headers (S count) lines
           | None => collect_headers count lines
           end
  end.

Definition header_fields (raw : bytes) : option (list (bytes * bytes)) :=
  collect_headers 0 (tokens CRLF raw).

Definition cookie_fields (h : bytes) : list (bytes * bytes) := cut_cookie <$> tokens [chSEMI] h.

(** ** Ownership of the arrays *)

(** A name and a value: where they are stored and the blocks' contents. *)
Abbreviation stored := ((loc * bytes) * (loc * bytes))%type.

Definition pair_blocks (ps : list stored) : list (loc * bytes) :=
  flat_map (λ p, [fst p; snd p]) ps.
Definition name_ptrs (ps : list stored) : list ptr := (λ p, Some (fst (fst p))) <$> ps.
Definition value_ptrs (ps : list stored) : list ptr := (λ p, Some (fst (snd p))) <$> ps.
Definition stored_fields (ps : list stored) : list (bytes * bytes) :=
  (λ p, (cstr (snd (fst p)), cstr (snd (snd p)))) <$> ps.

(** A block that holds a string. *)
Definition field_block (b : bytes) : Prop := 0 ∈ b ∧ text_ok (cstr b).
Definition terminated (ps : list stored) : Prop :=
  Forall (λ p, field_block (snd (fst p)) ∧ field_block (snd (snd p))) ps.

Lemma field_block_string s : text_ok s → field_block (s ++ [0]).
Proof.
  intros Hs. split; [set_solver|]. by rewrite cstr_app_nul by by apply text_ok_nonzero.
Qed.

(** [nv] holds the strings [fs]; its blocks are [bs]. *)
Definition nv_owned (nv : name_values) (fs : list (bytes * bytes)) (bs : list (loc * bytes)) : Prop :=
  (nv = no_name_values ∧ fs = [] ∧ bs = []) ∨
  ∃ nl vl cap ps, nv = keep_arrays nl vl (name_ptrs ps) (value_ptrs ps) ∧
    fs = stored_fields ps ∧ terminated ps ∧
    bs = (nl, ptr_array cap) :: (vl, ptr_array cap) :: pair_blocks ps.

Lemma terminated_nil : terminated [].
Proof. constructor. Qed.

Lemma pair_blocks_app ps qs : pair_blocks (ps ++ qs) = pair_blocks ps ++ pair_blocks qs.
Proof. apply flat_map_app. Qed.

Lemma length_name_ptrs ps : length (name_ptrs ps) = length ps.
Proof. apply length_fmap. Qed.

Section fields_proofs.
Context `{!Allocator}.

Lemma wp_free_pairs w0 w ps R (Q : unit → world → Prop) :
  owns w0 w (pair_blocks ps ++ R) → (∀ w', owns w0 w' R → Q () w') →
  wp (free_pairs (name_ptrs ps) (value_ptrs ps) (length ps)) Q w.
Proof.
  revert w. induction ps as [|[[l1 b1] [l2 b2]] ps IH]; intros w Ho HQ; simpl.
  - by apply wp_ret, HQ.
  - simpl in Ho. apply wp_bind. eapply wp_free; [done|done|]. intros w1 Ho1.
    apply wp_bind. eapply wp_free; [done|done|]. intros w2 Ho2. by apply IH.
Qed.

Lemma wp_free_nv w0 w nv fs bs R (Q : unit → world → Prop) :
  nv_owned nv fs bs → owns w0 w (bs ++ R) → (∀ w', owns w0 w' R → Q () w') →
  wp (free_name_values nv) Q w.
Proof.
  intros [(-> & _ & ->)|(nl & vl & cap & ps & -> & _ & _ & ->)] Ho HQ;
    unfold free_name_values; simpl.
  - apply wp_bind, wp_ret, wp_bind, wp_free_null, wp_free_null. by apply HQ.
  - simpl in Ho. rewrite length_name_ptrs. apply wp_bind. eapply wp_free_pairs with
      (R := (nl, ptr_array cap) :: (vl, ptr_array cap) :: R).
    { eapply owns_proper; [|exact Ho]. solve_Permutation. }
    intros w1 Ho1. apply wp_bind. eapply wp_free; [done|done|]. intros w2 Ho2.
    by eapply wp_free.
Qed.

Lemma wp_dup_pair w0 w bs n v (Q : option (ptr * ptr) → world → Prop) :
  owns w0 w bs →
  (∀ w', alloc_failure → owns w0 w' bs → Q None w') →
  (∀ l1 l2 w', owns w0 w' ((l1, n ++ [0]) :: (l2, v ++ [0]) :: bs) →
     Q (Some (Some l1, Some l2)) w') →
  wp (dup_pair n v) Q w.
Proof.
  intros Ho Hnone Hsome. unfold dup_pair. apply wp_bind. eapply wp_strdup; [done| |].
  - intros w1 Hf Ho1. apply wp_bind. eapply wp_strdup; [done| |].
    + intros w2 _ Ho2. apply wp_bind, wp_free_null, wp_bind, wp_free_null, wp_ret. by apply Hnone.
    + intros l w2 Ho2. apply wp_bind, wp_free_null, wp_bind.
      eapply wp_free; [done|done|]. intros w3 Ho3. apply wp_ret. by apply Hnone.
  - intros l w1 Ho1. apply wp_bind. eapply wp_strdup; [done| |].
    + intros w2 Hf Ho2. apply wp_bind. eapply wp_free; [done|done|]. intros w3 Ho3.
      apply wp_bind, wp_free_null, wp_ret. by apply Hnone.
    + intros l' w2 Ho2. apply wp_ret, Hsome. eapply owns_proper; [|done]. solve_Permutation.
Qed.

Lemma wp_alloc_arrays w0 w bs cap text (Q : option (loc * loc * ptr) → world → Prop) :
  owns w0 w bs →
  (∀ w', alloc_failure → owns w0 w' bs → Q None w') →
  (∀ nl vl cl w', owns w0 w' ((cl, text ++ [0]) :: (nl, ptr_array cap) :: (vl, ptr_array cap) :: bs) →
     Q (Some (nl, vl, Some cl)) w') →
  wp (alloc_arrays cap text) Q w.
Proof.
  intros Ho Hnone Hsome. unfold alloc_arrays. apply wp_bind. eapply wp_alloc; [done| |].
  - intros w1 Hf Ho1. apply wp_bind. eapply wp_alloc; [done| |].
    + intros w2 _ Ho2. apply wp_bind, wp_free_null, wp_bind, wp_free_null, wp_ret. by apply Hnone.
    + intros l w2 Ho2. apply wp_bind, wp_free_null, wp_bind.
      eapply wp_free; [done|done|]. intros w3 Ho3. apply wp_ret. by apply Hnone.
  - intros nl w1 Ho1. apply wp_bind. eapply wp_alloc; [done| |].
    + intros w2 Hf Ho2. apply wp_bind. eapply wp_free; [done|done|]. intros w3 Ho3.
      apply wp_bind, wp_free_null, wp_ret. by apply Hnone.
    + intros vl w2 Ho2. apply wp_bind. eapply wp_strdup; [done| |].
      * intros w3 Hf Ho3. apply wp_bind.
        eapply (wp_free _ _ ((vl, ptr_array cap) :: bs)); [done|solve_Permutation|].
        intros w4 Ho4. apply wp_bind. eapply wp_free; [done|done|]. intros w5 Ho5.
        apply wp_ret. by apply Hnone.
      * intros cl w3 Ho3. apply wp_ret, Hsome. eapply owns_proper; [|done]. solve_Permutation.
Qed.

(** What a parser holds while it runs. *)
Definition holding (nl vl cl : loc) (cap : nat) (text : bytes) (ps : list stored)
    (R : list (loc * bytes)) : list (loc * bytes) :=
  (cl, text) :: (nl, ptr_array cap) :: (vl, ptr_array cap) :: pair_blocks ps ++ R.

Lemma wp_drop_arrays w0 w nl vl cl cap text ps R (Q : unit → world → Prop) :
  owns w0 w (holding nl vl cl cap text ps R) → (∀ w', owns w0 w' R → Q () w') →
  wp (drop_arrays nl vl (Some cl) (name_ptrs ps) (value_ptrs ps)) Q w.
Proof.
  unfold holding, drop_arrays. intros Ho HQ. rewrite length_name_ptrs.
  apply wp_bind. eapply wp_free_pairs with
    (R := (nl, ptr_array cap) :: (vl, ptr_array cap) :: (cl, text) :: R).
  { eapply owns_proper; [|exact Ho]. solve_Permutation. }
  intros w1 Ho1. apply wp_bind. eapply wp_free; [done|done|]. intros w2 Ho2.
  apply wp_bind. eapply wp_free; [done|done|]. intros w3 Ho3. by eapply wp_free.
Qed.

Lemma wp_decode_in_place w0 w bs bs' l s (Q : unit → world → Prop) :
  owns w0 w bs' → bs' ≡ₚ (l, s ++ [0]) :: bs → text_ok s →
  (∀ b w', owns w0 w' ((l, b) :: bs) → 0 ∈ b → cstr b = decode_or_empty s → Q () w') →
  wp (decode_in_place (Some l)) Q w.
Proof.
  intros Ho Hp [Hs Hlen] HQ. rewrite Hp in Ho. unfold decode_in_place.
  apply wp_bind. eapply wp_load_str; [done|by left|by eauto with cstring|].
  apply wp_bind. eapply wp_load; [done|by left|].
  destruct (mnet_url_decode_in_place s [] Hs Hlen) as (b & n & E & Hb & H0 & Hc & _).
  unfold strlen in E. rewrite cstr_app_nul in E by eauto with cstring. rewrite E.
  eapply wp_store; [done|done|done|]. intros w' Ho'. by eapply HQ.
Qed.

(** The outcome of a parser that should produce [fs], [None] for a rejected
    text. *)
Definition fields_outcome (w0 : world) (R : list (loc * bytes)) (fs : option (list (bytes * bytes)))
    (res : Z * name_values) (w' : world) : Prop :=
  ∃ got bs, nv_owned (snd res) got bs ∧ owns w0 w' (bs ++ R) ∧
    ((fst res = 0 ∧ fs = Some got) ∨
     (fst res = -1 ∧ snd res = no_name_values ∧ (fs = None ∨ alloc_failure))).

Lemma fields_outcome_fail w0 w R fs :
  owns w0 w R → fs = None ∨ alloc_failure → fields_outcome w0 R fs (-1, no_name_values) w.
Proof. intros Ho Hf. exists [], []. split_and!; [by left|done|]. right. by split_and!. Qed.

Lemma wp_keep_arrays w0 w nl vl cl cap text ps R :
  owns w0 w (holding nl vl cl cap text ps R) → terminated ps →
  wp (free (Some cl);; mret (0, keep_arrays nl vl (name_ptrs ps) (value_ptrs ps)))
    (fields_outcome w0 R (Some (stored_fields ps))) w.
Proof.
  unfold holding. intros Ho Ht. apply wp_bind. eapply wp_free; [done|done|]. intros w' Ho'. apply wp_ret.
  exists (stored_fields ps), ((nl, ptr_array cap) :: (vl, ptr_array cap) :: pair_blocks ps).
  split_and!; [|exact Ho'|by left].
  right. by exists nl, vl, cap, ps.
Qed.

Lemma name_ptrs_snoc ps l1 b1 l2 b2 :
  name_ptrs ps ++ [Some l1] = name_ptrs (ps ++ [((l1, b1), (l2, b2))]) ∧
  value_ptrs ps ++ [Some l2] = value_ptrs (ps ++ [((l1, b1), (l2, b2))]).
Proof. unfold name_ptrs, value_ptrs. by rewrite !fmap_app. Qed.

Lemma stored_fields_snoc ps l1 b1 l2 b2 :
  stored_fields (ps ++ [((l1, b1), (l2, b2))]) = stored_fields ps ++ [(cstr b1, cstr b2)].
Proof. unfold stored_fields. by rewrite fmap_app. Qed.

Lemma terminated_snoc ps l1 b1 l2 b2 :
  terminated ps → field_block b1 → field_block b2 → terminated (ps ++ [((l1, b1), (l2, b2))]).
Proof. intros. apply Forall_app. split; [done|]. by apply Forall_singleton. Qed.

Lemma holding_snoc nl vl cl cap text ps R l1 b1 l2 b2 :
  (l1, b1) :: (l2, b2) :: holding nl vl cl cap text ps R ≡ₚ
  holding nl vl cl cap text (ps ++ [((l1, b1), (l2, b2))]) R.
Proof. unfold holding. rewrite pair_blocks_app. simpl. solve_Permutation. Qed.

Lemma cut_field_ok token n v :
  text_ok token → cut_field token = (n, v) → text_ok n ∧ text_ok v.
Proof.
  unfold cut_field. intros Ht. destruct (strchr token chEQ); intros [= <- <-];
    auto using text_ok_take, text_ok_drop, text_ok_nil.
Qed.

Lemma cut_cookie_ok token n v :
  text_ok token → cut_cookie token = (n, v) → text_ok n ∧ text_ok v.
Proof.
  unfold cut_cookie, skip_spaces. intros Ht.
  destruct (strchr _ chEQ); intros [= <- <-];
    auto using text_ok_take, text_ok_drop, text_ok_drop_while, text_ok_nil.
Qed.

(** Prepending what is stored already commutes with collecting the rest. *)
Lemma fmap_snoc_cons (fs : list (bytes * bytes)) f (r : option (list (bytes * bytes))) :
  app fs <$> (cons f <$> r) = app (fs ++ [f]) <$> r.
Proof. destruct r as [l|]; [|done]. simpl. by rewrite <-app_assoc. Qed.

Lemma mapM_option_cons {A B} (f : A → option B) x l :
  mapM f (x :: l) = match f x with Some y => cons y <$> mapM f l | None => None end.
Proof. simpl. destruct (f x); [|done]. simpl. by destruct (mapM f l). Qed.

Lemma query_loop_spec fuel : ∀ w0 w cap nl vl cl text rest ps R,
  owns w0 w (holding nl vl cl cap text ps R) → terminated ps → text_ok rest →
  (length rest ≤ fuel)%nat →
  wp (query_loop fuel cap nl vl (Some cl) rest (name_ptrs ps) (value_ptrs ps))
    (fields_outcome w0 R (app (stored_fields ps) <$>
       mapM query_field (take (cap - length ps) (tokens [chAMP] rest)))) w.
Proof.
  induction fuel as [|fuel IH]; intros w0 w cap nl vl cl text rest ps R Ho Ht Hr Hfuel.
  { destruct rest; [|simpl in Hfuel; lia]. change (tokens [chAMP] []) with (@nil bytes).
    rewrite take_nil. simpl.
    rewrite app_nil_r. by eapply wp_keep_arrays. }
  cbn [query_loop]. rewrite tokens_strtok.
  destruct (strtok_r [chAMP] rest) as [[token rest']|] eqn:Etok.
  2:{ rewrite take_nil. simpl. rewrite app_nil_r. by eapply wp_keep_arrays. }
  rewrite length_name_ptrs. case_test; bool_prop.
  2:{ replace (cap - length ps)%nat with 0%nat by lia. simpl. rewrite app_nil_r.
      by eapply wp_keep_arrays. }
  replace (cap - length ps)%nat with (S (cap - S (length ps))) by lia.
  cbn [take]. rewrite mapM_option_cons.
  destruct (text_ok_strtok_r _ _ _ _ Hr Etok) as [Hct Hcr].
  apply strtok_r_Some in Etok as (_ & _ & Hlt).
  unfold query_field at 1. destruct (cut_field token) as [n v] eqn:Ecut.
  destruct (cut_field_ok _ _ _ Hct Ecut) as [Hn Hv].
  apply wp_bind. eapply wp_dup_pair; [done| |].
  - intros w1 Hf Ho1. apply wp_bind. eapply wp_drop_arrays; [done|]. intros w2 Ho2.
    apply wp_ret, fields_outcome_fail; [done|by right].
  - intros l1 l2 w1 Ho1.
    apply wp_bind. eapply wp_load_str; [done|by left|by eauto with cstring|].
    apply wp_bind. eapply wp_load_str; [done|by right; left|by eauto with cstring|].
    destruct (_ || _)%bool eqn:Elen.
    + apply wp_bind. eapply wp_free; [done|done|]. intros w2 Ho2.
      apply wp_bind. eapply wp_free; [done|done|]. intros w3 Ho3.
      apply wp_bind. eapply wp_drop_arrays; [done|]. intros w4 Ho4.
      apply wp_ret, fields_outcome_fail; [done|by left].
    + unfold MNET_MAX_QUERY_NAME, MNET_MAX_QUERY_VALUE in Elen. bool_prop.
      apply wp_bind. eapply wp_decode_in_place; [done|done|done|].
      intros b1 w2 Ho2 H1 Hc1.
      apply wp_bind. eapply wp_decode_in_place with (s := v)
        (bs := (l1, b1) :: holding nl vl cl cap text ps R);
        [exact Ho2|solve_Permutation|done|].
      intros b2 w3 Ho3 H2 Hc2.
      destruct (name_ptrs_snoc ps l1 b1 l2 b2) as [-> ->]. eapply wp_mono.
      * assert (field_block b1 ∧ field_block b2) as [Hb1 Hb2].
        { split; (split; [done|]); rewrite ?Hc1, ?Hc2; by apply decode_text_ok. }
        apply (IH w0 w3 cap nl vl cl text); [|by apply terminated_snoc|done|lia].
        rewrite <-holding_snoc. eapply owns_proper; [|exact Ho3]. apply Permutation_swap.
      * intros res w4. rewrite stored_fields_snoc, Hc1, Hc2, length_app. cbn [length].
        by rewrite Nat.add_1_r, <-fmap_snoc_cons.
Qed.

Lemma headers_loop_spec fuel : ∀ w0 w cap nl vl cl text rest ps R,
  owns w0 w (holding nl vl cl cap text ps R) → terminated ps →
  text_ok rest → (length rest ≤ fuel)%nat →
  wp (headers_loop fuel nl vl (Some cl) rest (name_ptrs ps) (value_ptrs ps))
    (fields_outcome w0 R (app (stored_fields ps) <$>
       collect_headers (length ps) (tokens CRLF rest))) w.
Proof.
  induction fuel as [|fuel IH]; intros w0 w cap nl vl cl text rest ps R Ho Ht Hr Hfuel.
  { destruct rest; [|simpl in Hfuel; lia]. simpl. rewrite app_nil_r. by eapply wp_keep_arrays. }
  cbn [headers_loop]. rewrite tokens_strtok.
  destruct (strtok_r CRLF rest) as [[line rest']|] eqn:Etok.
  2:{ simpl. rewrite app_nil_r. by eapply wp_keep_arrays. }
  destruct (text_ok_strtok_r _ _ _ _ Hr Etok) as [Hct Hcr].
  apply strtok_r_Some in Etok as (_ & _ & Hlt). cbn [collect_headers].
  rewrite length_name_ptrs. unfold header_field.
  assert (wp (drop_arrays nl vl (Some cl) (name_ptrs ps) (value_ptrs ps);;
              mret (-1, no_name_values))
    (fields_outcome w0 R (app (stored_fields ps) <$> None)) w) as Hfail.
  { apply wp_bind. eapply wp_drop_arrays; [done|]. intros w2 Ho2.
    apply wp_ret, fields_outcome_fail; [done|by left]. }
  case_test; [done|]. case_test; [done|].
  destruct (strchr line chCOLON) as [i|].
  2:{ by eapply IH; [..|lia]. }
  destruct (mnet_header_name_valid (Some (take i line))); cbn [negb].
  2:{ by eapply IH; [..|lia]. }
  apply wp_bind. eapply wp_dup_pair; [done| |].
  - intros w1 Hf Ho1. apply wp_bind. eapply wp_drop_arrays; [done|]. intros w2 Ho2.
    apply wp_ret, fields_outcome_fail; [done|by right].
  - intros l1 l2 w1 Ho1. set (n := take i line) in *. set (v := skip_blanks _) in *.
    assert (text_ok n ∧ text_ok v) as [Hn Hv].
    { unfold n, v, skip_blanks. auto using text_ok_take, text_ok_drop, text_ok_drop_while. }
    destruct (name_ptrs_snoc ps l1 (n ++ [0]) l2 (v ++ [0])) as [-> ->]. eapply wp_mono.
    + apply (IH w0 w1 cap nl vl cl text); [|by apply terminated_snoc; [|apply field_block_string..]|done|lia].
      by rewrite <-holding_snoc.
    + intros res w2. rewrite stored_fields_snoc, length_app. cbn [length].
      rewrite Nat.add_1_r, <-fmap_snoc_cons.
      by rewrite !cstr_app_nul by eauto with cstring.
Qed.

(** The outcome of [parse_cookies], which reports no error. *)
Definition cookies_outcome (w0 : world) (R : list (loc * bytes)) (fs : list (bytes * bytes))
    (nv : name_values) (w' : world) : Prop :=
  ∃ got bs, nv_owned nv got bs ∧ owns w0 w' (bs ++ R) ∧
    (got = fs ∨ nv = no_name_values ∧ alloc_failure).

Lemma wp_keep_cookies w0 w nl vl cl cap text ps R :
  owns w0 w (holding nl vl cl cap text ps R) → terminated ps →
  wp (free (Some cl);; mret (keep_arrays nl vl (name_ptrs ps) (value_ptrs ps)))
    (cookies_outcome w0 R (stored_fields ps)) w.
Proof.
  unfold holding. intros Ho Ht. apply wp_bind. eapply wp_free; [done|done|]. intros w' Ho'.
  apply wp_ret.
  exists (stored_fields ps), ((nl, ptr_array cap) :: (vl, ptr_array cap) :: pair_blocks ps).
  split_and!; [|exact Ho'|by left]. right. by exists nl, vl, cap, ps.
Qed.

Lemma cookies_loop_spec fuel : ∀ w0 w cap nl vl cl text rest ps R,
  owns w0 w (holding nl vl cl cap text ps R) → terminated ps →
  text_ok rest → (length rest ≤ fuel)%nat →
  (length ps + length (tokens [chSEMI] rest) ≤ cap)%nat →
  wp (cookies_loop fuel cap nl vl (Some cl) rest (name_ptrs ps) (value_ptrs ps))
    (cookies_outcome w0 R (stored_fields ps ++ (cut_cookie <$> tokens [chSEMI] rest))) w.
Proof.
  induction fuel as [|fuel IH]; intros w0 w cap nl vl cl text rest ps R Ho Ht Hr Hfuel Hcap.
  { destruct rest; [|simpl in Hfuel; lia]. change (tokens [chSEMI] []) with (@nil bytes).
    simpl. rewrite app_nil_r. by eapply wp_keep_cookies. }
  cbn [cookies_loop]. rewrite tokens_strtok in *.
  destruct (strtok_r [chSEMI] rest) as [[token rest']|] eqn:Etok.
  2:{ simpl. rewrite app_nil_r. by eapply wp_keep_cookies. }
  destruct (text_ok_strtok_r _ _ _ _ Hr Etok) as [Hct Hcr].
  apply strtok_r_Some in Etok as (_ & _ & Hlt). cbn [length] in Hcap.
  rewrite length_name_ptrs, (proj2 (Nat.ltb_lt _ _)) by lia. rewrite fmap_cons.
  destruct (cut_cookie token) as [n v] eqn:Ecut.
  destruct (cut_cookie_ok _ _ _ Hct Ecut) as [Hn Hv].
  apply wp_bind. eapply wp_dup_pair; [done| |].
  - intros w1 Hf Ho1. apply wp_bind. eapply wp_drop_arrays; [done|]. intros w2 Ho2.
    apply wp_ret. exists [], []. split_and!; [by left|done|by right].
  - intros l1 l2 w1 Ho1.
    destruct (name_ptrs_snoc ps l1 (n ++ [0]) l2 (v ++ [0])) as [-> ->]. eapply wp_mono.
    + apply (IH w0 w1 cap nl vl cl text);
        [by rewrite <-holding_snoc|by apply terminated_snoc; [|apply field_block_string..]|done|lia|].
      rewrite length_app. simpl. lia.
    + intros res w2. rewrite stored_fields_snoc, !cstr_app_nul by eauto with cstring.
      by rewrite <-app_assoc.
Qed.

Lemma parse_query_spec w0 w R qs :
  owns w0 w R → text_ok (default [] qs) →
  wp (parse_query_string qs) (fields_outcome w0 R (query_fields (default [] qs))) w.
Proof.
  intros Ho Hq. unfold parse_query_string.
  assert (fields_outcome w0 R (query_fields []) (0, no_name_values) w) as Hnil.
  { exists [], []. split_and!; [by left|done|]. left. split; done. }
  destruct qs as [[|c qs]|]; [by apply wp_ret| |by apply wp_ret]. cbn [default from_option id].
  set (q := c :: qs) in *. apply wp_bind. eapply wp_alloc_arrays; [done| |].
  - intros w1 Hf Ho1. by apply wp_ret, fields_outcome_fail; [|right].
  - intros nl vl cl w1 Ho1. eapply wp_mono.
    + apply (query_loop_spec (length q) w0 w1 _ nl vl cl (q ++ [0]) q [] R).
      all: auto using terminated_nil.
      all: auto using terminated_nil.
    + intros res w2. unfold query_fields. cbn [stored_fields fmap list_fmap length].
      rewrite Nat.sub_0_r. pose proof (length_tokens chAMP q) as Hlen.
      fold (field_count chAMP q) in Hlen. case_test; bool_prop.
      * by destruct (mapM _ _).
      * rewrite !take_ge by lia. by destruct (mapM _ _).
Qed.

Lemma parse_headers_spec w0 w R raw :
  owns w0 w R → text_ok (default [] raw) →
  wp (parse_headers raw) (fields_outcome w0 R (header_fields (default [] raw))) w.
Proof.
  intros Ho Hq. unfold parse_headers.
  assert (fields_outcome w0 R (header_fields []) (0, no_name_values) w) as Hnil.
  { exists [], []. split_and!; [by left|done|]. left. split; done. }
  destruct raw as [[|c raw]|]; [by apply wp_ret| |by apply wp_ret]. cbn [default from_option id].
  set (q := c :: raw) in *. apply wp_bind. eapply wp_alloc_arrays; [done| |].
  - intros w1 Hf Ho1. by apply wp_ret, fields_outcome_fail; [|right].
  - intros nl vl cl w1 Ho1. eapply wp_mono.
    + apply (headers_loop_spec (length q) w0 w1 MNET_MAX_HEADERS nl vl cl (q ++ [0]) q [] R);
        auto using terminated_nil.
    + intros res w2. unfold header_fields. cbn [stored_fields fmap list_fmap length].
      by destruct (collect_headers _ _).
Qed.

Lemma parse_cookies_spec w0 w R h :
  owns w0 w R → text_ok (default [] h) →
  wp (parse_cookies h) (cookies_outcome w0 R (cookie_fields (default [] h))) w.
Proof.
  intros Ho Hq. unfold parse_cookies.
  assert (cookies_outcome w0 R (cookie_fields []) no_name_values w) as Hnil.
  { exists [], []. split_and!; [by left|done|]. by left. }
  destruct h as [[|c h]|]; [by apply wp_ret| |by apply wp_ret]. cbn [default from_option id].
  set (q := c :: h) in *. apply wp_bind. eapply wp_alloc_arrays; [done| |].
  - intros w1 Hf Ho1. apply wp_ret. exists [], []. split_and!; [by left|done|by right].
  - intros nl vl cl w1 Ho1.
    apply (cookies_loop_spec (length q) w0 w1 (field_count chSEMI q) nl vl cl (q ++ [0]) q [] R);
      auto using terminated_nil. apply length_tokens.
Qed.

(** The extras own the three groups of arrays. *)
Definition extras_owned (e : request_extras_t) (qf hf cf : list (bytes * bytes))
    (bs : list (loc * bytes)) : Prop :=
  ∃ b1 b2 b3, nv_owned (ex_query e) qf b1 ∧ nv_owned (ex_header e) hf b2 ∧
    nv_owned (ex_cookie e) cf b3 ∧ bs = b1 ++ b2 ++ b3.

Lemma wp_free_extras w0 w e qf hf cf bs R (Q : option request_extras_t → world → Prop) :
  extras_owned e qf hf cf bs → owns w0 w (bs ++ R) →
  (∀ w', owns w0 w' R → Q (Some zero_extras) w') →
  wp (free_extras (Some e)) Q w.
Proof.
  intros (b1 & b2 & b3 & H1 & H2 & H3 & ->) Ho HQ. rewrite <-!app_assoc in Ho.
  unfold free_extras. apply wp_bind. eapply wp_free_nv; [exact H1|done|]. intros w1 Ho1.
  apply wp_bind. eapply wp_free_nv; [exact H2|done|]. intros w2 Ho2.
  apply wp_bind. eapply wp_free_nv; [exact H3|done|]. intros w3 Ho3. by apply wp_ret, HQ.
Qed.
End fields_proofs.

(** ** What the reference definitions guarantee *)

(** A header that cannot break the framing of a message: the name is a token,
    neither part holds a line break, and the line fits the limit. *)
Definition header_ok (f : bytes * bytes) : Prop :=
  mnet_header_name_valid (Some (fst f)) = true ∧
  Forall (λ c, c ≠ chCR ∧ c ≠ chLF) (fst f) ∧ Forall (λ c, c ≠ chCR ∧ c ≠ chLF) (snd f) ∧
  (length (fst f) + length (snd f) < MNET_MAX_HEADER_LINE)%nat.

Lemma header_field_ok line f :
  Forall (λ c, c ∉ CRLF) line → (length line < MNET_MAX_HEADER_LINE)%nat →
  header_field line = Some f → header_ok f.
Proof.
  intros Hl Hlen. unfold header_field. destruct (strchr line chCOLON) as [i|] eqn:Ei; [|done].
  destruct (mnet_header_name_valid (Some (take i line))) eqn:Ev; [|done]. intros [= <-].
  assert (Forall (λ c, c ≠ chCR ∧ c ≠ chLF) line) as Hc.
  { eapply Forall_impl; [exact Hl|]. intros c Hc. unfold CRLF in Hc. simpl in Hc. set_solver. }
  apply strchr_Some in Ei as (_ & _ & Hi); [|done]. unfold header_ok, skip_blanks. cbn [fst snd].
  split_and!; [done|by apply Forall_take|by apply Forall_drop_while, Forall_drop|].
  pose proof (length_drop_while (λ c, (c =? chSP) || (c =? chTAB))%bool (drop (S i) line)) as H.
  rewrite length_drop in H. rewrite length_take. lia.
Qed.

Lemma collect_headers_ok lines : ∀ count fs,
  Forall (λ t, t ≠ [] ∧ Forall (λ c, c ∉ CRLF) t) lines → (count ≤ MNET_MAX_HEADERS)%nat →
  collect_headers count lines = Some fs →
  Forall header_ok fs ∧ (count + length fs ≤ MNET_MAX_HEADERS)%nat.
Proof.
  induction lines as [|line lines IH]; intros count fs Hls Hc; cbn [collect_headers].
  - intros [= <-]. split; [constructor|simpl; lia].
  - apply Forall_cons in Hls as [[_ Hl] Hls].
    case_test; [done|]. case_test; [done|]. bool_prop.
    destruct (header_field line) as [f|] eqn:Ef; [|by apply IH].
    intros (gs & Hgs & ->)%fmap_Some. apply IH in Hgs as [H1 H2]; [|done|lia].
    split; [|simpl; lia]. constructor; [by eapply header_field_ok|done].
Qed.

Lemma query_fields_bound qs fs :
  query_fields qs = Some fs → (length fs ≤ MNET_MAX_QUERY)%nat.
Proof.
  unfold query_fields. intros H%length_mapM. rewrite <-H, length_take. lia.
Qed.

(** ** Properties *)

(** C37: [parse_query_string] produces exactly the first sixteen non-empty pairs
    between ['&'], cut at the first ['='] and percent-decoded (a malformed
    escape gives the empty string), in fresh arrays; it returns -1, with no
    arrays and nothing leaked, only when one of those names or values exceeds
    1024 bytes or an allocation fails. *)
Theorem parse_query_correct `{!Allocator} (qs : bytes) (w : world) :
  wf_world w → text_ok qs →
  wp (parse_query_string (Some qs))
    (λ res w', ∃ got bs, nv_owned (snd res) got bs ∧ owns w w' bs ∧
       (length got ≤ MNET_MAX_QUERY)%nat ∧
       ((fst res = 0 ∧ query_fields qs = Some got) ∨
        (fst res = -1 ∧ snd res = no_name_values ∧ (query_fields qs = None ∨ alloc_failure)))) w.
Proof.
  intros Hwf Hq. eapply wp_mono; [by eapply parse_query_spec; [apply owns_refl|]|].
  intros res w' (got & bs & Hnv & Ho & Hres). rewrite app_nil_r in Ho.
  exists got, bs. split_and!; [done..| |done]. destruct Hres as [[_ E]|(_ & E & _)].
  - by eapply query_fields_bound.
  - destruct Hnv as [(_ & -> & _)|(nl & vl & cap & ps & E' & _)]; [simpl; lia|].
    by rewrite E' in E.
Qed.

Lemma parse_query_correct_witness :
  wp (parse_query_string (H := all_ok) (Some (lit "a=1&b=%41+x&c")))
    (λ res w', ∃ got bs, nv_owned (snd res) got bs ∧ owns empty_world w' bs ∧
       (length got ≤ MNET_MAX_QUERY)%nat ∧
       ((fst res = 0 ∧ query_fields (lit "a=1&b=%41+x&c") = Some got) ∨
        (fst res = -1 ∧ snd res = no_name_values ∧
          (query_fields (lit "a=1&b=%41+x&c") = None ∨ alloc_failure (H := all_ok)))))
    empty_world.
Proof.
  apply (parse_query_correct (H := all_ok)).
  - apply empty_world_wf.
  - by repeat constructor.
Defined.

Example query_fields_example :
  query_fields (lit "a=1&&b=%41+x&c&d=%zz") =
    Some [(lit "a", lit "1"); (lit "b", lit "A x"); (lit "c", []); (lit "d", [])].
Proof. by vm_compute. Qed.

(** C36: [parse_headers] stores exactly the lines of the header section that have
    a colon and a valid name, in order; it returns -1, with nothing leaked, only
    when a line has 4096 bytes or more, when a line follows the hundredth
    header, or when an allocation fails.  Every stored header is safe: its name
    is a token and neither part holds a CR or LF. *)
Theorem parse_headers_correct `{!Allocator} (raw : bytes) (w : world) :
  wf_world w → text_ok raw →
  wp (parse_headers (Some raw))
    (λ res w', ∃ got bs, nv_owned (snd res) got bs ∧ owns w w' bs ∧
       Forall header_ok got ∧ (length got ≤ MNET_MAX_HEADERS)%nat ∧
       ((fst res = 0 ∧ header_fields raw = Some got) ∨
        (fst res = -1 ∧ snd res = no_name_values ∧ (header_fields raw = None ∨ alloc_failure)))) w.
Proof.
  intros Hwf Hq. eapply wp_mono; [by eapply parse_headers_spec; [apply owns_refl|]|].
  intros res w' (got & bs & Hnv & Ho & Hres). rewrite app_nil_r in Ho.
  assert (Forall header_ok got ∧ (length got ≤ MNET_MAX_HEADERS)%nat) as [H1 H2].
  { destruct Hres as [[_ E]|(_ & E & _)].
    - apply (collect_headers_ok (tokens CRLF raw) 0 got); [apply tokens_clean|lia|done].
    - destruct Hnv as [(_ & -> & _)|(nl & vl & cap & ps & E' & _)]; [split; [done|simpl; lia]|].
      by rewrite E' in E. }
  by exists got, bs.
Qed.

Lemma parse_headers_correct_witness :
  let raw := lit "GET / HTTP/1.1" ++ CRLF ++ lit "Host: a" ++ CRLF ++ lit "bad line: x" in
  wp (parse_headers (H := all_ok) (Some raw))
    (λ res w', ∃ got bs, nv_owned (snd res) got bs ∧ owns empty_world w' bs ∧
       Forall header_ok got ∧ (length got ≤ MNET_MAX_HEADERS)%nat ∧
       ((fst res = 0 ∧ header_fields raw = Some got) ∨
        (fst res = -1 ∧ snd res = no_name_values ∧
          (header_fields raw = None ∨ alloc_failure (H := all_ok))))) empty_world.
Proof.
  apply (parse_headers_correct (H := all_ok)).
  - apply empty_world_wf.
  - by repeat constructor.
Defined.

Example header_fields_example :
  header_fields (lit "GET / HTTP/1.1" ++ CRLF ++ lit "Host: a" ++ CRLF ++ lit "bad line: x") =
    Some [(lit "Host", lit "a")].
Proof. by vm_compute. Qed.

(** [parse_cookies] stores one pair for every non-empty piece between [';'],
    its leading spaces dropped and cut at the first ['=']; when an allocation
    fails it stores none, and nothing is leaked. *)
Theorem parse_cookies_correct `{!Allocator} (h : bytes) (w : world) :
  wf_world w → text_ok h →
  wp (parse_cookies (Some h))
    (λ nv w', ∃ got bs, nv_owned nv got bs ∧ owns w w' bs ∧
       (got = cookie_fields h ∨ nv = no_name_values ∧ alloc_failure)) w.
Proof.
  intros Hwf Hh. eapply wp_mono; [by eapply parse_cookies_spec; [apply owns_refl|]|].
  intros nv w' (got & bs & Hnv & Ho & Hres). rewrite app_nil_r in Ho. by exists got, bs.
Qed.

Lemma parse_cookies_correct_witness :
  wp (parse_cookies (H := all_ok) (Some (lit "a=1; b=2")))
    (λ nv w', ∃ got bs, nv_owned nv got bs ∧ owns empty_world w' bs ∧
       (got = cookie_fields (lit "a=1; b=2") ∨
        nv = no_name_values ∧ alloc_failure (H := all_ok))) empty_world.
Proof.
  apply (parse_cookies_correct (H := all_ok)).
  - apply empty_world_wf.
  - by repeat constructor.
Defined.
