(* ===== verification/Body.v ===== *)
(** * Locating and reading the request body

    [src/mnet_parse.c]: [read_full_body].  The connection's read buffer is an
    array whose received part is followed by a NUL; searches see the text up to
    the first NUL. *)

From S2P Require Export Types Sys.

Definition CRLFCRLF : bytes := [chCR; chLF; chCR; chLF].
Definition LFLF : bytes := [chLF; chLF].

(** [sep ? sep : sep2] and the length of the separator that was found *)
Definition end_of_headers (buffer : bytes) : option (nat * nat) :=
  let sep := strstr buffer CRLFCRLF in
  let sep2 := strstr buffer LFLF in
  match sep with
  | Some i => Some (i, 4%nat)
  | None => match sep2 with Some i => Some (i, 2%nat) | None => None end
  end.

(** [search == buffer || search[-1] == '\n'] *)
Definition line_initial (buffer : bytes) (i : nat) : bool :=
  ((i =? 0)%nat || bool_decide (buffer !! (i - 1)%nat = Some chLF))%bool.

(** The search for Content-Length: the last line-initial match before
    [header_end] and the number of such matches. *)
Fixpoint cl_search (fuel : nat) (buffer : bytes) (search header_end : nat)
    (cl_header : option nat) (cl_count : nat) : option (option nat * nat) :=
  match fuel with
  | O => None
  | S fuel =>
      match strcasestr (drop search buffer) (lit "content-length:") with
      | None => Some (cl_header, cl_count)
      | Some i =>
          let search := (search + i)%nat in
          if (header_end <=? search)%nat then Some (cl_header, cl_count)
          else if line_initial buffer search
          then cl_search fuel buffer (search + 15) header_end (Some search) (S cl_count)
          else cl_search fuel buffer (search + 15) header_end cl_header cl_count
      end
  end.

(** The search for Transfer-Encoding. *)
Fixpoint te_search (fuel : nat) (buffer : bytes) (search header_end : nat) : option bool :=
  match fuel with
  | O => None
  | S fuel =>
      match strcasestr (drop search buffer) (lit "transfer-encoding:") with
      | None => Some false
      | Some i =>
          let search := (search + i)%nat in
          if (header_end <=? search)%nat then Some false
          else if line_initial buffer search then Some true
          else te_search fuel buffer (search + 18) header_end
      end
  end.

Record digits_state := DigitsState { ds_seen : bool; ds_overflow : bool; ds_parsed : Z }.

(** The loop over the digits: the flags, the value, and what follows.  [None]
    is a read past the end of the buffer. *)
Fixpoint cl_digits (p : bytes) (max_body_size : Z) (st : digits_state) :
    option (digits_state * bytes) :=
  match p with
  | [] => None
  | c :: p' =>
      if ((ch0 <=? c) && (c <=? ch9))%bool then
        let overflow := (ds_overflow st || (max_body_size / 10 <? ds_parsed st))%bool in
        let parsed := wrap_size (ds_parsed st * 10 + (c - ch0)) in
        let overflow := (overflow || (max_body_size <? parsed))%bool in
        cl_digits p' max_body_size (DigitsState true overflow parsed)
      else Some (st, p)
  end.

(** The value of the header at [cl_header]: a negative code or the length. *)
Definition cl_value (buffer : bytes) (cl_header : nat) (max_body_size : Z) : option Z :=
  let val := drop_while (λ c, (c =? chSP) || (c =? chTAB))%bool (drop (cl_header + 15) buffer) in
  '(st, p) ← cl_digits val max_body_size (DigitsState false false 0);
  match p with
  | [] => None
  | c :: _ =>
      if (negb (ds_seen st) || (negb (c =? chCR) && negb (c =? chLF)))%bool then Some (-2)
      else if ds_overflow st then Some (-1)
      else Some (ds_parsed st)
  end.

(** From the two searches to the content length, or a negative code. *)
Definition content_length_of (buffer : bytes) (header_end : nat) (max_body_size : Z) : option Z :=
  '(cl_header, cl_count) ← cl_search (S (length buffer)) buffer 0 header_end None 0;
  if (1 <? cl_count)%nat then Some (-3)
  else
    te ← te_search (S (length buffer)) buffer 0 header_end;
    if te : bool then Some (-4)
    else match cl_header with
         | None => Some 0
         | Some i => cl_value buffer i max_body_size
         end.

Section body.
Context `{!Allocator, !OS}.

Fixpoint body_loop (fuel total content_length : nat) (full_body : ptr) (deadline : Z) : M Z :=
  if (total <? content_length)%nat then
    match fuel with
    | O => ub
    | S fuel =>
        now ← now_ms_mono;
        let left := deadline - now in
        if left <=? 0 then free full_body;; mret (-1)
        else
          pr ← mnet_poll (to_int left);
          if pr <=? 0 then free full_body;; mret (-1)
          else
            n ← mnet_recv (content_length - total);
            match n with
            | None | Some [] => free full_body;; mret (-1)
            | Some data =>
                b ← load full_body;
                (if (total + length data <=? length b)%nat
                 then store full_body (splice total data b) else ub);;
                body_loop fuel (total + length data) content_length full_body deadline
            end
    end
  else mret 0.

(** The code, the body, its length, and whether it is a fresh allocation. *)
Definition read_full_body (buffer : bytes) (initial_received : nat) (max_body_size timeout_ms : Z) :
    M (Z * (body_ptr * nat * bool)) :=
  match end_of_headers buffer with
  | None => mret (-1, (BodyNull, 0%nat, false))
  | Some (header_end, sep_len) =>
      let body_offset := (header_end + sep_len)%nat in
      let initial_body_len := Z.to_nat (wrap_size (Z.of_nat initial_received - Z.of_nat body_offset)) in
      match content_length_of buffer header_end max_body_size with
      | None => ub
      | Some cl =>
          if cl <? 0 then mret (cl, (BodyNull, 0%nat, false))
          else if cl =? 0 then mret (0, (BodyInBuffer (drop body_offset buffer), 0%nat, false))
          else if max_body_size <? cl then mret (-1, (BodyNull, 0%nat, false))
          else
            let content_length := Z.to_nat cl in
            if (content_length <=? initial_body_len)%nat then
              mret (0, (BodyInBuffer (drop body_offset buffer), content_length, false))
            else if (length buffer <? body_offset + initial_body_len)%nat then ub
            else
              let initial := take initial_body_len (drop body_offset buffer) in
              full_body ← alloc (initial ++ replicate (content_length + 1 - initial_body_len) 0);
              match full_body with
              | None => mret (-1, (BodyNull, 0%nat, false))
              | Some _ =>
                  now ← now_ms_mono;
                  let deadline := now + timeout_ms in
                  rc ← body_loop (content_length - initial_body_len) initial_body_len
                         content_length full_body deadline;
                  if rc <? 0 then mret (rc, (BodyNull, 0%nat, false))
                  else
                    b ← load full_body;
                    store full_body (<[content_length := chNUL]> b);;
                    mret (0, (BodyHeap full_body, content_length, true))
              end
      end
  end.
End body.

(** ** What the header section announces *)

(** The offsets before [header_end] at which a line starts with [name]. *)
Definition header_hits (name buffer : bytes) (header_end : nat) : list nat :=
  filter (λ i, line_initial buffer i = true ∧
               starts_with eqc_case name (drop i (cstr buffer)) = true) (seq 0 header_end).

(** The value of a Content-Length header: a decimal number up to the end of the
    line. *)
Definition decimal_line (val : bytes) : option Z :=
  let ds := take_while isdigit val in
  if bool_decide (ds = []) then None
  else match drop_while isdigit val with
       | c :: _ => if ((c =? chCR) || (c =? chLF))%bool then Some (dec_val ds) else None
       | [] => None
       end.

(** The length of the body that the header section announces, or the code of
    the reason to reject the request. *)
Definition announced_length (buffer : bytes) (header_end : nat) (max_body_size : Z) : Z :=
  match header_hits (lit "content-length:") buffer header_end with
  | _ :: _ :: _ => -3
  | hits =>
      match header_hits (lit "transfer-encoding:") buffer header_end with
      | _ :: _ => -4
      | [] =>
          match hits with
          | [] => 0
          | i :: _ =>
              match decimal_line (drop_while (λ c, (c =? chSP) || (c =? chTAB))%bool
                                    (drop (i + 15) buffer)) with
              | None => -2
              | Some n => if max_body_size <? n then -1 else n
              end
          end
      end
  end.

(** ** The searches find the header lines *)

Section searches.
Context (buffer : bytes).
Hypothesis Hnul : 0 ∈ buffer.

Let s := cstr buffer.

Lemma buffer_split : ∃ k, buffer = s ++ 0 :: k.
Proof.
  unfold s, cstr. destruct (drop_while not_nul buffer) as [|c k] eqn:E.
  - exfalso. pose proof (take_drop_while not_nul buffer) as E'.
    rewrite E, app_nil_r in E'. rewrite <-E' in Hnul.
    pose proof (take_while_all not_nul buffer) as Hall. rewrite Forall_forall in Hall.
    apply Hall in Hnul. done.
  - exists k. pose proof (drop_while_head _ _ _ _ E) as Hc. unfold not_nul in Hc. bool_prop.
    subst c. by rewrite <-E, take_drop_while.
Qed.

Lemma cstr_drop i : (i ≤ length s)%nat → cstr (drop i buffer) = drop i s.
Proof.
  intros Hi. destruct buffer_split as [k E]. rewrite E at 1. rewrite drop_app_le by done.
  apply cstr_app_nul, Forall_drop, cstr_nul_free.
Qed.

Definition hit (name : bytes) (i : nat) : Prop :=
  line_initial buffer i = true ∧ starts_with eqc_case name (drop i s) = true.

Lemma hits_skip name hend a b :
  (a ≤ b)%nat → (∀ j, (a ≤ j < b)%nat → ¬ hit name j) →
  filter (hit name) (seq a (hend - a)) = filter (hit name) (seq b (hend - b)).
Proof.
  intros Hab. remember (b - a)%nat as n eqn:Hn. revert a Hab Hn.
  induction n as [|n IH]; intros a Hab Hn Hno; [by replace b with a by lia|].
  destruct (decide (hend ≤ a)%nat).
  - by replace (hend - a)%nat with 0%nat by lia; replace (hend - b)%nat with 0%nat by lia.
  - replace (hend - a)%nat with (S (hend - S a)) by lia. cbn [seq].
    rewrite filter_cons_False by (apply Hno; lia). apply IH; [lia|lia|].
    intros j Hj. apply Hno. lia.
Qed.

Lemma hits_cons name hend a :
  (a < hend)%nat →
  filter (hit name) (seq a (hend - a)) =
  (if decide (hit name a) then [a] else []) ++ filter (hit name) (seq (S a) (hend - S a)).
Proof.
  intros Ha. replace (hend - a)%nat with (S (hend - S a)) by lia. cbn [seq].
  rewrite filter_cons. by case_decide.
Qed.

Lemma starts_with_lookup name h d x :
  starts_with eqc_case name h = true → name !! d = Some x →
  ∃ y, h !! d = Some y ∧ tolower x = tolower y.
Proof.
  revert h d. induction name as [|c name IH]; intros [|y h] [|d]; simpl; try done.
  - intros [Hc _]%andb_prop [= ->]. unfold eqc_case in Hc. bool_prop. eauto.
  - intros [_ H]%andb_prop. by apply IH.
Qed.

(** Inside a match there is no start of a line. *)
Lemma no_hit_inside name i j :
  starts_with eqc_case name (drop i s) = true → Forall (λ c, tolower c ≠ chLF) name →
  (i < j < i + length name)%nat → ¬ hit name j.
Proof.
  intros Hm Hn Hj [Hl _]. unfold line_initial in Hl. apply orb_true_iff in Hl as [Hl|Hl]; bool_prop; [lia|].
  destruct (lookup_lt_is_Some_2 name (j - 1 - i)) as [x Hx]; [lia|].
  destruct (starts_with_lookup _ _ _ _ Hm Hx) as (y & Hy & Exy).
  rewrite lookup_drop in Hy. replace (i + (j - 1 - i))%nat with (j - 1)%nat in Hy by lia.
  destruct buffer_split as [k E]. rewrite E in Hl.
  rewrite lookup_app_l in Hl by (by eapply lookup_lt_Some).
  rewrite Hy in Hl. injection Hl as ->. rewrite Forall_lookup in Hn.
  apply (Hn _ _ Hx). by rewrite Exy.
Qed.

(** What one call of [strcasestr] says about the hits. *)
Lemma strcasestr_hits name off hend :
  name ≠ [] → Forall (λ c, tolower c ≠ chLF) name →
  (off ≤ length s)%nat → (hend ≤ length s)%nat →
  match strcasestr (drop off buffer) name with
  | None => filter (hit name) (seq off (hend - off)) = []
  | Some i =>
      (off + i + length name ≤ length s)%nat ∧
      if (hend <=? off + i)%nat then filter (hit name) (seq off (hend - off)) = []
      else filter (hit name) (seq off (hend - off)) =
           (if line_initial buffer (off + i) then [(off + i)%nat] else []) ++
           filter (hit name) (seq (off + i + length name) (hend - (off + i + length name)))
  end.
Proof.
  intros Hne Hn Hoff Hend. unfold strcasestr. rewrite cstr_drop by done.
  assert (∀ a, (hend ≤ a)%nat → filter (hit name) (seq a (hend - a)) = []) as Hnil.
  { intros a Ha. by replace (hend - a)%nat with 0%nat by lia. }
  destruct (find_sub eqc_case name (drop off s)) as [i|] eqn:Ef.
  - pose proof (find_sub_bound _ _ _ _ Ef) as Hb. rewrite length_drop in Hb.
    apply find_sub_Some in Ef as [Hm Hbefore]. rewrite drop_drop in Hm.
    assert (1 ≤ length name)%nat by (destruct name; [done|simpl; lia]).
    split; [lia|].
    assert (filter (hit name) (seq off (hend - off)) =
            filter (hit name) (seq (off + i) (hend - (off + i)))) as ->.
    { apply hits_skip; [lia|]. intros j Hj [_ H'].
      specialize (Hbefore (j - off)%nat ltac:(lia)). rewrite drop_drop in Hbefore.
      replace (off + (j - off))%nat with j in Hbefore by lia. congruence. }
    destruct (hend <=? off + i)%nat eqn:Hle; bool_prop; [by apply Hnil|].
    rewrite hits_cons by done.
    rewrite (hits_skip name hend (S (off + i)) (off + i + length name)).
    2:{ lia. }
    2:{ intros j Hj. eapply no_hit_inside; [exact Hm|done|lia]. }
    f_equal. unfold hit. case_decide as Hd.
    + destruct Hd as [-> _]. done.
    + destruct (line_initial buffer (off + i)); [|done]. by destruct Hd.
  - rewrite (hits_skip name hend off (Nat.max off hend)); [apply Hnil; lia|lia|].
    intros j Hj [_ H']. pose proof (find_sub_None _ _ _ Ef (j - off)%nat) as Hf.
    rewrite length_drop, drop_drop in Hf. replace (off + (j - off))%nat with j in Hf by lia.
    rewrite Hf in H'; [done|lia].
Qed.

Lemma cl_search_spec fuel : ∀ off hend cl count,
  (off ≤ length s)%nat → (hend ≤ length s)%nat → (length s - off < fuel)%nat →
  cl_search fuel buffer off hend cl count =
  let hits := filter (hit (lit "content-length:")) (seq off (hend - off)) in
  Some (match last hits with Some i => Some i | None => cl end, (count + length hits)%nat).
Proof.
  induction fuel as [|fuel IH]; intros off hend cl count Hoff Hend Hfuel; [lia|].
  cbn [cl_search].
  pose proof (strcasestr_hits (lit "content-length:") off hend ltac:(done)
    ltac:(by repeat constructor) Hoff Hend) as H.
  destruct (strcasestr _ _) as [i|]; [|rewrite H; simpl; by rewrite Nat.add_0_r].
  destruct H as [Hb H]. change (length (lit "content-length:")) with 15%nat in *.
  destruct (hend <=? off + i)%nat; [rewrite H; simpl; by rewrite Nat.add_0_r|].
  rewrite H. destruct (line_initial buffer (off + i)); rewrite IH by lia; cbn zeta.
  - set (hits := filter _ _). cbn [app]. rewrite last_cons. cbn [length].
    f_equal. f_equal; [by destruct (last hits)|lia].
  - done.
Qed.

Lemma te_search_spec fuel : ∀ off hend,
  (off ≤ length s)%nat → (hend ≤ length s)%nat → (length s - off < fuel)%nat →
  te_search fuel buffer off hend =
  Some (negb (bool_decide
    (filter (hit (lit "transfer-encoding:")) (seq off (hend - off)) = []))).
Proof.
  induction fuel as [|fuel IH]; intros off hend Hoff Hend Hfuel; [lia|].
  cbn [te_search].
  pose proof (strcasestr_hits (lit "transfer-encoding:") off hend ltac:(done)
    ltac:(by repeat constructor) Hoff Hend) as H.
  destruct (strcasestr _ _) as [i|]; [|by rewrite H].
  destruct H as [Hb H]. change (length (lit "transfer-encoding:")) with 18%nat in *.
  destruct (hend <=? off + i)%nat; [by rewrite H|].
  rewrite H. destruct (line_initial buffer (off + i)); [done|]. by rewrite IH by lia.
Qed.
End searches.

(** ** The value is read exactly *)

Lemma cl_digits_spec max_body_size : ∀ ds c k v st,
  0 <= max_body_size <= size_mod - 10 →
  Forall (λ c, isdigit c = true) ds → isdigit c = false → 0 <= v →
  (if ds_overflow st then max_body_size < v else ds_parsed st = v ∧ v <= max_body_size) →
  ∃ st', cl_digits (ds ++ c :: k) max_body_size st = Some (st', c :: k) ∧
    ds_seen st' = (ds_seen st || negb (bool_decide (ds = [])))%bool ∧
    (if ds_overflow st' then max_body_size < dec_val_from v ds
     else ds_parsed st' = dec_val_from v ds ∧ dec_val_from v ds <= max_body_size).
Proof.
  induction ds as [|d ds IH]; intros c k v st Hmax Hds Hc Hv Hst.
  - exists st. cbn [app cl_digits]. unfold isdigit in Hc. rewrite Hc. split_and!; [done| |done].
    by rewrite orb_false_r.
  - apply Forall_cons in Hds as [Hd Hds]. pose proof Hd as Hd'. unfold isdigit in Hd'.
    cbn [app cl_digits]. rewrite Hd'. bool_prop. cbn [dec_val_from].
    set (st1 := DigitsState true _ _).
    destruct (IH c k (v * 10 + (d - ch0)) st1) as (st' & E & Hseen & Hov); [done..|lia| |].
    + unfold st1. cbn [ds_overflow ds_parsed]. clear IH. destruct (ds_overflow st); cbn [orb]; [lia|].
      destruct Hst as [-> Hle]. pose proof (Z.div_mod max_body_size 10 ltac:(lia)).
      pose proof (Z.mod_pos_bound max_body_size 10 ltac:(lia)).
      destruct (max_body_size / 10 <? v) eqn:E1; cbn [orb]; bool_prop; [lia|].
      rewrite wrap_size_small by lia.
      destruct (max_body_size <? v * 10 + (d - ch0)) eqn:E2; bool_prop; lia.
    + exists st'. split_and!; [done| |done]. rewrite Hseen. cbn [st1 ds_seen].
      by rewrite orb_true_r.
Qed.

Lemma isdigit_nul : isdigit 0 = false.
Proof. done. Qed.

Lemma cl_value_spec buffer i max_body_size :
  0 ∈ drop (i + 15) buffer → 0 <= max_body_size <= size_mod - 10 →
  cl_value buffer i max_body_size =
  Some (match decimal_line (drop_while (λ c, (c =? chSP) || (c =? chTAB))%bool
                              (drop (i + 15) buffer)) with
        | None => -2
        | Some n => if max_body_size <? n then -1 else n
        end).
Proof.
  intros H0 Hmax. unfold cl_value, decimal_line.
  set (blank := λ c, ((c =? chSP) || (c =? chTAB))%bool). set (rest := drop (i + 15) buffer) in *.
  assert (0 ∈ drop_while blank rest) as H1.
  { rewrite <-(take_drop_while blank rest) in H0. apply elem_of_app in H0 as [H0|H0]; [|done].
    pose proof (take_while_all blank rest) as Hb. rewrite Forall_forall in Hb.
    by apply Hb in H0. }
  set (val := drop_while blank rest) in *.
  assert (0 ∈ drop_while isdigit val) as H2.
  { rewrite <-(take_drop_while isdigit val) in H1. apply elem_of_app in H1 as [H1|H1]; [|done].
    pose proof (take_while_all isdigit val) as Hb. rewrite Forall_forall in Hb.
    by apply Hb in H1. }
  pose proof (take_drop_while isdigit val) as Eval.
  pose proof (take_while_all isdigit val) as Hds.
  destruct (drop_while isdigit val) as [|c k] eqn:Ed; [by apply not_elem_of_nil in H2|].
  apply drop_while_head in Ed. rewrite <-Eval at 1.
  destruct (cl_digits_spec max_body_size (take_while isdigit val) c k 0 (DigitsState false false 0))
    as (st & E & Hseen & Hov); [done..|simpl; lia|].
  rewrite E. unfold mbind, option_bind. cbv beta iota. rewrite Hseen. cbn [orb ds_seen]. rewrite negb_involutive.
  case_bool_decide as Hnil; cbn [orb]; [done|].
  destruct (c =? chCR) eqn:Ec1; destruct (c =? chLF) eqn:Ec2; cbn [orb andb negb]; try done;
    unfold dec_val; destruct (ds_overflow st).
  all: try (rewrite (proj2 (Z.ltb_lt _ _)) by lia; done).
  all: rewrite (proj2 (Z.ltb_ge _ _)) by lia; by destruct Hov as [-> _].
Qed.

Lemma announced_length_spec buffer header_end max_body_size :
  0 ∈ buffer → (header_end ≤ length (cstr buffer))%nat →
  0 <= max_body_size <= size_mod - 10 →
  content_length_of buffer header_end max_body_size =
  Some (announced_length buffer header_end max_body_size).
Proof.
  intros H0 Hend Hmax. pose proof (length_cstr buffer) as Hl.
  unfold content_length_of, announced_length, header_hits.
  rewrite cl_search_spec by (done || lia). rewrite Nat.sub_0_r. cbn zeta.
  change (λ i, line_initial buffer i = true ∧
               starts_with eqc_case (lit "content-length:") (drop i (cstr buffer)) = true)
    with (hit buffer (lit "content-length:")).
  change (λ i, line_initial buffer i = true ∧
               starts_with eqc_case (lit "transfer-encoding:") (drop i (cstr buffer)) = true)
    with (hit buffer (lit "transfer-encoding:")).
  rewrite te_search_spec by (done || lia). rewrite Nat.sub_0_r.
  destruct (filter (hit buffer (lit "content-length:")) (seq 0 header_end)) as [|i [|j hits]] eqn:E;
    cbn [mbind option_bind length]; [| |done].
  - destruct (filter (hit buffer (lit "transfer-encoding:")) _); done.
  - destruct (filter (hit buffer (lit "transfer-encoding:")) _); [|done]. simpl.
    apply cl_value_spec; [|done].
    assert (i ∈ [i]) as Hi by by left. rewrite <-E in Hi.
    apply list_elem_of_filter in Hi as [[_ Hm] _].
    apply starts_with_take in Hm. change (length (lit "content-length:")) with 15%nat in Hm.
    rewrite length_drop in Hm. destruct (buffer_split buffer H0) as [k Ek].
    rewrite Ek, drop_app_le by lia. set_solver.
Qed.

(** ** The read buffer *)

(** A read buffer that holds [received] bytes and their terminator. *)
Definition buffer_ok (buffer : bytes) (received : nat) : Prop :=
  Forall is_byte buffer ∧ buffer !! received = Some 0.

Lemma buffer_nul buffer received : buffer_ok buffer received → 0 ∈ buffer.
Proof. intros [_ H]. by eapply list_elem_of_lookup_2. Qed.

Lemma buffer_received buffer received :
  buffer_ok buffer received → (received < length buffer)%nat.
Proof. intros [_ H]. by eapply lookup_lt_Some. Qed.

Lemma buffer_strlen buffer received :
  buffer_ok buffer received → (length (cstr buffer) ≤ received)%nat.
Proof.
  intros [_ H]. destruct (decide (length (cstr buffer) ≤ received)%nat) as [|Hlt]; [done|].
  exfalso. assert (cstr buffer !! received = Some 0) as H0.
  { destruct (lookup_lt_is_Some_2 (cstr buffer) received) as [x Hx]; [lia|].
    pose proof (take_drop_while not_nul buffer) as E. fold (cstr buffer) in E.
    rewrite <-E, lookup_app_l in H by lia. done. }
  pose proof (cstr_nul_free buffer) as Hf. rewrite Forall_lookup in Hf. by eapply Hf.
Qed.

Lemma end_of_headers_bound buffer i n :
  end_of_headers buffer = Some (i, n) → (i + n ≤ length (cstr buffer))%nat ∧ (2 ≤ n)%nat.
Proof.
  unfold end_of_headers. destruct (strstr buffer CRLFCRLF) as [j|] eqn:E1.
  - intros [= <- <-]. apply strstr_bound in E1. simpl in E1. lia.
  - destruct (strstr buffer LFLF) as [j|] eqn:E2; [|done]. intros [= <- <-].
    apply strstr_bound in E2. simpl in E2. lia.
Qed.

Section body_proofs.
Context `{!Allocator, !OS}.

(** The loop fills the block with what it receives, never past its end. *)
Lemma body_loop_spec fuel : ∀ w0 w total cl l b bs deadline,
  owns w0 w ((l, b) :: bs) → length b = (cl + 1)%nat → (total ≤ cl)%nat →
  (cl - total ≤ fuel)%nat → Z.of_nat cl < 2 ^ 31 →
  wp (body_loop fuel total cl (Some l) deadline)
    (λ rc w', ∃ n chunks,
       (rc = -1 ∧ owns (io w0 n (EvRecv <$> chunks)) w' bs) ∨
       (rc = 0 ∧ ∃ b', owns (io w0 n (EvRecv <$> chunks)) w' ((l, b') :: bs) ∧
          length b' = (cl + 1)%nat ∧ take cl b' = take total b ++ concat chunks ∧
          Forall (Forall is_byte) chunks)) w.
Proof.
  assert (∀ w0 w l b bs n chunks, owns (io w0 n (EvRecv <$> chunks)) w ((l, b) :: bs) →
    wp (free (Some l);; mret (-1))
      (λ rc w', rc = -1 ∧ owns (io w0 n (EvRecv <$> chunks)) w' bs) w) as Hfail.
  { intros w0 w l b bs n chunks Ho. apply wp_bind. eapply wp_free; [done|done|]. intros w' Ho'.
    by apply wp_ret. }
  induction fuel as [|fuel IH]; intros w0 w total cl l b bs deadline Ho Hb Ht Hf Hcl;
    cbn [body_loop].
  { rewrite (proj2 (Nat.ltb_ge _ _)) by lia. apply wp_ret. exists 0%nat, []. right.
    split; [done|]. exists b. rewrite io_nil, app_nil_r. replace cl with total by lia.
    split_and!; [done|lia|done|constructor]. }
  case_test; bool_prop.
  2:{ apply wp_ret. exists 0%nat, []. right. split; [done|]. exists b.
      rewrite io_nil, app_nil_r. replace cl with total by lia.
      split_and!; [done|lia|done|constructor]. }
  apply wp_bind. eapply wp_sys; [done|]. intros now w1 Ho1. cbn zeta. case_test.
  { eapply wp_mono; [by apply (Hfail w0 _ _ b bs 1%nat [])|].
    intros rc w' Hrc. exists 1%nat, []. by left. }
  apply wp_bind. eapply wp_sys; [done|]. intros pr w2 Ho2. rewrite io_io in Ho2. case_test.
  { eapply wp_mono; [by apply (Hfail w0 _ _ b bs 2%nat [])|].
    intros rc w' Hrc. exists 2%nat, []. by left. }
  apply wp_bind. eapply wp_recv; [|done|]; [lia|]. intros r w3 Ho3 Hbyte Hlen.
  rewrite io_io in Ho3.
  destruct r as [[|c d]|].
  - eapply wp_mono; [by apply (Hfail w0 _ _ b bs 3%nat [[]])|].
    intros rc w' Hrc. exists 3%nat, [[]]. by left.
  - set (data := c :: d) in *. cbn [default from_option id recv_events] in *.
    apply wp_bind. eapply wp_load; [done|by left|].
    rewrite (proj2 (Nat.leb_le _ _)) by lia.
    assert (length (splice total data b) = length b) as Hsl by (apply length_splice; lia).
    apply wp_bind. eapply wp_store; [done|done|done|]. intros w4 Ho4.
    eapply wp_mono.
    + apply (IH _ _ _ _ _ (splice total data b) bs deadline Ho4); [lia|lia| |done].
      unfold data in *. simpl. simpl in Hlen. lia.
    + intros rc w5 (n & chunks & [[-> Ho5]|(-> & b' & Ho5 & Hb' & Htake & Hch)]);
        rewrite io_io in Ho5; exists (1 + 1 + 1 + n)%nat, (data :: chunks).
      * left. split; [done|]. exact Ho5.
      * right. split; [done|]. exists b'. split_and!; [exact Ho5|done| |by constructor].
        rewrite Htake, take_splice by lia. cbn [concat]. by rewrite <-app_assoc.
  - eapply wp_mono; [by apply (Hfail w0 _ _ b bs 3%nat [])|].
    intros rc w' Hrc. exists 3%nat, []. by left.
Qed.

(** What [read_full_body] returns, with the blocks it leaves. *)
Definition body_outcome (buffer : bytes) (received : nat) (max_body_size : Z)
    (chunks : list bytes) (res : Z * (body_ptr * nat * bool)) (bs : list (loc * bytes)) : Prop :=
  match end_of_headers buffer with
  | None => res = (-1, (BodyNull, 0%nat, false)) ∧ bs = [] ∧ chunks = []
  | Some (header_end, sep_len) =>
      let off := (header_end + sep_len)%nat in
      let cl := announced_length buffer header_end max_body_size in
      (cl < 0 ∧ res = (cl, (BodyNull, 0%nat, false)) ∧ bs = [] ∧ chunks = []) ∨
      (0 <= cl ∧ Z.of_nat off + cl <= Z.of_nat received ∧
       res = (0, (BodyInBuffer (drop off buffer), Z.to_nat cl, false)) ∧ bs = [] ∧ chunks = []) ∨
      (0 <= cl ∧ Z.of_nat received < Z.of_nat off + cl ∧
       ((res = (-1, (BodyNull, 0%nat, false)) ∧ bs = []) ∨
        ∃ l body, res = (0, (BodyHeap (Some l), Z.to_nat cl, true)) ∧
          bs = [(l, body ++ [0])] ∧ length body = Z.to_nat cl ∧
          body = drop off (take received buffer) ++ concat chunks ∧ Forall is_byte body))
  end.

Lemma announced_length_range buffer hend max_body_size :
  0 <= max_body_size → -4 <= announced_length buffer hend max_body_size <= max_body_size.
Proof.
  intros Hmax. unfold announced_length.
  destruct (header_hits (lit "content-length:") _ _) as [|i [|]]; try lia;
    destruct (header_hits (lit "transfer-encoding:") _ _); try lia.
  destruct (decimal_line _) as [n|] eqn:E; [|lia]. case_test; bool_prop; [lia|].
  unfold decimal_line in E. case_bool_decide; [done|]. destruct (drop_while _ _); [done|].
  case_match; [|done]. injection E as <-.
  set (val := drop_while _ _) in *. pose proof (take_while_all isdigit val) as Hd.
  assert (∀ ds acc, 0 <= acc → Forall (λ c, isdigit c = true) ds → 0 <= dec_val_from acc ds) as Hnn.
  { induction ds as [|d ds IH]; intros acc Ha Hds; simpl; [done|].
    apply Forall_cons in Hds as [Hd1 Hd2]. apply IH; [|done].
    unfold isdigit in Hd1. bool_prop. lia. }
  pose proof (Hnn _ 0 ltac:(lia) Hd). unfold dec_val in *. lia.
Qed.

Lemma read_full_body_spec w0 w bs buffer received max_body_size timeout_ms :
  owns w0 w bs → buffer_ok buffer received →
  Z.of_nat (length buffer) < 2 ^ 31 → 0 <= max_body_size < 2 ^ 31 - 1 →
  wp (read_full_body buffer received max_body_size timeout_ms)
    (λ res w', ∃ n chunks bs', owns (io w0 n (EvRecv <$> chunks)) w' (bs' ++ bs) ∧
       body_outcome buffer received max_body_size chunks res bs') w.
Proof.
  intros Ho Hbuf Hlen Hmax. unfold read_full_body, body_outcome.
  destruct (end_of_headers buffer) as [[hend n]|] eqn:Eh.
  2:{ apply wp_ret. exists 0%nat, [], []. by rewrite io_nil. }
  apply end_of_headers_bound in Eh as [Hoff Hn].
  pose proof (buffer_strlen _ _ Hbuf) as Hstr. pose proof (buffer_received _ _ Hbuf) as Hrec.
  rewrite announced_length_spec; [|by eapply buffer_nul|lia|unfold size_mod; lia].
  pose proof (announced_length_range buffer hend max_body_size ltac:(lia)) as Hcl.
  set (cl := announced_length buffer hend max_body_size) in *.
  rewrite wrap_size_small by (unfold size_mod; lia).
  replace (Z.to_nat (Z.of_nat received - Z.of_nat (hend + n))) with (received - (hend + n))%nat by lia.
  assert (owns (io w0 0 (EvRecv <$> [])) w ([] ++ bs)) as Ho0 by (by rewrite io_nil).
  destruct (cl <? 0) eqn:E0; bool_prop;
    [apply wp_ret; exists 0%nat, [], []; split; [done|by left]|].
  destruct (cl =? 0) eqn:E1; bool_prop.
  { apply wp_ret. exists 0%nat, [], []. split; [done|]. right. left.
    split_and!; [done|lia| |done|done]. by rewrite E1. }
  rewrite (proj2 (Z.ltb_ge _ _)) by lia.
  destruct (Z.to_nat cl <=? received - (hend + n))%nat eqn:E2; bool_prop.
  { apply wp_ret. exists 0%nat, [], []. split; [done|]. right. left. split_and!; [done|lia|done..]. }
  rewrite (proj2 (Nat.ltb_ge _ _)) by lia.
  set (init := take (received - (hend + n)) (drop (hend + n) buffer)).
  assert (length init = (received - (hend + n))%nat) as Hinit.
  { unfold init. rewrite length_take, length_drop. lia. }
  assert (init = drop (hend + n) (take received buffer)) as Hinit'.
  { unfold init. rewrite take_drop_commute. do 2 f_equal. lia. }
  assert (Forall is_byte init) as Hbytes.
  { destruct Hbuf as [Hb _]. by apply Forall_take, Forall_drop. }
  apply wp_bind. eapply wp_alloc; [exact Ho| |].
  { intros w1 _ Ho1. apply wp_ret. exists 0%nat, [], []. rewrite io_nil. split; [done|].
    right. right. split; [lia|]. split; [lia|]. by left. }
  intros l w1 Ho1. apply wp_bind. eapply wp_sys; [done|]. intros now w2 Ho2.
  apply wp_bind. eapply wp_mono.
  { eapply body_loop_spec; [exact Ho2| |lia|lia|lia].
    rewrite length_app, length_replicate. lia. }
  intros rc w3 (k & chunks & [[-> Ho3]|(-> & b & Ho3 & Hb & Htake & Hch)]);
    rewrite io_io in Ho3; cbn [Z.ltb Z.compare].
  { apply wp_ret. exists (1 + k)%nat, chunks, []. split; [done|].
    right. right. split; [lia|]. split; [lia|]. by left. }
  apply wp_bind. eapply wp_load; [done|by left|].
  apply wp_bind. eapply wp_store; [done|done|by rewrite length_insert|]. intros w4 Ho4.
  apply wp_ret. exists (1 + k)%nat, chunks, [(l, <[Z.to_nat cl := 0]> b)]. split; [exact Ho4|].
  right. right. split; [lia|]. split; [lia|]. right. exists l, (take (Z.to_nat cl) b).
  rewrite <-Hinit in Htake. rewrite take_app_length in Htake.
  split_and!; [done| |rewrite length_take; lia|by rewrite Htake, Hinit'|].
  - f_equal. f_equal. rewrite insert_take_drop by lia. f_equal. f_equal.
    apply nil_length_inv. rewrite length_drop. lia.
  - rewrite Htake. apply Forall_app. split; [done|]. by apply Forall_concat.
Qed.
End body_proofs.

(** ** Properties *)

(** C27: the content length the parser computes is the one the header section
    announces, for every limit up to 2^64 - 10: duplicates of Content-Length are
    found at line starts only and inside the header section only, the value must
    be a plain decimal number up to the end of the line, and a value over the
    limit is rejected however many digits it has (the 64-bit accumulator may
    wrap around, the sticky overflow flag does not). *)
Theorem content_length_correct (buffer : bytes) (received header_end sep_len : nat)
    (max_body_size : Z) :
  buffer_ok buffer received → end_of_headers buffer = Some (header_end, sep_len) →
  0 <= max_body_size <= size_mod - 10 →
  content_length_of buffer header_end max_body_size =
  Some (announced_length buffer header_end max_body_size).
Proof.
  intros Hb He Hmax. apply end_of_headers_bound in He as [He _].
  apply announced_length_spec; [by eapply buffer_nul|lia|done].
Qed.

Definition demo_post : bytes :=
  lit "POST /x HTTP/1.1" ++ CRLF ++ lit "X-Content-Length: 9" ++ CRLF ++
  lit "CONTENT-Length:  3" ++ CRLF ++ CRLF ++ lit "abc".

Lemma content_length_correct_witness :
  content_length_of (demo_post ++ [0]) 57 1000 = Some (announced_length (demo_post ++ [0]) 57 1000).
Proof.
  apply (content_length_correct _ 64 57 4).
  - split; [by repeat constructor|done].
  - done.
  - done.
Defined.

Example announced_length_example : announced_length (demo_post ++ [0]) 57 1000 = 3.
Proof. by vm_compute. Qed.

(** above that bound the overflow check fails: with the limit set to the
    largest [size_t], a Content-Length of 2^64 + 3 is accepted as 3. *)
Theorem content_length_wraps :
  cl_value (lit "Content-Length: 18446744073709551619" ++ CRLF) 0 (2 ^ 64 - 1) = Some 3.
Proof. by vm_compute. Qed.



(** C28: the two headers used to smuggle requests are refused before anything is
    read or allocated: more than one Content-Length line gives -3, a
    Transfer-Encoding line gives -4. *)
Theorem smuggling_rejected `{!Allocator, !OS} (buffer : bytes)
    (received header_end sep_len : nat) (max_body_size timeout_ms : Z) (w : world) :
  buffer_ok buffer received → end_of_headers buffer = Some (header_end, sep_len) →
  0 <= max_body_size <= size_mod - 10 →
  ((1 < length (header_hits (lit "content-length:") buffer header_end))%nat →
     read_full_body buffer received max_body_size timeout_ms w =
     Some ((-3, (BodyNull, 0%nat, false)), w)) ∧
  ((length (header_hits (lit "content-length:") buffer header_end) ≤ 1)%nat →
   header_hits (lit "transfer-encoding:") buffer header_end ≠ [] →
     read_full_body buffer received max_body_size timeout_ms w =
     Some ((-4, (BodyNull, 0%nat, false)), w)).
Proof.
  intros Hb He Hmax. pose proof He as [Hoff _]%end_of_headers_bound.
  unfold read_full_body. rewrite He.
  rewrite announced_length_spec; [|by eapply buffer_nul|lia|done]. unfold announced_length.
  destruct (header_hits (lit "content-length:") _ _) as [|i [|j hits]]; simpl; split;
    try done; try lia; intros _; destruct (header_hits (lit "transfer-encoding:") _ _); done.
Qed.

Lemma smuggling_rejected_witness :
  let buffer := lit "POST / HTTP/1.1" ++ CRLF ++ lit "Content-Length: 3" ++ CRLF ++
                lit "content-length: 4" ++ CRLF ++ CRLF ++ [0] in
  let w := World 0 ∅ 0 [] in
  ((1 < length (header_hits (lit "content-length:") buffer 53))%nat →
     read_full_body (H := all_ok) (H0 := silent_os) buffer 57 1000 1 w =
     Some ((-3, (BodyNull, 0%nat, false)), w)) ∧
  ((length (header_hits (lit "content-length:") buffer 53) ≤ 1)%nat →
   header_hits (lit "transfer-encoding:") buffer 53 ≠ [] →
     read_full_body (H := all_ok) (H0 := silent_os) buffer 57 1000 1 w =
     Some ((-4, (BodyNull, 0%nat, false)), w)).
Proof.
  apply (smuggling_rejected (H := all_ok) (H0 := silent_os) _ 57 53 4).
  - split; [by repeat constructor|done].
  - done.
  - done.
Defined.
