(* ===== verification/Parse.v ===== *)
(** * Parsing a request

    [src/mnet_parse.c]: [mnet_parse_method], [parse_raw_request] and
    [parse_request], which fills a [parsed_request_t] from the connection's read
    buffer. *)

From S2P Require Export Fields Body.

Definition MNET_PARSE_OK : Z := 0.
Definition MNET_PARSE_BAD_REQUEST : Z := 1.
Definition MNET_PARSE_TOO_LARGE : Z := 2.
Definition MNET_PARSE_HEADERS_TOO_LARGE : Z := 3.
Definition MNET_PARSE_UNSUPPORTED_METHOD : Z := 4.
Definition MNET_PARSE_BAD_CONTENT_LENGTH : Z := 5.
Definition MNET_PARSE_DUPLICATE_CONTENT_LENGTH : Z := 6.
Definition MNET_PARSE_UNSUPPORTED_TRANSFER_ENCODING : Z := 7.

(** [None] stands for [(mnet_http_method_t)-1]. *)
Definition mnet_parse_method (method : bytes) : option mnet_http_method_t :=
  if strcmp_eq method (lit "GET") then Some MNET_HTTP_GET
  else if strcmp_eq method (lit "POST") then Some MNET_HTTP_POST
  else if strcmp_eq method (lit "PUT") then Some MNET_HTTP_PUT
  else if strcmp_eq method (lit "PATCH") then Some MNET_HTTP_PATCH
  else if strcmp_eq method (lit "DELETE") then Some MNET_HTTP_DELETE
  else if strcmp_eq method (lit "HEAD") then Some MNET_HTTP_HEAD
  else if strcmp_eq method (lit "OPTIONS") then Some MNET_HTTP_OPTIONS
  else None.

(** The code, and the two output buffers, which hold [method] and [path]
    before the call. *)
Definition parse_raw_request (buffer method path : bytes) : Z * (bytes * bytes) :=
  match end_of_headers buffer with
  | None => (-1, (method, path))
  | Some (header_end, _) =>
      match memchr buffer chLF header_end with
      | None => (-1, (method, path))
      | Some _ =>
          match scan_word 15 (cstr buffer) with
          | None => (-1, (method, path))
          | Some (m, rest) =>
              match scan_word (Z.to_nat 2047) rest with
              | None => (-1, (m, path))
              | Some (p, _) => (0, (m, p))
              end
          end
      end
  end.

Section parse.
Context `{!Allocator, !OS}.

(** The loop over the parsed headers that handles Cookie and Connection. *)
Fixpoint scan_headers (names values : list ptr) (count : nat) (cookie : name_values)
    (keep_alive : bool) {struct count} : M (name_values * bool) :=
  match count with
  | O => mret (cookie, keep_alive)
  | S count =>
      match names, values with
      | n :: names, v :: values =>
          name ← load_str n;
          cookie ←
            (if strcasecmp_eq name (lit "Cookie") then
               cookie ← (match nv_names cookie with
                         | Some _ => free_name_values cookie;; mret no_name_values
                         | None => mret cookie
                         end);
               value ← load_str v;
               parse_cookies (Some value)
             else mret cookie);
          keep_alive ←
            (if strcasecmp_eq name (lit "Connection") then
               value ← load_str v;
               mret (if strcasecmp_eq value (lit "keep-alive") then true else keep_alive)
             else mret keep_alive);
          scan_headers names values count cookie keep_alive
      | _, _ => ub
      end
  end.

(** The path without the query, and the query. *)
Definition cut_path (path : bytes) : bytes * option bytes :=
  match strchr path chQMARK with
  | Some i => (take i path, Some (drop (S i) path))
  | None => (path, None)
  end.

(** The end of [parse_request]: the query string, whose result is not
    looked at. *)
Definition finish_request (method path : bytes) (body : body_ptr) (body_len : nat)
    (body_heap : bool) (method_enum : option mnet_http_method_t)
    (header cookie : name_values) (keep_alive : bool) : M (Z * parsed_request_t) :=
  let '(path_only, query_string) := cut_path path in
  '(_, query) ← (match query_string with
                 | Some _ => parse_query_string query_string
                 | None => mret (0, no_name_values)
                 end);
  mret (MNET_PARSE_OK,
    MkParsed method path path_only query_string body body_len body_heap method_enum
      (MkExtras None None 0 query header cookie) keep_alive).

(** From the body on: the headers, the cookies, the connection and the query. *)
Definition parse_rest (buffer method path : bytes) (body : body_ptr) (body_len : nat)
    (body_heap : bool) (method_enum : option mnet_http_method_t) : M (Z * parsed_request_t) :=
  let out extras :=
    MkParsed method path [] None body body_len body_heap method_enum extras false in
  let finish := finish_request method path body body_len body_heap method_enum in
  match end_of_headers buffer with
  | None => finish no_name_values no_name_values false
  | Some (hdr_len, _) =>
      hdr_copy ← alloc (take hdr_len buffer ++ [chNUL]);
      match hdr_copy with
      | None => mret (MNET_PARSE_HEADERS_TOO_LARGE, out zero_extras)
      | Some _ =>
          raw ← load_str hdr_copy;
          '(rc, header) ← parse_headers (Some raw);
          free hdr_copy;;
          if negb (rc =? 0) then
            mret (MNET_PARSE_HEADERS_TOO_LARGE,
                  out (MkExtras None None 0 no_name_values header no_name_values))
          else
            '(cookie, keep_alive) ←
              scan_headers (elems (nv_names header)) (elems (nv_values header))
                (nv_count header) no_name_values false;
            finish header cookie keep_alive
      end
  end.

Definition parse_request (buffer : bytes) (received : nat) (max_body_size timeout_ms : Z) :
    M (Z * parsed_request_t) :=
  let '(rc, (method, path)) := parse_raw_request buffer [] [] in
  let out method_enum :=
    MkParsed method path [] None BodyNull 0%nat false method_enum zero_extras false in
  if negb (rc =? 0) then mret (MNET_PARSE_BAD_REQUEST, out None)
  else
    let method_enum := mnet_parse_method method in
    match method_enum with
    | None => mret (MNET_PARSE_UNSUPPORTED_METHOD, out None)
    | Some _ =>
        '(r, (body, body_len, body_heap)) ←
          read_full_body buffer received max_body_size timeout_ms;
        if r =? -1 then mret (MNET_PARSE_TOO_LARGE, out method_enum)
        else if r =? -2 then mret (MNET_PARSE_BAD_CONTENT_LENGTH, out method_enum)
        else if r =? -3 then mret (MNET_PARSE_DUPLICATE_CONTENT_LENGTH, out method_enum)
        else if r =? -4 then mret (MNET_PARSE_UNSUPPORTED_TRANSFER_ENCODING, out method_enum)
        else parse_rest buffer method path body body_len body_heap method_enum
    end.

(** [free_extras (&parsed.extras); if (parsed.body_heap) free (parsed.body);] *)
Definition release_parsed (parsed : parsed_request_t) : M unit :=
  _ ← free_extras (Some (pr_extras parsed));
  if pr_body_heap parsed then
    match pr_body parsed with
    | BodyHeap p => free p
    | _ => ub
    end
  else mret ().
End parse.

(** ** What a request buffer stands for *)

(** The method and the target of the request line. *)
Definition request_line (buffer : bytes) : option (bytes * bytes) :=
  match parse_raw_request buffer [] [] with
  | (0, mp) => Some mp
  | _ => None
  end.

Definition is_cookie (f : bytes * bytes) : bool := strcasecmp_eq (fst f) (lit "Cookie").

(** The cookies of the last Cookie header. *)
Definition cookies_of (hf : list (bytes * bytes)) : list (bytes * bytes) :=
  match last (List.filter is_cookie hf) with
  | Some f => cookie_fields (snd f)
  | None => []
  end.

Definition asks_keep_alive (f : bytes * bytes) : bool :=
  (strcasecmp_eq (fst f) (lit "Connection") && strcasecmp_eq (snd f) (lit "keep-alive"))%bool.

(** The code for a request whose body arrives and whose allocations succeed. *)
Definition expected_code (buffer : bytes) (max_body_size : Z) : Z :=
  match request_line buffer, end_of_headers buffer with
  | Some (m, _), Some (header_end, _) =>
      match mnet_parse_method m with
      | None => MNET_PARSE_UNSUPPORTED_METHOD
      | Some _ =>
          let cl := announced_length buffer header_end max_body_size in
          if cl =? -1 then MNET_PARSE_TOO_LARGE
          else if cl =? -2 then MNET_PARSE_BAD_CONTENT_LENGTH
          else if cl =? -3 then MNET_PARSE_DUPLICATE_CONTENT_LENGTH
          else if cl =? -4 then MNET_PARSE_UNSUPPORTED_TRANSFER_ENCODING
          else match header_fields (take header_end buffer) with
               | None => MNET_PARSE_HEADERS_TOO_LARGE
               | Some _ => MNET_PARSE_OK
               end
      end
  | _, _ => MNET_PARSE_BAD_REQUEST
  end.

(** ** Ownership of a parsed request *)

Definition body_owned (pr : parsed_request_t) (bs : list (loc * bytes)) : Prop :=
  if pr_body_heap pr
  then ∃ l b, pr_body pr = BodyHeap (Some l) ∧ length b = pr_body_length pr ∧
         Forall is_byte b ∧ Z.of_nat (length b) < 2 ^ 31 - 1 ∧ bs = [(l, b ++ [0])]
  else bs = [] ∧
    match pr_body pr with
    | BodyNull => pr_body_length pr = 0%nat
    | BodyInBuffer rest => (pr_body_length pr < length rest)%nat ∧ 0 ∈ rest ∧
        Forall is_byte rest ∧ Z.of_nat (length rest) < 2 ^ 31
    | BodyHeap _ => False
    end.

Definition parsed_owned (pr : parsed_request_t) (qf hf cf : list (bytes * bytes))
    (bs : list (loc * bytes)) : Prop :=
  ∃ eb bb, extras_owned (pr_extras pr) qf hf cf eb ∧ body_owned pr bb ∧ bs = eb ++ bb ∧
    text_ok (pr_path_only pr).

Lemma no_nv_owned : nv_owned no_name_values [] [].
Proof. by left. Qed.

Lemma zero_extras_owned : extras_owned zero_extras [] [] [] [].
Proof. exists [], [], []. split_and!; [apply no_nv_owned..|done]. Qed.

Lemma nv_owned_null nv fs bs : nv_owned nv fs bs → nv_names nv = None → nv = no_name_values ∧ bs = [].
Proof. by intros [(-> & _ & ->)|(nl & vl & cap & ps & -> & _)] E. Qed.

Section parse_proofs.
Context `{!Allocator, !OS}.

Lemma wp_load_cstr w0 w bs l b (Q : bytes → world → Prop) :
  owns w0 w bs → (l, b) ∈ bs → 0 ∈ b → Q (cstr b) w → wp (load_str (Some l)) Q w.
Proof.
  intros Ho Hin Hnul HQ. apply wp_bind. eapply wp_load; [done|done|].
  by rewrite bool_decide_true by done.
Qed.

(** The result of the scan over the headers [fs], from the cookies [cf]. *)
Definition scanned (w0 : world) (R : list (loc * bytes)) (fs cf : list (bytes * bytes))
    (ka : bool) (res : name_values * bool) (w' : world) : Prop :=
  ∃ cf' cb', nv_owned (fst res) cf' cb' ∧ owns w0 w' (cb' ++ R) ∧
    snd res = (ka || existsb asks_keep_alive fs)%bool ∧
    (alloc_failure ∨
     cf' = match last (List.filter is_cookie fs) with
           | Some f => cookie_fields (snd f)
           | None => cf
           end).

Lemma scanned_cons w0 R f fs cf cf1 ka res w' :
  alloc_failure ∨ cf1 = (if is_cookie f then cookie_fields (snd f) else cf) →
  scanned w0 R fs cf1 (ka || asks_keep_alive f) res w' → scanned w0 R (f :: fs) cf ka res w'.
Proof.
  intros Hcf (cf' & cb' & Hc' & Ho' & Hka & Hcf'). exists cf', cb'. split_and!; [done|done| |].
  - rewrite Hka. cbn [existsb]. by rewrite orb_assoc.
  - destruct Hcf as [Hf|Hcf]; [by left|]. destruct Hcf' as [Hf|Hcf']; [by left|right].
    rewrite Hcf', Hcf. cbn [List.filter]. destruct (is_cookie f); [|done].
    rewrite last_cons. by destruct (last _).
Qed.

(** The part of an iteration that handles Connection, and the rest. *)
Lemma wp_scan_connection w0 w b1 l2 b2 k ka bs (Q : name_values * bool → world → Prop) :
  owns w0 w bs → (l2, b2) ∈ bs → 0 ∈ b2 →
  wp (k (ka || asks_keep_alive (cstr b1, cstr b2))%bool) Q w →
  wp (keep_alive ←
        (if strcasecmp_eq (cstr b1) (lit "Connection") then
           value ← load_str (Some l2);
           mret (if strcasecmp_eq value (lit "keep-alive") then true else ka)
         else mret ka);
      k keep_alive) Q w.
Proof.
  unfold asks_keep_alive. cbn [fst snd]. intros Ho Hin Hnul HQ. apply wp_bind.
  destruct (strcasecmp_eq (cstr b1) (lit "Connection")); cbn [andb] in HQ.
  - apply wp_bind. eapply wp_load_cstr; [done..|]. apply wp_ret.
    destruct (strcasecmp_eq (cstr b2) _); [by rewrite orb_true_r in HQ|].
    by rewrite orb_false_r in HQ.
  - apply wp_ret. by rewrite orb_false_r in HQ.
Qed.

(** The part that handles Cookie. *)
Lemma wp_scan_cookie w0 w b1 l2 b2 cookie cf cb R (Q : name_values → world → Prop) :
  nv_owned cookie cf cb → owns w0 w (cb ++ R) → (l2, b2) ∈ R → field_block b2 →
  (∀ cookie' cf1 cb' w', nv_owned cookie' cf1 cb' → owns w0 w' (cb' ++ R) →
     alloc_failure ∨
     cf1 = (if is_cookie (cstr b1, cstr b2) then cookie_fields (cstr b2) else cf) →
     Q cookie' w') →
  wp (if strcasecmp_eq (cstr b1) (lit "Cookie") then
        cookie ← (match nv_names cookie with
                  | Some _ => free_name_values cookie;; mret no_name_values
                  | None => mret cookie
                  end);
        value ← load_str (Some l2);
        parse_cookies (Some value)
      else mret cookie) Q w.
Proof.
  unfold is_cookie. cbn [fst snd]. intros Hc Ho Hin [Hnul Htext] HQ.
  destruct (strcasecmp_eq (cstr b1) (lit "Cookie")).
  2:{ apply wp_ret. eapply HQ; [done|done|by right]. }
  assert (∀ w1, owns w0 w1 R → wp (value ← load_str (Some l2); parse_cookies (Some value)) Q w1)
    as Hparse.
  { intros w1 Ho1. apply wp_bind. eapply wp_load_cstr; [exact Ho1|done|done|].
    eapply wp_mono; [by apply parse_cookies_spec|].
    intros nv w2 (got & bs & Hnv & Ho2 & Hgot). eapply HQ; [done|done|].
    destruct Hgot as [->|[_ Hf]]; [by right|by left]. }
  apply wp_bind. destruct (nv_names cookie) as [a|] eqn:Ename.
  - apply wp_bind. eapply wp_free_nv; [done|exact Ho|]. intros w1 Ho1. apply wp_ret.
    by apply Hparse.
  - destruct (nv_owned_null _ _ _ Hc Ename) as [-> ->]. apply wp_ret. by apply Hparse.
Qed.

Lemma scan_headers_spec ps : ∀ w0 w cookie cf cb ka R,
  (∀ x, x ∈ pair_blocks ps → x ∈ R) → terminated ps → nv_owned cookie cf cb →
  owns w0 w (cb ++ R) →
  wp (scan_headers (name_ptrs ps) (value_ptrs ps) (length ps) cookie ka)
    (scanned w0 R (stored_fields ps) cf ka) w.
Proof.
  induction ps as [|[[l1 b1] [l2 b2]] ps IH]; intros w0 w cookie cf cb ka R Hin Ht Hc Ho.
  { apply wp_ret. exists cf, cb. split_and!; [done|done| |by right]. simpl. by rewrite orb_false_r. }
  apply Forall_cons in Ht as [[H1 H2] Ht]. simpl in H1, H2.
  assert ((l1, b1) ∈ R ∧ (l2, b2) ∈ R) as [Hn Hv].
  { split; apply Hin; simpl; [by left|by right; left]. }
  cbn [name_ptrs value_ptrs stored_fields fmap list_fmap length scan_headers fst snd].
  fold (name_ptrs ps) (value_ptrs ps) (stored_fields ps).
  apply wp_bind. apply (wp_load_cstr w0 _ (cb ++ R) _ b1); [exact Ho|set_solver|apply H1|].
  apply wp_bind. eapply wp_scan_cookie; [done..|].
  intros cookie' cf1 cb' w1 Hc' Ho1 Hcf1.
  eapply wp_scan_connection with (b2 := b2); [exact Ho1|set_solver|apply H2|].
  eapply wp_mono; [eapply IH; [|done..]; intros x Hx; apply Hin; simpl; by right; right|].
  intros res w' Hs. by eapply scanned_cons.
Qed.
End parse_proofs.

(** ** What a parsed request holds *)

(** The query parameters of a target. *)
Definition query_of (path : bytes) : list (bytes * bytes) :=
  match snd (cut_path path) with Some q => default [] (query_fields q) | None => [] end.

(** The body is not all in the buffer. *)
Definition body_incomplete (buffer : bytes) (received : nat) (max_body_size : Z) : Prop :=
  ∃ header_end sep_len, end_of_headers buffer = Some (header_end, sep_len) ∧
    Z.of_nat received < Z.of_nat (header_end + sep_len) + announced_length buffer header_end max_body_size.

(** [pr] is the request in [buffer]; [qf], [hf], [cf] are the query parameters,
    headers and cookies it holds, [bs] the block of its body. *)
Record parsed_ok `{!Allocator} (buffer : bytes) (received : nat) (max_body_size : Z)
    (pr : parsed_request_t) (qf hf cf : list (bytes * bytes)) (chunks : list bytes)
    (bs : list (loc * bytes)) : Prop := {
  po_line : request_line buffer = Some (pr_method pr, pr_path pr);
  po_method : mnet_parse_method (pr_method pr) = pr_method_enum pr ∧ pr_method_enum pr ≠ None;
  po_path : (pr_path_only pr, pr_query_string pr) = cut_path (pr_path pr);
  po_headers : ∃ header_end sep_len, end_of_headers buffer = Some (header_end, sep_len) ∧
    header_fields (take header_end buffer) = Some hf;
  po_cookies : alloc_failure ∨ cf = cookies_of hf;
  po_query : alloc_failure ∨ qf = query_of (pr_path pr);
  po_keep_alive : pr_keep_alive pr = existsb asks_keep_alive hf;
  po_body : body_outcome buffer received max_body_size chunks
    (0, (pr_body pr, pr_body_length pr, pr_body_heap pr)) bs;
}.

(** The code returned: the expected one, unless the rest of the body does not
    arrive or an allocation fails. *)
Definition code_outcome `{!Allocator} (buffer : bytes) (received : nat) (max_body_size : Z)
    (code : Z) : Prop :=
  code = expected_code buffer max_body_size ∨
  (code = MNET_PARSE_TOO_LARGE ∧ body_incomplete buffer received max_body_size) ∨
  (code = MNET_PARSE_HEADERS_TOO_LARGE ∧ alloc_failure).

Lemma parse_raw_request_inv buffer rc m p :
  parse_raw_request buffer [] [] = (rc, (m, p)) →
  (rc = 0 ∧ request_line buffer = Some (m, p) ∧ (∃ h n, end_of_headers buffer = Some (h, n)) ∧
   (Forall is_byte buffer → Z.of_nat (length buffer) < 2 ^ 31 → text_ok p)) ∨
  (rc = -1 ∧ request_line buffer = None).
Proof.
  unfold request_line. intros E. rewrite E. revert E. unfold parse_raw_request.
  destruct (end_of_headers buffer) as [[h n]|]; [|intros [= <- <- <-]; by right].
  destruct (memchr _ _ _); [|intros [= <- <- <-]; by right].
  destruct (scan_word 15 _) as [[m' rest]|] eqn:E1; [|intros [= <- <- <-]; by right].
  destruct (scan_word _ rest) as [[p' rest']|] eqn:E2; [|intros [= <- <- <-]; by right].
  intros [= <- <- <-]. left. split_and!; [done|done|eauto|]. intros Hb Hl.
  destruct (text_ok_scan_word _ _ _ _ (text_ok_cstr _ Hb Hl) E1) as [_ Hr].
  by destruct (text_ok_scan_word _ _ _ _ Hr E2).
Qed.

Section parse_request_proofs.
Context `{!Allocator, !OS}.

Lemma finish_request_spec w0 w R method path body body_len body_heap enum header cookie ka :
  owns w0 w R → text_ok path →
  wp (finish_request method path body body_len body_heap enum header cookie ka)
    (λ res w', ∃ query qf qb path_only qs,
       res = (MNET_PARSE_OK, MkParsed method path path_only qs body body_len body_heap enum
                (MkExtras None None 0 query header cookie) ka) ∧
       (path_only, qs) = cut_path path ∧ nv_owned query qf qb ∧ owns w0 w' (qb ++ R) ∧
       (alloc_failure ∨ qf = query_of path)) w.
Proof.
  intros Ho Hp. unfold finish_request, query_of.
  destruct (cut_path path) as [path_only qs] eqn:Ecut. cbn [snd].
  destruct qs as [q|].
  - assert (text_ok q) as Hq.
    { unfold cut_path in Ecut. destruct (strchr path chQMARK); [|done].
      injection Ecut as _ <-. by apply text_ok_drop. }
    apply wp_bind. eapply wp_mono; [by eapply (parse_query_spec w0 w R (Some q))|].
    intros [rc query] w' (got & bs & Hnv & Ho' & Hres). apply wp_ret.
    exists query, got, bs, path_only, (Some q). split_and!; [done..|].
    cbn [fst snd default from_option id] in *.
    destruct Hres as [[_ ->]|(_ & -> & [Hf|Hf])]; [by right| |by left].
    right. rewrite Hf. destruct Hnv as [(_ & -> & _)|(nl & vl & cap & ps & E & _)]; [done|].
    unfold keep_arrays in E. discriminate.
  - apply wp_bind, wp_ret, wp_ret. exists no_name_values, [], [], path_only, None.
    split_and!; [done|done|apply no_nv_owned|done|by right].
Qed.

Lemma release_parsed_spec w0 w pr qf hf cf pb R (Q : unit → world → Prop) :
  parsed_owned pr qf hf cf pb → owns w0 w (pb ++ R) →
  (∀ w', owns w0 w' R → Q () w') → wp (release_parsed pr) Q w.
Proof.
  intros (eb & bb & He & Hb & -> & _) Ho HQ. rewrite <-app_assoc in Ho. unfold release_parsed.
  apply wp_bind. eapply wp_free_extras; [exact He|exact Ho|]. intros w1 Ho1.
  unfold body_owned in Hb. destruct (pr_body_heap pr).
  - destruct Hb as (l & b & -> & _ & _ & _ & ->). simpl in Ho1. by eapply wp_free.
  - destruct Hb as [-> _]. by apply wp_ret, HQ.
Qed.

(** The whole result: who owns what, the code, and the contents on success. *)
Definition parse_result (buffer : bytes) (received : nat) (max_body_size : Z) (w0 : world)
    (R : list (loc * bytes)) (res : Z * parsed_request_t) (w' : world) : Prop :=
  ∃ n chunks qf hf cf pb, owns (io w0 n (EvRecv <$> chunks)) w' (pb ++ R) ∧
    parsed_owned (snd res) qf hf cf pb ∧
    code_outcome buffer received max_body_size (fst res) ∧
    (fst res = MNET_PARSE_OK →
     ∃ bs, parsed_ok buffer received max_body_size (snd res) qf hf cf chunks bs ∧ bs ⊆ pb).

(** A failure that leaves nothing. *)
Lemma parse_result_fail buffer received max_body_size w0 R code pr w n chunks :
  owns (io w0 n (EvRecv <$> chunks)) w R → pr_extras pr = zero_extras → pr_body_heap pr = false →
  pr_body pr = BodyNull → pr_body_length pr = 0%nat → text_ok (pr_path_only pr) →
  code ≠ MNET_PARSE_OK → code_outcome buffer received max_body_size code →
  parse_result buffer received max_body_size w0 R (code, pr) w.
Proof.
  intros Ho He Hb Hnull Hlen Hpath Hc Hcode. exists n, chunks, [], [], [], []. split_and!; [done| |done|done].
  exists [], []. cbn [snd]. rewrite He. split_and!; [apply zero_extras_owned| |done|done].
  unfold body_owned. by rewrite Hb, Hnull.
Qed.

Lemma parse_rest_spec w0 w R bb buffer header_end sep_len method path body body_len body_heap enum :
  owns w0 w (bb ++ R) → Forall is_byte buffer → Z.of_nat (length buffer) < 2 ^ 31 → text_ok path →
  end_of_headers buffer = Some (header_end, sep_len) →
  body_owned (MkParsed method path [] None body body_len body_heap enum zero_extras false) bb →
  wp (parse_rest buffer method path body body_len body_heap enum)
    (λ res w', ∃ qf hf cf eb, let pr := snd res in
       owns w0 w' ((eb ++ bb) ++ R) ∧ extras_owned (pr_extras pr) qf hf cf eb ∧ body_owned pr bb ∧
       text_ok (pr_path_only pr) ∧
       ((fst res = MNET_PARSE_HEADERS_TOO_LARGE ∧
         (header_fields (take header_end buffer) = None ∨ alloc_failure)) ∨
        (fst res = MNET_PARSE_OK ∧ header_fields (take header_end buffer) = Some hf ∧
         (alloc_failure ∨ cf = cookies_of hf) ∧ (alloc_failure ∨ qf = query_of path) ∧
         ∃ path_only qs, (path_only, qs) = cut_path path ∧
           pr = MkParsed method path path_only qs body body_len body_heap enum (pr_extras pr)
                  (existsb asks_keep_alive hf)))) w.
Proof.
  intros Ho Hbuf Hblen Hp He Hb. unfold parse_rest. rewrite He.
  apply end_of_headers_bound in He as [He _].
  set (raw := take header_end buffer).
  assert (text_ok raw) as Hraw.
  { unfold raw. rewrite <-(take_drop_while not_nul buffer). fold (cstr buffer).
    rewrite take_app_le by lia. by apply text_ok_take, text_ok_cstr. }
  apply wp_bind. eapply wp_alloc; [exact Ho| |].
  { intros w1 Hf Ho1. apply wp_ret. exists [], [], [], []. cbn zeta. split_and!;
      [done|apply zero_extras_owned|done|apply text_ok_nil|]. left. split; [done|by right]. }
  intros hl w1 Ho1. apply wp_bind. eapply wp_load_str; [exact Ho1|by left|by apply text_ok_nonzero|].
  apply wp_bind. eapply wp_mono; [by apply (parse_headers_spec w0 w1 _ (Some raw) Ho1)|].
  intros [rc header] w2 (hf & hb & Hnv & Ho2 & Hres).
  cbn [fst snd default from_option id] in *.
  apply wp_bind. eapply (wp_free _ _ (hb ++ bb ++ R)); [exact Ho2|solve_Permutation|].
  intros w3 Ho3. destruct Hres as [[-> Hhf]|(-> & -> & Hhf)]; cbn [Z.eqb negb].
  2:{ apply wp_ret. exists [], hf, [], hb. cbn zeta. split_and!.
      - by rewrite <-app_assoc.
      - exists [], hb, []. rewrite app_nil_r. split_and!; [apply no_nv_owned|done|apply no_nv_owned|done].
      - done.
      - apply text_ok_nil.
      - by left. }
  apply wp_bind. apply (wp_mono _ (scanned w0 (hb ++ bb ++ R) hf [] false)).
  { destruct Hnv as [(-> & -> & ->)|(nl & vl & cap & ps & -> & -> & Ht & ->)].
    - apply (scan_headers_spec [] w0 w3 no_name_values [] [] false ([] ++ bb ++ R));
        [by intros x Hx%not_elem_of_nil|apply terminated_nil|apply no_nv_owned|done].
    - cbn [keep_arrays elems nv_names nv_values nv_count pa_elems]. rewrite length_name_ptrs.
      apply (scan_headers_spec ps w0 w3 no_name_values [] []); [|done|apply no_nv_owned|exact Ho3].
      intros x Hx. simpl. set_solver. }
  intros [cookie ka] w4 (cf & cb & Hc & Ho4 & Hka & Hcf). cbn [fst snd orb] in *.
  eapply wp_mono; [by eapply finish_request_spec|].
  intros res w5 (query & qf & qb & path_only & qs & -> & Hcut & Hq & Ho5 & Hqf).
  exists qf, hf, cf, (qb ++ hb ++ cb). cbn [fst snd pr_extras]. split_and!.
  - eapply owns_proper; [|exact Ho5]. solve_Permutation.
  - by exists qb, hb, cb.
  - done.
  - cbn [pr_path_only]. unfold cut_path in Hcut. destruct (strchr path chQMARK);
      injection Hcut as -> _; [by apply text_ok_take|done].
  - right. split_and!; [done|done| |done|].
    + destruct Hcf as [Hf|Hcf]; [by left|right]. by rewrite Hcf.
    + exists path_only, qs. split; [done|]. by rewrite Hka.
Qed.

Lemma body_outcome_owned buffer received max_body_size chunks body len heap bs method path enum :
  buffer_ok buffer received → Z.of_nat (length buffer) < 2 ^ 31 → 0 <= max_body_size < 2 ^ 31 - 1 →
  body_outcome buffer received max_body_size chunks (0, (body, len, heap)) bs →
  body_owned (MkParsed method path [] None body len heap enum zero_extras false) bs.
Proof.
  unfold body_outcome, body_owned. cbn [pr_body pr_body_heap pr_body_length]. intros [Hbytes Hnul] Hbuf Hmax.
  pose proof (lookup_lt_Some _ _ _ Hnul).
  destruct (end_of_headers buffer) as [[h n]|]; [|by intros ([=] & _)].
  pose proof (announced_length_range buffer h max_body_size (proj1 Hmax)).
  intros [(Hneg & [= E _ _ _] & _)|[(Hcl & Hle & [= -> -> ->] & -> & _)|
    (_ & _ & [([=] & _)|(l & b & [= -> -> ->] & -> & Hl & _ & Hb)])]]; [lia| |].
  2:{ exists l, b. split_and!; [done..|lia|done]. }
  split; [done|]. rewrite length_drop. split_and!; [lia| |by apply Forall_drop|lia].
  apply (list_elem_of_lookup_2 _ (received - (h + n))). rewrite lookup_drop. rewrite <-Hnul. f_equal. lia.
Qed.

(** Every way the code returned by [read_full_body] can be negative. *)
Lemma body_outcome_fail buffer received max_body_size chunks r body len heap bs header_end sep_len :
  0 <= max_body_size → end_of_headers buffer = Some (header_end, sep_len) →
  body_outcome buffer received max_body_size chunks (r, (body, len, heap)) bs →
  (r = 0 ∧ 0 <= announced_length buffer header_end max_body_size) ∨
  (bs = [] ∧
   ((-4 <= r <= -1 ∧ r = announced_length buffer header_end max_body_size) ∨
    (r = -1 ∧ body_incomplete buffer received max_body_size))).
Proof.
  intros Hmax He Hb. unfold body_outcome in Hb. rewrite He in Hb.
  pose proof (announced_length_range buffer header_end max_body_size Hmax).
  destruct Hb as [(Hneg & [= -> _ _ _] & -> & _)|[(Hcl & _ & [= -> _ _ _] & _)|
    (Hcl & Hinc & [([= -> _ _ _] & ->)|(l & b & [= -> _ _ _] & _)])]].
  - right. split; [done|]. left. lia.
  - by left.
  - right. split; [done|]. right. split; [done|]. by exists header_end, sep_len.
  - by left.
Qed.

Lemma parse_request_spec w0 w R buffer received max_body_size timeout_ms :
  owns w0 w R → buffer_ok buffer received → Z.of_nat (length buffer) < 2 ^ 31 →
  0 <= max_body_size < 2 ^ 31 - 1 →
  wp (parse_request buffer received max_body_size timeout_ms)
    (parse_result buffer received max_body_size w0 R) w.
Proof.
  intros Ho Hbuf Hlen Hmax. unfold parse_request.
  assert (owns (io w0 0 (EvRecv <$> [])) w R) as Ho0 by (by rewrite io_nil).
  destruct (parse_raw_request buffer [] []) as [rc [m p]] eqn:Eraw.
  destruct (parse_raw_request_inv _ _ _ _ Eraw) as [(-> & Hline & (h & s & He) & Hp)|[-> Hline]];
    cbn [Z.eqb negb].
  2:{ apply wp_ret. eapply parse_result_fail; [exact Ho0|done..|by vm_compute|]. left.
      unfold expected_code. by rewrite Hline. }
  specialize (Hp (proj1 Hbuf) Hlen).
  destruct (mnet_parse_method m) as [enum|] eqn:Em.
  2:{ apply wp_ret. eapply parse_result_fail; [exact Ho0|done..|by vm_compute|]. left.
      unfold expected_code. by rewrite Hline, He, Em. }
  apply wp_bind. eapply wp_mono; [by apply (read_full_body_spec w0 w R)|]. clear Ho0.
  intros [r [[body len] heap]] w1 (n & chunks & bb & Ho1 & Hb).
  destruct (body_outcome_fail _ _ _ _ _ _ _ _ _ _ _ (proj1 Hmax) He Hb)
    as [[-> Hcl]|[-> [[Hr Ecl]|[-> Hinc]]]].
  - cbn [Z.eqb]. pose proof (body_outcome_owned _ _ _ _ _ _ _ _ m p (Some enum) Hbuf Hlen Hmax Hb) as Hbo.
    eapply wp_mono; [by eapply parse_rest_spec; [exact Ho1|apply Hbuf|..]|].
    intros res w2 (qf & hf & cf & eb & Ho2 & Heo & Hbo2 & Hpo & Hres).
    exists n, chunks, qf, hf, cf, (eb ++ bb). split_and!; [done|by exists eb, bb| |].
    + destruct Hres as [(-> & [Hh|Hf])|(-> & Hh & _)].
      * left. unfold expected_code. rewrite Hline, He, Em, Hh. repeat (case_test; bool_prop; [lia|]). done.
      * by right; right.
      * left. unfold expected_code. rewrite Hline, He, Em, Hh. repeat (case_test; bool_prop; [lia|]). done.
    + destruct Hres as [(-> & _)|(_ & Hh & Hcf & Hqf & path_only & qs & Hcut & ->)]; [done|].
      intros _. exists bb. split; [|set_solver]. split; try done. eauto.
  - assert (∀ code, code ≠ MNET_PARSE_OK → code = expected_code buffer max_body_size →
      wp (mret (code, MkParsed m p [] None BodyNull 0%nat false (Some enum) zero_extras false))
        (parse_result buffer received max_body_size w0 R) w1) as Hfail.
    { intros code Hc Hcode. apply wp_ret. eapply parse_result_fail; [exact Ho1|done..|by left]. }
    unfold expected_code in Hfail. rewrite Hline, He, Em, <-Ecl in Hfail. cbn zeta in Hfail.
    repeat (case_test; bool_prop; [by apply Hfail|]). lia.
  - cbn [Z.eqb]. apply wp_ret. eapply parse_result_fail; [exact Ho1|done..|by vm_compute|]. right. by left.
Qed.
End parse_request_proofs.

(** ** Properties *)

(** whatever bytes arrive, however the socket behaves and whichever
    allocations fail, parsing a request and releasing it performs no invalid
    memory access, frees each block once and leaves the heap exactly as it was:
    on every return path, including the ones that fail half-way. *)
Theorem parse_request_no_leak `{!Allocator, !OS} (buffer : bytes) (received : nat)
    (max_body_size timeout_ms : Z) (w : world) :
  wf_world w → buffer_ok buffer received → Z.of_nat (length buffer) < 2 ^ 31 →
  0 <= max_body_size < 2 ^ 31 - 1 →
  wp ('(_, parsed) ← parse_request buffer received max_body_size timeout_ms; release_parsed parsed)
    (λ _ w', w_heap w' = w_heap w) w.
Proof.
  intros Hwf Hb Hlen Hmax. apply wp_bind.
  eapply wp_mono; [by eapply parse_request_spec; [apply owns_refl|..]|].
  intros [code pr] w1 (n & chunks & qf & hf & cf & pb & Ho & Hpo & _).
  eapply release_parsed_spec; [done..|]. intros w2 Ho2. by apply owns_nil_heap in Ho2.
Qed.

Definition demo_get : bytes :=
  lit "GET /a/b?x=%31&y HTTP/1.1" ++ CRLF ++ lit "Host: h" ++ CRLF ++
  lit "Cookie: s=1; t=2" ++ CRLF ++ lit "connection: Keep-Alive" ++ CRLF ++ CRLF.

Lemma demo_get_ok : buffer_ok (demo_get ++ [0]) (length demo_get).
Proof. split; [by repeat constructor|by vm_compute]. Qed.

Lemma parse_request_no_leak_witness :
  wp ('(_, parsed) ← parse_request (H := all_ok) (H0 := silent_os)
        (demo_get ++ [0]) (length demo_get) 1000 30000;
      release_parsed parsed)
    (λ _ w', w_heap w' = w_heap empty_world) empty_world.
Proof.
  apply (parse_request_no_leak (H := all_ok) (H0 := silent_os)).
  - apply empty_world_wf.
  - apply demo_get_ok.
  - by vm_compute.
  - done.
Defined.



(** a request without header lines is refused, because the end of the request
    line is searched strictly before the blank line; and the request line is
    read across line ends, so a target can be taken from the next line. *)
Theorem request_line_quirks :
  expected_code (lit "GET / HTTP/1.0" ++ CRLF ++ CRLF ++ [0]) 1000 = MNET_PARSE_BAD_REQUEST ∧
  request_line (lit "GET" ++ CRLF ++ lit "Host: x" ++ CRLF ++ CRLF ++ [0]) =
    Some (lit "GET", lit "Host:").
Proof. split; by vm_compute. Qed.

(** when a message uses bare line feeds and its body holds an empty CRLF line,
    the header section is taken to extend to that line: a line of the body is
    stored as a header. *)
Theorem body_line_as_header :
  let buffer := lit "POST / HTTP/1.1" ++ [chLF] ++ lit "Content-Length: 14" ++ LFLF ++
                lit "X-Admin: 1" ++ CRLFCRLF ++ [0] in
  strstr buffer LFLF = Some 34%nat ∧ end_of_headers buffer = Some (46%nat, 4%nat) ∧
  header_fields (take 46 buffer) =
    Some [(lit "Content-Length", lit "14"); (lit "X-Admin", lit "1")].
Proof. split_and!; by vm_compute. Qed.

(** an over-long query parameter does not make the request fail: the result
    of [parse_query_string] is dropped, so the request is accepted with no query
    parameters at all. *)
Theorem long_query_accepted :
  let q := lit "a=1&" ++ replicate (Z.to_nat 1025) 98 ++ lit "=2" in
  let buffer := lit "GET /?" ++ q ++ lit " HTTP/1.1" ++ CRLF ++ lit "Host: h" ++ CRLFCRLF ++ [0] in
  query_fields q = None ∧ expected_code buffer 1000 = MNET_PARSE_OK ∧
  (query_of <$> (snd <$> request_line buffer)) = Some [].
Proof. split_and!; by vm_compute. Qed.
