(* ===== verification/Router.v ===== *)
(** * Route matching

    [src/mnet_router.c]: [hex_val], [mnet_route_match] and
    [mnet_match_params_free], with the slots of [out_values] holding pointers
    to the blocks the matcher allocates.  The matcher walks the pattern and the
    request path in step; the two suffixes still to be matched stand for
    [pattern + ppos] and [request_path + rpos]. *)

From S2P Require Export Types Codec.

Definition hex_val (c : Z) : Z :=
  if ((ch0 <=? c) && (c <=? ch9))%bool then c - ch0
  else if ((97 <=? c) && (c <=? 102))%bool then c - 97 + 10
  else if ((65 <=? c) && (c <=? 70))%bool then c - 65 + 10
  else -1.

Definition not_slash (c : Z) : bool := negb (c =? chSLASH).

(** [if ( *s == '/') s++] *)
Definition skip_slash (s : bytes) : bytes :=
  match s with
  | c :: k => if c =? chSLASH then k else s
  | [] => []
  end.

(** The loop that decodes a path parameter into [decoded[4096]]: at most [cap]
    bytes, malformed escapes kept as they are, ['+'] not decoded. *)
Fixpoint decode_param (cap : nat) (s : bytes) : bytes :=
  match cap, s with
  | S cap, c :: s1 =>
      if c =? chPERCENT then
        match s1 with
        | h :: l :: s2 =>
            if ((0 <=? hex_val h) && (0 <=? hex_val l))%bool
            then Z.lor (Z.shiftl (hex_val h) 4) (hex_val l) :: decode_param cap s2
            else c :: decode_param cap s1
        | _ => c :: decode_param cap s1
        end
      else c :: decode_param cap s1
  | _, _ => []
  end.

(** [sizeof (decoded) - 1] *)
Definition decoded_cap : nat := Z.to_nat 4095.

(** The block of a parameter value: the segment and its terminator, over which
    the decoded text and its terminator are copied. *)
Definition param_block (seg : bytes) : bytes :=
  splice 0 (decode_param decoded_cap seg ++ [chNUL]) (seg ++ [chNUL]).

Section router.
Context `{!Allocator}.

(** [for (i = 0; i < count; i++) free (values[i])] *)
Fixpoint mnet_match_params_free (values : list ptr) (count : nat) {struct count} : M unit :=
  match count with
  | O => mret ()
  | S count =>
      match values with
      | [] => ub
      | v :: values => free v;; mnet_match_params_free values count
      end
  end.

(** [out_values[n] = v] *)
Definition set_slot (out : list ptr) (n : nat) (v : ptr) : M (list ptr) :=
  if (n <? length out)%nat then mret (<[n := v]> out) else ub.

Fixpoint route_loop (fuel : nat) (pattern path : bytes) (n : nat) (out : list ptr)
    (max_values : nat) : M (Z * list ptr) :=
  match pattern, path with
  | c :: pattern1, x :: path1 =>
      match fuel with
      | O => ub
      | S fuel =>
          if c =? chSTAR then
            if (n <? max_values)%nat then
              value ← alloc (path ++ [chNUL]);
              out ← set_slot out n value;
              match value with
              | None => mnet_match_params_free out (S n);; mret (-1, out)
              | Some _ => route_loop fuel pattern1 [] (S n) out max_values
              end
            else route_loop fuel pattern1 [] (S n) out max_values
          else if c =? chCOLON then
            let seg := take_while not_slash path in
            let path' := skip_slash (drop_while not_slash path) in
            let pattern' := skip_slash (drop_while not_slash pattern1) in
            if (n <? max_values)%nat then
              value ← alloc (seg ++ [chNUL]);
              match value with
              | None =>
                  out ← set_slot out n None;
                  mnet_match_params_free out (S n);; mret (-1, out)
              | Some _ =>
                  store value (param_block seg);;
                  out ← set_slot out n value;
                  route_loop fuel pattern' path' (S n) out max_values
              end
            else route_loop fuel pattern' path' (S n) out max_values
          else if negb (c =? x) then
            mnet_match_params_free out n;; mret (-1, out)
          else route_loop fuel pattern1 path1 n out max_values
      end
  | [], [] => mret (Z.of_nat n, out)
  | _, _ => mnet_match_params_free out n;; mret (-1, out)
  end.

Definition starts_with_slash (s : bytes) : bool :=
  match s with c :: _ => c =? chSLASH | [] => false end.

(** The result and the slots as they are left. *)
Definition mnet_route_match (route : mnet_route_t) (request_path : option bytes)
    (out_values : list ptr) (max_values : nat) : M (Z * list ptr) :=
  match rt_path route, request_path with
  | Some pattern, Some path =>
      if (starts_with_slash pattern && starts_with_slash path)%bool
      then route_loop (length pattern) pattern path 0 out_values max_values
      else mret (-1, out_values)
  | _, _ => mret (-1, out_values)
  end.
End router.

(** ** What a pattern matches *)

(** A wildcard captures the rest of the path, a parameter one segment. *)
Inductive capture :=
  | CapWild (rest : bytes)
  | CapParam (seg : bytes).

Definition capture_block (c : capture) : bytes :=
  match c with
  | CapWild rest => rest ++ [chNUL]
  | CapParam seg => param_block seg
  end.

(** The string a handler reads for a capture. *)
Definition capture_string (c : capture) : bytes := cstr (capture_block c).

(** The language of patterns: [route_matches pattern path captures]. *)
Inductive route_matches : bytes → bytes → list capture → Prop :=
  | matches_end : route_matches [] [] []
  | matches_wild path : path ≠ [] → route_matches [chSTAR] path [CapWild path]
  | matches_param name pattern seg path caps :
      Forall (λ c, c ≠ chSLASH) seg → (seg ≠ [] ∨ path ≠ []) →
      Forall (λ c, c ≠ chSLASH) name →
      (pattern = [] ∨ starts_with_slash pattern = true) →
      (path = [] ∨ starts_with_slash path = true) →
      route_matches (skip_slash pattern) (skip_slash path) caps →
      route_matches (chCOLON :: name ++ pattern) (seg ++ path) (CapParam seg :: caps)
  | matches_char c pattern path caps :
      c ≠ chSTAR → c ≠ chCOLON → route_matches pattern path caps →
      route_matches (c :: pattern) (c :: path) caps.

(** The number of characters of a pattern that can start a capture. *)
Definition capture_chars (pattern : bytes) : nat :=
  length (filter (λ c, c = chSTAR ∨ c = chCOLON) pattern).

(** ** Lemmas on the language of patterns *)

Lemma not_slash_spec s : Forall (λ c, not_slash c = true) s ↔ Forall (λ c, c ≠ chSLASH) s.
Proof. apply Forall_iff. intros c. unfold not_slash. by rewrite negb_true_iff, Z.eqb_neq. Qed.

Lemma span_slash s k :
  Forall (λ c, c ≠ chSLASH) s → (k = [] ∨ starts_with_slash k = true) →
  take_while not_slash (s ++ k) = s ∧ drop_while not_slash (s ++ k) = k.
Proof.
  intros Hs Hk. apply take_while_app; [by apply not_slash_spec|].
  intros x Hx. destruct Hk as [->|Hk]; [done|]. destruct k as [|y k]; [done|].
  injection Hx as ->. simpl in Hk. unfold not_slash. by rewrite Hk.
Qed.

Lemma drop_slash_starts s :
  drop_while not_slash s = [] ∨ starts_with_slash (drop_while not_slash s) = true.
Proof.
  destruct (drop_while not_slash s) as [|c k] eqn:E; [by left|right].
  apply drop_while_head in E. unfold not_slash in E. simpl. by apply negb_false_iff.
Qed.

Lemma route_matches_param_intro p1 path caps :
  path ≠ [] →
  route_matches (skip_slash (drop_while not_slash p1)) (skip_slash (drop_while not_slash path)) caps →
  route_matches (chCOLON :: p1) path (CapParam (take_while not_slash path) :: caps).
Proof.
  intros Hne Hm. rewrite <-(take_drop_while not_slash p1).
  rewrite <-(take_drop_while not_slash path) at 1.
  apply matches_param; auto using drop_slash_starts.
  - apply not_slash_spec, take_while_all.
  - destruct (take_while not_slash path) eqn:E; [right|by left].
    rewrite <-(take_drop_while not_slash path), E in Hne. done.
  - apply not_slash_spec, take_while_all.
Qed.

Lemma route_matches_param_inv p1 path caps :
  route_matches (chCOLON :: p1) path caps →
  path ≠ [] ∧ ∃ caps', caps = CapParam (take_while not_slash path) :: caps' ∧
    route_matches (skip_slash (drop_while not_slash p1))
      (skip_slash (drop_while not_slash path)) caps'.
Proof.
  inversion 1 as [| |name p seg pa caps' Hseg Hne Hname Hp Hpa Hm|]; subst; [|done].
  split.
  { destruct seg; [|done]. destruct pa; [|done]. by destruct Hne. }
  destruct (span_slash seg pa Hseg Hpa) as [-> ->].
  destruct (span_slash name p Hname Hp) as [_ ->]. eauto.
Qed.

Lemma route_matches_nil_path p caps : route_matches p [] caps → p = [] ∧ caps = [].
Proof.
  intros Hm. remember [] as path eqn:E. destruct Hm as [|path Hp|name p seg pa caps _ Hne|]; try done.
  apply app_nil in E as [-> ->]. by destruct Hne.
Qed.

Lemma route_matches_wild_inv p1 path caps :
  route_matches (chSTAR :: p1) path caps → path ≠ [] ∧ p1 = [] ∧ caps = [CapWild path].
Proof. by inversion 1. Qed.

Lemma route_matches_char_inv c p1 path caps :
  c ≠ chSTAR → c ≠ chCOLON → route_matches (c :: p1) path caps →
  ∃ path', path = c :: path' ∧ route_matches p1 path' caps.
Proof. inversion 3; subst; try done. eauto. Qed.

(** A path matches a pattern in one way only. *)
Lemma route_matches_det pattern path caps1 caps2 :
  route_matches pattern path caps1 → route_matches pattern path caps2 → caps1 = caps2.
Proof.
  intros Hm. revert caps2. induction Hm as [|path Hp|name p seg pa caps Hseg Hne Hname Hp Hpa Hm IH
    |c p pa caps Hstar Hcolon Hm IH]; intros caps2 H2.
  - by inversion H2.
  - by apply route_matches_wild_inv in H2 as (_ & _ & ->).
  - apply route_matches_param_inv in H2 as (_ & caps' & -> & H2).
    destruct (span_slash seg pa Hseg Hpa) as [E1 E2]. rewrite E1, E2 in *.
    rewrite (proj2 (span_slash name p Hname Hp)) in H2. f_equal. auto.
  - apply route_matches_char_inv in H2 as (? & [= <-] & H2); auto.
Qed.

Lemma capture_chars_app p k : capture_chars (p ++ k) = (capture_chars p + capture_chars k)%nat.
Proof. unfold capture_chars. by rewrite filter_app, length_app. Qed.

Lemma capture_chars_cons c p :
  capture_chars (c :: p) =
  ((if decide (c = chSTAR ∨ c = chCOLON) then 1 else 0) + capture_chars p)%nat.
Proof. unfold capture_chars. rewrite filter_cons. by case_decide. Qed.

Lemma skip_slash_suffix p : ∃ k, p = k ++ skip_slash p.
Proof. destruct p as [|c p]; [by exists []|]. simpl. case_test; [by exists [c]|by exists []]. Qed.

Lemma skip_param_suffix p : ∃ k, p = k ++ skip_slash (drop_while not_slash p).
Proof.
  destruct (skip_slash_suffix (drop_while not_slash p)) as [k Hk].
  exists (take_while not_slash p ++ k). by rewrite <-app_assoc, <-Hk, take_drop_while.
Qed.

(** ** The matcher meets its specification *)

Lemma skip_param_bounds p :
  (length (skip_slash (drop_while not_slash p)) ≤ length p ∧
   capture_chars (skip_slash (drop_while not_slash p)) ≤ capture_chars p)%nat.
Proof.
  destruct (skip_param_suffix p) as [k Hk]. rewrite Hk at 2 4.
  rewrite length_app, capture_chars_app. lia.
Qed.

Lemma length_decode_param cap s : (length (decode_param cap s) ≤ length s)%nat.
Proof.
  revert s. induction cap as [|cap IH]; intros s; [simpl; lia|].
  destruct s as [|c s1]; simpl; [lia|]. pose proof (IH s1).
  case_test; simpl; [|lia]. destruct s1 as [|h [|l s2]]; simpl in *; try lia.
  pose proof (IH s2). case_test; simpl; lia.
Qed.

Lemma param_block_length seg : length (param_block seg) = length (seg ++ [chNUL]).
Proof.
  apply length_splice. rewrite !length_app. cbn [length].
  pose proof (length_decode_param decoded_cap seg). lia.
Qed.

(** The strings captured from a request path are short. *)
Lemma capture_block_nul c : 0 ∈ capture_block c.
Proof.
  destruct c as [rest|seg]; cbn [capture_block].
  - apply elem_of_app. right. by left.
  - unfold param_block, splice. apply elem_of_app. right. apply elem_of_app. left.
    apply elem_of_app. right. by left.
Qed.

Lemma hex_val_range c : -1 <= hex_val c < 16.
Proof. unfold hex_val. repeat case_test; bool_prop; lia. Qed.

Lemma decode_param_bytes cap s : Forall is_byte s → Forall is_byte (decode_param cap s).
Proof.
  revert cap. induction s as [s IH] using (induction_ltof1 _ length). unfold ltof in IH.
  intros [|cap]; destruct s as [|c s1]; cbn [decode_param]; intros Hs; try constructor.
  apply Forall_cons in Hs as [Hc Hs]. case_test.
  - destruct s1 as [|h [|l s2]]; try (constructor; [done|apply IH; [simpl; lia|done]]).
    case_test; [|constructor; [done|apply IH; [simpl; lia|done]]]. bool_prop. constructor.
    + pose proof (hex_val_range h). pose proof (hex_val_range l).
      rewrite hex_join by lia. unfold is_byte. lia.
    + apply Forall_cons in Hs as [_ [_ Hs]%Forall_cons]. apply IH; [simpl; lia|done].
  - constructor; [done|apply IH; [simpl; lia|done]].
Qed.

Lemma capture_text c s :
  match c with CapWild t | CapParam t => t = s end → text_ok s → text_ok (cstr (capture_block c)).
Proof.
  intros Hc [Hs Hl]. assert (Forall is_byte (s ++ [chNUL])) as Hb.
  { apply Forall_app. split; [|by repeat constructor]. eapply Forall_impl; [exact Hs|].
    unfold is_cchar, is_byte. lia. }
  apply text_ok_block; [|apply capture_block_nul|].
  - destruct c; cbn [capture_block]; subst; [done|]. unfold param_block, splice.
    pose proof Hb as [Hs' _]%Forall_app. set (n := decoded_cap). clearbody n.
    apply Forall_app_2; [by apply Forall_take|]. apply Forall_app_2; [|by apply Forall_drop].
    apply Forall_app_2; [by apply decode_param_bytes|by repeat constructor].
  - destruct c; cbn [capture_block]; subst; rewrite ?param_block_length, length_app; cbn [length]; lia.
Qed.

Lemma text_ok_app s k : text_ok (s ++ k) → text_ok s ∧ text_ok k.
Proof.
  intros H. pose proof H as [Hc _]. apply Forall_app in Hc as [H1 H2].
  split; (eapply text_ok_part; [exact H|done|rewrite length_app; lia]).
Qed.

Lemma captures_text pattern path caps :
  route_matches pattern path caps → text_ok path →
  Forall (λ c, text_ok (cstr (capture_block c))) caps.
Proof.
  induction 1 as [|path Hne|name pattern seg path caps _ _ _ _ _ _ IH|c pattern path caps _ _ _ IH];
    intros Hp.
  - constructor.
  - apply Forall_singleton. by apply (capture_text _ path).
  - apply text_ok_app in Hp as [Hseg Hp]. constructor; [by apply (capture_text _ seg)|].
    apply IH. unfold skip_slash. destruct path as [|x path]; [done|]. case_test; [|done].
    by apply (text_ok_app [x] path).
  - apply IH. by apply (text_ok_app [c] path).
Qed.

Section router_proofs.
Context `{!Allocator}.

Lemma wp_params_free w0 w (locs : list loc) blks bs rest k (Q : unit → world → Prop) :
  length locs = length blks →
  owns w0 w (zip locs blks ++ bs) →
  (∀ w', owns w0 w' bs → wp (mnet_match_params_free rest k) Q w') →
  wp (mnet_match_params_free ((Some <$> locs) ++ rest) (length locs + k)) Q w.
Proof.
  revert blks w. induction locs as [|l locs IH]; intros [|b blks] w; simpl; try done.
  - intros _ Ho HQ. by apply HQ.
  - intros [= Hlen] Ho HQ. apply wp_bind.
    eapply wp_free; [done|done|]. intros w' Ho'. by eapply IH.
Qed.

(** A failing match releases what it captured. *)
Lemma wp_params_free_all w0 w (locs : list loc) blks rest (Q : unit → world → Prop) :
  length locs = length blks → owns w0 w (zip locs blks) →
  (∀ w', owns w0 w' [] → Q () w') →
  wp (mnet_match_params_free ((Some <$> locs) ++ rest) (length locs)) Q w.
Proof.
  intros Hlen Ho HQ. rewrite <-(Nat.add_0_r (length locs)).
  apply wp_params_free with (w0 := w0) (blks := blks) (bs := []); [done|by rewrite app_nil_r|].
  intros w' Ho'. simpl. by apply wp_ret, HQ.
Qed.

Lemma wp_set_slot (locs : list loc) v0 v rest (Q : list ptr → world → Prop) w :
  Q ((Some <$> locs) ++ v :: rest) w →
  wp (set_slot ((Some <$> locs) ++ v0 :: rest) (length locs) v) Q w.
Proof.
  intros HQ. unfold set_slot. rewrite (proj2 (Nat.ltb_lt _ _)).
  2:{ rewrite length_app, length_fmap. simpl. lia. }
  apply wp_ret. replace (length locs) with (length (Some <$> locs) + 0)%nat
    by (rewrite length_fmap; lia).
  by rewrite insert_app_r.
Qed.

(** What a run of the matcher on the suffixes [pattern] and [path] leaves,
    after [caps0] was captured at [locs0]. *)
Definition match_outcome (w0 : world) (pattern path : bytes) (caps0 : list capture)
    (locs0 : list loc) (size : nat) (res : Z * list ptr) (w' : world) : Prop :=
  length (snd res) = size ∧
  ((fst res = -1 ∧ owns w0 w' [] ∧
    (alloc_failure ∨ ∀ caps, ¬ route_matches pattern path caps)) ∨
   (∃ caps locs rest, route_matches pattern path caps ∧
    fst res = Z.of_nat (length caps0 + length caps) ∧
    length locs = length caps ∧
    snd res = (Some <$> locs0 ++ locs) ++ rest ∧
    owns w0 w' (zip (locs0 ++ locs) (capture_block <$> caps0 ++ caps)))).

Lemma match_outcome_fail w0 w pattern path (caps0 : list capture) (locs0 : list loc) rest size :
  length locs0 = length caps0 → length ((Some <$> locs0) ++ rest) = size →
  owns w0 w (zip locs0 (capture_block <$> caps0)) →
  (alloc_failure ∨ ∀ caps, ¬ route_matches pattern path caps) →
  wp (mnet_match_params_free ((Some <$> locs0) ++ rest) (length caps0);;
      mret (-1, (Some <$> locs0) ++ rest))
    (match_outcome w0 pattern path caps0 locs0 size) w.
Proof.
  intros Hlen <- Ho Hno. apply wp_bind. rewrite <-Hlen.
  apply wp_params_free_all with (w0 := w0) (blks := capture_block <$> caps0);
    [by rewrite length_fmap|done|].
  intros w' Ho'. apply wp_ret. split; [done|]. by left.
Qed.

(** A capture that could not be allocated. *)
Lemma match_outcome_null w0 w pattern path (caps0 : list capture) (locs0 : list loc) rest size :
  length locs0 = length caps0 → length ((Some <$> locs0) ++ None :: rest) = size →
  owns w0 w (zip locs0 (capture_block <$> caps0)) → alloc_failure →
  wp (mnet_match_params_free ((Some <$> locs0) ++ None :: rest) (S (length caps0));;
      mret (-1, (Some <$> locs0) ++ None :: rest))
    (match_outcome w0 pattern path caps0 locs0 size) w.
Proof.
  intros Hlen <- Ho Hno. apply wp_bind. rewrite <-Hlen, <-Nat.add_1_r.
  apply wp_params_free with (w0 := w0) (bs := []) (blks := capture_block <$> caps0);
    [by rewrite length_fmap|by rewrite app_nil_r|].
  intros w' Ho'. simpl. apply wp_bind, wp_free_null, wp_ret, wp_ret. split; [done|]. left. auto.
Qed.

(** The outcome after one more capture is an outcome of the whole. *)
Lemma match_outcome_capture w0 pattern path pattern' path' caps0 (locs0 : list loc) l cap size res w :
  length locs0 = length caps0 →
  (∀ caps, route_matches pattern path caps ↔
    ∃ caps', caps = cap :: caps' ∧ route_matches pattern' path' caps') →
  match_outcome w0 pattern' path' (caps0 ++ [cap]) (locs0 ++ [l]) size res w →
  match_outcome w0 pattern path caps0 locs0 size res w.
Proof.
  intros Hlen Hiff [Hsize Hres]. split; [done|].
  destruct Hres as [(Hrc & Ho & Hno)|(caps & locs & rest & Hm & Hrc & Hl & Hout & Ho)].
  - left. split_and!; [done..|]. destruct Hno as [?|Hno]; [by left|right].
    intros caps (caps' & -> & Hm)%Hiff. by apply (Hno caps').
  - right. exists (cap :: caps), (l :: locs), rest. split_and!.
    + apply Hiff. eauto.
    + rewrite Hrc, length_app. simpl. lia.
    + simpl. by f_equal.
    + by rewrite Hout, <-app_assoc.
    + by rewrite <-!app_assoc in Ho.
Qed.

Lemma match_outcome_end w0 w caps0 (locs0 : list loc) rest size :
  length locs0 = length caps0 → length ((Some <$> locs0) ++ rest) = size →
  owns w0 w (zip locs0 (capture_block <$> caps0)) →
  match_outcome w0 [] [] caps0 locs0 size (Z.of_nat (length caps0), (Some <$> locs0) ++ rest) w.
Proof.
  intros Hlen <- Ho. split; [done|]. right. exists [], [], rest.
  rewrite !app_nil_r. simpl. rewrite Nat.add_0_r.
  split_and!; [constructor|done|done|done|done].
Qed.

Lemma route_matches_wild_iff p1 path :
  path ≠ [] → ∀ caps, route_matches (chSTAR :: p1) path caps ↔
    ∃ caps', caps = CapWild path :: caps' ∧ route_matches p1 [] caps'.
Proof.
  intros Hne caps. split.
  - intros (_ & -> & ->)%route_matches_wild_inv. exists []. split; [done|constructor].
  - intros (caps' & -> & [-> ->]%route_matches_nil_path). by constructor.
Qed.

Lemma route_matches_param_iff p1 path :
  path ≠ [] → ∀ caps, route_matches (chCOLON :: p1) path caps ↔
    ∃ caps', caps = CapParam (take_while not_slash path) :: caps' ∧
      route_matches (skip_slash (drop_while not_slash p1))
        (skip_slash (drop_while not_slash path)) caps'.
Proof.
  intros Hne caps. split.
  - by intros [_ ?]%route_matches_param_inv.
  - intros (caps' & -> & Hm). by apply route_matches_param_intro.
Qed.

(** The slots hold the captures made so far and at least one more. *)
Lemma slots_split (locs0 : list loc) (rest : list ptr) size n :
  length ((Some <$> locs0) ++ rest) = size → length locs0 = n → (n < size)%nat →
  ∃ v rest', rest = v :: rest' ∧ ∀ v', length ((Some <$> locs0) ++ v' :: rest') = size.
Proof.
  rewrite length_app, length_fmap. destruct rest as [|v rest']; simpl; [lia|].
  intros. exists v, rest'. split; [done|]. intros v'. rewrite length_app, length_fmap. done.
Qed.

(** One capture: the value is allocated, [upd] fills its block, and the match
    goes on behind it. *)
Lemma owns_capture w0 w l cap caps0 (locs0 : list loc) :
  length locs0 = length caps0 →
  owns w0 w ((l, capture_block cap) :: zip locs0 (capture_block <$> caps0)) →
  owns w0 w (zip (locs0 ++ [l]) (capture_block <$> caps0 ++ [cap])).
Proof.
  intros Hlen Ho. rewrite fmap_app. simpl. rewrite zip_app_snoc; [|rewrite length_fmap; exact Hlen].
  eapply owns_proper; [|done]. solve_Permutation.
Qed.

(** What the loop has to do on a pattern that a recursive call is made on. *)
Definition route_loop_ok (w0 : world) (fuel : nat) : Prop :=
  ∀ pattern path caps0 (locs0 : list loc) rest w size,
  (length pattern ≤ fuel)%nat → length locs0 = length caps0 →
  length ((Some <$> locs0) ++ rest) = size →
  (length caps0 + capture_chars pattern ≤ size)%nat →
  owns w0 w (zip locs0 (capture_block <$> caps0)) →
  wp (route_loop fuel pattern path (length caps0) ((Some <$> locs0) ++ rest) size)
    (match_outcome w0 pattern path caps0 locs0 size) w.

(** A capture [cap] is stored in the next slot, [p'] and [path'] remain. *)
Lemma route_loop_capture w0 fuel c p1 path l cap p' path' (locs0 : list loc) caps0 rest size w :
  route_loop_ok w0 fuel → (length p1 ≤ fuel)%nat → length locs0 = length caps0 →
  (length caps0 + capture_chars (c :: p1) ≤ size)%nat →
  (length p' ≤ length p1)%nat → (capture_chars p' ≤ capture_chars p1)%nat →
  (c = chSTAR ∨ c = chCOLON) →
  (∀ caps, route_matches (c :: p1) path caps ↔
    ∃ caps', caps = cap :: caps' ∧ route_matches p' path' caps') →
  length ((Some <$> locs0) ++ Some l :: rest) = size →
  owns w0 w ((l, capture_block cap) :: zip locs0 (capture_block <$> caps0)) →
  wp (route_loop fuel p' path' (S (length caps0)) ((Some <$> locs0) ++ Some l :: rest) size)
    (match_outcome w0 (c :: p1) path caps0 locs0 size) w.
Proof.
  intros IH Hfuel Hlen Hcap Hp' Hc' Hc Hiff Hsz Ho.
  rewrite capture_chars_cons, decide_True in Hcap by done.
  replace (S (length caps0)) with (length (caps0 ++ [cap])) by (rewrite length_app; simpl; lia).
  replace ((Some <$> locs0) ++ Some l :: rest) with ((Some <$> locs0 ++ [l]) ++ rest)
    by (by rewrite fmap_app, <-app_assoc).
  eapply wp_mono.
  - apply IH; [lia| | | |by apply owns_capture].
    + rewrite !length_app. simpl. lia.
    + by rewrite fmap_app, <-app_assoc.
    + rewrite length_app. simpl. lia.
  - intros res w'' Hres. by eapply match_outcome_capture.
Qed.

(** A character that stands for itself. *)
Lemma match_outcome_char w0 c p1 path1 caps0 locs0 size res w :
  c ≠ chSTAR → c ≠ chCOLON →
  match_outcome w0 p1 path1 caps0 locs0 size res w →
  match_outcome w0 (c :: p1) (c :: path1) caps0 locs0 size res w.
Proof.
  intros Hs Hc [Hsz Hres]. split; [done|].
  destruct Hres as [(? & ? & Hno)|(caps & locs & rest' & Hm & ?)].
  - left. split_and!; [done..|]. destruct Hno as [?|Hno]; [by left|right].
    intros caps (? & [= <-] & ?)%route_matches_char_inv; [|done..]. by eapply Hno.
  - right. exists caps, locs, rest'. split; [by constructor|done].
Qed.

Lemma route_loop_spec fuel : ∀ w0, route_loop_ok w0 fuel.
Proof.
  induction fuel as [|fuel IH]; intros w0 pattern path caps0 locs0 rest w size
    Hfuel Hlen Hsize Hcap Ho.
  { destruct pattern; [|simpl in Hfuel; lia]. destruct path; simpl.
    - apply wp_ret. by apply match_outcome_end.
    - apply match_outcome_fail; [done..|right]. by inversion 1. }
  destruct pattern as [|c p1]; [|destruct path as [|x path1]]; cbn [route_loop].
  { destruct path; simpl.
    - apply wp_ret. by apply match_outcome_end.
    - apply match_outcome_fail; [done..|right]. by inversion 1. }
  { apply match_outcome_fail; [done..|right]. by intros caps [? _]%route_matches_nil_path. }
  pose proof Hcap as Hcap'. rewrite capture_chars_cons in Hcap. simpl in Hfuel.
  case_test; [bool_prop; subst c|case_test; [bool_prop; subst c|]].
  - rewrite decide_True in Hcap by auto. rewrite (proj2 (Nat.ltb_lt _ _)) by lia.
    destruct (slots_split locs0 rest size (length caps0)) as (v0 & rest' & -> & Hsz);
      [done|done|lia|].
    apply wp_bind. eapply wp_alloc; [done| |].
    + intros w' Hfail Ho'. apply wp_bind. rewrite <-Hlen. apply wp_set_slot. rewrite Hlen.
      by apply match_outcome_null.
    + intros l w' Ho'. apply wp_bind. rewrite <-Hlen. apply wp_set_slot. rewrite Hlen.
      eapply route_loop_capture with (cap := CapWild (x :: path1)); auto; [lia|].
      by apply route_matches_wild_iff.
  - rewrite decide_True in Hcap by auto. rewrite (proj2 (Nat.ltb_lt _ _)) by lia.
    destruct (slots_split locs0 rest size (length caps0)) as (v0 & rest' & -> & Hsz);
      [done|done|lia|].
    apply wp_bind. eapply wp_alloc; [done| |].
    + intros w' Hfail Ho'. apply wp_bind. rewrite <-Hlen. apply wp_set_slot. rewrite Hlen.
      by apply match_outcome_null.
    + intros l w' Ho'. apply wp_bind.
      eapply wp_store; [done|done|symmetry; apply param_block_length|]. intros w'' Ho''.
      apply wp_bind. rewrite <-Hlen. apply wp_set_slot. rewrite Hlen.
      destruct (skip_param_bounds p1).
      eapply route_loop_capture with (cap := CapParam (take_while not_slash (x :: path1))); auto; [lia|].
      by apply route_matches_param_iff.
  - bool_prop. case_test; bool_prop.
    + apply match_outcome_fail; [done..|right].
      intros caps (? & [= ->] & _)%route_matches_char_inv; done.
    + subst x. rewrite decide_False in Hcap by naive_solver.
      eapply wp_mono; [by apply (IH w0); [lia|..]|].
      intros res w'. by apply match_outcome_char.
Qed.
End router_proofs.

(** ** Properties *)

(** A route accepts a path, capturing [caps]. *)
Definition route_accepts (route : mnet_route_t) (path : bytes) (caps : list capture) : Prop :=
  ∃ pattern, rt_path route = Some pattern ∧ starts_with_slash pattern = true ∧
    starts_with_slash path = true ∧ route_matches pattern path caps.

(** No more captures than slots. *)
Definition route_fits (route : mnet_route_t) (slots : nat) : Prop :=
  ∀ pattern, rt_path route = Some pattern → (capture_chars pattern ≤ slots)%nat.

(** What [mnet_route_match] promises its caller. *)
Definition route_match_result `{!Allocator} (route : mnet_route_t) (path : bytes) (size : nat)
    (w : world) (res : Z * list ptr) (w' : world) : Prop :=
  length (snd res) = size ∧
  ((fst res = -1 ∧ owns w w' [] ∧ (alloc_failure ∨ ∀ caps, ¬ route_accepts route path caps)) ∨
   (∃ caps locs rest, route_accepts route path caps ∧
      fst res = Z.of_nat (length caps) ∧ length locs = length caps ∧
      snd res = (Some <$> locs) ++ rest ∧
      owns w w' (zip locs (capture_block <$> caps)))).

Lemma route_match_spec `{!Allocator} route path out w :
  wf_world w → route_fits route (length out) →
  wp (mnet_route_match route (Some path) out (length out))
    (route_match_result route path (length out) w) w.
Proof.
  intros Hwf Hfits. unfold mnet_route_match.
  assert (∀ (P : Prop), (∀ caps, ¬ route_accepts route path caps) →
    route_match_result route path (length out) w (-1, out) w) as Hno.
  { intros _ Hno. split; [done|]. left. split_and!; [done|by apply owns_refl|by right]. }
  destruct (rt_path route) as [pattern|] eqn:E.
  2:{ apply wp_ret, (Hno True). by intros caps (? & ? & _); simplify_eq. }
  case_test; bool_prop.
  2:{ apply wp_ret, (Hno True). intros caps (? & ? & H1 & H2 & _). simplify_eq.
      rewrite H1, H2 in Heqb. done. }
  eapply wp_mono; [apply (route_loop_spec _ w pattern path [] [] out w)|].
  - done.
  - done.
  - done.
  - simpl. by apply Hfits.
  - by apply owns_refl.
  - intros res w' [Hsize Hres]. split; [done|].
    destruct Hres as [(? & ? & Hn)|(caps & locs & rest & Hm & ? & ? & ? & ?)].
    + left. split_and!; [done..|]. destruct Hn as [?|Hn]; [by left|right].
      intros caps (? & ? & _ & _ & Hm). simplify_eq. by eapply Hn.
    + right. exists caps, locs, rest. split; [by exists pattern|]. done.
Qed.

Lemma owns_zip_free `{!Allocator} w0 w (locs : list loc) blks bs rest (Q : unit → world → Prop) :
  length locs = length blks → owns w0 w (zip locs blks ++ bs) →
  (∀ w', owns w0 w' bs → Q () w') →
  wp (mnet_match_params_free ((Some <$> locs) ++ rest) (length locs)) Q w.
Proof.
  intros Hlen Ho HQ. rewrite <-(Nat.add_0_r (length locs)).
  eapply wp_params_free; [done..|]. intros w' Ho'. simpl. by apply wp_ret, HQ.
Qed.


(** a match followed by the release of the number of values it reports
    leaves exactly the heap there was before: no value leaks and none is
    released twice. *)
Theorem route_match_then_free `{!Allocator} (route : mnet_route_t) (path : bytes)
    (out : list ptr) (w : world) :
  wf_world w → route_fits route (length out) →
  wp ('(n, out') ← mnet_route_match route (Some path) out (length out);
      mnet_match_params_free out' (Z.to_nat n)) (λ _ w', w_heap w' = w_heap w) w.
Proof.
  intros Hwf Hfits. apply wp_bind. eapply wp_mono; [by apply route_match_spec|].
  intros [n out'] w' [_ Hres]. simpl in Hres.
  destruct Hres as [(-> & Ho & _)|(caps & locs & rest & _ & Hn & Hlen & Hout & Ho)].
  - apply wp_ret. by eapply owns_nil_heap.
  - subst n out'. rewrite Nat2Z.id, <-Hlen.
    apply owns_zip_free with (w0 := w) (blks := capture_block <$> caps) (bs := []).
    + by rewrite length_fmap.
    + by rewrite app_nil_r.
    + intros w'' Ho'. by eapply owns_nil_heap.
Qed.

(** Concrete inputs for the witnesses. *)
Definition demo_route (pattern : bytes) : mnet_route_t :=
  MkRoute MNET_HTTP_GET (Some pattern) HandlerStatic None None None.

Lemma route_match_then_free_witness :
  wp ('(n, out') ← mnet_route_match (H := all_ok) (demo_route (lit "/a/:x")) (Some (lit "/a/1"))
        (replicate 16 None) 16;
      mnet_match_params_free out' (Z.to_nat n)) (λ _ w', w_heap w' = w_heap empty_world) empty_world.
Proof.
  apply (route_match_then_free (H := all_ok) (demo_route (lit "/a/:x")) (lit "/a/1")
    (replicate 16 None) empty_world).
  - apply empty_world_wf.
  - intros pattern [= <-]. vm_compute. lia.
Defined.

Lemma match_params_free_overrun (values : list ptr) (count : nat) (w : world) :
  (length values < count)%nat → mnet_match_params_free values count w = None.
Proof.
  revert values w. induction count as [|count IH]; intros values w; [lia|].
  destruct values as [|v values]; [done|]. simpl. intros.
  unfold mbind, M_bind. destruct (free v w) as [[[] w']|]; [|done]. apply IH. lia.
Qed.

(** A pattern with [n] one-letter parameters, and a path for it. *)
Definition many_params (n : nat) : bytes := concat (replicate n (lit "/:p")).
Definition many_segments (n : nat) : bytes := concat (replicate n (lit "/v")).

(** the slots are not enough for a pattern with 17 parameters, which
    registration does not refuse: the match succeeds and reports 17 values for
    the 16 slots the connection handler passes, and releasing that many reads
    past the end of the array; a path that fails to match behind the 17th
    parameter makes the matcher itself read past the end. *)
Theorem route_match_overrun :
  let out := replicate MNET_MAX_PARAMS None in
  let route := demo_route (many_params 17) in
  (∃ out' w', mnet_route_match (H := all_ok) route (Some (many_segments 17)) out MNET_MAX_PARAMS
                empty_world = Some ((17, out'), w') ∧
     mnet_match_params_free out' 17 w' = None) ∧
  mnet_route_match (H := all_ok) route (Some (many_segments 18)) out MNET_MAX_PARAMS
    empty_world = None.
Proof.
  intros out route. split.
  - destruct (mnet_route_match (H := all_ok) route (Some (many_segments 17)) out MNET_MAX_PARAMS
      empty_world) as [[[n out'] w']|] eqn:E; [|by vm_compute in E].
    assert (n = 17 ∧ length out' = 16%nat) as [-> Hlen].
    { vm_compute in E. injection E as <- <- <-. done. }
    exists out', w'. split; [done|]. apply match_params_free_overrun. rewrite Hlen. lia.
  - by vm_compute.
Qed.
