(* ===== verification/Request.v ===== *)
(** * Request accessors

    [src/mnet_request.c].  A request may be NULL, a name may be NULL; the arrays
    are searched for the first entry with the name (without regard to case for
    headers). *)

From S2P Require Export Types.

Definition mnet_request_method (request : option mnet_request_t) : option bytes :=
  match request with None => None | Some r => Some (rq_method r) end.

Definition mnet_request_path (request : option mnet_request_t) : option bytes :=
  match request with None => None | Some r => Some (rq_path r) end.

Definition mnet_request_body (request : option mnet_request_t) : body_ptr :=
  match request with None => BodyNull | Some r => rq_body r end.

Definition mnet_request_body_length (request : option mnet_request_t) : nat :=
  match request with None => 0%nat | Some r => rq_body_length r end.

(** [a[i]] *)
Definition arr_get (a : list ptr) (i : nat) : M ptr :=
  match a !! i with Some p => mret p | None => ub end.

(** [for (i ...; i < count; i++) if (eq (names[i], name)) return values[i];] *)
Fixpoint lookup_loop (eq : bytes → bytes → bool) (todo i : nat)
    (names : list ptr) (values : option (list ptr)) (name : bytes) : M ptr :=
  match todo with
  | O => mret None
  | S todo =>
      p ← arr_get names i;
      s ← load_str p;
      if eq s name then
        match values with Some vs => arr_get vs i | None => ub end
      else lookup_loop eq todo (S i) names values name
  end.

Definition mnet_request_param (request : option mnet_request_t) (name : option bytes) : M ptr :=
  match request, name with
  | Some r, Some name =>
      match rq_param_names r with
      | None => mret None
      | Some names =>
          lookup_loop strcmp_eq (rq_param_count r) 0 names (rq_param_values r) name
      end
  | _, _ => mret None
  end.

Definition mnet_request_query (request : option mnet_request_t) (name : option bytes) : M ptr :=
  match request, name with
  | Some r, Some name =>
      match rq_query_names r with
      | None => mret None
      | Some names =>
          lookup_loop strcmp_eq (rq_query_count r) 0 names (rq_query_values r) name
      end
  | _, _ => mret None
  end.

Definition mnet_request_header (request : option mnet_request_t) (name : option bytes) : M ptr :=
  match request, name with
  | Some r, Some name =>
      match rq_header_names r with
      | None => mret None
      | Some names =>
          lookup_loop strcasecmp_eq (rq_header_count r) 0 names (rq_header_values r) name
      end
  | _, _ => mret None
  end.

Definition mnet_request_cookie (request : option mnet_request_t) (name : option bytes) : M ptr :=
  match request, name with
  | Some r, Some name =>
      match rq_cookie_names r with
      | None => mret None
      | Some names =>
          lookup_loop strcmp_eq (rq_cookie_count r) 0 names (rq_cookie_values r) name
      end
  | _, _ => mret None
  end.

(** ** The accessors are lookups in an association list *)

(** The pointers [ps] point, in [w], to the strings [ss]. *)
Definition points_to (w : world) (ps : list ptr) (ss : list bytes) : Prop :=
  Forall2 (λ p s, ∃ l k, p = Some l ∧ w_heap w !! l = Some (s ++ 0 :: k) ∧
                         Forall (λ c, c ≠ 0) s) ps ss.

Fixpoint assoc (eq : bytes → bytes → bool) (name : bytes) (names : list bytes)
    (values : list ptr) : ptr :=
  match names, values with
  | n :: names, v :: values => if eq n name then v else assoc eq name names values
  | _, _ => None
  end.

Lemma wp_lookup_loop eq name (names : list bytes) (values ps vs : list ptr) w
    (Q : ptr → world → Prop) :
  ∀ i pre vpre prest vrest,
    ps = pre ++ prest → vs = vpre ++ vrest → length pre = i → length vpre = i →
    points_to w (take (length names) prest) names →
    (length names ≤ length vrest)%nat →
    Q (assoc eq name names vrest) w →
    wp (lookup_loop eq (length names) i ps (Some vs) name) Q w.
Proof.
  induction names as [|n names IH]; intros i pre vpre prest vrest -> -> Hi Hvi Hp Hlen HQ; simpl.
  { by apply wp_ret. }
  destruct prest as [|p prest]; simpl in Hp; [by inversion Hp|].
  inversion Hp as [|? ? ? ? (l & k & -> & Hl & Hn) Hp']; subst.
  destruct vrest as [|v vrest]; simpl in Hlen; [lia|].
  apply wp_bind. unfold arr_get at 1.
  rewrite list_lookup_middle by done. apply wp_ret.
  apply wp_bind. eapply wp_load_str_at; [done..|]. simpl in HQ.
  case_test.
  - unfold arr_get. rewrite list_lookup_middle by done. by apply wp_ret.
  - apply (IH _ (pre ++ [Some l]) (vpre ++ [v]) prest vrest).
    + by rewrite <-app_assoc.
    + by rewrite <-app_assoc.
    + rewrite length_app. simpl. lia.
    + rewrite length_app. simpl. lia.
    + done.
    + lia.
    + done.
Qed.

(** The lookup reads [count] names and nothing beyond, and returns the value of
    the first name that matches. *)
Lemma wp_lookup eq name (names : list bytes) (ps vs : list ptr) w (Q : ptr → world → Prop) :
  points_to w (take (length names) ps) names → (length names ≤ length vs)%nat →
  Q (assoc eq name names vs) w →
  wp (lookup_loop eq (length names) 0 ps (Some vs) name) Q w.
Proof. intros. by apply wp_lookup_loop with (pre := []) (vpre := []) (prest := ps) (vrest := vs). Qed.

(** [v] is the value stored with the first of [names] that [eq] accepts for
    [name], or NULL when there is none. *)
Definition first_match (eq : bytes → bytes → bool) (name : bytes) (names : list bytes)
    (vs : list ptr) (v : ptr) : Prop :=
  (∃ i n, names !! i = Some n ∧ eq n name = true ∧ vs !! i = Some v ∧
     ∀ j m, (j < i)%nat → names !! j = Some m → eq m name = false) ∨
  (v = None ∧ ∀ j m, names !! j = Some m → eq m name = false).

Lemma assoc_first eq name names vs :
  (length names ≤ length vs)%nat → first_match eq name names vs (assoc eq name names vs).
Proof.
  revert vs. induction names as [|n names IH]; intros [|v vs] Hlen; simpl in *;
    try (right; by split; [|intros [|?] ?]); [lia|].
  destruct (eq n name) eqn:E.
  - left. exists 0%nat, n. split_and!; [done..|]. lia.
  - destruct (IH vs) as [(i & m & Hi & Hm & Hv & Hbefore)|[-> Hnone]]; [lia| |].
    + left. exists (S i), m. split_and!; [done..|]. intros [|j] m' Hj; simpl; [congruence|].
      apply Hbefore. lia.
    + right. split; [done|]. intros [|j] m'; simpl; [congruence|]. apply Hnone.
Qed.

Lemma wp_lookup_first eq name names ps vs w :
  points_to w (take (length names) ps) names → (length names ≤ length vs)%nat →
  wp (lookup_loop eq (length names) 0 ps (Some vs) name)
    (λ v w', w' = w ∧ first_match eq name names vs v) w.
Proof. intros Hp Hlen. apply wp_lookup; [done..|]. split; [done|]. by apply assoc_first. Qed.

(** ** Properties *)

(** looking a header up reads the request's header names in order, without
    regard to case, and returns the value stored with the first that matches
    (NULL when none does); it changes nothing and reads nothing outside the
    arrays. *)
Theorem request_header_first (r : mnet_request_t) (name : bytes) (names : list bytes)
    (ps vs : list ptr) (w : world) :
  rq_header_names r = Some ps → rq_header_values r = Some vs →
  rq_header_count r = length names →
  points_to w (take (length names) ps) names → (length names ≤ length vs)%nat →
  wp (mnet_request_header (Some r) (Some name))
    (λ v w', w' = w ∧ first_match strcasecmp_eq name names vs v) w.
Proof. intros Hn Hv Hc. unfold mnet_request_header. rewrite Hn, Hv, Hc. apply wp_lookup_first. Qed.

(** A request with the headers [names] and the parameters [params]. *)
Definition demo_request (names values params pvalues : list ptr) : mnet_request_t :=
  MkRequest (lit "GET") (lit "/") None BodyNull 0 (length params) (Some params) (Some pvalues)
    0 None None (length names) (Some names) (Some values) 0 None None zero_extras None.
Definition demo_strings : world :=
  World 4 {[ 0%nat := lit "Host" ++ [0]; 1%nat := lit "a.b" ++ [0];
             2%nat := lit "id" ++ [0]; 3%nat := lit "7" ++ [0] ]} 0 [].

Lemma request_header_first_witness :
  wp (mnet_request_header (Some (demo_request [Some 0%nat] [Some 1%nat] [] [])) (Some (lit "hOST")))
    (λ v w', w' = demo_strings ∧ first_match strcasecmp_eq (lit "hOST") [lit "Host"] [Some 1%nat] v)
    demo_strings.
Proof.
  apply (request_header_first _ _ _ [Some 0%nat]); [done..| |done].
  constructor; [|constructor]. exists 0%nat, []. split_and!; [done..|]. by repeat constructor.
Defined.

(** looking a path parameter up compares names exactly and returns the value
    captured for the first parameter of that name, or NULL. *)
Theorem request_param_first (r : mnet_request_t) (name : bytes) (names : list bytes)
    (ps vs : list ptr) (w : world) :
  rq_param_names r = Some ps → rq_param_values r = Some vs →
  rq_param_count r = length names →
  points_to w (take (length names) ps) names → (length names ≤ length vs)%nat →
  wp (mnet_request_param (Some r) (Some name))
    (λ v w', w' = w ∧ first_match strcmp_eq name names vs v) w.
Proof. intros Hn Hv Hc. unfold mnet_request_param. rewrite Hn, Hv, Hc. apply wp_lookup_first. Qed.

Lemma request_param_first_witness :
  wp (mnet_request_param (Some (demo_request [] [] [Some 2%nat] [Some 3%nat])) (Some (lit "id")))
    (λ v w', w' = demo_strings ∧ first_match strcmp_eq (lit "id") [lit "id"] [Some 3%nat] v)
    demo_strings.
Proof.
  apply (request_param_first _ _ _ [Some 2%nat]); [done..| |done].
  constructor; [|constructor]. exists 2%nat, []. split_and!; [done..|]. by repeat constructor.
Defined.
