(* ===== verification/Dispatch.v ===== *)
(** * Route lookup and dispatch

    [src/mnet_dispatch.c]: [mnet_find_route] and [dispatch].  Handlers and the
    middleware of the application are functions; the theorems hold for every
    handler that keeps the contract [handler_ok]. *)

From S2P Require Export Handlers Send Parse Router Request.

Section dispatch.
Context `{!Allocator, !Process, !Files}.

(** The loop over the routes: the route found, the number of values and the
    slots. *)
Fixpoint find_loop (routes : list mnet_route_t) (method : mnet_http_method_t) (path : bytes)
    (out_params : list ptr) (max_params : nat) : M (option mnet_route_t * nat * list ptr) :=
  match routes with
  | [] => mret (None, 0%nat, out_params)
  | r :: routes =>
      if negb (bool_decide (rt_method r = method))
      then find_loop routes method path out_params max_params
      else
        '(n, out_params) ← mnet_route_match r (Some path) out_params max_params;
        if 0 <=? n then mret (Some r, Z.to_nat n, out_params)
        else find_loop routes method path out_params max_params
  end.

Definition mnet_find_route (app : mnet_app_t) (method : mnet_http_method_t) (path : bytes)
    (out_params : list ptr) (max_params : nat) : M (option mnet_route_t * nat * list ptr) :=
  '(r, n, out_params) ← find_loop (app_routes app) method path out_params max_params;
  match r with
  | Some _ => mret (r, n, out_params)
  | None =>
      if bool_decide (method = MNET_HTTP_HEAD)
      then find_loop (app_routes app) MNET_HTTP_GET path out_params max_params
      else mret (None, 0%nat, out_params)
  end.

(** Call a route's handler; [app] is the application the static
    configurations point to. *)
Definition run_handler (app : mnet_app_t) (h : mnet_handler_t) (req : mnet_request_t) :
    M mnet_response_t :=
  match h with
  | HandlerStatic => static_handler (app_log_handler app) req
  | HandlerUser f => f req
  end.

(** The request given to [not_found_handler]. *)
Definition not_found_request (parsed : parsed_request_t) : mnet_request_t :=
  MkRequest (pr_method parsed) (pr_path_only parsed) None BodyNull 0 0 None None 0 None None
    0 None None 0 None None (pr_extras parsed) None.

(** The request given to a route's handler. *)
Definition route_request (parsed : parsed_request_t) (route : mnet_route_t) (param_count : nat)
    (param_values : list ptr) : mnet_request_t :=
  let e := pr_extras parsed in
  let arr (a : option parr) := pa_elems <$> a in
  MkRequest (pr_method parsed) (pr_path_only parsed)
    (Some match pr_query_string parsed with Some q => q | None => [] end)
    (pr_body parsed) (pr_body_length parsed)
    param_count (arr (rt_param_names route)) (Some param_values)
    (nv_count (ex_query e)) (arr (nv_names (ex_query e))) (arr (nv_values (ex_query e)))
    (nv_count (ex_header e)) (arr (nv_names (ex_header e))) (arr (nv_values (ex_header e)))
    (nv_count (ex_cookie e)) (arr (nv_names (ex_cookie e))) (arr (nv_values (ex_cookie e)))
    (MkExtras (arr (rt_param_names route)) (Some param_values) param_count
       (ex_query e) (ex_header e) (ex_cookie e))
    (rt_user_data route).

(** The response, [*out_param_count], and the slots. *)
Definition dispatch (app : mnet_app_t) (parsed : parsed_request_t) (param_values : list ptr)
    (max_params : nat) : M (mnet_response_t * nat * list ptr) :=
  match pr_method_enum parsed with
  | None => ub
  | Some method =>
      '(route, param_count, param_values) ←
        mnet_find_route app method (pr_path_only parsed) param_values max_params;
      if (app_route_count app =? 0)%nat then
        if (strcmp_eq (pr_path_only parsed) (lit "/") ||
            strcmp_eq (pr_path_only parsed) (lit "/index.html"))%bool
        then r ← welcome_response app; mret (r, param_count, param_values)
        else r ← mnet_error 404 (Some (lit "not found")); mret (r, param_count, param_values)
      else
        match route with
        | None =>
            match app_not_found_handler app with
            | Some h => r ← h (not_found_request parsed); mret (r, param_count, param_values)
            | None => mret (zero_response, param_count, param_values)
            end
        | Some route =>
            let req := route_request parsed route param_count param_values in
            match app_middleware app with
            | Some m =>
                r ← m req (run_handler app (rt_handler route));
                mret (r, param_count, param_values)
            | None =>
                r ← run_handler app (rt_handler route) req;
                mret (r, param_count, param_values)
            end
        end
  end.
End dispatch.

(** ** Which route serves a request *)

(** [route] is the first of [routes] for [method] whose pattern accepts [path]. *)
Definition first_route (routes : list mnet_route_t) (method : mnet_http_method_t) (path : bytes)
    (route : mnet_route_t) (caps : list capture) : Prop :=
  ∃ pre post, routes = pre ++ route :: post ∧ rt_method route = method ∧
    route_accepts route path caps ∧
    ∀ r caps', r ∈ pre → rt_method r = method → ¬ route_accepts r path caps'.

Definition no_route (routes : list mnet_route_t) (method : mnet_http_method_t) (path : bytes) : Prop :=
  ∀ r caps, r ∈ routes → rt_method r = method → ¬ route_accepts r path caps.

(** [route] accepts [path] with the captures [caps], stored at [locs]. *)
Definition captured (w0 w : world) (path : bytes) (size : nat) (bs : list (loc * bytes))
    (route : mnet_route_t) (n : nat) (out : list ptr) (caps : list capture) : Prop :=
  route_accepts route path caps ∧ n = length caps ∧
  ∃ locs rest, length locs = length caps ∧ out = (Some <$> locs) ++ rest ∧ length out = size ∧
    owns w0 w (zip locs (capture_block <$> caps) ++ bs).

(** What a lookup over [routes] returns. *)
Definition find_outcome `{!Allocator} (w0 : world) (bs : list (loc * bytes))
    (routes : list mnet_route_t) (method : mnet_http_method_t) (path : bytes) (size : nat)
    (res : option mnet_route_t * nat * list ptr) (w : world) : Prop :=
  let '(r, n, out) := res in
  match r with
  | Some route => ∃ caps, captured w0 w path size bs route n out caps ∧ route ∈ routes ∧
      rt_method route = method ∧ (alloc_failure ∨ first_route routes method path route caps)
  | None => n = 0%nat ∧ length out = size ∧ owns w0 w bs ∧
      (alloc_failure ∨ no_route routes method path)
  end.

Section find_proofs.
Context `{!Allocator}.

Lemma find_loop_spec routes method path : ∀ w0 w bs out,
  owns w0 w bs → Forall (λ r, route_fits r (length out)) routes →
  wp (find_loop routes method path out (length out))
    (find_outcome w0 bs routes method path (length out)) w.
Proof.
  induction routes as [|r routes IH]; intros w0 w bs out Ho Hfit; cbn [find_loop].
  { apply wp_ret. split_and!; [done..|]. right. intros r caps Hr. by apply not_elem_of_nil in Hr. }
  apply Forall_cons in Hfit as [Hr Hfit].
  assert (∀ w1 out', length out' = length out → owns w0 w1 bs →
    (alloc_failure ∨ (rt_method r = method → ∀ caps, ¬ route_accepts r path caps)) →
    wp (find_loop routes method path out' (length out))
      (find_outcome w0 bs (r :: routes) method path (length out)) w1) as Hnext.
  { intros w1 out' Hlen Ho1 Hno. rewrite <-Hlen. rewrite <-Hlen in Hfit.
    eapply wp_mono; [by apply IH|]. intros [[[route|] n] out''] w2; cbn [find_outcome].
    - intros (caps & Hcap & Hin & Hm & Hfirst). exists caps.
      split_and!; [done|by right|done|]. destruct Hno as [Hf|Hno]; [by left|].
      destruct Hfirst as [Hf|(pre & post & -> & Hm' & Hacc & Hpre)]; [by left|right].
      exists (r :: pre), post. split_and!; [done..|].
      intros r' caps' [->|Hin']%elem_of_cons Hm''; [by apply Hno|by apply Hpre].
    - intros (Hn & Hl & Ho2 & Hno2). split_and!; [done..|].
      destruct Hno as [Hf|Hno]; [by left|]. destruct Hno2 as [Hf|Hno2]; [by left|right].
      intros r' caps' [->|Hin']%elem_of_cons Hm''; [by apply Hno|by apply Hno2]. }
  case_bool_decide as Hm; cbn [negb].
  2:{ apply Hnext; [done|done|]. right. by intros. }
  apply wp_bind. eapply wp_mono; [apply route_match_spec; [by eapply owns_wf_world|done]|].
  intros [n out'] w1 [Hlen Hres]. cbn [fst snd] in *.
  destruct Hres as [(-> & Ho1 & Hno)|(caps & locs & rest & Hacc & -> & Hll & -> & Ho1)].
  - cbn [Z.leb Z.compare]. apply Hnext; [done| |].
    + by apply (owns_trans _ _ _ _ _ Ho Ho1).
    + destruct Hno as [?|Hno]; [by left|right]. by intros _.
  - rewrite (proj2 (Z.leb_le _ _)) by lia. apply wp_ret. exists caps. split_and!.
    + split; [done|]. rewrite Nat2Z.id. split; [done|]. exists locs, rest.
      split_and!; [done..|]. by apply (owns_trans _ _ _ _ _ Ho Ho1).
    + by left.
    + done.
    + right. exists [], routes. split_and!; [done..|]. intros ? ? Hin.
      by apply not_elem_of_nil in Hin.
Qed.

(** The lookup of the code: the method's own routes, then for HEAD the GET
    routes. *)
Definition lookup_outcome (w0 : world) (bs : list (loc * bytes)) (app : mnet_app_t)
    (method : mnet_http_method_t) (path : bytes) (size : nat)
    (res : option mnet_route_t * nat * list ptr) (w : world) : Prop :=
  let '(r, n, out) := res in
  match r with
  | Some route => ∃ caps, captured w0 w path size bs route n out caps ∧ route ∈ app_routes app ∧
      (rt_method route = method ∨ method = MNET_HTTP_HEAD ∧ rt_method route = MNET_HTTP_GET) ∧
      (alloc_failure ∨
       first_route (app_routes app) method path route caps ∨
       method = MNET_HTTP_HEAD ∧ no_route (app_routes app) method path ∧
         first_route (app_routes app) MNET_HTTP_GET path route caps)
  | None => n = 0%nat ∧ length out = size ∧ owns w0 w bs ∧
      (alloc_failure ∨
       no_route (app_routes app) method path ∧
       (method = MNET_HTTP_HEAD → no_route (app_routes app) MNET_HTTP_GET path))
  end.

Lemma find_route_spec w0 w bs app method path out :
  owns w0 w bs → Forall (λ r, route_fits r (length out)) (app_routes app) →
  wp (mnet_find_route app method path out (length out))
    (lookup_outcome w0 bs app method path (length out)) w.
Proof.
  intros Ho Hfit. unfold mnet_find_route. apply wp_bind.
  eapply wp_mono; [by apply find_loop_spec|].
  intros [[[route|] n] out'] w1; cbn [find_outcome].
  - intros (caps & Hcap & Hin & Hm & Hfirst). apply wp_ret. exists caps.
    split_and!; [done|done|by left|]. destruct Hfirst as [?|?]; [by left|by right; left].
  - intros (-> & Hlen & Ho1 & Hno). case_bool_decide as Hhead.
    2:{ apply wp_ret. split_and!; [done..|]. destruct Hno as [?|Hno]; [by left|right]. by split. }
    rewrite <-Hlen in Hfit |- *. eapply wp_mono; [by apply find_loop_spec|].
    intros [[[route|] n] out''] w2; cbn [find_outcome].
    + intros (caps & Hcap & Hin & Hm & Hfirst). exists caps.
      split_and!; [done|done|by right|]. destruct Hfirst as [?|?]; [by left|].
      destruct Hno as [?|?]; [by left|]. right. by right.
    + intros (-> & Hlen2 & Ho2 & Hno2). split_and!; [done..|].
      destruct Hno as [?|?]; [by left|]. destruct Hno2 as [?|?]; [by left|]. by right.
Qed.
End find_proofs.

(** ** The contract of handlers *)

(** The heap of [w] is part of the heap of [w']. *)
Definition heap_kept (w w' : world) : Prop := w_heap w ⊆ w_heap w'.

Lemma owns_heap_kept w0 w bs : owns w0 w bs → heap_kept w0 w.
Proof. intros Ho. apply map_subseteq_spec. intros l b. by eapply owns_old_heap. Qed.

(** [count] names and values that can be read; the values are short strings. *)
Definition fields_at (w : world) (count : nat) (names values : option (list ptr)) : Prop :=
  count = 0%nat ∨ names = None ∨
  ∃ ns vs ss ts, names = Some ns ∧ values = Some vs ∧ length ss = count ∧ length ts = count ∧
    points_to w (take count ns) ss ∧ points_to w (take count vs) ts ∧ Forall text_ok ts.

(** A body of [len] bytes that can be read, as text too: it ends with a NUL or a
    NUL follows it. *)
Definition body_readable (w : world) (body : body_ptr) (len : nat) : Prop :=
  match body with
  | BodyNull => len = 0%nat
  | BodyInBuffer rest => (len < length rest)%nat ∧ 0 ∈ rest ∧
      Forall is_byte rest ∧ Z.of_nat (length rest) < 2 ^ 31
  | BodyHeap p => ∃ l b, p = Some l ∧ length b = len ∧ w_heap w !! l = Some (b ++ [0]) ∧
      Forall is_byte b ∧ Z.of_nat (length b) < 2 ^ 31 - 1
  end.

(** A request whose pointers are valid in [w]. *)
Record request_at (w : world) (req : mnet_request_t) : Prop := {
  ra_params : fields_at w (rq_param_count req) (rq_param_names req) (rq_param_values req);
  ra_query : fields_at w (rq_query_count req) (rq_query_names req) (rq_query_values req);
  ra_headers : fields_at w (rq_header_count req) (rq_header_names req) (rq_header_values req);
  ra_cookies : fields_at w (rq_cookie_count req) (rq_cookie_names req) (rq_cookie_values req);
  ra_body : body_readable w (rq_body req) (rq_body_length req);
  ra_path : text_ok (rq_path req);
  ra_config : ∀ cfg, rq_user_data req = Some cfg → ∃ url_prefix root,
    config_at w cfg url_prefix root ∧ (length url_prefix ≤ length (rq_path req))%nat;
}.

(** A response that can be sent and released: it owns its body, a response that
    will not be sent (status 0) owns nothing, and a chunked body can be read. *)
Definition response_ok (w : world) (r : mnet_response_t) (rb : list (loc * bytes)) : Prop :=
  response_owned r rb ∧ (rs_status r = 0 → rb = []) ∧
  (rs_chunked r = true → Z.of_nat (rs_body_length r) < size_mod ∧ ∃ body, body_at w r body).

(** A handler may do any input and output; it closes the sockets it opens, adds
    nothing to the heap but what its response owns, and removes nothing. *)
Definition handler_ok (h : mnet_request_t → M mnet_response_t) : Prop :=
  ∀ req w0 w bs, owns w0 w bs → request_at w req →
    wp (h req) (λ r w', ∃ rb, held w0 w' (rb ++ bs) ∧ response_ok w' r rb) w.

Definition middleware_ok (m : mnet_middleware_t) : Prop :=
  ∀ next, handler_ok next → handler_ok (λ req, m req next).

(** A route as registration leaves it: its handler keeps the contract, it has a
    name for every capture, and a static route's prefix is a prefix of what it
    accepts. *)
Record route_at (w : world) (r : mnet_route_t) : Prop := {
  rta_handler : match rt_handler r with HandlerStatic => True | HandlerUser f => handler_ok f end;
  rta_fits : route_fits r MNET_MAX_PARAMS;
  rta_names : match rt_param_names r with
              | None => True
              | Some a => ∃ ss, points_to w (pa_elems a) ss ∧
                  ∀ path caps, route_accepts r path caps → (length caps ≤ length ss)%nat
              end;
  rta_config : ∀ cfg, rt_user_data r = Some cfg → ∃ url_prefix root,
    config_at w cfg url_prefix root ∧
    ∀ path caps, route_accepts r path caps → (length url_prefix ≤ length path)%nat;
}.

Record app_at (w : world) (app : mnet_app_t) : Prop := {
  aa_routes : Forall (route_at w) (app_routes app);
  aa_not_found : match app_not_found_handler app with Some h => handler_ok h | None => True end;
  aa_middleware : match app_middleware app with Some m => middleware_ok m | None => True end;
}.

Lemma points_to_kept w w' ps ss : heap_kept w w' → points_to w ps ss → points_to w' ps ss.
Proof.
  intros Hk H. eapply Forall2_impl; [exact H|]. intros p s (l & k & -> & Hl & Hs). exists l, k.
  split_and!; [done|by eapply lookup_weaken|done].
Qed.

Lemma config_at_kept w w' cfg u f : heap_kept w w' → config_at w cfg u f → config_at w' cfg u f.
Proof.
  intros Hk (lu & lf & ku & kf & H1 & H2 & H3 & H4 & H5 & H6). exists lu, lf, ku, kf.
  split_and!; try done; by eapply lookup_weaken.
Qed.

Lemma cstr_block b : 0 ∈ b → ∃ k, b = cstr b ++ 0 :: k.
Proof. apply buffer_split. Qed.

(** A block with a terminator is a string. *)
Lemma points_to_blocks w (locs : list loc) blks :
  Forall2 (λ l b, w_heap w !! l = Some b) locs blks → Forall (λ b, 0 ∈ b) blks →
  points_to w (Some <$> locs) (cstr <$> blks).
Proof.
  intros H Hb. induction H as [|l b locs blks Hl H IH]; [constructor|].
  apply Forall_cons in Hb as [H0 Hb]. constructor; [|by apply IH].
  destruct (cstr_block b H0) as [k E]. exists l, k. rewrite <-E.
  split_and!; [done|done|apply cstr_nul_free].
Qed.

Lemma pair_blocks_heap w ps :
  (∀ l b, (l, b) ∈ pair_blocks ps → w_heap w !! l = Some b) →
  Forall2 (λ l b, w_heap w !! l = Some b) ((λ p, fst (fst p)) <$> ps) ((λ p, snd (fst p)) <$> ps) ∧
  Forall2 (λ l b, w_heap w !! l = Some b) ((λ p, fst (snd p)) <$> ps) ((λ p, snd (snd p)) <$> ps).
Proof.
  induction ps as [|[[l1 b1] [l2 b2]] ps IH]; intros Hin; simpl; [done|].
  destruct IH as [IH1 IH2]. { intros l b H. apply Hin. simpl. by right; right. }
  split; constructor; try done; apply Hin; simpl; [by left|by right; left].
Qed.

Lemma nv_fields_at w0 w nv fs bs R :
  owns w0 w (bs ++ R) → nv_owned nv fs bs →
  fields_at w (nv_count nv) (pa_elems <$> nv_names nv) (pa_elems <$> nv_values nv).
Proof.
  intros Ho [(-> & _)|(nl & vl & cap & ps & -> & -> & Ht & ->)]; [by left|]. right. right.
  cbn [keep_arrays nv_names nv_values nv_count fmap option_fmap option_map pa_elems].
  destruct (pair_blocks_heap w ps) as [H1 H2].
  { intros l b Hin. eapply owns_in_heap; [exact Ho|]. set_solver. }
  exists (name_ptrs ps), (value_ptrs ps), (cstr <$> ((λ p, snd (fst p)) <$> ps)),
    (cstr <$> ((λ p, snd (snd p)) <$> ps)).
  rewrite !length_fmap, length_name_ptrs. split_and!; [done..| | |].
  - rewrite take_ge by (by rewrite length_name_ptrs).
    replace (name_ptrs ps) with (Some <$> ((λ p, fst (fst p)) <$> ps))
      by (unfold name_ptrs; by rewrite <-list_fmap_compose).
    apply points_to_blocks; [done|]. apply Forall_fmap. eapply Forall_impl; [exact Ht|]. by intros ? [[] []].
  - rewrite take_ge by (unfold value_ptrs; by rewrite length_fmap).
    replace (value_ptrs ps) with (Some <$> ((λ p, fst (snd p)) <$> ps))
      by (unfold value_ptrs; by rewrite <-list_fmap_compose).
    apply points_to_blocks; [done|]. apply Forall_fmap. eapply Forall_impl; [exact Ht|]. by intros ? [[] []].
  - apply Forall_fmap, Forall_fmap. eapply Forall_impl; [exact Ht|]. by intros ? [_ []].
Qed.

(** What dispatch hands to a route's handler is a valid request. *)
(** The captured values are strings that can be read. *)
Lemma captured_values w0 w path size bs route n out caps :
  captured w0 w path size bs route n out caps →
  points_to w (take n out) (cstr <$> (capture_block <$> caps)).
Proof.
  intros (Hacc & -> & locs & rest & Hl & -> & _ & Ho).
  rewrite <-Hl, take_app_le, take_ge by (rewrite length_fmap; lia). apply points_to_blocks.
  2:{ apply Forall_fmap, Forall_true. intros c. apply capture_block_nul. }
  apply Forall2_same_length_lookup. split; [by rewrite length_fmap|].
  intros i l b Hli Hbi. eapply owns_in_heap; [exact Ho|]. apply elem_of_app. left.
  apply list_elem_of_lookup. exists i. apply lookup_zip_with_Some. eauto.
Qed.

Lemma route_request_at w0 w pr qf hf cf pb R size route n out caps :
  heap_kept w0 w → route_at w0 route → parsed_owned pr qf hf cf pb →
  (∃ w1 bs, captured w1 w (pr_path_only pr) size bs route n out caps ∧
     ∃ R', bs ≡ₚ pb ++ R ++ R') →
  request_at w (route_request pr route n out).
Proof.
  intros Hk [_ _ Hnames Hcfg] (eb & bb & (b1 & b2 & b3 & H1 & H2 & H3 & ->) & Hbody & -> & Hpath)
    (w1 & bs & Hcap & R' & Hbs). pose proof (captured_values _ _ _ _ _ _ _ _ _ Hcap) as Hvals.
  destruct Hcap as (Hacc & -> & locs & rest & Hl & -> & _ & Ho).
  rewrite Hbs in Ho. set (Zs := zip locs (capture_block <$> caps)) in *.
  split; cbn [route_request rq_param_count rq_param_names rq_param_values rq_query_count
    rq_query_names rq_query_values rq_header_count rq_header_names rq_header_values
    rq_cookie_count rq_cookie_names rq_cookie_values rq_user_data rq_path rq_body rq_body_length].
  - destruct (rt_param_names route) as [a|]; [|by right; left]. right. right.
    destruct Hnames as (ss & Hss & Hcov). specialize (Hcov _ _ Hacc).
    exists (pa_elems a), ((Some <$> locs) ++ rest), (take (length caps) ss),
      (cstr <$> (capture_block <$> caps)).
    split_and!; [done|done|by rewrite length_take; lia|by rewrite !length_fmap| | |].
    + eapply points_to_kept; [done|]. by apply Forall2_take.
    + exact Hvals.
    + do 2 apply Forall_fmap. destruct Hacc as (p & _ & _ & _ & Hm). by eapply captures_text.
  - eapply nv_fields_at with (bs := b1) (R := b2 ++ b3 ++ bb ++ R ++ R' ++ Zs); [|exact H1].
    eapply owns_proper; [|exact Ho]. solve_Permutation.
  - eapply nv_fields_at with (bs := b2) (R := b1 ++ b3 ++ bb ++ R ++ R' ++ Zs); [|exact H2].
    eapply owns_proper; [|exact Ho]. solve_Permutation.
  - eapply nv_fields_at with (bs := b3) (R := b1 ++ b2 ++ bb ++ R ++ R' ++ Zs); [|exact H3].
    eapply owns_proper; [|exact Ho]. solve_Permutation.
  - unfold body_owned in Hbody. unfold body_readable. destruct (pr_body_heap pr).
    + destruct Hbody as (l & b & -> & Hlen & Hb & Hsz & ->). exists l, b. split_and!; [done..| |done|done].
      eapply owns_in_heap; [exact Ho|]. apply elem_of_app; right.
      apply elem_of_app; left. apply elem_of_app; right. by left.
    + destruct Hbody as [_ Hb]. by destruct (pr_body pr).
  - done.
  - intros cfg E. destruct (Hcfg _ E) as (u & root & Hc & Hlen). exists u, root.
    split; [by eapply config_at_kept|by eapply Hlen].
Qed.

Lemma not_found_request_at w pr :
  text_ok (pr_path_only pr) → request_at w (not_found_request pr).
Proof. intros Hp. split; first [by left|done]. Qed.

Section dispatch_proofs.
Context `{!Allocator, !Process, !Files}.

Lemma handler_post_ok w0 bs P r w' :
  (∀ evs, P evs → open_sockets evs = 0) → handler_post w0 bs P r w' →
  ∃ rb, held w0 w' (rb ++ bs) ∧ response_ok w' r rb.
Proof.
  intros HP (n & evs & rb & Ho & Hr & Hs & Hc & Hevs). exists rb. split; [by exists n, evs; auto|].
  split_and!; [done|by intros ?|]. by rewrite Hc.
Qed.

Lemma error_ok w0 w bs status m :
  owns w0 w bs → status ≠ 0 →
  wp (mnet_error status (Some m))
    (λ r w', ∃ rb, held w0 w' (rb ++ bs) ∧ response_ok w' r rb) w.
Proof.
  intros Ho Hs. eapply wp_mono.
  - eapply (handler_post_error w0 w bs 0 [] status m (λ evs, open_sockets evs = 0));
      [by rewrite io_nil|done|done].
  - intros r w'. by apply handler_post_ok.
Qed.

(** The static file handler keeps the contract. *)
Lemma static_handler_ok app_log : handler_ok (static_handler app_log).
Proof.
  intros req w0 w bs Ho Hreq. destruct (rq_user_data req) as [cfg|] eqn:E.
  - destruct (ra_config _ _ Hreq cfg E) as (u & root & Hc & Hlen).
    eapply wp_mono; [by eapply static_handler_spec|]. intros r w'.
    apply handler_post_ok. by intros evs (_ & _ & ?).
  - unfold static_handler. rewrite E. by apply error_ok.
Qed.

Lemma run_handler_ok app r w : route_at w r → handler_ok (run_handler app (rt_handler r)).
Proof.
  intros [Hh _ _ _]. unfold run_handler. destruct (rt_handler r); [apply static_handler_ok|done].
Qed.

Lemma zero_response_ok w : response_ok w zero_response [].
Proof. by split_and!. Qed.

(** What [dispatch] returns: a response, and the parameter values to release. *)
Definition dispatch_post (w0 : world) (bs : list (loc * bytes))
    (res : mnet_response_t * nat * list ptr) (w' : world) : Prop :=
  let '(r, n, out) := res in
  ∃ rb locs blks rest,
    held w0 w' (rb ++ zip locs blks ++ bs) ∧ response_ok w' r rb ∧
    n = length locs ∧ length locs = length blks ∧ out = (Some <$> locs) ++ rest.

Lemma dispatch_spec w0 w app pr qf hf cf pb R out :
  owns w0 w (pb ++ R) → app_at w0 app → parsed_owned pr qf hf cf pb →
  pr_method_enum pr ≠ None → length out = MNET_MAX_PARAMS →
  wp (dispatch app pr out MNET_MAX_PARAMS) (dispatch_post w0 (pb ++ R)) w.
Proof.
  intros Ho [Hroutes Hnf Hmw] Hp Hm Hout. unfold dispatch.
  destruct (pr_method_enum pr) as [method|]; [|done].
  apply wp_bind. rewrite <-Hout at 1. eapply wp_mono.
  { apply find_route_spec; [exact Ho|]. eapply Forall_impl; [exact Hroutes|].
    intros r [_ Hf _ _]. by rewrite Hout. }
  intros [[route n] out'] w1 Hfind.
  (* a callee that keeps the contract, then the result *)
  assert (∀ (c : M mnet_response_t) w2 locs blks rest,
    n = length locs → length locs = length blks → out' = (Some <$> locs) ++ rest →
    wp c (λ r w', ∃ rb, held w0 w' (rb ++ zip locs blks ++ pb ++ R) ∧
            response_ok w' r rb) w2 →
    wp (r ← c; mret (r, n, out')) (dispatch_post w0 (pb ++ R)) w2) as Hret.
  { intros c w2 locs blks rest Hn Hl Ho' Hc. apply wp_bind. eapply wp_mono; [exact Hc|].
    intros r w3 (rb & Ho3 & Hr). apply wp_ret. by exists rb, locs, blks, rest. }
  destruct (app_route_count app =? 0)%nat eqn:Hcount; bool_prop.
  { assert (app_routes app = []) as Hnil by (by apply nil_length_inv).
    assert (n = 0%nat ∧ owns w0 w1 (pb ++ R)) as [Hn Ho1].
    { destruct route as [r|]; [|by destruct Hfind as (-> & _ & Ho1 & _)].
      destruct Hfind as (caps & _ & Hin & _). rewrite Hnil in Hin.
      by apply not_elem_of_nil in Hin. }
    case_test; (eapply (Hret _ _ [] [] out'); [done..|]).
    - eapply wp_mono; [by apply welcome_response_spec|]. intros r w'.
      apply handler_post_ok. by intros evs (_ & ? & _).
    - by apply error_ok. }
  destruct route as [route|].
  - destruct Hfind as (caps & Hcap & Hin & _ & _).
    pose proof Hcap as (Hacc & Hn & locs & rest & Hl & Ho' & _ & Ho1).
    rewrite Forall_forall in Hroutes. pose proof (Hroutes _ Hin) as Hroute.
    assert (request_at w1 (route_request pr route n out')) as Hreq.
    { eapply route_request_at; [by eapply owns_heap_kept|done|exact Hp|].
      exists w0, (pb ++ R). split; [exact Hcap|]. exists []. by rewrite app_nil_r. }
    pose proof (run_handler_ok app route w0 Hroute) as Hh.
    destruct (app_middleware app) as [m|].
    + eapply (Hret _ _ locs (capture_block <$> caps) rest); [by rewrite Hl|by rewrite length_fmap|done|].
      by apply (Hmw _ Hh).
    + eapply (Hret _ _ locs (capture_block <$> caps) rest); [by rewrite Hl|by rewrite length_fmap|done|].
      by apply Hh.
  - destruct Hfind as (Hn & _ & Ho1 & _). destruct (app_not_found_handler app) as [h|].
    + eapply (Hret _ _ [] [] out'); [done..|]. apply Hnf; [done|]. apply not_found_request_at.
      by destruct Hp as (? & ? & _ & _ & _ & ?).
    + apply wp_ret. exists [], [], [], out'.
      split_and!; [by apply held_owns|apply zero_response_ok|done..].
Qed.
End dispatch_proofs.

(** ** Properties *)

(** C13: route lookup returns the first registered route of the request's method
    whose pattern accepts the path, with exactly its captures as live values; a
    HEAD request without a route of its own gets the first accepting GET route;
    otherwise no route and no value.  (When an allocation fails a matching
    route can be passed over: the matcher reports the failure as no match.) *)
Theorem find_route_correct `{!Allocator} (app : mnet_app_t) (method : mnet_http_method_t)
    (path : bytes) (out : list ptr) (w : world) :
  wf_world w → Forall (λ r, route_fits r (length out)) (app_routes app) →
  wp (mnet_find_route app method path out (length out))
    (lookup_outcome w [] app method path (length out)) w.
Proof. intros Hwf Hfit. apply find_route_spec; [by apply owns_refl|done]. Qed.

Definition demo_routes_app : mnet_app_t :=
  MkApp 0 None [MkRoute MNET_HTTP_GET (Some (lit "/a/:x")) HandlerStatic None None None;
                MkRoute MNET_HTTP_GET (Some (lit "/a/b")) HandlerStatic None None None]
    2 true 0 0 0 80 None None 30 0 5 0 None 1 0.

Lemma demo_routes_fit : Forall (λ r, route_fits r 16) (app_routes demo_routes_app).
Proof.
  apply Forall_cons. split; [intros p [= <-]; vm_compute; lia|].
  apply Forall_cons. split; [intros p [= <-]; vm_compute; lia|done].
Qed.

Lemma find_route_correct_witness :
  wp (mnet_find_route (H := all_ok) demo_routes_app MNET_HTTP_HEAD (lit "/a/b") (replicate 16 None) 16)
    (lookup_outcome (H := all_ok) empty_world [] demo_routes_app MNET_HTTP_HEAD (lit "/a/b") 16)
    empty_world.
Proof.
  apply (find_route_correct (H := all_ok) _ _ _ (replicate 16 None)).
  - apply empty_world_wf.
  - apply demo_routes_fit.
Defined.

(** dispatching a parsed request is safe for every application whose handlers
    keep their contract: the handler, the middleware or the 404 handler is
    called with a request all of whose pointers are valid, and afterwards the
    heap holds, beside what it held, exactly the response's body and the
    parameter values that the reported count releases. *)
Theorem dispatch_safe `{!Allocator, !Process, !Files} (app : mnet_app_t)
    (pr : parsed_request_t) (qf hf cf : list (bytes * bytes)) (pb : list (loc * bytes))
    (w0 w : world) :
  owns w0 w pb → app_at w0 app → parsed_owned pr qf hf cf pb → pr_method_enum pr ≠ None →
  wp (dispatch app pr (replicate MNET_MAX_PARAMS None) MNET_MAX_PARAMS)
    (dispatch_post w0 pb) w.
Proof.
  intros Ho Ha Hp Hm. rewrite <-(app_nil_r pb) in Ho |- *. by eapply dispatch_spec.
Qed.

Lemma dispatch_safe_witness :
  let pr := MkParsed (lit "GET") (lit "/") (lit "/") None BodyNull 0 false (Some MNET_HTTP_GET)
              zero_extras false in
  let app := MkApp 0 None [] 0 true 0 0 0 80 None None 30 0 5 0 None 1 0 in
  wp (dispatch (H := all_ok) (H0 := quiet) (H1 := demo_files) app pr
        (replicate MNET_MAX_PARAMS None) MNET_MAX_PARAMS)
    (dispatch_post empty_world []) empty_world.
Proof.
  apply (dispatch_safe (H := all_ok) (H0 := quiet) (H1 := demo_files) _ _ [] [] []).
  - apply owns_refl. apply empty_world_wf.
  - by split.
  - exists [], []. split_and!; [apply zero_extras_owned|done|done|by repeat constructor].
  - done.
Defined.

(** an application without routes serves the welcome page for ["/"] and
    ["/index.html"] whether or not development mode is on, and answers every
    other path with the built-in 404: its own not-found handler is not called. *)
Theorem dispatch_no_routes `{!Allocator, !Process, !Files} (app : mnet_app_t)
    (pr : parsed_request_t) (method : mnet_http_method_t) (out : list ptr) (w : world) :
  app_routes app = [] → pr_method_enum pr = Some method →
  dispatch app pr out MNET_MAX_PARAMS w =
  (r ← (if bool_decide (pr_path_only pr = lit "/" ∨ pr_path_only pr = lit "/index.html")
        then welcome_response app else mnet_error 404 (Some (lit "not found")));
   mret (r, 0%nat, out)) w.
Proof.
  intros Hr Hm. unfold dispatch, mnet_find_route, app_route_count. rewrite Hm, Hr. cbn [find_loop].
  unfold strcmp_eq. rewrite (bool_decide_or (pr_path_only pr = lit "/")).
  destruct (bool_decide (method = MNET_HTTP_HEAD)); cbn; by destruct (_ || _)%bool.
Qed.

Lemma dispatch_no_routes_witness :
  let pr := MkParsed (lit "GET") (lit "/x") (lit "/x") None BodyNull 0 false (Some MNET_HTTP_GET)
              zero_extras false in
  let app := MkApp 0 None [] 0 true 0 0 0 80 (Some (λ _, ub)) None 30 0 5 0 None 1 0 in
  dispatch (H := all_ok) (H0 := quiet) (H1 := demo_files) app pr [] MNET_MAX_PARAMS empty_world =
  (r ← (if bool_decide (pr_path_only pr = lit "/" ∨ pr_path_only pr = lit "/index.html")
        then welcome_response (H := all_ok) (H1 := demo_files) app
        else mnet_error (H := all_ok) 404 (Some (lit "not found")));
   mret (r, 0%nat, [])) empty_world.
Proof.
  by apply (dispatch_no_routes (H := all_ok) (H0 := quiet) (H1 := demo_files) _ _ MNET_HTTP_GET).
Defined.
