(* ===== verification/Server.v ===== *)
(** * Serving one connection

    [src/mnet_server.c]: [mnet_handle_client], the loop that reads requests into
    the 8192-byte buffer of the connection, parses, dispatches and answers them,
    and keeps what it has not consumed for the next round. *)

From S2P Require Export Dispatch.

(** A buffer holds a complete header block. *)
Definition has_separator (buffer : bytes) : bool :=
  (bool_decide (strstr buffer CRLFCRLF ≠ None) || bool_decide (strstr buffer LFLF ≠ None))%bool.

(** Multiplication of two [int]s; [None] when it overflows. *)
Definition int_mul (a b : Z) : option Z :=
  if ((- 2 ^ 31 <=? a * b) && (a * b <? 2 ^ 31))%bool then Some (a * b) else None.

(** [buffer[used] = '\0'] *)
Definition terminate (buffer : bytes) (used : nat) : M bytes :=
  if (used <? length buffer)%nat then mret (<[used := chNUL]> buffer) else ub.

(** What is kept of the buffer for the next request of the connection. *)
Definition next_request (buffer : bytes) (used : nat) : M (bytes * nat) :=
  match end_of_headers buffer with
  | Some (i, sep_len) =>
      let header_len := (i + sep_len)%nat in
      if (header_len <? used)%nat then
        let remaining := (used - header_len)%nat in
        if ((0 <? remaining)%nat &&
            bool_decide (strstr (drop header_len buffer) CRLFCRLF ≠ None))%bool then
          let buffer := splice 0 (take remaining (drop header_len buffer)) buffer in
          buffer ← terminate buffer remaining;
          mret (buffer, remaining)
        else mret (buffer, 0%nat)
      else mret (buffer, 0%nat)
  | None => mret (buffer, 0%nat)
  end.

Section server.
Context `{!Allocator, !OS, !Process, !Files}.

(** The loop that reads until a header block is complete, the buffer is full or
    the deadline passes. *)
Fixpoint read_loop (fuel : nat) (buffer : bytes) (used : nat) (deadline_ms : Z) :
    M (bytes * nat * bool) :=
  if (used <? MNET_REQUEST_BUFFER_SIZE - 1)%nat then
    match fuel with
    | O => ub
    | S fuel =>
        now ← now_ms_mono;
        let left := deadline_ms - now in
        if left <=? 0 then mret (buffer, used, false)
        else
          pr ← mnet_poll (to_int left);
          if pr <=? 0 then mret (buffer, used, false)
          else
            n ← mnet_recv (MNET_REQUEST_BUFFER_SIZE - 1 - used);
            match n with
            | None | Some [] => mret (buffer, used, false)
            | Some data =>
                if (used + length data <=? length buffer)%nat then
                  let buffer := splice used data buffer in
                  let used := (used + length data)%nat in
                  buffer ← terminate buffer used;
                  if has_separator buffer then mret (buffer, used, true)
                  else read_loop fuel buffer used deadline_ms
                else ub
            end
    end
  else mret (buffer, used, false).

(** The answer to a request that does not parse. *)
Definition reject_request (app : mnet_app_t) (pr : Z) (parsed : parsed_request_t) : M unit :=
  let log text := mnet_app_log (app_log_handler app) MNET_LOG_WARN text in
  let error status text message := send_simple_error status text message (app_debug app) in
  if pr =? MNET_PARSE_UNSUPPORTED_METHOD then
    log (lit "rejected request: unsupported method '" ++ pr_method parsed ++ lit "'");;
    send_method_not_allowed (pr_method parsed) (app_debug app) false
  else if pr =? MNET_PARSE_TOO_LARGE then
    log (lit "rejected request: body exceeds the configured limit");;
    error 413 (lit "Payload Too Large") (lit "Request body exceeds the maximum size.")
  else if pr =? MNET_PARSE_BAD_CONTENT_LENGTH then
    log (lit "rejected request: malformed Content-Length");;
    error 400 (lit "Bad Request") (lit "The Content-Length header is malformed.")
  else if pr =? MNET_PARSE_DUPLICATE_CONTENT_LENGTH then
    log (lit "rejected request: duplicate Content-Length");;
    error 400 (lit "Bad Request") (lit "Duplicate Content-Length headers.")
  else if pr =? MNET_PARSE_HEADERS_TOO_LARGE then
    log (lit "rejected request: header count or line length exceeds the limit");;
    error 431 (lit "Request Header Fields Too Large")
      (lit "Request headers exceed the maximum size.")
  else if pr =? MNET_PARSE_UNSUPPORTED_TRANSFER_ENCODING then
    log (lit "rejected request: Transfer-Encoding not supported");;
    error 501 (lit "Not Implemented") (lit "Transfer-Encoding is not supported.")
  else
    log (lit "rejected request: could not parse the request line");;
    error 400 (lit "Bad Request") (lit "The request could not be parsed.").

(** Send the response to a parsed request, or the built-in 404 page. *)
Definition send_answer (app : mnet_app_t) (parsed : parsed_request_t)
    (response : mnet_response_t) : M unit :=
  let keep_alive := pr_keep_alive parsed in
  match app_not_found_handler app, rs_status response =? 0 with
  | None, true => send_not_found (pr_path_only parsed) (app_debug app) keep_alive
  | _, _ =>
      (if negb (app_debug app =? 0) then
         fprintf_stderr (lit "[mnet] " ++ print_int (rs_status response) ++ lit " " ++
           pr_method parsed ++ lit " " ++ pr_path_only parsed ++ [chLF])
       else mret ());;
      send_response response (bool_decide (pr_method_enum parsed = Some MNET_HTTP_HEAD)) keep_alive;;
      _ ← mnet_response_free (Some response);
      mret ()
  end.

(** Dispatch, answer and release a parsed request. *)
Definition answer_request (app : mnet_app_t) (parsed : parsed_request_t) : M unit :=
  let param_values := replicate MNET_MAX_PARAMS None in
  '(response, param_count, param_values) ← dispatch app parsed param_values MNET_MAX_PARAMS;
  send_answer app parsed response;;
  mnet_match_params_free param_values param_count;;
  release_parsed parsed.

(** The time that a round gives its request; [None] when the product overflows. *)
Definition round_timeout (app : mnet_app_t) (keep_alive : bool) : option Z :=
  let timeout_ms := if 0 <? app_timeout_seconds app
                    then int_mul (app_timeout_seconds app) 1000 else Some 30000 in
  match timeout_ms with
  | None => None
  | Some t => if (keep_alive && (0 <? app_keep_alive_timeout app))%bool
              then int_mul (app_keep_alive_timeout app) 1000 else Some t
  end.

(** A round from the point where a header block is complete. *)
Definition handle_request (app : mnet_app_t) (buffer : bytes) (used : nat) (timeout_ms : Z) :
    M (option (bool * bytes * nat)) :=
  let max_body := if 0 <? app_max_body_size app then app_max_body_size app
                  else MNET_MAX_BODY_SIZE in
  '(pr, parsed) ← parse_request buffer used max_body timeout_ms;
  if negb (pr =? MNET_PARSE_OK) then
    reject_request app pr parsed;;
    release_parsed parsed;;
    mret None
  else
    answer_request app parsed;;
    if pr_keep_alive parsed then
      '(buffer, used) ← next_request buffer used;
      mret (Some (true, buffer, used))
    else mret (Some (false, buffer, used)).

(** One round of the loop: [None] leaves it with [break], [Some] reaches its
    condition with this [keep_alive] and this buffer. *)
Definition serve_one (app : mnet_app_t) (buffer : bytes) (used : nat) (keep_alive : bool) :
    M (option (bool * bytes * nat)) :=
  match round_timeout app keep_alive with
  | None => ub
  | Some timeout_ms =>
      let have_request := ((0 <? used)%nat && has_separator buffer)%bool in
      now ← now_ms_mono;
      let deadline_ms := now + timeout_ms in
      '(buffer, used, have_request) ←
        (if have_request then mret (buffer, used, true)
         else read_loop (MNET_REQUEST_BUFFER_SIZE - 1 - used) buffer used deadline_ms);
      if negb have_request then
        (if (MNET_REQUEST_BUFFER_SIZE - 1 <=? used)%nat then
           mnet_app_log (app_log_handler app) MNET_LOG_WARN
             (lit "rejected request: header block exceeds " ++
              print_int (Z.of_nat (MNET_REQUEST_BUFFER_SIZE - 1)) ++ lit " bytes");;
           send_simple_error 431 (lit "Request Header Fields Too Large")
             (lit "Request headers exceed the maximum size.") (app_debug app)
         else mret ());;
        mret None
      else handle_request app buffer used timeout_ms
  end.

(** At most [requests] rounds; [false] when the connection is still open
    after them. *)
Fixpoint serve_loop (requests : nat) (app : mnet_app_t) (buffer : bytes) (used : nat)
    (keep_alive : bool) : M bool :=
  match requests with
  | O => mret false
  | S requests =>
      r ← serve_one app buffer used keep_alive;
      match r with
      | Some (true, buffer, used) => serve_loop requests app buffer used true
      | _ => mret true
      end
  end.

(** [buffer] is the uninitialised array on the stack. *)
Definition mnet_handle_client (requests : nat) (app : mnet_app_t) (buffer : bytes) : M bool :=
  serve_loop requests app buffer 0 false.
End server.

(** ** The state of a connection *)

(** Between rounds the buffer has its full size and what was received is followed
    by a NUL; before the first byte it may hold anything. *)
Record conn_ok (buffer : bytes) (used : nat) : Prop := {
  co_size : length buffer = MNET_REQUEST_BUFFER_SIZE;
  co_bytes : Forall is_byte buffer;
  co_used : (used ≤ MNET_REQUEST_BUFFER_SIZE - 1)%nat;
  co_nul : (0 < used)%nat → buffer !! used = Some 0;
}.

Lemma size_value : 8191 < Z.of_nat MNET_REQUEST_BUFFER_SIZE < 8193.
Proof. done. Qed.

#[local] Opaque MNET_REQUEST_BUFFER_SIZE.

Lemma conn_buffer_ok buffer used : conn_ok buffer used → (0 < used)%nat → buffer_ok buffer used.
Proof. intros [_ Hb _ Hn] Hu. split; auto. Qed.

Lemma Forall_splice (P : Z → Prop) i xs a : Forall P xs → Forall P a → Forall P (splice i xs a).
Proof.
  intros Hx Ha. unfold splice. apply Forall_app. split; [by apply Forall_take|].
  apply Forall_app. split; [done|by apply Forall_drop].
Qed.

Lemma wp_terminate buffer used (Q : bytes → world → Prop) w :
  (used < length buffer)%nat → Q (<[used := 0]> buffer) w → wp (terminate buffer used) Q w.
Proof.
  intros Hu HQ. unfold terminate. rewrite (proj2 (Nat.ltb_lt _ _)) by done. by apply wp_ret.
Qed.

(** Storing [data] at [used] and its terminator. *)
Lemma conn_ok_store buffer i data :
  length buffer = MNET_REQUEST_BUFFER_SIZE → Forall is_byte buffer → Forall is_byte data →
  (i + length data ≤ MNET_REQUEST_BUFFER_SIZE - 1)%nat →
  conn_ok (<[(i + length data)%nat := 0]> (splice i data buffer)) (i + length data).
Proof.
  intros Hs Hb Hd Hlen. pose proof size_value.
  assert (length (splice i data buffer) = length buffer) as Hl by (apply length_splice; lia).
  split; [by rewrite length_insert, Hl| |done|].
  - apply Forall_insert; [by apply Forall_splice|by unfold is_byte].
  - intros _. apply list_lookup_insert_eq. lia.
Qed.

Lemma take_store used (data buffer : bytes) :
  (used + length data < length buffer)%nat →
  take (used + length data) (<[(used + length data)%nat := 0]> (splice used data buffer)) =
    take used buffer ++ data.
Proof.
  intros Hl. rewrite take_insert_ge by lia. unfold splice.
  rewrite app_assoc. apply take_app_length'. rewrite length_app, length_take. lia.
Qed.

(** What is kept: everything behind the header block when a header block follows
    there, else nothing. *)
Definition kept_data (buffer : bytes) (used : nat) : bytes :=
  match end_of_headers buffer with
  | Some (i, n) =>
      if ((i + n <? used)%nat && bool_decide (strstr (drop (i + n) buffer) CRLFCRLF ≠ None))%bool
      then drop (i + n) (take used buffer) else []
  | None => []
  end.

Lemma next_request_spec buffer used w :
  conn_ok buffer used → (0 < used)%nat →
  wp (next_request buffer used)
    (λ res w', w' = w ∧ conn_ok (fst res) (snd res) ∧ (snd res < used)%nat ∧
       take (snd res) (fst res) = kept_data buffer used) w.
Proof.
  intros [Hs Hb Hu Hn] Hpos. pose proof size_value. unfold next_request, kept_data.
  assert (conn_ok buffer 0) as H0 by (split; [done..|lia|lia]).
  destruct (end_of_headers buffer) as [[i n]|] eqn:He; [|by apply wp_ret].
  apply end_of_headers_bound in He as [_ Hn2].
  destruct (i + n <? used)%nat eqn:Hlt; [|by apply wp_ret]. bool_prop.
  rewrite (proj2 (Nat.ltb_lt 0 _)) by lia. cbn [andb].
  destruct (bool_decide _); [|by apply wp_ret].
  set (data := take (used - (i + n)) (drop (i + n) buffer)).
  assert (length data = (used - (i + n))%nat) as Hd.
  { unfold data. rewrite length_take, length_drop. lia. }
  apply wp_bind, wp_terminate; [rewrite length_splice; lia|]. apply wp_ret. cbn [fst snd].
  rewrite <-Hd. split_and!; [done| |lia|].
  - apply (conn_ok_store buffer 0 data); [done|done| |lia]. by apply Forall_take, Forall_drop.
  - pose proof (take_store 0 data buffer ltac:(lia)) as Ht. cbn [Nat.add take app] in Ht.
    rewrite Ht. unfold data. by rewrite skipn_firstn_comm.
Qed.

Section server_proofs.
Context `{!Allocator, !OS, !Process, !Files}.

(** Data was received at some system call of the run. *)
Definition received_since (k : nat) : Prop :=
  ∃ j len d, (k ≤ j)%nat ∧ os_recv j len = Some d ∧ d ≠ [].

Lemma received_since_le k k' : (k ≤ k')%nat → received_since k' → received_since k.
Proof. intros Hk (j & len & d & Hj & Hd). exists j, len, d. split; [lia|done]. Qed.

(** What the loop has done: received [chunks], stored them in order behind what
    was there, and stopped at the first header block, or without one. *)
Definition read_post (w0 : world) (R : list (loc * bytes)) (buffer : bytes) (used : nat)
    (res : bytes * nat * bool) (w' : world) : Prop :=
  let '(b', u', have) := res in
  ∃ n chunks, owns (io w0 n (EvRecv <$> chunks)) w' R ∧ conn_ok b' u' ∧
    take u' b' = take used buffer ++ concat chunks ∧
    (have = true → chunks ≠ [] ∧ (0 < u')%nat ∧ has_separator b' = true ∧
       received_since (w_calls w0)).

Lemma read_post_stop w0 w R buffer used n :
  owns (io w0 n []) w R → conn_ok buffer used → read_post w0 R buffer used (buffer, used, false) w.
Proof. intros Ho Hc. exists n, []. cbn [concat]. by rewrite app_nil_r. Qed.

Lemma read_loop_spec fuel : ∀ w0 w R buffer used deadline,
  owns w0 w R → conn_ok buffer used → (MNET_REQUEST_BUFFER_SIZE - 1 - used ≤ fuel)%nat →
  wp (read_loop fuel buffer used deadline) (read_post w0 R buffer used) w.
Proof.
  induction fuel as [|fuel IH]; intros w0 w R buffer used deadline Ho Hc Hf;
    pose proof Hc as [Hs Hb Hu Hn]; pose proof size_value; cbn [read_loop].
  { rewrite (proj2 (Nat.ltb_ge _ _)) by lia. apply wp_ret, (read_post_stop _ _ _ _ _ 0); [|done].
    by rewrite io_nil. }
  case_test; bool_prop.
  2:{ apply wp_ret, (read_post_stop _ _ _ _ _ 0); [|done]. by rewrite io_nil. }
  apply wp_bind. eapply wp_sys; [exact Ho|]. intros now w1 Ho1. cbn zeta.
  case_test; [by eapply wp_ret, read_post_stop|].
  apply wp_bind. eapply wp_sys; [exact Ho1|]. intros pr w2 Ho2. rewrite io_io in Ho2.
  case_test; [by eapply wp_ret, read_post_stop|].
  apply wp_bind. eapply wp_recv_at; [|exact Ho2|]; [lia|]. intros r w3 Er Ho3 Hbyte Hlen.
  rewrite io_io in Ho3. destruct r as [[|c d]|].
  { apply wp_ret. exists (1 + 1 + 1)%nat, [[]]. cbn [concat]. by rewrite app_nil_r. }
  2:{ by eapply wp_ret, read_post_stop. }
  set (data := c :: d) in *. cbn [default from_option id] in *.
  assert (received_since (w_calls w0)) as Hrec.
  { eexists _, _, data. split; [|split; [by symmetry|done]]. unfold io. simpl. lia. }
  rewrite (proj2 (Nat.leb_le _ _)) by lia.
  apply wp_bind, wp_terminate; [rewrite length_splice; lia|].
  pose proof (conn_ok_store buffer used data Hs Hb Hbyte ltac:(lia)) as Hc'.
  pose proof (take_store used data buffer ltac:(lia)) as Ht.
  set (b' := <[(used + length data)%nat := 0]> (splice used data buffer)) in *.
  assert (0 < length data)%nat as Hpos by (unfold data; simpl; lia).
  case_test.
  - apply wp_ret. exists (1 + 1 + 1)%nat, [data]. split; [exact Ho3|]. cbn [concat].
    rewrite app_nil_r. split_and!; [done..|]. intros _. split_and!; [done|lia|done|done].
  - eapply wp_mono; [apply (IH _ _ _ _ _ deadline Ho3 Hc'); lia|].
    intros [[b2 u2] have] w4 (n & chunks & Ho4 & Hc2 & Ht2 & Hh). rewrite io_io in Ho4.
    exists (1 + 1 + 1 + n)%nat, (data :: chunks). split; [exact Ho4|]. cbn [concat].
    rewrite app_assoc, <-Ht. split_and!; [done..|]. intros E.
    destruct (Hh E) as (_ & Hu2 & Hsep & _). by split_and!.
Qed.

(** The status, reason and message of the page for a parse error. *)
Definition reject_text (pr : Z) : Z * bytes * bytes :=
  if pr =? MNET_PARSE_TOO_LARGE
  then (413, lit "Payload Too Large", lit "Request body exceeds the maximum size.")
  else if pr =? MNET_PARSE_BAD_CONTENT_LENGTH
  then (400, lit "Bad Request", lit "The Content-Length header is malformed.")
  else if pr =? MNET_PARSE_DUPLICATE_CONTENT_LENGTH
  then (400, lit "Bad Request", lit "Duplicate Content-Length headers.")
  else if pr =? MNET_PARSE_HEADERS_TOO_LARGE
  then (431, lit "Request Header Fields Too Large", lit "Request headers exceed the maximum size.")
  else if pr =? MNET_PARSE_UNSUPPORTED_TRANSFER_ENCODING
  then (501, lit "Not Implemented", lit "Transfer-Encoding is not supported.")
  else (400, lit "Bad Request", lit "The request could not be parsed.").

Definition reject_page (pr : Z) : bytes :=
  if pr =? MNET_PARSE_UNSUPPORTED_METHOD then method_not_allowed_body
  else let '(status, st, message) := reject_text pr in error_page status st message.

Definition reject_status (pr : Z) : bytes :=
  if pr =? MNET_PARSE_UNSUPPORTED_METHOD then lit "405 Method Not Allowed"
  else let '(status, st, _) := reject_text pr in print_int status ++ lit " " ++ st.

Definition reject_lines (pr : Z) : list bytes :=
  page_lines (reject_status pr) (lit "close") (length (reject_page pr)).

Definition no_traffic (e : event) : Prop :=
  match e with EvSend _ | EvRecv _ => False | _ => True end.

Lemma app_log_no_traffic h level text : Forall no_traffic (app_log_events h level text).
Proof.
  unfold app_log_events, log_msg_events. by destruct h, g_log_handler; repeat constructor.
Qed.

Lemma debug_no_traffic debug text : Forall no_traffic (debug_events debug text).
Proof. unfold debug_events. case_test; by repeat constructor. Qed.

Lemma reject_request_spec w0 w R app pr parsed (Q : unit → world → Prop) :
  owns w0 w R →
  (∀ n pre w', Forall no_traffic pre →
     owns (io w0 n (pre ++ [EvSend (block_of (reject_lines pr)); EvSend (reject_page pr)])) w' R →
     open_sockets pre = 0 → Q () w') →
  wp (reject_request app pr parsed) Q w.
Proof.
  intros Ho HQ. unfold reject_request. cbn zeta.
  assert (∀ text status st message,
    print_int status ++ lit " " ++ st = reject_status pr →
    error_page status st message = reject_page pr →
    Z.of_nat (length (block_of (reject_lines pr))) < 512 →
    wp (mnet_app_log (app_log_handler app) MNET_LOG_WARN text;;
        send_simple_error status st message (app_debug app)) Q w) as Hpage.
  { intros text status st message E1 E2 Hfit. apply wp_bind.
    eapply wp_app_log; [exact Ho|]. intros w1 Ho1. eapply simple_error_spec; [exact Ho1|].
    intros n w2 Ho2. rewrite io_io in Ho2. unfold page_sends in Ho2.
    rewrite E1, E2 in Ho2. change (page_lines _ _ _) with (reject_lines pr) in Ho2.
    rewrite (proj2 (Z.leb_gt _ _)), app_assoc in Ho2 by done. eapply HQ; [|exact Ho2|sockets].
    apply Forall_app. split; [apply app_log_no_traffic|apply debug_no_traffic]. }
  unfold reject_lines, reject_status, reject_page, reject_text in *.
  destruct (pr =? MNET_PARSE_UNSUPPORTED_METHOD).
  { apply wp_bind. eapply wp_app_log; [exact Ho|]. intros w1 Ho1.
    eapply method_not_allowed_spec; [exact Ho1|]. intros n w2 Ho2.
    rewrite io_io, app_assoc in Ho2. eapply HQ; [|exact Ho2|sockets].
    apply Forall_app. split; [apply app_log_no_traffic|apply debug_no_traffic]. }
  repeat (case_test; [apply Hpage; [done..|by vm_compute]|]).
  apply Hpage; [done..|by vm_compute].
Qed.
End server_proofs.

Lemma app_at_kept w w' app : heap_kept w w' → app_at w app → app_at w' app.
Proof.
  intros Hk [Hr Hn Hm]. split; [|done..]. eapply Forall_impl; [exact Hr|].
  intros r [Hh Hf Hs Hc]. split; [done|done| |].
  - destruct (rt_param_names r) as [a|]; [|done]. destruct Hs as (ss & Hss & Hcov).
    exists ss. split; [by eapply points_to_kept|done].
  - intros cfg E. destruct (Hc cfg E) as (u & root & Hcfg & Hu). exists u, root.
    split; [by eapply config_at_kept|done].
Qed.

Lemma app_at_io w n evs app : app_at w app → app_at (io w n evs) app.
Proof. apply app_at_kept. unfold heap_kept, io. by simpl. Qed.

(** The body of a response that can be sent can be read, if there is one. *)
Lemma response_ok_body w0 w r rb bs :
  response_ok w r rb → owns w0 w (rb ++ bs) → ∃ body, body_or_none w r body.
Proof.
  intros (Hr & _ & Hc) Ho. unfold response_owned in Hr. destruct (rs_chunked r).
  { destruct Hc as [_ [body Hb]]; [done|]. exists body. by left. }
  destruct (rs_body r) as [l|] eqn:El.
  - destruct Hr as (b & -> & Hlen). exists (take (rs_body_length r) b). left. split.
    + rewrite length_take. lia.
    + intros _. exists l, (drop (rs_body_length r) b). rewrite take_drop. split; [done|].
      eapply owns_in_heap; [exact Ho|]. by left.
  - exists []. by right.
Qed.

Section answer_proofs.
Context `{!Allocator, !OS, !Process, !Files}.

(** [sent] is the whole response, or nothing for a response that cannot be sent. *)
Definition answer_sent (pr : parsed_request_t) (r : mnet_response_t) (body : bytes)
    (sent : list bytes) : Prop :=
  sent = [] ∧ unsendable r (pr_keep_alive pr) ∨
  mnet_header_value_valid (Some (default_type r)) = true ∧
  sent = response_sends r (bool_decide (pr_method_enum pr = Some MNET_HTTP_HEAD))
           (pr_keep_alive pr) body.

(** The events of the answer to [pr] when the response is [r]: the built-in 404
    page, or the response. *)
Definition answered (app : mnet_app_t) (pr : parsed_request_t) (r : mnet_response_t)
    (w : world) (evs : list event) : Prop :=
  match app_not_found_handler app, rs_status r =? 0 with
  | None, true =>
      evs = debug_events (app_debug app) (lit "[mnet] 404  " ++ pr_path_only pr ++ [chLF]) ++
        [EvSend (block_of (not_found_lines (pr_keep_alive pr))); EvSend not_found_body]
  | _, _ =>
      ∃ body sent, body_or_none w r body ∧ answer_sent pr r body sent ∧
        evs = debug_events (app_debug app)
                (lit "[mnet] " ++ print_int (rs_status r) ++ lit " " ++ pr_method pr ++ lit " " ++
                 pr_path_only pr ++ [chLF]) ++ (EvSend <$> sent)
  end.

(** Either way the response is gone afterwards. *)
Lemma send_answer_spec w0 w app pr r rb bs :
  owns w0 w (rb ++ bs) → response_ok w r rb →
  wp (send_answer app pr r)
    (λ _ w', ∃ n evs, owns (io w0 n evs) w' bs ∧ answered app pr r w evs ∧ open_sockets evs = 0) w.
Proof.
  intros Ho Hr. pose proof Hr as (Hown & Hzero & Hchunk). unfold send_answer, answered.
  destruct (response_ok_body _ _ _ _ _ Hr Ho) as (body & Hbody).
  set (line := lit "[mnet] " ++ print_int (rs_status r) ++ _).
  set (cmd := (if negb _ then _ else _) ;; _).
  assert (wp cmd (λ _ w', ∃ n evs, owns (io w0 n evs) w' bs ∧
       (∃ body sent, body_or_none w r body ∧ answer_sent pr r body sent ∧
         evs = debug_events (app_debug app) line ++ (EvSend <$> sent)) ∧
       open_sockets evs = 0) w) as Hsend.
  { apply wp_bind. eapply wp_debug; [exact Ho|]. intros w1 Ho1. apply wp_bind.
    assert (w_heap w1 = w_heap w) as Hk
      by by rewrite (owns_heap _ _ _ Ho), (owns_heap _ _ _ Ho1).
    eapply (send_response_spec _ _ _ _ _ _ body); [exact Ho1| |by intros ?; apply Hchunk|].
    { by eapply body_at_heap. }
    intros sent n w2 Ho2 Hs. rewrite io_io in Ho2. apply wp_bind.
    eapply wp_response_free; [exact Hown|exact Ho2|]. intros r' w3 Ho3 _.
    apply wp_ret. eexists (0 + n)%nat, _. split; [exact Ho3|]. split; [by exists body, sent|sockets]. }
  destruct (app_not_found_handler app); [done|]. destruct (rs_status r =? 0) eqn:Es; [|done].
  bool_prop. rewrite (Hzero Es) in Ho. eapply not_found_spec; [exact Ho|]. intros n w1 Ho1.
  eexists n, _. split; [exact Ho1|]. split; [done|sockets].
Qed.

Lemma answer_request_spec w0 w app pr qf hf cf pb R :
  owns w0 w (pb ++ R) → app_at w0 app → parsed_owned pr qf hf cf pb → pr_method_enum pr ≠ None →
  wp (answer_request app pr) (λ _ w', held w0 w' R) w.
Proof.
  intros Ho Ha Hp Hm. unfold answer_request. cbn zeta. apply wp_bind.
  eapply wp_mono; [by eapply dispatch_spec|]. intros [[r n] out] w1.
  intros (rb & locs & blks & rest & (k & evs & Ho1 & Es1) & Hr & -> & Hl & ->).
  apply wp_bind. eapply wp_mono; [by eapply send_answer_spec|].
  intros [] w2 (k2 & evs2 & Ho2 & _ & Es2). rewrite io_io in Ho2. apply wp_bind.
  eapply owns_zip_free; [exact Hl|exact Ho2|]. intros w3 Ho3.
  eapply release_parsed_spec; [exact Hp|exact Ho3|]. intros w4 Ho4. eapply held_io; [exact Ho4|sockets].
Qed.
End answer_proofs.

(** ** The whole connection *)

(** The configured timeouts and body limit fit the machine's integers; the
    setters accept larger ones. *)
Record limits_ok (app : mnet_app_t) : Prop := {
  lo_timeout : app_timeout_seconds app * 1000 < 2 ^ 31;
  lo_keep_alive : app_keep_alive_timeout app * 1000 < 2 ^ 31;
  lo_max_body : app_max_body_size app < 2 ^ 31 - 1;
}.

Lemma int_mul_small a b : 0 < a → 0 < b → a * b < 2 ^ 31 → int_mul a b = Some (a * b).
Proof.
  intros. unfold int_mul.
  by rewrite (proj2 (Z.leb_le _ _)), (proj2 (Z.ltb_lt _ _)) by nia.
Qed.

Section serve_proofs.
Context `{!Allocator, !OS, !Process, !Files}.

(** A round that keeps the connection leaves a valid buffer; it has asked the
    system at least once, and either consumed part of the buffer or received
    something. *)
Definition round_post (w0 : world) (R : list (loc * bytes)) (used : nat)
    (res : option (bool * bytes * nat)) (w' : world) : Prop :=
  ∃ n evs, owns (io w0 n evs) w' R ∧ open_sockets evs = 0 ∧
    match res with
    | Some (true, b, u) => conn_ok b u ∧ (0 < n)%nat ∧ ((u < used)%nat ∨ received_since (w_calls w0))
    | _ => True
    end.

Lemma max_body_ok app :
  limits_ok app →
  0 <= (if 0 <? app_max_body_size app then app_max_body_size app else MNET_MAX_BODY_SIZE)
    < 2 ^ 31 - 1.
Proof. intros [_ _ Hm]. case_test; bool_prop; [lia|]. unfold MNET_MAX_BODY_SIZE. lia. Qed.

Lemma too_large_spec w0 w R app used :
  owns w0 w R →
  wp ((if (MNET_REQUEST_BUFFER_SIZE - 1 <=? used)%nat then
         mnet_app_log (app_log_handler app) MNET_LOG_WARN
           (lit "rejected request: header block exceeds " ++
            print_int (Z.of_nat (MNET_REQUEST_BUFFER_SIZE - 1)) ++ lit " bytes");;
         send_simple_error 431 (lit "Request Header Fields Too Large")
           (lit "Request headers exceed the maximum size.") (app_debug app)
       else mret ());;
      mret (@None (bool * bytes * nat)))
    (λ res w', res = None ∧ held w0 w' R) w.
Proof.
  intros Ho. apply wp_bind. case_test.
  - apply wp_bind. eapply wp_app_log; [exact Ho|]. intros w1 Ho1.
    eapply simple_error_spec; [exact Ho1|]. intros n w2 Ho2. rewrite io_io in Ho2.
    apply wp_ret. split; [done|]. eapply held_io; [exact Ho2|sockets].
  - apply wp_ret, wp_ret. split; [done|]. by apply held_owns.
Qed.

(** The part of a round after a header block is complete. *)
Lemma handle_request_spec w0 w R app buffer used timeout_ms :
  owns w0 w R → app_at w0 app → limits_ok app → conn_ok buffer used → (0 < used)%nat →
  wp (handle_request app buffer used timeout_ms)
    (λ res w', held w0 w' R ∧
       match res with Some (true, b, u) => conn_ok b u ∧ (u < used)%nat | _ => True end) w.
Proof.
  intros Ho Ha Hl Hc Hu. unfold handle_request. cbn zeta. apply wp_bind. pose proof size_value.
  eapply wp_mono.
  { eapply (parse_request_spec w0 w R); [exact Ho|by apply conn_buffer_ok| |by apply max_body_ok].
    rewrite (co_size _ _ Hc). lia. }
  intros [code pr] w1 (n & chunks & qf & hf & cf & pb & Ho1 & Hp & _ & Hok). cbn [fst snd] in *.
  case_test; bool_prop.
  - apply wp_bind. eapply reject_request_spec; [exact Ho1|]. intros n2 pre w2 _ Ho2 Es2.
    rewrite io_io in Ho2. apply wp_bind.
    eapply release_parsed_spec; [exact Hp|exact Ho2|]. intros w3 Ho3. apply wp_ret.
    split; [|done]. eapply held_io; [exact Ho3|sockets].
  - subst code. destruct (Hok eq_refl) as (bs & Hpo & _). apply wp_bind. eapply wp_mono.
    { eapply answer_request_spec; [exact Ho1| |exact Hp|by apply (po_method _ _ _ _ _ _ _ _ _ Hpo)].
      by apply app_at_io. }
    intros [] w2 (n2 & evs2 & Ho2 & Es2). rewrite io_io in Ho2.
    assert (held w0 w2 R) as Hheld by (eapply held_io; [exact Ho2|sockets]).
    destruct (pr_keep_alive pr); [|by apply wp_ret]. apply wp_bind.
    eapply wp_mono; [by apply next_request_spec|]. intros [b u] w3 (-> & Hc2 & Hlt & _).
    by apply wp_ret.
Qed.

(** Within the limits the timeout does not overflow. *)
Lemma round_timeout_some app ka : limits_ok app → ∃ t, round_timeout app ka = Some t.
Proof.
  intros [Ht Hk _]. unfold round_timeout.
  assert (∃ t, (if 0 <? app_timeout_seconds app then int_mul (app_timeout_seconds app) 1000
                else Some 30000) = Some t) as [t ->].
  { case_test; bool_prop; [rewrite int_mul_small by lia|]; by eexists. }
  case_test; bool_prop; [rewrite int_mul_small by lia|]; by eexists.
Qed.

Lemma serve_one_spec w0 w R app buffer used ka :
  owns w0 w R → app_at w0 app → limits_ok app → conn_ok buffer used →
  wp (serve_one app buffer used ka) (round_post w0 R used) w.
Proof.
  intros Ho Ha Hl Hc. unfold serve_one. destruct (round_timeout_some app ka Hl) as [t ->].
  apply wp_bind. eapply wp_sys; [exact Ho|]. intros now w1 Ho1.
  apply wp_bind. eapply (wp_mono _ (λ res w', let '(b', u', have) := res in ∃ n evs,
    owns (io w0 n evs) w' R ∧ open_sockets evs = 0 ∧ conn_ok b' u' ∧ (0 < n)%nat ∧
    (have = true → (0 < u')%nat ∧ ((u' ≤ used)%nat ∨ received_since (w_calls w0))))).
  { case_test; bool_prop.
    - apply wp_ret. eexists _, _. split; [exact Ho1|]. split_and!; [done|done|lia|].
      intros _. split; [lia|by left].
    - eapply wp_mono; [by eapply read_loop_spec; [exact Ho1|exact Hc|]|].
      intros [[b' u'] have] w2 (n & evs & Ho2 & Hc2 & _ & Hh). rewrite io_io in Ho2.
      eexists _, _. split; [exact Ho2|]. split_and!; [sockets|done|lia|]. intros E.
      destruct (Hh E) as (_ & Hu & _ & Hrec). split; [done|]. right.
      eapply received_since_le; [|exact Hrec]. unfold io. simpl. lia. }
  intros [[b' u'] have] w2 (n & evs & Ho2 & Es2 & Hc2 & Hn & Hh).
  destruct have; cbn [negb].
  - destruct (Hh eq_refl) as [Hu Hprog].
    eapply wp_mono; [by eapply handle_request_spec; [exact Ho2|by apply app_at_io|..]|].
    intros res w3 [(n3 & evs3 & Ho3 & Es3) Hres]. rewrite io_io in Ho3. eexists _, _.
    split; [exact Ho3|]. split; [sockets|]. destruct res as [[[[] b3] u3]|]; [|done..].
    destruct Hres as [Hc3 Hlt]. split_and!; [done|lia|].
    destruct Hprog as [Hle|Hrec]; [left; lia|by right].
  - eapply wp_mono; [by eapply too_large_spec|]. intros res w3 [-> (n3 & evs3 & Ho3 & Es3)].
    rewrite io_io in Ho3. eexists _, _. split; [exact Ho3|]. split; [sockets|done].
Qed.

(** The loop keeps the heap, and ends once nothing arrives any more. *)
Lemma serve_loop_spec requests : ∀ w0 w R app buffer used ka,
  owns w0 w R → app_at w0 app → limits_ok app → conn_ok buffer used →
  wp (serve_loop requests app buffer used ka) (λ _ w', held w0 w' R) w.
Proof.
  induction requests as [|m IH]; intros w0 w R app buffer used ka Ho Ha Hl Hc;
    cbn [serve_loop]; [by apply wp_ret, held_owns|].
  apply wp_bind. eapply wp_mono; [by eapply serve_one_spec|].
  intros res w1 (n & evs & Ho1 & Es1 & Hres).
  assert (held w0 w1 R) as Hheld by (by eapply held_io).
  destruct res as [[[[] b] u]|]; [|by apply wp_ret..]. destruct Hres as (Hc1 & _ & _).
  eapply wp_mono; [by eapply IH; [exact Ho1|by apply app_at_io|..]|].
  intros ? w2 (n2 & evs2 & Ho2 & Es2). rewrite io_io in Ho2. eapply held_io; [exact Ho2|sockets].
Qed.

Definition silent_from (K : nat) : Prop :=
  ∀ j len, (K ≤ j)%nat → os_recv j len = None ∨ os_recv j len = Some [].

Lemma silent_not_received K k : silent_from K → (K ≤ k)%nat → ¬ received_since k.
Proof.
  intros Hs Hk (j & len & d & Hj & Hd & Hne). destruct (Hs j len) as [E|E]; [lia|..]; congruence.
Qed.

(** The rounds still possible after [calls] system calls. *)
Definition rounds_left (K calls used : nat) : nat :=
  S (if (K <=? calls)%nat then used else K - calls + MNET_REQUEST_BUFFER_SIZE).

Lemma rounds_left_step K calls n used u :
  (0 < n)%nat → (u ≤ MNET_REQUEST_BUFFER_SIZE - 1)%nat →
  ((K ≤ calls)%nat → (u < used)%nat) →
  (rounds_left K (calls + n) u < rounds_left K calls used)%nat.
Proof. intros Hn Hu Hlt. unfold rounds_left. pose proof size_value. repeat case_test; bool_prop; lia. Qed.

Lemma serve_loop_ends K requests : silent_from K → ∀ w0 w R app buffer used ka,
  owns w0 w R → app_at w0 app → limits_ok app → conn_ok buffer used →
  (rounds_left K (w_calls w0) used ≤ requests)%nat →
  wp (serve_loop requests app buffer used ka) (λ closed _, closed = true) w.
Proof.
  intros Hs. induction requests as [|m IH]; intros w0 w R app buffer used ka Ho Ha Hl Hc Hm;
    [unfold rounds_left in Hm; lia|]. cbn [serve_loop].
  apply wp_bind. eapply wp_mono; [by eapply serve_one_spec|].
  intros res w1 (n & evs & Ho1 & _ & Hres).
  destruct res as [[[[] b] u]|]; [|by apply wp_ret..]. destruct Hres as (Hc1 & Hn & Hprog).
  eapply IH; [exact Ho1|by apply app_at_io|done|done|].
  enough (rounds_left K (w_calls w0 + n) u < rounds_left K (w_calls w0) used)%nat
    by (unfold io; simpl; lia).
  apply rounds_left_step; [done|apply (co_used _ _ Hc1)|]. intros Hk.
  destruct Hprog as [?|Hrec]; [done|]. by destruct (silent_not_received _ _ Hs Hk Hrec).
Qed.
End serve_proofs.

(** Dispatching, answering and releasing a request. *)
Lemma answer_request_run `{!Allocator, !OS, !Process, !Files} (app : mnet_app_t)
    (pr : parsed_request_t) (qf hf cf : list (bytes * bytes)) (pb : list (loc * bytes))
    (w0 w : world) :
  owns w0 w pb → app_at w0 app → parsed_owned pr qf hf cf pb → pr_method_enum pr ≠ None →
  ∃ r n out w1 w2 evs,
    dispatch app pr (replicate MNET_MAX_PARAMS None) MNET_MAX_PARAMS w = Some ((r, n, out), w1) ∧
    answer_request app pr w = Some (tt, w2) ∧ answered app pr r w1 evs ∧
    w_heap w2 = w_heap w0 ∧ w_trace w2 = w_trace w1 ++ evs.
Proof.
  intros Ho Ha Hp Hm. rewrite <-(app_nil_r pb) in Ho.
  pose proof (dispatch_spec w0 w app pr qf hf cf pb [] (replicate MNET_MAX_PARAMS None) Ho Ha Hp Hm
    (length_replicate _ _)) as Hd.
  apply wp_run in Hd as ([[r n] out] & w1 & Ed & rb & locs & blks & rest & (k & evs0 & Ho1 & _) &
    Hr & -> & Hl & ->).
  assert (wp (send_answer app pr r;;
              mnet_match_params_free ((Some <$> locs) ++ rest) (length locs);;
              release_parsed pr)
            (λ _ w2, ∃ k evs, owns (io (io w0 k evs0) 0 evs) (io w2 0 []) [] ∧
               answered app pr r w1 evs) w1) as Hrest.
  { apply wp_bind. eapply wp_mono; [by eapply send_answer_spec|].
    intros [] w2 (k2 & evs & Ho2 & Hans & _). apply wp_bind.
    eapply owns_zip_free; [exact Hl|exact Ho2|]. intros w3 Ho3.
    eapply release_parsed_spec; [exact Hp|exact Ho3|]. intros w4 Ho4.
    exists (k + k2)%nat, evs. split; [|done]. rewrite io_nil, io_io in *.
    by rewrite Nat.add_0_r. }
  apply wp_run in Hrest as ([] & w2 & Er & k2 & evs & Ho2 & Hans).
  exists r, (length locs), ((Some <$> locs) ++ rest), w1, w2, evs.
  split_and!; [done| |done| |].
  - unfold answer_request, mbind at 1, M_bind at 1. cbn zeta. by rewrite Ed.
  - rewrite io_nil in Ho2. by apply owns_nil_heap in Ho2.
  - rewrite io_nil in Ho2. rewrite (owns_trace _ _ _ Ho2), (owns_trace _ _ _ Ho1). done.
Qed.

(** ** Properties *)

(** C6: serving a connection is safe for every peer, every operating system,
    every allocator and every application whose handlers keep their contract:
    through any number of requests, rejected, answered or pipelined, no memory is
    accessed out of bounds, and when the connection is given up the heap is what
    it was before it was accepted and no socket was opened that is not closed. *)
Theorem handle_client_safe `{!Allocator, !OS, !Process, !Files} (requests : nat)
    (app : mnet_app_t) (buffer : bytes) (w : world) :
  wf_world w → app_at w app → limits_ok app →
  length buffer = MNET_REQUEST_BUFFER_SIZE → Forall is_byte buffer →
  wp (mnet_handle_client requests app buffer)
    (λ _ w', released w w') w.
Proof.
  intros Hwf Ha Hl Hlen Hb. eapply wp_mono.
  - eapply serve_loop_spec; [by apply owns_refl|done..|]. split; [done|done|lia|lia].
  - intros closed w'. apply held_released.
Qed.

Definition quiet_app : mnet_app_t := MkApp 0 None [] 0 true 0 0 0 80 None None 30 0 5 0 None 1 0.

Lemma quiet_limits : limits_ok quiet_app.
Proof. by split. Qed.

Definition fresh_buffer : bytes := replicate MNET_REQUEST_BUFFER_SIZE 0.

Lemma fresh_buffer_bytes : Forall is_byte fresh_buffer.
Proof. unfold fresh_buffer. by apply Forall_replicate. Qed.

Lemma handle_client_safe_witness :
  wp (mnet_handle_client (H := all_ok) (H0 := silent_os) (H1 := quiet) (H2 := demo_files)
        3 quiet_app fresh_buffer)
    (λ _ w', released empty_world w') empty_world.
Proof.
  apply (handle_client_safe (H := all_ok) (H0 := silent_os) (H1 := quiet) (H2 := demo_files)).
  - apply empty_world_wf.
  - by split.
  - apply quiet_limits.
  - apply length_replicate.
  - apply fresh_buffer_bytes.
Defined.

(** C15: the loop over the requests of a connection ends: once the peer sends
    nothing more (from its [K]-th system call on), at most [K + 8192] further
    rounds are made before the connection is closed, whatever is still
    pipelined in the buffer. *)
Theorem handle_client_ends `{!Allocator, !OS, !Process, !Files} (K requests : nat)
    (app : mnet_app_t) (buffer : bytes) (w : world) :
  silent_from K → wf_world w → app_at w app → limits_ok app →
  length buffer = MNET_REQUEST_BUFFER_SIZE → Forall is_byte buffer →
  (K + MNET_REQUEST_BUFFER_SIZE < requests)%nat →
  wp (mnet_handle_client requests app buffer) (λ closed _, closed = true) w.
Proof.
  intros Hs Hwf Ha Hl Hlen Hb Hr. eapply (serve_loop_ends K); [done|by apply owns_refl|done..| |].
  - split; [done|done|lia|lia].
  - unfold rounds_left. case_test; bool_prop; lia.
Qed.

Lemma silent_os_silent : silent_from (H0 := silent_os) 0.
Proof.
  intros j len _. right. unfold silent_os, one_shot_os. cbn. rewrite take_nil. by destruct (j =? 3)%nat.
Qed.

Lemma handle_client_ends_witness :
  wp (mnet_handle_client (H := all_ok) (H0 := silent_os) (H1 := quiet) (H2 := demo_files)
        (S MNET_REQUEST_BUFFER_SIZE) quiet_app fresh_buffer)
    (λ closed _, closed = true) empty_world.
Proof.
  apply (handle_client_ends (H := all_ok) (H0 := silent_os) (H1 := quiet) (H2 := demo_files) 0).
  - apply silent_os_silent.
  - apply empty_world_wf.
  - by split.
  - apply quiet_limits.
  - apply length_replicate.
  - apply fresh_buffer_bytes.
  - apply Nat.lt_succ_diag_r.
Defined.

(** the read loop loses and reorders nothing: what it leaves in the buffer is
    what was there followed by exactly the chunks received, terminated and
    within the buffer; it reports a request only when a header block is in the
    buffer and something was received. *)
Theorem read_loop_stores `{!OS} (buffer : bytes) (used : nat) (deadline_ms : Z)
    (w : world) :
  wf_world w → conn_ok buffer used →
  wp (read_loop (MNET_REQUEST_BUFFER_SIZE - 1 - used) buffer used deadline_ms)
    (read_post w [] buffer used) w.
Proof. intros Hwf Hc. by apply read_loop_spec; [apply owns_refl| |]. Qed.

Lemma read_loop_stores_witness :
  wp (read_loop (H0 := silent_os) (MNET_REQUEST_BUFFER_SIZE - 1 - 0) fresh_buffer 0 1000)
    (read_post (H0 := silent_os) empty_world [] fresh_buffer 0) empty_world.
Proof.
  apply (read_loop_stores (H := silent_os)).
  - apply empty_world_wf.
  - split; [apply length_replicate|apply fresh_buffer_bytes|apply Nat.le_0_l|].
    intros Hlt. by apply Nat.lt_irrefl in Hlt.
Defined.



(** every request that does not parse is answered with exactly one error page,
    which reads back as a framed message: 405 for an unsupported method, 413 for
    a body over the limit, 431 for too large headers, 501 for a
    Transfer-Encoding and 400 otherwise, always closing the connection. *)
Theorem reject_request_page `{!OS, !Process} (app : mnet_app_t) (pr : Z)
    (parsed : parsed_request_t) (w : world) :
  wf_world w →
  wp (reject_request app pr parsed)
    (λ _ w', w_heap w' = w_heap w ∧ ∃ pre head,
       w_trace w' = w_trace w ++ pre ++ [EvSend head; EvSend (reject_page pr)] ∧
       Forall no_traffic pre ∧
       read_header 5 (head ++ reject_page pr) =
         Some (page_lines (reject_status pr) (lit "close") (length (reject_page pr)),
               reject_page pr)) w.
Proof.
  intros Hwf. eapply reject_request_spec; [by apply owns_refl|]. intros n pre w' Hpre Ho _.
  split; [by apply owns_nil_heap in Ho|]. exists pre, (block_of (reject_lines pr)).
  split; [exact (owns_trace _ _ _ Ho)|]. split; [done|].
  unfold reject_lines, reject_status, reject_page, reject_text.
  repeat (case_test; [by vm_compute|]). by vm_compute.
Qed.

Lemma reject_request_page_witness :
  let pr := MkParsed (lit "BREW") (lit "/") [] None BodyNull 0 false None zero_extras false in
  wp (reject_request (H0 := silent_os) (H1 := quiet) quiet_app MNET_PARSE_UNSUPPORTED_METHOD pr)
    (λ _ w', w_heap w' = w_heap empty_world ∧ ∃ pre head,
       w_trace w' = w_trace empty_world ++ pre ++
         [EvSend head; EvSend (reject_page MNET_PARSE_UNSUPPORTED_METHOD)] ∧
       Forall no_traffic pre ∧
       read_header 5 (head ++ reject_page MNET_PARSE_UNSUPPORTED_METHOD) =
         Some (page_lines (reject_status MNET_PARSE_UNSUPPORTED_METHOD) (lit "close")
                 (length (reject_page MNET_PARSE_UNSUPPORTED_METHOD)),
               reject_page MNET_PARSE_UNSUPPORTED_METHOD)) empty_world.
Proof.
  apply (reject_request_page (H := silent_os) (H0 := quiet)).
  apply empty_world_wf.
Defined.

(** between requests the buffer keeps exactly what follows the header block of
    the request just served, when another header block is in it, and is emptied
    otherwise; it stays a valid, terminated buffer and strictly less of it is
    used. *)
Theorem next_request_keeps (buffer : bytes) (used : nat) (w : world) :
  conn_ok buffer used → (0 < used)%nat →
  wp (next_request buffer used)
    (λ res w', w' = w ∧ conn_ok (fst res) (snd res) ∧ (snd res < used)%nat ∧
       take (snd res) (fst res) = kept_data buffer used) w.
Proof. apply next_request_spec. Qed.

Definition pipelined : bytes :=
  lit "GET / HTTP/1.1" ++ CRLF ++ lit "A: b" ++ CRLFCRLF ++
  lit "GET /2 HTTP/1.1" ++ CRLF ++ lit "A: b" ++ CRLFCRLF.

Definition pipelined_buffer : bytes :=
  pipelined ++ replicate (MNET_REQUEST_BUFFER_SIZE - length pipelined) 0.

Lemma pipelined_ok : conn_ok pipelined_buffer (length pipelined).
Proof.
  pose proof size_value. assert (length pipelined = 49%nat) as Hl by (by vm_compute).
  split.
  - unfold pipelined_buffer. rewrite length_app, length_replicate. lia.
  - apply Forall_app. split; [by repeat constructor|by apply Forall_replicate].
  - lia.
  - intros _. unfold pipelined_buffer. rewrite lookup_app_r, Nat.sub_diag by lia.
    apply lookup_replicate_2. lia.
Qed.

Lemma next_request_keeps_witness :
  wp (next_request pipelined_buffer (length pipelined))
    (λ res w', w' = empty_world ∧ conn_ok (fst res) (snd res) ∧
       (snd res < length pipelined)%nat ∧
       take (snd res) (fst res) = kept_data pipelined_buffer (length pipelined)) empty_world.
Proof.
  apply (next_request_keeps pipelined_buffer (length pipelined)).
  - apply pipelined_ok.
  - by apply Nat.ltb_lt.
Defined.

(** the body of a request is not skipped when the next request is looked for:
    a POST whose announced 32-byte body is itself the text of a request leaves
    that text in the buffer as the next request of the connection. *)
Theorem body_served_as_request :
  let body := lit "GET /admin HTTP/1.1" ++ CRLF ++ lit "Host: h" ++ CRLFCRLF in
  let request := lit "POST / HTTP/1.1" ++ CRLF ++ lit "Connection: keep-alive" ++ CRLF ++
                 lit "Content-Length: 32" ++ CRLFCRLF ++ body in
  let buffer := request ++ [0] in
  expected_code buffer 1000 = MNET_PARSE_OK ∧ announced_length buffer 59 1000 = 32 ∧
  length body = 32%nat ∧ kept_data buffer (length request) = body ∧
  request_line body = Some (lit "GET", lit "/admin").
Proof. split_and!; by vm_compute. Qed.

(** a timeout of more than 2147483 seconds, which the setter accepts, overflows
    the computation of the deadline: serving a connection is undefined. *)
Theorem timeout_overflow `{!Allocator, !OS, !Process, !Files} (app : mnet_app_t)
    (buffer : bytes) (w : world) :
  2147483 < app_timeout_seconds app → mnet_handle_client 1 app buffer w = None.
Proof.
  intros Ht. unfold mnet_handle_client, serve_loop, serve_one, round_timeout.
  rewrite (proj2 (Z.ltb_lt 0 _)) by lia. unfold int_mul.
  rewrite (proj2 (Z.ltb_ge _ (2 ^ 31))) by lia. by rewrite andb_false_r.
Qed.

Lemma timeout_overflow_witness :
  mnet_handle_client (H := all_ok) (H0 := silent_os) (H1 := quiet) (H2 := demo_files) 1
    (MkApp 0 None [] 0 true 0 0 0 80 None None 2147484 0 5 0 None 1 0) fresh_buffer empty_world = None.
Proof.
  by apply (timeout_overflow (H := all_ok) (H0 := silent_os) (H1 := quiet) (H2 := demo_files)).
Defined.
