(* ===== verification/App.v ===== *)
(** * Application state, configuration and route registration

    [src/mnet_app.c].  An operation takes the application by pointer and
    updates it in place: here it receives the old state ([None] for NULL) and
    returns the new one.  [errno] is not part of the state. *)

From S2P Require Export Router.

(** ** Assignment to one field *)

Definition with_table (v : ptr) (a : mnet_app_t) : mnet_app_t :=
  MkApp (app_block a) v (app_routes a) (app_route_capacity a) (app_running a)
    (app_debug a) (app_dev a) (app_https a) (app_port a) (app_not_found_handler a)
    (app_middleware a) (app_timeout_seconds a) (app_max_connections a)
    (app_keep_alive_timeout a) (app_max_body_size a) (app_log_handler a) (app_workers a)
    (app_active_connections a).

Definition with_routes (v : list mnet_route_t) (a : mnet_app_t) : mnet_app_t :=
  MkApp (app_block a) (app_table a) v (app_route_capacity a) (app_running a)
    (app_debug a) (app_dev a) (app_https a) (app_port a) (app_not_found_handler a)
    (app_middleware a) (app_timeout_seconds a) (app_max_connections a)
    (app_keep_alive_timeout a) (app_max_body_size a) (app_log_handler a) (app_workers a)
    (app_active_connections a).

Definition with_route_capacity (v : nat) (a : mnet_app_t) : mnet_app_t :=
  MkApp (app_block a) (app_table a) (app_routes a) v (app_running a) (app_debug a)
    (app_dev a) (app_https a) (app_port a) (app_not_found_handler a) (app_middleware a)
    (app_timeout_seconds a) (app_max_connections a) (app_keep_alive_timeout a)
    (app_max_body_size a) (app_log_handler a) (app_workers a) (app_active_connections a).

Definition with_running (v : bool) (a : mnet_app_t) : mnet_app_t :=
  MkApp (app_block a) (app_table a) (app_routes a) (app_route_capacity a) v
    (app_debug a) (app_dev a) (app_https a) (app_port a) (app_not_found_handler a)
    (app_middleware a) (app_timeout_seconds a) (app_max_connections a)
    (app_keep_alive_timeout a) (app_max_body_size a) (app_log_handler a) (app_workers a)
    (app_active_connections a).

Definition with_debug (v : Z) (a : mnet_app_t) : mnet_app_t :=
  MkApp (app_block a) (app_table a) (app_routes a) (app_route_capacity a)
    (app_running a) v (app_dev a) (app_https a) (app_port a) (app_not_found_handler a)
    (app_middleware a) (app_timeout_seconds a) (app_max_connections a)
    (app_keep_alive_timeout a) (app_max_body_size a) (app_log_handler a) (app_workers a)
    (app_active_connections a).

Definition with_dev (v : Z) (a : mnet_app_t) : mnet_app_t :=
  MkApp (app_block a) (app_table a) (app_routes a) (app_route_capacity a)
    (app_running a) (app_debug a) v (app_https a) (app_port a) (app_not_found_handler a)
    (app_middleware a) (app_timeout_seconds a) (app_max_connections a)
    (app_keep_alive_timeout a) (app_max_body_size a) (app_log_handler a) (app_workers a)
    (app_active_connections a).

Definition with_https (v : Z) (a : mnet_app_t) : mnet_app_t :=
  MkApp (app_block a) (app_table a) (app_routes a) (app_route_capacity a)
    (app_running a) (app_debug a) (app_dev a) v (app_port a) (app_not_found_handler a)
    (app_middleware a) (app_timeout_seconds a) (app_max_connections a)
    (app_keep_alive_timeout a) (app_max_body_size a) (app_log_handler a) (app_workers a)
    (app_active_connections a).

Definition with_port (v : Z) (a : mnet_app_t) : mnet_app_t :=
  MkApp (app_block a) (app_table a) (app_routes a) (app_route_capacity a)
    (app_running a) (app_debug a) (app_dev a) (app_https a) v (app_not_found_handler a)
    (app_middleware a) (app_timeout_seconds a) (app_max_connections a)
    (app_keep_alive_timeout a) (app_max_body_size a) (app_log_handler a) (app_workers a)
    (app_active_connections a).

Definition with_not_found_handler (v : option (mnet_request_t → M mnet_response_t)) (a : mnet_app_t) : mnet_app_t :=
  MkApp (app_block a) (app_table a) (app_routes a) (app_route_capacity a)
    (app_running a) (app_debug a) (app_dev a) (app_https a) (app_port a) v
    (app_middleware a) (app_timeout_seconds a) (app_max_connections a)
    (app_keep_alive_timeout a) (app_max_body_size a) (app_log_handler a) (app_workers a)
    (app_active_connections a).

Definition with_middleware (v : option mnet_middleware_t) (a : mnet_app_t) : mnet_app_t :=
  MkApp (app_block a) (app_table a) (app_routes a) (app_route_capacity a)
    (app_running a) (app_debug a) (app_dev a) (app_https a) (app_port a)
    (app_not_found_handler a) v (app_timeout_seconds a) (app_max_connections a)
    (app_keep_alive_timeout a) (app_max_body_size a) (app_log_handler a) (app_workers a)
    (app_active_connections a).

Definition with_timeout_seconds (v : Z) (a : mnet_app_t) : mnet_app_t :=
  MkApp (app_block a) (app_table a) (app_routes a) (app_route_capacity a)
    (app_running a) (app_debug a) (app_dev a) (app_https a) (app_port a)
    (app_not_found_handler a) (app_middleware a) v (app_max_connections a)
    (app_keep_alive_timeout a) (app_max_body_size a) (app_log_handler a) (app_workers a)
    (app_active_connections a).

Definition with_max_connections (v : Z) (a : mnet_app_t) : mnet_app_t :=
  MkApp (app_block a) (app_table a) (app_routes a) (app_route_capacity a)
    (app_running a) (app_debug a) (app_dev a) (app_https a) (app_port a)
    (app_not_found_handler a) (app_middleware a) (app_timeout_seconds a) v
    (app_keep_alive_timeout a) (app_max_body_size a) (app_log_handler a) (app_workers a)
    (app_active_connections a).

Definition with_keep_alive_timeout (v : Z) (a : mnet_app_t) : mnet_app_t :=
  MkApp (app_block a) (app_table a) (app_routes a) (app_route_capacity a)
    (app_running a) (app_debug a) (app_dev a) (app_https a) (app_port a)
    (app_not_found_handler a) (app_middleware a) (app_timeout_seconds a)
    (app_max_connections a) v (app_max_body_size a) (app_log_handler a) (app_workers a)
    (app_active_connections a).

Definition with_max_body_size (v : Z) (a : mnet_app_t) : mnet_app_t :=
  MkApp (app_block a) (app_table a) (app_routes a) (app_route_capacity a)
    (app_running a) (app_debug a) (app_dev a) (app_https a) (app_port a)
    (app_not_found_handler a) (app_middleware a) (app_timeout_seconds a)
    (app_max_connections a) (app_keep_alive_timeout a) v (app_log_handler a)
    (app_workers a) (app_active_connections a).

Definition with_log_handler (v : option nat) (a : mnet_app_t) : mnet_app_t :=
  MkApp (app_block a) (app_table a) (app_routes a) (app_route_capacity a)
    (app_running a) (app_debug a) (app_dev a) (app_https a) (app_port a)
    (app_not_found_handler a) (app_middleware a) (app_timeout_seconds a)
    (app_max_connections a) (app_keep_alive_timeout a) (app_max_body_size a) v
    (app_workers a) (app_active_connections a).

Definition with_workers (v : Z) (a : mnet_app_t) : mnet_app_t :=
  MkApp (app_block a) (app_table a) (app_routes a) (app_route_capacity a)
    (app_running a) (app_debug a) (app_dev a) (app_https a) (app_port a)
    (app_not_found_handler a) (app_middleware a) (app_timeout_seconds a)
    (app_max_connections a) (app_keep_alive_timeout a) (app_max_body_size a)
    (app_log_handler a) v (app_active_connections a).

Definition with_active_connections (v : Z) (a : mnet_app_t) : mnet_app_t :=
  MkApp (app_block a) (app_table a) (app_routes a) (app_route_capacity a)
    (app_running a) (app_debug a) (app_dev a) (app_https a) (app_port a)
    (app_not_found_handler a) (app_middleware a) (app_timeout_seconds a)
    (app_max_connections a) (app_keep_alive_timeout a) (app_max_body_size a)
    (app_log_handler a) (app_workers a) v.

(** ** Registration *)

Definition sizeof_route : nat := 48.
Definition sizeof_app : nat := 104.
Definition sizeof_static_config : nat := 24.

Definition zeros (n : nat) : bytes := replicate n 0.

(** The block of a route table of [n] entries; the entries are [app_routes]. *)
Definition route_table (n : nat) : bytes := zeros (sizeof_route * n).

(** [*p && *p != '/' && *p != '.'] *)
Definition name_char (c : Z) : bool := negb ((c =? chSLASH) || (c =? chDOT))%bool.

(** The name block of the [count]-th parameter, whose text in the pattern is
    [name]: a generated name in 16 bytes when the text is empty. *)
Definition param_name_block (name : bytes) (count : nat) : bytes :=
  match name with
  | [] =>
      let s := snd (snprintf 16 (lit "_" ++ print_nat (Z.of_nat count))) ++ [chNUL] in
      s ++ zeros (16 - length s)
  | _ => name ++ [chNUL]
  end.

Section app.
Context `{!Allocator}.

(** Append [name] to the NULL-terminated array [names] of [count] entries. *)
Definition push_name (names : option parr) (count : nat) (name : ptr) : M (option parr) :=
  tmp ← realloc (pa_block <$> names) (ptr_array (count + 2));
  match tmp with
  | None => free name;; mret None
  | Some blk =>
      mret (Some (PArr blk (match names with None => [] | Some a => pa_elems a end ++ [name])))
  end.

(** The loop that parses the parameter names; [false] is the jump to [fail].
    The array is returned as it is then. *)
Fixpoint param_names_loop (fuel : nat) (p : bytes) (count : nat) (names : option parr) :
    M (bool * option parr) :=
  match p with
  | [] => mret (true, names)
  | c :: p1 =>
      match fuel with
      | O => ub
      | S fuel =>
          if c =? chCOLON then
            let text := take_while name_char p1 in
            name ← alloc (param_name_block text count);
            match name with
            | None => mret (false, names)
            | Some _ =>
                tmp ← push_name names count name;
                match tmp with
                | None => mret (false, names)
                | Some _ => param_names_loop fuel (drop_while name_char p1) (S count) tmp
                end
            end
          else if c =? chSTAR then
            name ← alloc [chSTAR; chNUL];
            match name with
            | None => mret (false, names)
            | Some _ =>
                tmp ← push_name names count name;
                match tmp with
                | None => mret (false, names)
                | Some _ => mret (true, tmp)
                end
            end
          else param_names_loop fuel p1 count names
      end
  end.

Fixpoint free_list (ps : list ptr) : M unit :=
  match ps with
  | [] => mret ()
  | p :: ps => free p;; free_list ps
  end.

(** Release an array of strings and the array itself. *)
Definition free_names (names : option parr) : M unit :=
  match names with
  | None => mret ()
  | Some a => free_list (pa_elems a);; free (Some (pa_block a))
  end.

(** Make room for one more route; [false] when the table cannot grow. *)
Definition grow_routes (app : mnet_app_t) : M (bool * mnet_app_t) :=
  if (app_route_count app =? app_route_capacity app)%nat then
    let nc := if (app_route_capacity app =? 0)%nat then MNET_INITIAL_ROUTE_CAPACITY
              else (app_route_capacity app * 2)%nat in
    nr ← realloc (app_table app) (route_table nc);
    match nr with
    | None => mret (false, app)
    | Some _ => mret (true, with_route_capacity nc (with_table nr app))
    end
  else mret (true, app).

(** [app->routes[app->route_count] = r; app->route_count++] *)
Definition store_route (app : mnet_app_t) (r : mnet_route_t) : M mnet_app_t :=
  if (app_route_count app <? app_route_capacity app)%nat
  then mret (with_routes (app_routes app ++ [r]) app) else ub.

Definition mnet_add_route (app : option mnet_app_t) (method : mnet_http_method_t)
    (path : option bytes) (handler : option mnet_handler_t) : M (Z * option mnet_app_t) :=
  match app, path, handler with
  | Some app, Some path, Some handler =>
      '(ok, app) ← grow_routes app;
      if negb ok then mret (-1, Some app)
      else
        '(ok, names) ← param_names_loop (length path) path 0 None;
        if ok : bool then
          app ← store_route app (MkRoute method (Some path) handler names None None);
          mret (0, Some app)
        else
          free_names names;;
          mret (-1, Some app)
  | _, _, _ => mret (-1, app)
  end.

Definition mnet_route (app : option mnet_app_t) (method : mnet_http_method_t)
    (path : option bytes) (handler : option mnet_handler_t) : M (Z * option mnet_app_t) :=
  mnet_add_route app method path handler.

Definition free_route (r : mnet_route_t) : M unit :=
  free_names (rt_param_names r);;
  (match rt_path_allocated r with
   | Some l => free (Some l)
   | None => mret ()
   end);;
  match rt_user_data r with
  | Some cfg =>
      free (sc_url_prefix cfg);;
      free (sc_fs_path cfg);;
      free (Some (sc_block cfg))
  | None => mret ()
  end.

(** ** Lifecycle *)

Definition mnet_create : M (option mnet_app_t) :=
  p ← alloc (zeros sizeof_app);
  match p with
  | None => mret None
  | Some blk =>
      mret (Some (MkApp blk None [] 0 false 0 0 0 0 None None MNET_DEFAULT_TIMEOUT 0
                    MNET_DEFAULT_KEEP_ALIVE_TIMEOUT 0 None MNET_DEFAULT_WORKERS 0))
  end.

Fixpoint free_routes (rs : list mnet_route_t) : M unit :=
  match rs with
  | [] => mret ()
  | r :: rs => free_route r;; free_routes rs
  end.

Definition mnet_destroy (app : option mnet_app_t) : M unit :=
  match app with
  | None => mret ()
  | Some app =>
      free_routes (app_routes app);;
      free (app_table app);;
      free (Some (app_block app))
  end.

Definition mnet_static (app : option mnet_app_t) (url_prefix fs_path : option bytes) :
    M (option mnet_app_t) :=
  match app, url_prefix, fs_path with
  | Some app, Some url_prefix, Some fs_path =>
      '(ok, app) ← grow_routes app;
      if negb ok then mret (Some app)
      else
        cfg ← alloc (zeros sizeof_static_config);
        match cfg with
        | None => mret (Some app)
        | Some blk =>
            u ← strdup url_prefix;
            f ← strdup fs_path;
            match u, f with
            | Some _, Some _ =>
                let pattern := snd (snprintf 2048 (url_prefix ++ lit "/*")) in
                path_copy ← strdup pattern;
                match path_copy with
                | None => free u;; free f;; free cfg;; mret (Some app)
                | Some _ =>
                    app ← store_route app
                      (MkRoute MNET_HTTP_GET (Some pattern) HandlerStatic None
                        (Some (MkStatic blk u f)) path_copy);
                    mret (Some app)
                end
            | _, _ => free u;; free f;; free cfg;; mret (Some app)
            end
        end
  | _, _, _ => mret app
  end.
End app.

(** ** Configuration *)

Definition mnet_set_debug (app : option mnet_app_t) (enabled : Z) : option mnet_app_t :=
  with_debug enabled <$> app.

Definition mnet_set_not_found_handler (app : option mnet_app_t)
    (handler : option (mnet_request_t → M mnet_response_t)) : option mnet_app_t :=
  with_not_found_handler handler <$> app.

Definition mnet_use (app : option mnet_app_t) (middleware : option mnet_middleware_t) :
    option mnet_app_t :=
  with_middleware middleware <$> app.

Definition mnet_set_timeout (app : option mnet_app_t) (seconds : Z) : option mnet_app_t :=
  match app with
  | None => None
  | Some app =>
      Some (with_timeout_seconds (if seconds =? 0 then MNET_DEFAULT_TIMEOUT else seconds) app)
  end.

Definition mnet_set_workers (app : option mnet_app_t) (workers : Z) : option mnet_app_t :=
  match app with
  | None => None
  | Some app =>
      let workers := if workers =? 0 then MNET_DEFAULT_WORKERS else workers in
      let workers := if workers <? 0 then 1 else workers in
      let workers := if MNET_MAX_WORKERS <? workers then MNET_MAX_WORKERS else workers in
      Some (with_workers workers app)
  end.

Definition mnet_set_https (app : option mnet_app_t) (enabled : Z) : option mnet_app_t :=
  with_https enabled <$> app.

Definition mnet_set_dev_mode (app : option mnet_app_t) (enabled : Z) : option mnet_app_t :=
  with_dev enabled <$> app.

Definition mnet_set_max_connections (app : option mnet_app_t) (max_connections : Z) :
    option mnet_app_t :=
  with_max_connections max_connections <$> app.

Definition mnet_set_keep_alive_timeout (app : option mnet_app_t) (seconds : Z) : option mnet_app_t :=
  match app with
  | None => None
  | Some app =>
      Some (with_keep_alive_timeout
              (if seconds =? 0 then MNET_DEFAULT_KEEP_ALIVE_TIMEOUT else seconds) app)
  end.

Definition mnet_set_max_body_size (app : option mnet_app_t) (max_body_size : Z) : option mnet_app_t :=
  with_max_body_size max_body_size <$> app.

(** The new process-wide handler, and the application. *)
Definition mnet_set_log_handler (app : option mnet_app_t) (handler : option nat) :
    option nat * option mnet_app_t :=
  (handler, with_log_handler handler <$> app).

Definition mnet_stop (app : option mnet_app_t) : Z * option mnet_app_t :=
  match app with
  | None => (-1, None)
  | Some app => (0, Some (with_running false app))
  end.

(** ** The names of a pattern *)

(** The blocks of the names that registration extracts from [p], the first of
    which has index [count]. *)
Fixpoint pattern_name_blocks (fuel : nat) (p : bytes) (count : nat) : list bytes :=
  match fuel, p with
  | S fuel, c :: p1 =>
      if c =? chCOLON then
        param_name_block (take_while name_char p1) count ::
        pattern_name_blocks fuel (drop_while name_char p1) (S count)
      else if c =? chSTAR then [[chSTAR; chNUL]]
      else pattern_name_blocks fuel p1 count
  | _, _ => []
  end.

Definition pattern_names (p : bytes) : list bytes :=
  cstr <$> pattern_name_blocks (length p) p 0.

(** ** What an application owns *)

(** [names] is an array of the blocks [blks], which occupy [bs]. *)
Definition names_owned (names : option parr) (blks : list bytes)
    (bs : list (loc * bytes)) : Prop :=
  match names with
  | None => blks = [] ∧ bs = []
  | Some a => ∃ locs : list loc, pa_elems a = Some <$> locs ∧ length locs = length blks ∧
      bs = (pa_block a, ptr_array (length blks + 1)) :: zip locs blks
  end.

Definition path_owned (p : ptr) (bs : list (loc * bytes)) : Prop :=
  match p with
  | None => bs = []
  | Some l => ∃ b, bs = [(l, b)]
  end.

(** The pattern of a static route, in its 2048-byte buffer. *)
Definition static_pattern (url_prefix : bytes) : bytes := take 2047 (url_prefix ++ lit "/*").

(** The configuration of a static route with this pattern: copies of the prefix
    and of the directory. *)
Definition config_owned (cfg : option static_config_t) (pattern : option bytes)
    (bs : list (loc * bytes)) : Prop :=
  match cfg with
  | None => bs = []
  | Some c => ∃ u f url_prefix root bc, sc_url_prefix c = Some u ∧ sc_fs_path c = Some f ∧
      bs = [(u, url_prefix ++ [0]); (f, root ++ [0]); (sc_block c, bc)] ∧
      pattern = Some (static_pattern url_prefix)
  end.

(** The name blocks of a route: those of its pattern, none for a static route. *)
Definition route_names (r : mnet_route_t) : list bytes :=
  match rt_user_data r, rt_path r with
  | None, Some p => pattern_name_blocks (length p) p 0
  | _, _ => []
  end.

Definition route_owned (r : mnet_route_t) (bs : list (loc * bytes)) : Prop :=
  ∃ bs1 bs2 bs3, names_owned (rt_param_names r) (route_names r) bs1 ∧
    path_owned (rt_path_allocated r) bs2 ∧ config_owned (rt_user_data r) (rt_path r) bs3 ∧
    bs = bs1 ++ bs2 ++ bs3.

Definition table_owned (app : mnet_app_t) : list (loc * bytes) :=
  match app_table app with
  | None => []
  | Some l => [(l, route_table (app_route_capacity app))]
  end.

(** The application's blocks are its structure, its route table and the blocks
    of its routes; the table has room for the routes. *)
Record app_owned (app : mnet_app_t) (bs : list (loc * bytes)) : Prop := {
  ao_room : (app_route_count app ≤ app_route_capacity app)%nat;
  ao_table : app_table app = None → app_route_capacity app = 0%nat;
  ao_blocks : ∃ rbs, Forall2 route_owned (app_routes app) rbs ∧
    bs = (app_block app, zeros sizeof_app) :: table_owned app ++ concat rbs;
}.

Section app_proofs.
Context `{!Allocator}.

Lemma wp_free_list w0 w (locs : list loc) blks R (Q : unit → world → Prop) :
  length locs = length blks → owns w0 w (zip locs blks ++ R) →
  (∀ w', owns w0 w' R → Q () w') →
  wp (free_list (Some <$> locs)) Q w.
Proof.
  revert blks w. induction locs as [|l locs IH]; intros [|b blks] w; simpl; try done.
  - intros _ Ho HQ. by apply wp_ret, HQ.
  - intros [= Hlen] Ho HQ. apply wp_bind.
    eapply wp_free; [done|done|]. intros w' Ho'. by eapply IH.
Qed.

Lemma wp_free_names w0 w names blks bs R (Q : unit → world → Prop) :
  names_owned names blks bs → owns w0 w (bs ++ R) →
  (∀ w', owns w0 w' R → Q () w') →
  wp (free_names names) Q w.
Proof.
  intros Hn Ho HQ. destruct names as [[a elems]|]; simpl in *.
  - destruct Hn as (locs & -> & Hlen & ->). simpl in Ho.
    apply wp_bind. apply wp_free_list with (w0 := w0) (blks := blks)
      (R := (a, ptr_array (length blks + 1)) :: R); [done| |].
    + eapply owns_proper; [|done]. solve_Permutation.
    + intros w' Ho'. by eapply wp_free.
  - destruct Hn as [-> ->]. by apply wp_ret, HQ.
Qed.

Lemma wp_push_name w0 w names blks bs R l b :
  names_owned names blks bs → owns w0 w ((l, b) :: bs ++ R) →
  wp (push_name names (length blks) (Some l))
    (λ tmp w', (tmp = None ∧ alloc_failure ∧ owns w0 w' (bs ++ R)) ∨
      (∃ a bs', tmp = Some a ∧ names_owned tmp (blks ++ [b]) bs' ∧ owns w0 w' (bs' ++ R))) w.
Proof.
  intros Hn Ho. unfold push_name. apply wp_bind.
  set (rest := match names with Some _ => drop 1 bs | None => [] end).
  assert ((l, b) :: bs ++ R ≡ₚ match pa_block <$> names with
    | None => (l, b) :: rest ++ R
    | Some a => (a, ptr_array (length blks + 1)) :: (l, b) :: rest ++ R
    end) as Hp.
  { destruct names as [[a elems]|]; simpl in *.
    - destruct Hn as (locs & -> & Hlen & ->). subst rest. simpl. solve_Permutation.
    - by destruct Hn as [-> ->]. }
  eapply wp_realloc; [done|exact Hp| |].
  - intros w' Hf Ho'. apply wp_bind. eapply wp_free; [done|done|]. intros w'' Ho''.
    apply wp_ret. by left.
  - intros l' w' Ho'. apply wp_ret. right.
    assert (length (blks ++ [b]) + 1 = length blks + 2)%nat as Hlen' by
      (rewrite length_app; simpl; lia).
    destruct names as [[a elems]|]; simpl in *.
    + destruct Hn as (locs & -> & Hlen & ->). eexists _, _. split; [done|]. split.
      * exists (locs ++ [l]). rewrite fmap_app, Hlen', !length_app. simpl.
        split; [done|]. split; [lia|reflexivity].
      * eapply owns_proper; [|done]. subst rest. simpl. rewrite zip_app_snoc by done.
        solve_Permutation.
    + destruct Hn as [-> ->]. eexists _, _. split; [done|]. split; [by exists [l]|]. done.
Qed.

Lemma param_names_loop_spec fuel : ∀ w0 w p names blks bs R,
  (length p ≤ fuel)%nat → names_owned names blks bs → owns w0 w (bs ++ R) →
  wp (param_names_loop fuel p (length blks) names)
    (λ res w', ∃ blks' bs', names_owned (snd res) blks' bs' ∧ owns w0 w' (bs' ++ R) ∧
      if fst res : bool then blks' = blks ++ pattern_name_blocks fuel p (length blks)
      else alloc_failure) w.
Proof.
  induction fuel as [|fuel IH]; intros w0 w p names blks bs R Hfuel Hn Ho.
  { destruct p; [|simpl in Hfuel; lia]. apply wp_ret. exists blks, bs. simpl.
    by rewrite app_nil_r. }
  destruct p as [|c p1]; cbn [param_names_loop pattern_name_blocks]; simpl in Hfuel.
  { apply wp_ret. exists blks, bs. simpl. by rewrite app_nil_r. }
  case_test; [|case_test].
  - apply wp_bind. eapply wp_alloc; [done| |].
    + intros w' Hf Ho'. apply wp_ret. by exists blks, bs.
    + intros l w' Ho'. apply wp_bind. eapply wp_mono; [by eapply wp_push_name|].
      intros tmp w'' [(-> & Hf & Ho'')|(a & bs' & -> & Hn' & Ho'')].
      { apply wp_ret. by exists blks, bs. }
      replace (S (length blks)) with
        (length (blks ++ [param_name_block (take_while name_char p1) (length blks)]))
        by (rewrite length_app; simpl; lia).
      pose proof (length_drop_while name_char p1).
      eapply wp_mono; [by eapply (IH w0 _ _ _ _ bs' R); [lia|..]|].
      intros [ok names'] w''' (blks' & bs'' & Hn'' & Ho''' & Hok). exists blks', bs''.
      split_and!; [done..|]. destruct ok; simpl in *; [|done]. by rewrite Hok, <-app_assoc.
  - apply wp_bind. eapply wp_alloc; [done| |].
    + intros w' Hf Ho'. apply wp_ret. by exists blks, bs.
    + intros l w' Ho'. apply wp_bind. eapply wp_mono; [by eapply wp_push_name|].
      intros tmp w'' [(-> & Hf & Ho'')|(a & bs' & -> & Hn' & Ho'')]; apply wp_ret.
      * by exists blks, bs.
      * by eexists _, bs'.
  - eapply wp_mono; [by eapply (IH w0); [lia|..]|done].
Qed.

(** The same application, with another route table. *)
Definition retabled (app app' : mnet_app_t) : Prop :=
  ∃ t c, app' = with_route_capacity c (with_table t app).

Lemma grow_routes_spec w0 w app bs :
  app_owned app bs → owns w0 w bs →
  wp (grow_routes app)
    (λ res w', retabled app (snd res) ∧
      (∃ bs', app_owned (snd res) bs' ∧ owns w0 w' bs') ∧
      if fst res : bool
      then (app_route_count (snd res) < app_route_capacity (snd res))%nat
      else alloc_failure) w.
Proof.
  intros [Hroom Htab (rbs & Hr & ->)] Ho. unfold grow_routes.
  assert (retabled app app) as Hsame by (exists (app_table app), (app_route_capacity app); by destruct app).
  case_test; bool_prop.
  2:{ apply wp_ret. split_and!; [done| |simpl; lia]. eexists. split; [|done].
      split; [done|done|eauto]. }
  set (nc := if (app_route_capacity app =? 0)%nat then _ else _).
  apply wp_bind. eapply wp_realloc with (bs := (app_block app, zeros sizeof_app) :: concat rbs)
    (b := route_table (app_route_capacity app)); [done| | |].
  - unfold table_owned. destruct (app_table app); solve_Permutation.
  - intros w' Hf Ho'. apply wp_ret. split_and!; [done| |done]. eexists. split; [|done].
    split; [done|done|eauto].
  - intros l w' Ho'. apply wp_ret.
    assert (app_route_count app < nc)%nat.
    { unfold nc, MNET_INITIAL_ROUTE_CAPACITY. case_test; bool_prop; lia. }
    split_and!; [by exists (Some l), nc| |done].
    exists ((app_block app, zeros sizeof_app) :: (l, route_table nc) :: concat rbs). split.
    + split; [simpl; unfold app_route_count in *; simpl; lia|done|]. exists rbs. split; [done|].
      done.
    + eapply owns_proper; [|done]. solve_Permutation.
Qed.

Lemma store_route_spec w0 w app bs r rb (Q : mnet_app_t → world → Prop) :
  app_owned app bs → (app_route_count app < app_route_capacity app)%nat →
  route_owned r rb → owns w0 w (rb ++ bs) →
  (∀ bs', bs' ≡ₚ rb ++ bs → app_owned (with_routes (app_routes app ++ [r]) app) bs' →
    owns w0 w bs' → Q (with_routes (app_routes app ++ [r]) app) w) →
  wp (store_route app r) Q w.
Proof.
  intros [Hroom Htab (rbs & Hr & ->)] Hlt Hrb Ho HQ. unfold store_route.
  rewrite (proj2 (Nat.ltb_lt _ _)) by done. apply wp_ret.
  assert ((app_block app, zeros sizeof_app) :: table_owned app ++ concat (rbs ++ [rb]) ≡ₚ
    rb ++ (app_block app, zeros sizeof_app) :: table_owned app ++ concat rbs) as Hp.
  { rewrite concat_app. simpl. rewrite app_nil_r. solve_Permutation. }
  eapply HQ; [done| |].
  - split; [|done|].
    + unfold app_route_count in *. simpl. rewrite length_app. simpl. lia.
    + exists (rbs ++ [rb]). split; [|done]. simpl. apply Forall2_app; [done|]. by constructor.
  - by eapply owns_proper.
Qed.

Lemma add_route_spec w0 w app bs method path handler :
  app_owned app bs → owns w0 w bs →
  wp (mnet_add_route (Some app) method (Some path) (Some handler))
    (λ res w', ∃ app' bs', snd res = Some app' ∧ app_owned app' bs' ∧ owns w0 w' bs' ∧
      ((fst res = 0 ∧ ∃ names blks nbs, names_owned names blks nbs ∧
          nbs ⊆ bs' ∧ cstr <$> blks = pattern_names path ∧
          ∃ app1, retabled app app1 ∧
            app' = with_routes (app_routes app ++
              [MkRoute method (Some path) handler names None None]) app1) ∨
       (fst res = -1 ∧ alloc_failure ∧ retabled app app'))) w.
Proof.
  intros Ha Ho. unfold mnet_add_route. apply wp_bind.
  eapply wp_mono; [by eapply grow_routes_spec|].
  intros [ok app1] w1 (Hre & (bs1 & Ha1 & Ho1) & Hok). destruct ok; simpl in *.
  2:{ apply wp_ret. exists app1, bs1. split_and!; auto. }
  apply wp_bind. eapply wp_mono.
  { by eapply (param_names_loop_spec (length path) w0 w1 path None [] [] bs1). }
  intros [ok names] w2 (blks & nbs & Hn & Ho2 & Hblks). destruct ok; simpl in *.
  - apply wp_bind. eapply store_route_spec with (rb := nbs); [done..| |done|].
    { exists nbs, [], []. cbn [rt_param_names route_names rt_user_data rt_path rt_path_allocated].
      rewrite <-Hblks. split_and!; [done..|]. by rewrite !app_nil_r. }
    intros bs' Hbs' Ha' Ho'. apply wp_ret. eexists _, bs'. split_and!; [done..|].
    left. split; [done|]. exists names, blks, nbs. split_and!; [done| | |].
    + rewrite Hbs'. set_solver.
    + by subst blks.
    + exists app1. split; [done|]. destruct Hre as (t & c & ->). done.
  - apply wp_bind. eapply wp_free_names; [done..|]. intros w3 Ho3. apply wp_ret.
    exists app1, bs1. split_and!; auto.
Qed.

(** Releasing up to three pointers that own the listed blocks. *)
Lemma wp_free_opt w0 w p b R (Q : unit → world → Prop) :
  owns w0 w (match p with Some l => [(l, b)] | None => [] end ++ R) →
  (∀ w', owns w0 w' R → Q () w') →
  wp (free p) Q w.
Proof.
  intros Ho HQ. destruct p as [l|]; simpl in Ho.
  - by eapply wp_free.
  - by apply wp_free_null, HQ.
Qed.

(** What [mnet_static] leaves: the application as it was, but for the capacity of
    its table, or with the route of the directory. *)
Definition static_outcome (w0 : world) (app : mnet_app_t) (url_prefix : bytes)
    (res : option mnet_app_t) (w' : world) : Prop :=
  ∃ app' bs', res = Some app' ∧ app_owned app' bs' ∧ owns w0 w' bs' ∧
    ((retabled app app' ∧ alloc_failure) ∨
     ∃ app1 cfg path, retabled app app1 ∧
       app' = with_routes (app_routes app ++
         [MkRoute MNET_HTTP_GET (Some (take 2047 (url_prefix ++ lit "/*"))) HandlerStatic None
           (Some cfg) path]) app1).

Lemma static_same w0 w app app1 bs url_prefix :
  retabled app app1 → app_owned app1 bs → alloc_failure → owns w0 w bs →
  static_outcome w0 app url_prefix (Some app1) w.
Proof. intros Hre Ha Hf Ho. exists app1, bs. split_and!; auto. Qed.

(** A failure releases the configuration and whichever strings were allocated. *)
Lemma static_freed w0 w app app1 bs url_prefix (u f : option loc) su sf blk cfg :
  retabled app app1 → app_owned app1 bs → alloc_failure →
  owns w0 w (match u with Some l => [(l, su)] | None => [] end ++
    match f with Some l => [(l, sf)] | None => [] end ++ (blk, cfg) :: bs) →
  wp (free u;; free f;; free (Some blk);; mret (Some app1)) (static_outcome w0 app url_prefix) w.
Proof.
  intros Hre Ha Hf Ho. apply wp_bind. eapply wp_free_opt; [exact Ho|]. intros w3 Ho3.
  apply wp_bind. eapply wp_free_opt; [exact Ho3|]. intros w4 Ho4.
  apply wp_bind. eapply wp_free; [exact Ho4|done|]. intros w5 Ho5. by eapply wp_ret, static_same.
Qed.

Lemma static_spec w0 w app bs url_prefix fs_path :
  app_owned app bs → owns w0 w bs →
  wp (mnet_static (Some app) (Some url_prefix) (Some fs_path)) (static_outcome w0 app url_prefix) w.
Proof.
  intros Ha Ho. unfold mnet_static. apply wp_bind.
  eapply wp_mono; [by eapply grow_routes_spec|].
  intros [ok app1] w1 (Hre & (bs1 & Ha1 & Ho1) & Hok). destruct ok; simpl in *.
  2:{ apply wp_ret. exists app1, bs1. split_and!; auto. }
  apply wp_bind. eapply wp_alloc; [done|intros w2 Hf Ho2; by eapply wp_ret, static_same|].
  intros blk w2 Ho2. apply wp_bind.
  eapply wp_strdup; [done| |].
  - intros w3 Hf Ho3. apply wp_bind. eapply wp_strdup; [done| |].
    + intros w4 _ Ho4. eapply (static_freed _ _ _ _ _ _ None None [] []); [done..|]. exact Ho4.
    + intros f w4 Ho4. eapply (static_freed _ _ _ _ _ _ None (Some f) []); [done..|]. exact Ho4.
  - intros u w3 Ho3. apply wp_bind. eapply wp_strdup; [done| |].
    + intros w4 Hf Ho4. eapply (static_freed _ _ _ _ _ _ (Some u) None _ []); [done..|]. exact Ho4.
    + intros f w4 Ho4. apply wp_bind. eapply wp_strdup; [done| |].
      * intros w5 Hf Ho5. eapply (static_freed _ _ _ _ _ _ (Some u) (Some f)); [done..|]. simpl.
        eapply owns_proper; [|done]. solve_Permutation.
      * intros pc w5 Ho5. apply wp_bind. eapply store_route_spec with
          (rb := [(pc, take 2047 (url_prefix ++ lit "/*") ++ [0]); (u, url_prefix ++ [0]);
                  (f, fs_path ++ [0]); (blk, zeros sizeof_static_config)]); [done..| | |].
        -- exists [], [(pc, take 2047 (url_prefix ++ lit "/*") ++ [0])],
             [(u, url_prefix ++ [0]); (f, fs_path ++ [0]); (blk, zeros sizeof_static_config)].
           split_and!; [done|by eexists|by eexists _, _, _, _, _|done].
        -- eapply owns_proper; [|done]. solve_Permutation.
        -- intros bs' _ Ha' Ho'. apply wp_ret. eexists _, bs'. split_and!; [done..|].
           right. exists app1, (MkStatic blk (Some u) (Some f)), (Some pc).
           split; [done|]. destruct Hre as (t & c & ->). done.
Qed.

Lemma wp_free_route w0 w r rb R (Q : unit → world → Prop) :
  route_owned r rb → owns w0 w (rb ++ R) → (∀ w', owns w0 w' R → Q () w') →
  wp (free_route r) Q w.
Proof.
  intros (bs1 & bs2 & bs3 & Hn & Hp & Hc & ->) Ho HQ. unfold free_route.
  rewrite <-!app_assoc in Ho.
  apply wp_bind. eapply wp_free_names; [done..|]. intros w1 Ho1.
  apply wp_bind.
  assert (∀ w2, owns w0 w2 (bs3 ++ R) →
    wp match rt_user_data r with
       | Some cfg => free (sc_url_prefix cfg);; free (sc_fs_path cfg);; free (Some (sc_block cfg))
       | None => mret ()
       end Q w2) as Huser.
  { intros w2 Ho2. destruct (rt_user_data r) as [c|]; simpl in Hc.
    - destruct Hc as (u & f & bu & bf & bc & -> & -> & -> & _). simpl in Ho2.
      apply wp_bind. eapply wp_free; [done|done|]. intros w3 Ho3.
      apply wp_bind. eapply wp_free; [done|done|]. intros w4 Ho4.
      by eapply wp_free.
    - subst bs3. by apply wp_ret, HQ. }
  destruct (rt_path_allocated r) as [l|]; simpl in Hp.
  - destruct Hp as [b ->]. simpl in Ho1. by eapply wp_free.
  - subst bs2. by apply wp_ret, Huser.
Qed.

Lemma wp_free_routes w0 w rs rbs R (Q : unit → world → Prop) :
  Forall2 route_owned rs rbs → owns w0 w (concat rbs ++ R) → (∀ w', owns w0 w' R → Q () w') →
  wp (free_routes rs) Q w.
Proof.
  intros Hr. revert w. induction Hr as [|r rb rs rbs Hr Hrs IH]; simpl; intros w Ho HQ.
  - by apply wp_ret, HQ.
  - rewrite <-app_assoc in Ho. apply wp_bind. eapply wp_free_route; [done..|].
    intros w' Ho'. by apply IH.
Qed.

Lemma wp_destroy w0 w app bs (Q : unit → world → Prop) :
  app_owned app bs → owns w0 w bs → (∀ w', owns w0 w' [] → Q () w') →
  wp (mnet_destroy (Some app)) Q w.
Proof.
  intros [_ _ (rbs & Hr & ->)] Ho HQ. unfold mnet_destroy. apply wp_bind.
  apply wp_free_routes with (w0 := w0) (rbs := rbs)
    (R := table_owned app ++ [(app_block app, zeros sizeof_app)]); [done| |].
  { eapply owns_proper; [|done]. solve_Permutation. }
  intros w1 Ho1. apply wp_bind. eapply wp_free_opt; [exact Ho1|]. intros w2 Ho2.
  by eapply wp_free.
Qed.
End app_proofs.

(** ** Names and captures *)

(** A wildcard occurs only as the last character of the pattern. *)
Definition wild_last (pattern : bytes) : Prop :=
  ∀ pre post, pattern = pre ++ chSTAR :: post → post = [].

Lemma name_blocks_fuel p : ∀ f1 f2 c1 c2, (length p ≤ f1)%nat → (length p ≤ f2)%nat →
  length (pattern_name_blocks f1 p c1) = length (pattern_name_blocks f2 p c2).
Proof.
  induction p as [p IH] using (induction_ltof1 _ length). unfold ltof in IH.
  intros f1 f2 c1 c2 H1 H2. destruct p as [|c p1]; [by destruct f1, f2|].
  simpl in H1, H2. destruct f1 as [|f1]; [lia|]. destruct f2 as [|f2]; [lia|]. simpl.
  pose proof (length_drop_while name_char p1). case_test; [|case_test; [done|]].
  - simpl. f_equal. apply IH; simpl; lia.
  - apply IH; simpl; lia.
Qed.

Definition name_count (p : bytes) : nat := length (pattern_name_blocks (length p) p 0).

Lemma name_count_cons c p1 :
  name_count (c :: p1) =
  if c =? chCOLON then S (name_count (drop_while name_char p1))
  else if c =? chSTAR then 1%nat else name_count p1.
Proof.
  unfold name_count at 1. cbn [length pattern_name_blocks].
  pose proof (length_drop_while name_char p1).
  case_test; [|case_test; [done|]]; simpl.
  - f_equal. by apply name_blocks_fuel.
  - by apply name_blocks_fuel.
Qed.

Lemma drop_while_name_app s k :
  (k = [] ∨ starts_with_slash k = true) →
  drop_while name_char (s ++ k) = drop_while name_char s ++ k.
Proof.
  intros Hk. induction s as [|c s IH]; simpl.
  - destruct Hk as [->|Hk]; [done|]. destruct k as [|c k]; [done|]. simpl in *. bool_prop.
    by subst c.
  - by destruct (name_char c).
Qed.

(** Scanning for names does not skip a pattern segment: what follows a slash is
    scanned from its start. *)
Lemma name_count_skip s k :
  Forall (λ c, c ≠ chSLASH) s → (k = [] ∨ chSTAR ∉ s) →
  (k = [] ∨ starts_with_slash k = true) →
  (name_count (skip_slash k) ≤ name_count (s ++ k))%nat.
Proof.
  intros Hs Hstar Hk. induction s as [s IH] using (induction_ltof1 _ length). unfold ltof in IH.
  destruct Hk as [->|Hk]; [unfold name_count; simpl; lia|].
  destruct Hstar as [->|Hstar]; [unfold name_count; simpl; lia|].
  destruct s as [|c s]; simpl.
  - destruct k as [|c k]; [done|]. simpl in Hk. bool_prop. subst c. by rewrite name_count_cons.
  - rewrite name_count_cons. apply Forall_cons in Hs as [Hc Hs].
    apply not_elem_of_cons in Hstar as [Hc' Hstar].
    case_test; [|rewrite (proj2 (Z.eqb_neq _ _)) by congruence].
    + apply le_S. rewrite drop_while_name_app by auto.
      pose proof (length_drop_while name_char s). apply IH; [simpl; lia|by eauto with cstring|].
      right. intros Hin. apply Hstar. rewrite <-(take_drop_while name_char s). set_solver.
    + apply IH; [simpl; lia|done|by right].
Qed.

Lemma captures_le_names pattern path caps :
  wild_last pattern → route_matches pattern path caps →
  (length caps ≤ length (pattern_names pattern))%nat.
Proof.
  unfold pattern_names. rewrite length_fmap. change (length (pattern_name_blocks _ _ _))
    with (name_count pattern).
  intros Hw Hm. induction Hm as [|path Hp|name p seg pa caps Hseg Hne Hname Hp Hpa Hm IH
    |c p pa caps Hstar Hcolon Hm IH]; simpl.
  - lia.
  - done.
  - rewrite name_count_cons. simpl. apply le_n_S.
    assert (p = [] ∨ chSTAR ∉ name) as Hs.
    { destruct (decide (chSTAR ∈ name)) as [(pre & post & ->)%list_elem_of_split|]; [left|by right].
      assert (post ++ p = []) as [_ ->]%app_nil; [|done].
      apply (Hw (chCOLON :: pre)). simpl. by rewrite <-app_assoc. }
    etrans; [apply IH|].
    { intros pre post E. destruct (skip_slash_suffix p) as [k Hk].
      apply (Hw (chCOLON :: name ++ k ++ pre)). rewrite Hk, E. simpl. by rewrite <-!app_assoc. }
    rewrite drop_while_name_app by done. apply name_count_skip; [by eauto with cstring| |done].
    destruct Hs as [?|Hs]; [by left|right]. intros Hin. apply Hs.
    rewrite <-(take_drop_while name_char name). set_solver.
  - rewrite name_count_cons. rewrite !(proj2 (Z.eqb_neq _ _)) by done.
    apply IH. intros pre post ->. by apply (Hw (c :: pre)).
Qed.

(** A segment that starts a parameter starts no second one. *)
Definition params_alone (pattern : bytes) : Prop :=
  ∀ pre name post, pattern = pre ++ chCOLON :: name ++ post → Forall (λ c, c ≠ chSLASH) name →
    chCOLON ∉ name ∧ chSTAR ∉ name.

Lemma name_count_skip_eq s k :
  chCOLON ∉ s → chSTAR ∉ s → (k = [] ∨ starts_with_slash k = true) →
  name_count (skip_slash k) = name_count (s ++ k).
Proof.
  intros Hc Hs Hk. induction s as [|c s IH]; simpl.
  - destruct k as [|c k]; [done|]. destruct Hk as [?|Hk]; [done|]. simpl in Hk. bool_prop.
    subst c. by rewrite name_count_cons.
  - apply not_elem_of_cons in Hc as [Hc1 Hc2]. apply not_elem_of_cons in Hs as [Hs1 Hs2].
    rewrite name_count_cons, !(proj2 (Z.eqb_neq _ _)) by congruence. by apply IH.
Qed.

(** With at most one parameter in a segment and the wildcard last, the [i]-th
    name is the name of the [i]-th capture. *)
Lemma captures_eq_names pattern path caps :
  wild_last pattern → params_alone pattern → route_matches pattern path caps →
  length caps = length (pattern_names pattern).
Proof.
  unfold pattern_names. rewrite length_fmap. change (length (pattern_name_blocks _ _ _))
    with (name_count pattern).
  intros Hw Hone Hm. induction Hm as [|path Hp|name p seg pa caps Hseg Hne Hname Hp Hpa Hm IH
    |c p pa caps Hstar Hcolon Hm IH]; simpl; [done|done| |].
  - rewrite name_count_cons. simpl. f_equal.
    destruct (Hone [] name p eq_refl Hname) as [Hc Hs].
    destruct (skip_slash_suffix p) as [k Hk].
    rewrite IH.
    + rewrite drop_while_name_app by done. pose proof (take_drop_while name_char name) as E.
      apply name_count_skip_eq; [| |done]; rewrite <-E in Hc, Hs; set_solver.
    + intros pre post E. apply (Hw (chCOLON :: name ++ k ++ pre)). rewrite Hk, E. simpl.
      by rewrite <-!app_assoc.
    + intros pre nm post E. apply (Hone (chCOLON :: name ++ k ++ pre) nm post). rewrite Hk, E.
      simpl. by rewrite <-!app_assoc.
  - rewrite name_count_cons, !(proj2 (Z.eqb_neq _ _)) by done. apply IH.
    + intros pre post ->. by apply (Hw (c :: pre)).
    + intros pre nm post ->. by apply (Hone (c :: pre) nm post).
Qed.

(** ** Sequences of operations *)

Inductive app_op :=
  | OpRoute (method : mnet_http_method_t) (path : option bytes) (handler : option mnet_handler_t)
  | OpStatic (url_prefix fs_path : option bytes)
  | OpDebug (enabled : Z)
  | OpNotFound (handler : option (mnet_request_t → M mnet_response_t))
  | OpUse (middleware : option mnet_middleware_t)
  | OpTimeout (seconds : Z)
  | OpWorkers (workers : Z)
  | OpHttps (enabled : Z)
  | OpDevMode (enabled : Z)
  | OpMaxConnections (n : Z)
  | OpKeepAlive (seconds : Z)
  | OpMaxBody (size : Z)
  | OpLogHandler (handler : option nat)
  | OpStop.

Section ops.
Context `{!Allocator}.

Definition run_op (app : option mnet_app_t) (op : app_op) : M (option mnet_app_t) :=
  match op with
  | OpRoute m p h => '(_, app) ← mnet_route app m p h; mret app
  | OpStatic u f => mnet_static app u f
  | OpDebug e => mret (mnet_set_debug app e)
  | OpNotFound h => mret (mnet_set_not_found_handler app h)
  | OpUse m => mret (mnet_use app m)
  | OpTimeout s => mret (mnet_set_timeout app s)
  | OpWorkers n => mret (mnet_set_workers app n)
  | OpHttps e => mret (mnet_set_https app e)
  | OpDevMode e => mret (mnet_set_dev_mode app e)
  | OpMaxConnections n => mret (mnet_set_max_connections app n)
  | OpKeepAlive s => mret (mnet_set_keep_alive_timeout app s)
  | OpMaxBody s => mret (mnet_set_max_body_size app s)
  | OpLogHandler h => mret (snd (mnet_set_log_handler app h))
  | OpStop => mret (snd (mnet_stop app))
  end.

Fixpoint run_ops (app : option mnet_app_t) (ops : list app_op) : M (option mnet_app_t) :=
  match ops with
  | [] => mret app
  | op :: ops => app ← run_op app op; run_ops app ops
  end.

(** The configuration values a server runs with. *)
Definition config_ok (app : mnet_app_t) : Prop :=
  1 <= app_workers app <= MNET_MAX_WORKERS ∧
  app_timeout_seconds app ≠ 0 ∧ app_keep_alive_timeout app ≠ 0.

(** The invariant of an application between operations. *)
Definition app_inv (w0 : world) (app : option mnet_app_t) (w : world) : Prop :=
  match app with
  | None => owns w0 w []
  | Some app => config_ok app ∧ ∃ bs, app_owned app bs ∧ owns w0 w bs
  end.

Lemma app_owned_config app app' bs :
  app_owned app bs → app_block app' = app_block app → app_table app' = app_table app →
  app_routes app' = app_routes app → app_route_capacity app' = app_route_capacity app →
  app_owned app' bs.
Proof.
  intros [Hroom Htab Hb] E1 E2 E3 E4. split; unfold app_route_count, table_owned in *;
    by rewrite ?E1, ?E2, ?E3, ?E4.
Qed.

Lemma config_ok_retabled app app' : retabled app app' → config_ok app → config_ok app'.
Proof. by intros (t & c & ->). Qed.

Lemma run_op_inv w0 w app op : app_inv w0 app w → wp (run_op app op) (app_inv w0) w.
Proof.
  intros Hinv. destruct app as [app|]; simpl in Hinv.
  2:{ by destruct op; simpl; try by apply wp_ret. }
  destruct Hinv as [Hcfg (bs & Ha & Ho)]. pose proof Hcfg as (Hw & Ht & Hk).
  unfold MNET_MAX_WORKERS in Hw. destruct op; cbn [run_op];
    try (apply wp_ret; simpl; split; [|exists bs; split; [by eapply app_owned_config|done]]);
    try done.
  - apply wp_bind. unfold mnet_route. destruct path as [path|], handler as [handler|];
      try (apply wp_ret, wp_ret; simpl; by eauto).
    eapply wp_mono; [by eapply add_route_spec|].
    intros [rc app2] w' (app' & bs' & E & Ha' & Ho' & Hres). simpl in E. subst app2.
    apply wp_ret. split; [|eauto]. destruct Hres as [(_ & names & blks & nbs & _ & _ & _ & app1 & Hre & ->)|(_ & _ & Hre)].
    + pose proof (config_ok_retabled _ _ Hre Hcfg). done.
    + by eapply config_ok_retabled.
  - destruct url_prefix as [u|], fs_path as [f|]; try (apply wp_ret; simpl; by eauto).
    eapply wp_mono; [by eapply static_spec|].
    intros app2 w' (app' & bs' & -> & Ha' & Ho' & Hres). split; [|eauto].
    destruct Hres as [[Hre _]|(app1 & cfg & p & Hre & ->)].
    + by eapply config_ok_retabled.
    + pose proof (config_ok_retabled _ _ Hre Hcfg). done.
  - unfold config_ok, MNET_MAX_WORKERS. simpl. split_and!; [lia|lia| |done]. by case_test; bool_prop.
  - unfold config_ok, MNET_MAX_WORKERS, MNET_DEFAULT_WORKERS. simpl.
    split_and!; [| |done|done]; repeat case_test; bool_prop; lia.
  - unfold config_ok, MNET_MAX_WORKERS. simpl. split_and!; [lia|lia|done|]. by case_test; bool_prop.
Qed.

Lemma run_ops_inv w0 ops : ∀ app w, app_inv w0 app w → wp (run_ops app ops) (app_inv w0) w.
Proof.
  induction ops as [|op ops IH]; intros app w Hinv; simpl.
  - by apply wp_ret.
  - apply wp_bind. eapply wp_mono; [by apply run_op_inv|]. intros app' w' H'. by apply IH.
Qed.

Lemma create_inv w : wf_world w → wp mnet_create (app_inv w) w.
Proof.
  intros Hwf. unfold mnet_create. apply wp_bind.
  eapply wp_alloc; [by apply owns_refl| |].
  - intros w' _ Ho. by apply wp_ret.
  - intros l w' Ho. apply wp_ret. split; [|].
    + unfold config_ok, MNET_MAX_WORKERS, MNET_DEFAULT_WORKERS. simpl. unfold MNET_DEFAULT_TIMEOUT, MNET_DEFAULT_KEEP_ALIVE_TIMEOUT; lia.
    + eexists. split; [|done]. split; [done|done|]. by exists [].
Qed.
End ops.

(** ** Properties *)

(** C29: an application that is created, configured and given routes by any
    sequence of calls (with any arguments, NULL included, and whichever
    allocations fail) and then destroyed leaves the heap exactly as it was, and
    no call meets undefined behaviour. *)
Theorem app_lifecycle_no_leak `{!Allocator} (ops : list app_op) (w : world) :
  wf_world w →
  wp (app ← mnet_create; app ← run_ops app ops; mnet_destroy app)
    (λ _ w', w_heap w' = w_heap w) w.
Proof.
  intros Hwf. apply wp_bind. eapply wp_mono; [by apply create_inv|]. intros app w1 H1.
  apply wp_bind. eapply wp_mono; [by apply run_ops_inv|]. intros app' w2 H2.
  destruct app' as [app'|].
  - destruct H2 as [_ (bs & Ha & Ho)]. eapply wp_destroy; [done..|].
    intros w3. apply owns_nil_heap.
  - apply wp_ret. by apply owns_nil_heap.
Qed.

Lemma app_lifecycle_no_leak_witness :
  wp (app ← mnet_create (H := all_ok);
      app ← run_ops (H := all_ok) app
        [OpRoute MNET_HTTP_GET (Some (lit "/a/:b/*")) (Some HandlerStatic); OpWorkers (-3);
         OpStatic (Some (lit "/s")) (Some (lit "/var/www")); OpRoute MNET_HTTP_PUT None None];
      mnet_destroy app)
    (λ _ w', w_heap w' = w_heap empty_world) empty_world.
Proof. apply (app_lifecycle_no_leak (H := all_ok)). apply empty_world_wf. Defined.


(** An application as [mnet_create] leaves it, alone in memory. *)
Definition demo_world : world := World 1 {[0%nat := zeros sizeof_app]} 0 [].
Definition demo_app : mnet_app_t :=
  MkApp 0 None [] 0 false 0 0 0 0 None None MNET_DEFAULT_TIMEOUT 0
    MNET_DEFAULT_KEEP_ALIVE_TIMEOUT 0 None MNET_DEFAULT_WORKERS 0.

Lemma demo_app_owned : app_owned demo_app [(0%nat, zeros sizeof_app)].
Proof. split; [done|done|]. by exists []. Qed.

Lemma demo_world_owns : owns empty_world demo_world [(0%nat, zeros sizeof_app)].
Proof.
  split; simpl; try done; [by apply NoDup_singleton| |lia]. by repeat constructor.
Qed.


(** after any sequence of calls the configuration is one the server can run
    with: between 1 and 64 workers and no zero timeout. *)
Theorem app_config_ok `{!Allocator} (ops : list app_op) (w : world) :
  wf_world w →
  wp (app ← mnet_create; run_ops app ops)
    (λ app _, match app with Some app => config_ok app | None => True end) w.
Proof.
  intros Hwf. apply wp_bind. eapply wp_mono; [by apply create_inv|]. intros app w1 H1.
  eapply wp_mono; [by apply run_ops_inv|]. intros [app'|] w2 H2; [|done]. apply H2.
Qed.

Lemma app_config_ok_witness :
  wp (app ← mnet_create (H := all_ok);
      run_ops (H := all_ok) app [OpWorkers 1000; OpTimeout 0; OpKeepAlive (-2)])
    (λ app _, match app with Some app => config_ok app | None => True end) empty_world.
Proof. apply (app_config_ok (H := all_ok)). apply empty_world_wf. Defined.



(** without that condition a match can capture more values than there are
    names: the pattern ["/:a.*/:b/:c"] has two names, because the scan stops at
    the ['*'], and captures three values, so a lookup past the second name
    reads the terminator of the name array. *)
Theorem captures_unnamed :
  ∃ caps, route_matches (lit "/:a.*/:b/:c") (lit "/1/2/3") caps ∧
    length caps = 3%nat ∧ length (pattern_names (lit "/:a.*/:b/:c")) = 2%nat.
Proof.
  exists [CapParam (lit "1"); CapParam (lit "2"); CapParam (lit "3")].
  split; [|by vm_compute].
  apply matches_char; [done|done|].
  apply (matches_param (lit "a.*") (lit "/:b/:c") (lit "1") (lit "/2/3"));
    first [by left|by right|by repeat constructor|simpl].
  apply (matches_param (lit "b") (lit "/:c") (lit "2") (lit "/3"));
    first [by left|by right|by repeat constructor|simpl].
  apply (matches_param (lit "c") [] (lit "3") []);
    first [by left|by right|by repeat constructor].
Qed.
