(* ===== verification/Pool.v ===== *)
(** * The worker pool

    [src/mnet_server.c]: the bounded queue of accepted connections
    ([mnet_pool_push], [mnet_pool_pop], the draining in [mnet_pool_shutdown]) as a
    ring buffer, and the accept loop of [mnet_run], the worker threads
    ([mnet_worker_main]) and the shutdown as a step relation.

    The critical sections under the pool's mutex are the atomic steps; a thread
    in [mnet_cond_wait] is a state of its own, left when it is signalled or
    spuriously. *)

From S2P Require Export Prelude.

(** ** The queue *)

(** A connection is named by its file descriptor. *)
Definition mnet_socket_t : Type := Z.

(** The threads are a component of the whole system, and the mutex and the
    conditions are its steps. *)
Record mnet_pool_t := MkPool {
  po_slots : list mnet_socket_t;
  po_capacity : nat;
  po_head : nat;
  po_count : nat;
  po_shutting_down : bool;
}.

(** What one pass over the locked section of [mnet_pool_push] does: wait, return
    -1, return 0, or run into a division by zero or an access out of bounds. *)
Inductive push_outcome :=
  | PushWait
  | PushRefused (pool : mnet_pool_t)
  | PushDone (pool : mnet_pool_t)
  | PushUndefined.

Definition mnet_pool_push (pool : mnet_pool_t) (running : bool) (client : mnet_socket_t) :
    push_outcome :=
  if ((po_count pool =? po_capacity pool)%nat && negb (po_shutting_down pool))%bool then
    if negb running then
      PushRefused (MkPool (po_slots pool) (po_capacity pool) (po_head pool) (po_count pool) true)
    else PushWait
  else if po_shutting_down pool then PushRefused pool
  else if (po_capacity pool =? 0)%nat then PushUndefined
  else
    let i := ((po_head pool + po_count pool) mod po_capacity pool)%nat in
    if (i <? length (po_slots pool))%nat then
      PushDone (MkPool (<[i := client]> (po_slots pool)) (po_capacity pool) (po_head pool)
                  (S (po_count pool)) (po_shutting_down pool))
    else PushUndefined.

Inductive pop_outcome :=
  | PopWait
  | PopFinished
  | PopDone (client : mnet_socket_t) (pool : mnet_pool_t)
  | PopUndefined.

(** Take the slot at the head. *)
Definition take_head (pool : mnet_pool_t) : option (mnet_socket_t * mnet_pool_t) :=
  if (po_capacity pool =? 0)%nat then None
  else match po_slots pool !! po_head pool with
       | None => None
       | Some client =>
           Some (client, MkPool (po_slots pool) (po_capacity pool)
                           ((po_head pool + 1) mod po_capacity pool) (pred (po_count pool))
                           (po_shutting_down pool))
       end.

Definition mnet_pool_pop (pool : mnet_pool_t) : pop_outcome :=
  if ((po_count pool =? 0)%nat && negb (po_shutting_down pool))%bool then PopWait
  else if (po_count pool =? 0)%nat then PopFinished
  else match take_head pool with
       | Some (client, pool) => PopDone client pool
       | None => PopUndefined
       end.

(** The loop at the end of [mnet_pool_shutdown]: the connections it closes. *)
Fixpoint drain_loop (count : nat) (pool : mnet_pool_t) : option (list mnet_socket_t * mnet_pool_t) :=
  match count with
  | O => Some ([], pool)
  | S count =>
      match take_head pool with
      | None => None
      | Some (client, pool) =>
          match drain_loop count pool with
          | Some (closed, pool) => Some (client :: closed, pool)
          | None => None
          end
      end
  end.

Definition drain (pool : mnet_pool_t) : option (list mnet_socket_t * mnet_pool_t) :=
  drain_loop (po_count pool) pool.

(** [memset (&pool, 0, ..)] and the allocation of [mnet_run] *)
Definition new_pool (slots : list mnet_socket_t) : mnet_pool_t :=
  MkPool slots (length slots) 0 0 false.

(** ** The queue is a queue *)

Record pool_ok (pool : mnet_pool_t) : Prop := {
  pk_slots : length (po_slots pool) = po_capacity pool;
  pk_capacity : (0 < po_capacity pool)%nat;
  pk_head : (po_head pool < po_capacity pool)%nat;
  pk_count : (po_count pool ≤ po_capacity pool)%nat;
}.

(** The [n] slots from [head] on, in the order they will be popped. *)
Definition ring (slots : list mnet_socket_t) (capacity head n : nat) : list mnet_socket_t :=
  (λ i, slots !!! ((head + i) mod capacity)%nat) <$> seq 0 n.

Definition queue (pool : mnet_pool_t) : list mnet_socket_t :=
  ring (po_slots pool) (po_capacity pool) (po_head pool) (po_count pool).

Lemma ring_snoc slots capacity head n :
  ring slots capacity head (S n) =
  ring slots capacity head n ++ [slots !!! ((head + n) mod capacity)%nat].
Proof. unfold ring. by rewrite seq_S, fmap_app. Qed.

Lemma ring_cons slots capacity head n :
  (0 < capacity)%nat →
  ring slots capacity head (S n) =
  (slots !!! (head mod capacity)%nat) :: ring slots capacity ((head + 1) mod capacity) n.
Proof.
  intros Hc. unfold ring. rewrite <-cons_seq, fmap_cons, Nat.add_0_r. f_equal.
  rewrite <-(fmap_S_seq 0), <-list_fmap_compose. apply list_fmap_ext. intros i x _. unfold compose. f_equal.
  rewrite Nat.Div0.add_mod_idemp_l. f_equal. lia.
Qed.

Lemma mod_between a b c : (b ≤ a)%nat → (a < b + c)%nat → (a mod c = b mod c)%nat → a = b.
Proof.
  intros Hle Hlt E. pose proof (Nat.div_mod_eq a c). pose proof (Nat.div_mod_eq b c).
  assert (a / c = b / c)%nat; [|nia].
  destruct (Nat.lt_trichotomy (a / c)%nat (b / c)%nat) as [?|[?|?]]; nia.
Qed.

(** Storing behind the occupied slots leaves them alone. *)
Lemma ring_insert slots capacity head n k x :
  (n ≤ k)%nat → (k < capacity)%nat →
  ring (<[((head + k) mod capacity)%nat := x]> slots) capacity head n = ring slots capacity head n.
Proof.
  intros Hn Hk. unfold ring. apply list_fmap_ext. intros i j Hi.
  apply lookup_seq in Hi as [-> Hi]. apply list_lookup_total_insert_ne. intros E.
  apply mod_between in E; lia.
Qed.

Lemma length_queue pool : length (queue pool) = po_count pool.
Proof. unfold queue, ring. by rewrite length_fmap, length_seq. Qed.

Lemma new_pool_ok slots : slots ≠ [] → pool_ok (new_pool slots).
Proof. intros Hs. destruct slots; [done|]. split; simpl; lia. Qed.

Lemma queue_new_pool slots : queue (new_pool slots) = [].
Proof. done. Qed.

Lemma push_spec pool running client :
  pool_ok pool →
  mnet_pool_push pool running client =
    (if po_shutting_down pool then PushRefused pool
     else if (po_count pool =? po_capacity pool)%nat then
       if running then PushWait
       else PushRefused (MkPool (po_slots pool) (po_capacity pool) (po_head pool) (po_count pool) true)
     else PushDone
       (MkPool (<[((po_head pool + po_count pool) mod po_capacity pool)%nat := client]> (po_slots pool))
          (po_capacity pool) (po_head pool) (S (po_count pool)) false)).
Proof.
  intros [Hs Hc Hh Hn]. unfold mnet_pool_push.
  destruct (po_shutting_down pool); [by rewrite andb_false_r|]. rewrite andb_true_r.
  case_test; bool_prop; [by destruct running|].
  rewrite (proj2 (Nat.eqb_neq _ _)) by lia.
  rewrite (proj2 (Nat.ltb_lt _ _)); [done|]. rewrite Hs. apply Nat.mod_upper_bound. lia.
Qed.

Lemma push_done pool running client pool' :
  pool_ok pool → mnet_pool_push pool running client = PushDone pool' →
  pool_ok pool' ∧ queue pool' = queue pool ++ [client] ∧ po_capacity pool' = po_capacity pool ∧
  (po_count pool < po_capacity pool)%nat ∧
  po_shutting_down pool = false ∧ po_shutting_down pool' = false ∧
  po_count pool' = S (po_count pool).
Proof.
  intros Hok. pose proof Hok as [Hs Hc Hh Hn]. rewrite push_spec by done.
  destruct (po_shutting_down pool); [done|]. case_test; [by destruct running|]. intros [= <-].
  bool_prop. split_and!; [|unfold queue|done|lia|done..].
  - split; simpl; rewrite ?length_insert; lia.
  - cbn [po_slots po_capacity po_head po_count].
    rewrite ring_snoc, ring_insert by lia. f_equal. f_equal.
    apply list_lookup_total_insert_eq. rewrite Hs. apply Nat.mod_upper_bound. lia.
Qed.

Lemma take_head_spec pool :
  pool_ok pool → (0 < po_count pool)%nat →
  ∃ client pool', take_head pool = Some (client, pool') ∧ pool_ok pool' ∧
    queue pool = client :: queue pool' ∧ po_capacity pool' = po_capacity pool ∧
    S (po_count pool') = po_count pool ∧ po_shutting_down pool' = po_shutting_down pool.
Proof.
  intros [Hs Hc Hh Hn] Hpos. unfold take_head. rewrite (proj2 (Nat.eqb_neq _ _)) by lia.
  destruct (lookup_lt_is_Some_2 (po_slots pool) (po_head pool)) as [c E]; [lia|]. rewrite E.
  eexists _, _. split; [done|]. cbn [po_slots po_capacity po_head po_count po_shutting_down].
  pose proof (Nat.mod_upper_bound (po_head pool + 1) (po_capacity pool) ltac:(lia)).
  split_and!; [split; simpl; lia| |done|lia|done].
  unfold queue. cbn [po_slots po_capacity po_head po_count].
  rewrite <-(Nat.succ_pred_pos (po_count pool)) at 1 by done.
  rewrite ring_cons by done. f_equal. rewrite Nat.mod_small by done. by apply list_lookup_total_correct.
Qed.

Lemma pop_done pool client pool' :
  pool_ok pool → mnet_pool_pop pool = PopDone client pool' →
  pool_ok pool' ∧ queue pool = client :: queue pool' ∧ po_capacity pool' = po_capacity pool ∧
  po_shutting_down pool' = po_shutting_down pool ∧ S (po_count pool') = po_count pool.
Proof.
  intros Hok. unfold mnet_pool_pop. case_test; [done|]. case_test; [done|]. bool_prop.
  destruct (take_head_spec pool Hok) as (c & p & -> & ? & ? & ? & ? & ?); [lia|]. by intros [= <- <-].
Qed.

Lemma drain_spec pool :
  pool_ok pool →
  ∃ pool', drain pool = Some (queue pool, pool') ∧ pool_ok pool' ∧ po_count pool' = 0%nat ∧
    po_capacity pool' = po_capacity pool ∧ po_shutting_down pool' = po_shutting_down pool.
Proof.
  unfold drain. intros Hok. remember (po_count pool) as n eqn:En. revert pool Hok En.
  induction n as [|n IH]; intros pool Hok En; cbn [drain_loop].
  - exists pool. split; [|done]. unfold queue. by rewrite <-En.
  - destruct (take_head_spec pool Hok) as (c & p & -> & Hok' & -> & <- & Hn & <-); [lia|].
    destruct (IH p Hok') as (p' & -> & Hp'); [lia|]. by exists p'.
Qed.

(** ** The threads *)

(** Where the thread of [mnet_run] is. *)
Inductive acceptor_pc :=
  | AStart                         (* starting the workers *)
  | AAccept                        (* the test of [app->running] *)
  | AListen                        (* in [mnet_tcp_accept] *)
  | AAdmit (client : mnet_socket_t)  (* before [active_connections] is read *)
  | ARefuse (client : mnet_socket_t) (* at the limit, before the client is told and closed *)
  | ACount (client : mnet_socket_t)  (* before it is incremented *)
  | APush (client : mnet_socket_t)   (* in [mnet_pool_push] *)
  | AWaitFull (client : mnet_socket_t) (* waiting for [not_full] *)
  | AUndo (client : mnet_socket_t)   (* the push was refused *)
  | AShutdown (code : Z)           (* before [mnet_pool_shutdown] *)
  | AJoin (code : Z)               (* joining the workers *)
  | AReturn (code : Z).            (* [mnet_run] returned *)

(** Where a thread of [mnet_worker_main] is. *)
Inductive worker_pc :=
  | WPop                           (* in [mnet_pool_pop] *)
  | WWait                          (* waiting for [not_empty] *)
  | WServe (client : mnet_socket_t)  (* in [mnet_handle_client] and [mnet_close] *)
  | WRelease                       (* before the counter is decremented *)
  | WDone.                         (* returned *)

#[export] Instance worker_pc_eq_dec : EqDecision worker_pc.
Proof. solve_decision. Defined.

(** The whole server.  The last four fields record what happened: the connections
    accepted, pushed, popped and closed so far, in order. *)
Record system := MkSystem {
  s_pool : mnet_pool_t;
  s_running : bool;
  s_active : Z;
  s_acceptor : acceptor_pc;
  s_workers : list worker_pc;
  s_accepted : list mnet_socket_t;
  s_pushed : list mnet_socket_t;
  s_popped : list mnet_socket_t;
  s_closed : list mnet_socket_t;
}.

(** [mnet_cond_signal (&pool->not_empty)]: one waiting worker, if there is one. *)
Inductive signal_not_empty : list worker_pc → list worker_pc → Prop :=
  | signal_one ws1 ws2 : signal_not_empty (ws1 ++ WWait :: ws2) (ws1 ++ WPop :: ws2)
  | signal_lost ws : WWait ∉ ws → signal_not_empty ws ws.

(** [mnet_cond_broadcast (&pool->not_empty)] *)
Definition wake (w : worker_pc) : worker_pc := match w with WWait => WPop | w => w end.

(** [mnet_cond_signal (&pool->not_full)]: only the accept loop waits for it. *)
Definition signal_not_full (m : acceptor_pc) : acceptor_pc :=
  match m with AWaitFull client => APush client | m => m end.

Definition held_by_acceptor (m : acceptor_pc) : list mnet_socket_t :=
  match m with
  | AAdmit c | ARefuse c | ACount c | APush c | AWaitFull c | AUndo c => [c]
  | _ => []
  end.

Definition held_by_worker (w : worker_pc) : list mnet_socket_t :=
  match w with WServe c => [c] | _ => [] end.

Definition served (ws : list worker_pc) : list mnet_socket_t := concat (held_by_worker <$> ws).

(** The connections that are open. *)
Definition open_sockets (s : system) : list mnet_socket_t :=
  queue (s_pool s) ++ served (s_workers s) ++ held_by_acceptor (s_acceptor s).

Definition set_shutting_down (p : mnet_pool_t) : mnet_pool_t :=
  MkPool (po_slots p) (po_capacity p) (po_head p) (po_count p) true.

Section system.
(** [app->max_connections] and [app->workers] *)
Variables (max_connections : Z) (workers : nat).

Definition at_limit (active : Z) : bool :=
  ((0 <? max_connections) && (max_connections <=? active))%bool.

(** [size_t capacity] of [mnet_run] *)
Definition pool_capacity : nat :=
  if 0 <? max_connections then Z.to_nat max_connections else 128%nat.

Inductive step : system → system → Prop :=
  (* the loop that starts the workers; it goes on with fewer than asked for *)
  | step_create p r a ws ac pu po cl :
      (length ws < workers)%nat →
      step (MkSystem p r a AStart ws ac pu po cl) (MkSystem p r a AStart (ws ++ [WPop]) ac pu po cl)
  | step_created p r a ws ac pu po cl :
      (workers ≤ length ws)%nat →
      step (MkSystem p r a AStart ws ac pu po cl) (MkSystem p r a AAccept ws ac pu po cl)
  | step_create_fail p r a ws ac pu po cl :
      (0 < length ws < workers)%nat →
      step (MkSystem p r a AStart ws ac pu po cl) (MkSystem p r a AAccept ws ac pu po cl)
  | step_create_none p r a ac pu po cl :
      (0 < workers)%nat →
      step (MkSystem p r a AStart [] ac pu po cl) (MkSystem p r a (AShutdown (-1)) [] ac pu po cl)
  (* the accept loop *)
  | step_running p r a ws ac pu po cl :
      r = true →
      step (MkSystem p r a AAccept ws ac pu po cl) (MkSystem p r a AListen ws ac pu po cl)
  | step_accept p r a ws ac pu po cl client :
      client ∉ queue p ++ served ws →
      step (MkSystem p r a AListen ws ac pu po cl)
           (MkSystem p r a (AAdmit client) ws (ac ++ [client]) pu po cl)
  | step_interrupted p r a ws ac pu po cl :
      step (MkSystem p r a AListen ws ac pu po cl) (MkSystem p r a AAccept ws ac pu po cl)
  | step_accept_fail p r a ws ac pu po cl :
      step (MkSystem p r a AListen ws ac pu po cl) (MkSystem p r a (AShutdown 0) ws ac pu po cl)
  | step_stopped p r a ws ac pu po cl :
      r = false →
      step (MkSystem p r a AAccept ws ac pu po cl) (MkSystem p r a (AShutdown 0) ws ac pu po cl)
  | step_refuse p r a ws ac pu po cl client :
      at_limit a = true →
      step (MkSystem p r a (AAdmit client) ws ac pu po cl)
           (MkSystem p r a (ARefuse client) ws ac pu po cl)
  | step_refused p r a ws ac pu po cl client :
      step (MkSystem p r a (ARefuse client) ws ac pu po cl)
           (MkSystem p r a AAccept ws ac pu po (cl ++ [client]))
  | step_admit p r a ws ac pu po cl client :
      at_limit a = false →
      step (MkSystem p r a (AAdmit client) ws ac pu po cl)
           (MkSystem p r a (ACount client) ws ac pu po cl)
  | step_count p r a ws ac pu po cl client :
      step (MkSystem p r a (ACount client) ws ac pu po cl)
           (MkSystem p r (a + 1) (APush client) ws ac pu po cl)
  | step_push p r a ws ac pu po cl client p' ws' :
      mnet_pool_push p r client = PushDone p' → signal_not_empty ws ws' →
      step (MkSystem p r a (APush client) ws ac pu po cl)
           (MkSystem p' r a AAccept ws' ac (pu ++ [client]) po cl)
  | step_push_wait p r a ws ac pu po cl client :
      mnet_pool_push p r client = PushWait →
      step (MkSystem p r a (APush client) ws ac pu po cl)
           (MkSystem p r a (AWaitFull client) ws ac pu po cl)
  | step_push_refused p r a ws ac pu po cl client p' :
      mnet_pool_push p r client = PushRefused p' →
      step (MkSystem p r a (APush client) ws ac pu po cl)
           (MkSystem p' r a (AUndo client) ws ac pu po cl)
  | step_undo p r a ws ac pu po cl client :
      step (MkSystem p r a (AUndo client) ws ac pu po cl)
           (MkSystem p r (a - 1) (AShutdown 0) ws ac pu po (cl ++ [client]))
  (* [mnet_pool_shutdown] *)
  | step_shutdown p r a ws ac pu po cl code :
      step (MkSystem p r a (AShutdown code) ws ac pu po cl)
           (MkSystem (set_shutting_down p) r a (AJoin code) (wake <$> ws) ac pu po cl)
  | step_join p r a ws ac pu po cl code rest p' :
      Forall (.= WDone) ws → drain p = Some (rest, p') →
      step (MkSystem p r a (AJoin code) ws ac pu po cl)
           (MkSystem p' r a (AReturn code) ws ac pu po (cl ++ rest))
  (* the workers *)
  | step_pop p r a m ws1 ws2 ac pu po cl client p' :
      mnet_pool_pop p = PopDone client p' →
      step (MkSystem p r a m (ws1 ++ WPop :: ws2) ac pu po cl)
           (MkSystem p' r a (signal_not_full m) (ws1 ++ WServe client :: ws2) ac pu
              (po ++ [client]) cl)
  | step_pop_wait p r a m ws1 ws2 ac pu po cl :
      mnet_pool_pop p = PopWait →
      step (MkSystem p r a m (ws1 ++ WPop :: ws2) ac pu po cl)
           (MkSystem p r a m (ws1 ++ WWait :: ws2) ac pu po cl)
  | step_pop_finished p r a m ws1 ws2 ac pu po cl :
      mnet_pool_pop p = PopFinished →
      step (MkSystem p r a m (ws1 ++ WPop :: ws2) ac pu po cl)
           (MkSystem p r a m (ws1 ++ WDone :: ws2) ac pu po cl)
  | step_serve p r a m ws1 ws2 ac pu po cl client :
      step (MkSystem p r a m (ws1 ++ WServe client :: ws2) ac pu po cl)
           (MkSystem p r a m (ws1 ++ WRelease :: ws2) ac pu po (cl ++ [client]))
  | step_release p r a m ws1 ws2 ac pu po cl :
      step (MkSystem p r a m (ws1 ++ WRelease :: ws2) ac pu po cl)
           (MkSystem p r (a - 1) m (ws1 ++ WPop :: ws2) ac pu po cl).

(** What happens without a thread's doing: spurious wake-ups, and the signal
    handler or [mnet_stop] clearing [app->running]. *)
Inductive disturbance : system → system → Prop :=
  | spurious_not_empty p r a m ws1 ws2 ac pu po cl :
      disturbance (MkSystem p r a m (ws1 ++ WWait :: ws2) ac pu po cl)
                  (MkSystem p r a m (ws1 ++ WPop :: ws2) ac pu po cl)
  | spurious_not_full p r a ws ac pu po cl client :
      disturbance (MkSystem p r a (AWaitFull client) ws ac pu po cl)
                  (MkSystem p r a (APush client) ws ac pu po cl)
  | sig_handler p r a m ws ac pu po cl :
      disturbance (MkSystem p r a m ws ac pu po cl) (MkSystem p false a m ws ac pu po cl).

Definition move (s s' : system) : Prop := step s s' ∨ disturbance s s'.

(** After the pool is allocated, with any contents. *)
Definition initial (s : system) : Prop :=
  ∃ slots, length slots = pool_capacity ∧
    s = MkSystem (new_pool slots) true 0 AStart [] [] [] [] [].

Definition reachable (s : system) : Prop := ∃ s0, initial s0 ∧ rtc move s0 s.
End system.

(** ** Counting workers *)

Definition busy (w : worker_pc) : Z := match w with WServe _ | WRelease => 1 | _ => 0 end.

Definition busy_count (ws : list worker_pc) : Z := foldr (λ w n, busy w + n) 0 ws.

Lemma busy_count_app ws1 ws2 : busy_count (ws1 ++ ws2) = busy_count ws1 + busy_count ws2.
Proof. induction ws1 as [|w ws1 IH]; simpl; [done|]. rewrite IH. lia. Qed.

Lemma busy_count_cons w ws : busy_count (w :: ws) = busy w + busy_count ws.
Proof. done. Qed.

Arguments busy_count : simpl never.

Lemma served_app ws1 ws2 : served (ws1 ++ ws2) = served ws1 ++ served ws2.
Proof. unfold served. by rewrite fmap_app, concat_app. Qed.

Lemma served_cons w ws : served (w :: ws) = held_by_worker w ++ served ws.
Proof. done. Qed.

Lemma served_nil : served [] = [].
Proof. done. Qed.

Arguments served : simpl never.

(** A worker that will look at the queue again. *)
Definition awake (w : worker_pc) : Prop := w ≠ WWait ∧ w ≠ WDone.

Lemma busy_count_wake ws : busy_count (wake <$> ws) = busy_count ws.
Proof.
  induction ws as [|w ws IH]; [done|]. rewrite fmap_cons, !busy_count_cons, IH. by destruct w.
Qed.

Lemma served_wake ws : served (wake <$> ws) = served ws.
Proof.
  induction ws as [|w ws IH]; [done|]. rewrite fmap_cons, !served_cons, IH. by destruct w.
Qed.

Lemma wake_no_wait (ws : list worker_pc) : WWait ∉ wake <$> ws.
Proof. intros Hin. apply list_elem_of_fmap in Hin as (w & E & _). by destruct w. Qed.

Lemma wake_done (ws : list worker_pc) : WDone ∈ wake <$> ws → WDone ∈ ws.
Proof.
  intros Hin. apply list_elem_of_fmap in Hin as (w & E & Hw). by destruct w; simplify_eq/=.
Qed.

Section signal.
Context (ws ws' : list worker_pc) (Hs : signal_not_empty ws ws').

Lemma signal_busy : busy_count ws' = busy_count ws.
Proof using Hs. destruct Hs; [|done]. by rewrite !busy_count_app. Qed.

Lemma signal_served : served ws' = served ws.
Proof using Hs. destruct Hs; [|done]. by rewrite !served_app. Qed.

Lemma signal_nil : ws' = [] → ws = [].
Proof using Hs. destruct Hs; [|done]. by intros [_ [=]]%app_eq_nil. Qed.

Lemma signal_done : WDone ∈ ws' → WDone ∈ ws.
Proof using Hs. destruct Hs; [|done]. rewrite !elem_of_app, !elem_of_cons. naive_solver. Qed.

(** No wake-up is lost: after the signal some worker will look. *)
Lemma signal_awake : ws ≠ [] → WDone ∉ ws → Exists awake ws'.
Proof using Hs.
  intros Hne Hd. destruct Hs as [ws1 ws2|ws0 Hw].
  - apply Exists_app. right. by apply Exists_cons_hd.
  - destruct ws0 as [|w ws0]; [done|]. apply Exists_cons_hd. split; set_solver.
Qed.
End signal.

(** Replacing one worker. *)
Lemma elem_of_replaced (x w w' : worker_pc) (ws1 ws2 : list worker_pc) :
  x ≠ w' → x ∈ ws1 ++ w' :: ws2 → x ∈ ws1 ++ w :: ws2.
Proof. rewrite !elem_of_app, !elem_of_cons. naive_solver. Qed.

Lemma replaced_not_nil (w : worker_pc) (ws1 ws2 : list worker_pc) : ws1 ++ w :: ws2 ≠ [].
Proof. by intros [_ [=]]%app_eq_nil. Qed.

Lemma awake_replaced (w' : worker_pc) (ws1 ws2 : list worker_pc) :
  awake w' → Exists awake (ws1 ++ w' :: ws2).
Proof. intros Hw. apply Exists_app. right. by apply Exists_cons_hd. Qed.

(** ** The invariants *)

(** The pool before the shutdown has begun. *)
Definition serving (m : acceptor_pc) : bool :=
  match m with
  | AAccept | AListen | AAdmit _ | ARefuse _ | ACount _ | APush _ | AWaitFull _ => true
  | _ => false
  end.

(** What the phase of the accept loop says of the pool and of the workers. *)
Definition phase_ok (m : acceptor_pc) (p : mnet_pool_t) (ws : list worker_pc) : Prop :=
  match m with
  | AStart => po_shutting_down p = false
  | AUndo _ => po_shutting_down p = true
  | AShutdown _ => True
  | AJoin _ => po_shutting_down p = true ∧ WWait ∉ ws
  | AReturn _ => po_shutting_down p = true ∧ Forall (.= WDone) ws
  | AWaitFull _ => po_shutting_down p = false ∧ ws ≠ [] ∧ po_count p = po_capacity p
  | _ => po_shutting_down p = false ∧ ws ≠ []
  end.

(** Connections of the accept loop that are counted but not queued. *)
Definition counted (m : acceptor_pc) : Z :=
  match m with APush _ | AWaitFull _ | AUndo _ => 1 | _ => 0 end.

Section invariants.
Variables (max_connections : Z) (workers : nat).
Notation step := (step max_connections workers).
Notation move := (move max_connections workers).

Record queue_inv (s : system) : Prop := {
  qi_pool : pool_ok (s_pool s);
  qi_capacity : po_capacity (s_pool s) = pool_capacity max_connections;
  qi_phase : phase_ok (s_acceptor s) (s_pool s) (s_workers s);
  qi_done : WDone ∈ s_workers s → po_count (s_pool s) = 0%nat ∧ po_shutting_down (s_pool s) = true;
  qi_none : s_workers s = [] → po_count (s_pool s) = 0%nat;
  qi_awake : (0 < po_count (s_pool s))%nat → po_shutting_down (s_pool s) = false →
             Exists awake (s_workers s);
}.

Lemma push_refused p r c p' :
  pool_ok p → mnet_pool_push p r c = PushRefused p' →
  (p' = p ∧ po_shutting_down p = true) ∨
  (p' = set_shutting_down p ∧ r = false ∧ po_count p = po_capacity p ∧ po_shutting_down p = false).
Proof.
  intros Hok. rewrite push_spec by done. destruct (po_shutting_down p).
  - intros [= <-]. by left.
  - case_test; [|done]. destruct r; [done|]. intros [= <-]. bool_prop. by right.
Qed.

Lemma push_wait p r c :
  pool_ok p → mnet_pool_push p r c = PushWait →
  r = true ∧ po_count p = po_capacity p ∧ po_shutting_down p = false.
Proof.
  intros Hok. rewrite push_spec by done. destruct (po_shutting_down p); [done|].
  case_test; [|done]. destruct r; [|done]. by bool_prop.
Qed.

Lemma pop_wait p :
  mnet_pool_pop p = PopWait → po_count p = 0%nat ∧ po_shutting_down p = false.
Proof.
  unfold mnet_pool_pop. case_test.
  - intros _. bool_prop. by destruct (po_shutting_down p).
  - case_test; [done|]. by destruct (take_head p) as [[]|].
Qed.

Lemma pop_finished p :
  mnet_pool_pop p = PopFinished → po_count p = 0%nat ∧ po_shutting_down p = true.
Proof.
  unfold mnet_pool_pop. case_test; [done|]. case_test.
  - intros _. bool_prop. subst. by destruct (po_shutting_down p).
  - by destruct (take_head p) as [[]|].
Qed.

Lemma set_shutting_down_ok p : pool_ok p → pool_ok (set_shutting_down p).
Proof. intros [? ? ? ?]. by split. Qed.

Lemma initial_queue_inv s : initial max_connections s → queue_inv s.
Proof.
  intros (slots & Hl & ->). split; cbn; try done.
  - apply new_pool_ok. intros ->. revert Hl. unfold pool_capacity. simpl. case_test; bool_prop; lia.
  - by intros ?%not_elem_of_nil.
  - lia.
Qed.

(** A live worker moves on; the pool keeps its flag. *)
Lemma phase_replaced m p p' ws1 w w' ws2 :
  w ≠ WDone → (w' = WWait → po_shutting_down p = false) →
  po_shutting_down p' = po_shutting_down p → po_capacity p' = po_capacity p →
  (∀ c, m = AWaitFull c → po_count p' = po_count p) →
  phase_ok m p (ws1 ++ w :: ws2) → phase_ok m p' (ws1 ++ w' :: ws2).
Proof.
  intros Hw Hw' Es Ec Ecount Hph. pose proof (replaced_not_nil w' ws1 ws2) as Hne.
  destruct m as [| | |c|c|c|c|c|c|k|k|k]; cbn in *; rewrite ?Es; [tauto..| | |exact I| |].
  - destruct Hph as (Hs & _ & E). rewrite Ec. split_and!; [exact Hs|exact Hne|].
    rewrite <-E. by apply (Ecount c).
  - exact Hph.
  - destruct Hph as [Hs Hn]. split; [exact Hs|]. intros Hin. apply Hn.
    apply (elem_of_replaced _ w) in Hin; [exact Hin|]. intros <-. specialize (Hw' eq_refl). congruence.
  - destruct Hph as [_ HF]. apply Forall_app in HF as [_ HF]. by apply Forall_cons in HF as [? _].
Qed.

(** The rules of the workers that leave the pool alone. *)
Lemma queue_inv_replaced p r r' a a' m ws1 w w' ws2 ac pu po cl ac' pu' po' cl' :
  w ≠ WDone → w' ≠ WDone →
  (w' = WWait → po_count p = 0%nat ∧ po_shutting_down p = false) →
  queue_inv (MkSystem p r a m (ws1 ++ w :: ws2) ac pu po cl) →
  queue_inv (MkSystem p r' a' m (ws1 ++ w' :: ws2) ac' pu' po' cl').
Proof.
  intros Hw Hw' Hwait [Hp Hc Hph Hd Hn Ha]. cbn in *. split; cbn; [done|done| | | |].
  - eapply phase_replaced; [exact Hw|by intros E; apply Hwait|done|done|done|exact Hph].
  - intros Hin. apply Hd. by eapply elem_of_replaced.
  - by intros ?%replaced_not_nil.
  - intros Hcount _. apply awake_replaced. split; [intros ->|done].
    destruct (Hwait eq_refl). lia.
Qed.

(** Rules of the accept loop that leave the pool and the workers alone. *)
Lemma queue_inv_moved p r r' a a' m m' ws ac pu po cl ac' pu' po' cl' :
  (phase_ok m p ws → phase_ok m' p ws) →
  queue_inv (MkSystem p r a m ws ac pu po cl) → queue_inv (MkSystem p r' a' m' ws ac' pu' po' cl').
Proof. intros Hm [Hp Hc Hph Hd Hn Ha]. split; cbn in *; [exact Hp|exact Hc|auto|auto..]. Qed.

Lemma create_queue_inv p r a ws ac pu po cl :
  queue_inv (MkSystem p r a AStart ws ac pu po cl) →
  queue_inv (MkSystem p r a AStart (ws ++ [WPop]) ac pu po cl).
Proof.
  intros [Hp Hc Hph Hd Hn Ha]. cbn in *. split; cbn; [exact Hp|exact Hc|exact Hph| | |].
  - intros [Hin|[=]%list_elem_of_singleton]%elem_of_app. auto.
  - by intros ?%replaced_not_nil.
  - intros _ _. by apply awake_replaced.
Qed.

Lemma push_queue_inv p r a ws ac pu po cl client p' ws' :
  mnet_pool_push p r client = PushDone p' → signal_not_empty ws ws' →
  queue_inv (MkSystem p r a (APush client) ws ac pu po cl) →
  queue_inv (MkSystem p' r a AAccept ws' ac (pu ++ [client]) po cl).
Proof.
  intros Hpush Hsig [Hp Hc [Hs Hne] Hd Hn Ha]. cbn in *.
  destruct (push_done _ _ _ _ Hp Hpush) as (Hp' & _ & Ecap & _ & _ & Es & Ecount).
  assert (WDone ∉ ws) as Hnd by (intros Hin; destruct (Hd Hin); congruence).
  assert (ws' ≠ []) as Hne' by (intros E; by apply Hne, (signal_nil _ _ Hsig)).
  split; cbn; [exact Hp'|by rewrite Ecap|done| |done|].
  - intros Hin. by destruct Hnd; apply (signal_done _ _ Hsig).
  - intros _ _. by eapply signal_awake.
Qed.

Lemma pop_queue_inv p r a m ws1 ws2 ac pu po cl client p' :
  mnet_pool_pop p = PopDone client p' →
  queue_inv (MkSystem p r a m (ws1 ++ WPop :: ws2) ac pu po cl) →
  queue_inv (MkSystem p' r a (signal_not_full m) (ws1 ++ WServe client :: ws2) ac pu
               (po ++ [client]) cl).
Proof.
  intros Hpop [Hp Hc Hph Hd Hn Ha]. cbn in *.
  destruct (pop_done _ _ _ Hp Hpop) as (Hp' & _ & Ecap & Es & Ecount).
  split; cbn; [exact Hp'|by rewrite Ecap| | | |].
  - eapply (phase_replaced _ p _ _ WPop); [done..|by destruct m|].
    destruct m; try exact Hph. destruct Hph as (Hs & Hne & _). by split.
  - intros Hin. apply (elem_of_replaced _ WPop) in Hin; [|done]. destruct (Hd Hin). lia.
  - by intros ?%replaced_not_nil.
  - intros _ _. by apply awake_replaced.
Qed.

Lemma finished_queue_inv p r a m ws1 ws2 ac pu po cl :
  mnet_pool_pop p = PopFinished →
  queue_inv (MkSystem p r a m (ws1 ++ WPop :: ws2) ac pu po cl) →
  queue_inv (MkSystem p r a m (ws1 ++ WDone :: ws2) ac pu po cl).
Proof.
  intros Hpop [Hp Hc Hph Hd Hn Ha]. cbn in *. destruct (pop_finished _ Hpop) as [Hcount Hs].
  split; cbn; [exact Hp|exact Hc| |done| |lia].
  - eapply (phase_replaced _ p _ _ WPop); [done..|exact Hph].
  - by intros ?%replaced_not_nil.
Qed.

Lemma shutdown_queue_inv p r a ws ac pu po cl code :
  queue_inv (MkSystem p r a (AShutdown code) ws ac pu po cl) →
  queue_inv (MkSystem (set_shutting_down p) r a (AJoin code) (wake <$> ws) ac pu po cl).
Proof.
  intros [Hp Hc _ Hd Hn Ha]. cbn in *. split; cbn; [by apply set_shutting_down_ok|exact Hc| | | |done].
  - split; [done|apply wake_no_wait].
  - intros Hin%wake_done. by destruct (Hd Hin).
  - intros E. apply Hn. by apply fmap_nil_inv in E.
Qed.

Lemma join_queue_inv p r a ws ac pu po cl code rest p' :
  Forall (.= WDone) ws → drain p = Some (rest, p') →
  queue_inv (MkSystem p r a (AJoin code) ws ac pu po cl) →
  queue_inv (MkSystem p' r a (AReturn code) ws ac pu po (cl ++ rest)).
Proof.
  intros HF Hdr [Hp Hc [Hs _] Hd Hn Ha]. cbn in *.
  destruct (drain_spec p Hp) as (p2 & E & Hp2 & Hcount & Ecap & Es). rewrite E in Hdr.
  injection Hdr as <- <-. split; cbn; [done|by rewrite Ecap| | |done|lia].
  - by rewrite Es.
  - intros _. by rewrite Es.
Qed.

Lemma refused_queue_inv p r a ws ac pu po cl client p' :
  mnet_pool_push p r client = PushRefused p' →
  queue_inv (MkSystem p r a (APush client) ws ac pu po cl) →
  queue_inv (MkSystem p' r a (AUndo client) ws ac pu po cl).
Proof.
  intros Hpush [Hp Hc [Hs Hne] Hd Hn Ha]. cbn in *.
  destruct (push_refused _ _ _ _ Hp Hpush) as [[-> E]|(-> & _ & _ & _)]; [congruence|].
  split; cbn; [by apply set_shutting_down_ok|exact Hc|done| |done|done].
  intros Hin. destruct (Hd Hin). congruence.
Qed.

Lemma step_queue_inv s s' : (0 < workers)%nat → queue_inv s → step s s' → queue_inv s'.
Proof.
  intros Hworkers Hinv Hs. destruct Hs; revert Hinv;
    try (apply queue_inv_replaced; [done|done|by auto using pop_wait]).
  - apply create_queue_inv.
  - apply queue_inv_moved. cbn. intros E. split; [exact E|]. intros ->. simpl in *. lia.
  - apply queue_inv_moved. cbn. intros E. split; [exact E|]. intros ->. simpl in *. lia.
  - by apply queue_inv_moved.
  - by apply queue_inv_moved.
  - by apply queue_inv_moved.
  - by apply queue_inv_moved.
  - by apply queue_inv_moved.
  - by apply queue_inv_moved.
  - by apply queue_inv_moved.
  - by apply queue_inv_moved.
  - by apply queue_inv_moved.
  - by apply queue_inv_moved.
  - by apply push_queue_inv.
  - intros Hinv. eapply queue_inv_moved; [|exact Hinv]. intros [Hs Hne].
    destruct (push_wait _ _ _ (qi_pool _ Hinv) H) as (_ & E & _). by split_and!.
  - by apply refused_queue_inv.
  - by apply queue_inv_moved.
  - apply shutdown_queue_inv.
  - by apply join_queue_inv.
  - by apply pop_queue_inv.
  - by apply finished_queue_inv.
Qed.

Lemma disturbance_queue_inv s s' : queue_inv s → disturbance s s' → queue_inv s'.
Proof.
  intros Hinv Hs. destruct Hs; revert Hinv.
  - by apply queue_inv_replaced.
  - apply queue_inv_moved. intros (Hs & Hne & _). by split.
  - by apply queue_inv_moved.
Qed.

(** *** Counting *)

Record count_inv (s : system) : Prop := {
  ci_active : s_active s =
    Z.of_nat (po_count (s_pool s)) + busy_count (s_workers s) + counted (s_acceptor s);
  ci_limit : 0 < max_connections →
    s_active s ≤ max_connections ∧
    (∀ c, s_acceptor s = ACount c → s_active s < max_connections);
}.

Lemma all_done_empty p r a m ws ac pu po cl :
  queue_inv (MkSystem p r a m ws ac pu po cl) → Forall (.= WDone) ws → po_count p = 0%nat.
Proof.
  intros [_ _ _ Hd Hn _] HF. cbn in *. destruct ws as [|w ws]; [by apply Hn|].
  apply Forall_cons in HF as [-> _]. apply Hd. by left.
Qed.

Lemma initial_count_inv s : initial max_connections s → count_inv s.
Proof. intros (slots & Hl & ->). split; cbn; [done|]. intros. split; [lia|done]. Qed.

Lemma counted_signal m : counted (signal_not_full m) = counted m.
Proof. by destruct m. Qed.

Lemma at_limit_false a : at_limit max_connections a = false → 0 < max_connections → a < max_connections.
Proof. unfold at_limit. intros [E|E]%andb_false_iff ?; bool_prop; lia. Qed.

Lemma signal_is_count m c : signal_not_full m = ACount c → m = ACount c.
Proof. by destruct m. Qed.

Lemma step_count_inv s s' : queue_inv s → count_inv s → step s s' → count_inv s'.
Proof.
  intros Hq [Ha Hl] Hs. pose proof (qi_pool _ Hq) as Hp.
  destruct Hs; cbn in *; split; cbn;
    rewrite ?busy_count_app, ?busy_count_cons, ?busy_count_wake, ?counted_signal in *; cbn in *;
    try lia;
    try (intros Hmax; destruct (Hl Hmax) as [Hle Hlt]; split; [lia|first [exact Hlt|done]]).
  - change (busy_count []) with 0. lia.
  - intros Hmax. pose proof (at_limit_false _ H Hmax). split; [lia|done].
  - intros Hmax. destruct (Hl Hmax) as [_ Hlt]. specialize (Hlt _ eq_refl). split; [lia|done].
  - apply push_done in H as (_ & _ & _ & _ & _ & _ & Ec); [|done].
    rewrite (signal_busy _ _ H0). lia.
  - destruct (push_refused _ _ _ _ Hp H) as [[-> _]|(-> & _)]; cbn; lia.
  - destruct (drain_spec _ Hp) as (p2 & E & _ & Ec & _).
    pose proof (all_done_empty _ _ _ _ _ _ _ _ _ Hq H). rewrite E in H0. injection H0 as _ <-. lia.
  - apply pop_done in H as (_ & _ & _ & _ & Ec); [|done]. lia.
  - intros Hmax. destruct (Hl Hmax) as [Hle Hlt]. split; [done|]. intros c Hc%signal_is_count. exact (Hlt c Hc).
  - intros Hmax. destruct (Hl Hmax) as [Hle Hlt]. split; [lia|]. intros c Hc. specialize (Hlt c Hc). lia.
Qed.

Lemma disturbance_count_inv s s' : count_inv s → disturbance s s' → count_inv s'.
Proof.
  intros [Ha Hl] Hs. destruct Hs; cbn in *; split; cbn;
    rewrite ?busy_count_app, ?busy_count_cons in *; cbn in *; [lia|exact Hl|lia| |lia|exact Hl].
  intros Hmax. destruct (Hl Hmax) as [Hle _]. by split.
Qed.

(** *** Where the connections are *)

Record socket_inv (s : system) : Prop := {
  si_open : s_accepted s ≡ₚ s_closed s ++ open_sockets s;
  si_nodup : NoDup (open_sockets s);
  si_fifo : s_pushed s = s_popped s ++ queue (s_pool s);
}.

Lemma initial_socket_inv s : initial max_connections s → socket_inv s.
Proof. intros (slots & Hl & ->). split; [done|constructor|done]. Qed.

(** A connection changes hands. *)
Lemma socket_same s s' :
  s_accepted s' = s_accepted s → s_closed s' = s_closed s → open_sockets s' ≡ₚ open_sockets s →
  s_pushed s' = s_popped s' ++ queue (s_pool s') → socket_inv s → socket_inv s'.
Proof.
  intros Ea Ec Eo Hf [Ho Hn _]. split; [by rewrite Ea, Ec, Eo|by rewrite Eo|done].
Qed.

(** A connection is closed. *)
Lemma socket_close s s' c :
  s_accepted s' = s_accepted s → s_closed s' = s_closed s ++ [c] →
  open_sockets s ≡ₚ c :: open_sockets s' →
  s_pushed s' = s_popped s' ++ queue (s_pool s') → socket_inv s → socket_inv s'.
Proof.
  intros Ea Ec Eo Hf [Ho Hn _]. rewrite Eo in Ho, Hn. split; [|by apply NoDup_cons in Hn as [_ Hn]|done].
  rewrite Ea, Ho, Ec. solve_Permutation.
Qed.

Lemma held_signal m : held_by_acceptor (signal_not_full m) = held_by_acceptor m.
Proof. by destruct m. Qed.

(** The two cases, when the queue is unchanged. *)
Ltac open_list := unfold open_sockets; cbn; rewrite ?served_app, ?served_cons, ?served_wake, ?served_nil; cbn.
Ltac hands_over Hf Hi :=
  eapply socket_same; [| | | |exact Hi]; [done|done| |exact Hf]; open_list;
  rewrite ?app_nil_r; solve [done|solve_Permutation].

Lemma step_socket_inv s s' : queue_inv s → socket_inv s → step s s' → socket_inv s'.
Proof.
  intros Hq Hi Hs. pose proof (qi_pool _ Hq) as Hp. pose proof (si_fifo _ Hi) as Hf.
  destruct Hs; cbn in Hp, Hf; try hands_over Hf Hi.
  - destruct Hi as [Ho Hn _]. unfold open_sockets in *; cbn in *. rewrite app_nil_r in *.
    split; unfold open_sockets; cbn; [rewrite Ho; solve_Permutation| |exact Hf].
    rewrite app_assoc. apply NoDup_app. split_and!; [done| |apply NoDup_singleton].
    intros x Hx ->%list_elem_of_singleton. done.
  - eapply (socket_close _ _ client); [| | | |exact Hi]; [done|done| |exact Hf]. open_list.
    solve_Permutation.
  - destruct (push_done _ _ _ _ Hp H) as (_ & Eq & _).
    eapply socket_same; [| | | |exact Hi]; [done|done| |]; cbn; rewrite ?Eq, ?Hf; [|by rewrite app_assoc].
    open_list. rewrite Eq, (signal_served _ _ H0). solve_Permutation.
  - destruct (push_refused _ _ _ _ Hp H) as [[-> _]|(-> & _)]; hands_over Hf Hi.
  - eapply (socket_close _ _ client); [| | | |exact Hi]; [done|done| |exact Hf]. open_list.
    solve_Permutation.
  - pose proof (all_done_empty _ _ _ _ _ _ _ _ _ Hq H) as Hz.
    destruct (drain_spec p Hp) as (p2 & E & _ & Ez & _). rewrite E in H0. injection H0 as <- <-.
    assert (queue p = []) as Ep by (apply nil_length_inv; by rewrite length_queue).
    assert (queue p2 = []) as Ep2 by (apply nil_length_inv; by rewrite length_queue).
    eapply socket_same; [| | | |exact Hi]; cbn; rewrite ?Ep, ?app_nil_r; [done|done| |].
    + open_list. by rewrite Ep, Ep2.
    + rewrite Hf. by rewrite Ep, Ep2.
  - destruct (pop_done _ _ _ Hp H) as (_ & Eq & _).
    eapply socket_same; [| | | |exact Hi]; cbn; [done|done| |by rewrite Hf, Eq, <-app_assoc].
    open_list. rewrite Eq, held_signal. solve_Permutation.
  - eapply (socket_close _ _ client); [| | | |exact Hi]; [done|done| |exact Hf]. open_list.
    solve_Permutation.
Qed.

Lemma disturbance_socket_inv s s' : socket_inv s → disturbance s s' → socket_inv s'.
Proof.
  intros Hi Hs. pose proof (si_fifo _ Hi) as Hf. destruct Hs; cbn in Hf; hands_over Hf Hi.
Qed.

(** Every reachable state satisfies all of them. *)
Lemma reachable_inv s :
  (0 < workers)%nat → reachable max_connections workers s →
  queue_inv s ∧ count_inv s ∧ socket_inv s.
Proof.
  intros Hworkers (s0 & Hi & Hr). assert (queue_inv s0 ∧ count_inv s0 ∧ socket_inv s0) as H0.
  { split_and!; [by apply initial_queue_inv|by apply initial_count_inv|by apply initial_socket_inv]. }
  clear Hi. induction Hr as [s|s1 s2 s3 Hm _ IH]; [done|]. apply IH. destruct H0 as (Hq & Hc & Hs).
  destruct Hm as [Hm|Hm].
  - split_and!; [by eapply step_queue_inv|by eapply step_count_inv|by eapply step_socket_inv].
  - split_and!; [by eapply disturbance_queue_inv|by eapply disturbance_count_inv|
                 by eapply disturbance_socket_inv].
Qed.

(** When [mnet_run] returns nothing is queued and nothing is served. *)
Lemma returned_empty s code :
  queue_inv s → s_acceptor s = AReturn code →
  po_count (s_pool s) = 0%nat ∧ queue (s_pool s) = [] ∧ served (s_workers s) = [] ∧
  busy_count (s_workers s) = 0.
Proof.
  intros Hq Hm. pose proof (qi_phase _ Hq) as Hph. rewrite Hm in Hph. destruct Hph as [_ HF].
  assert (po_count (s_pool s) = 0%nat) as Hz.
  { destruct s as [p r a m ws ac pu po cl]. by eapply all_done_empty. }
  split_and!; [done|apply nil_length_inv; by rewrite length_queue|..];
    induction HF as [|w ws -> _ IH]; [done| |done|]; [by rewrite served_cons|by rewrite busy_count_cons].
Qed.

Lemma busy_count_pos ws : 0 ≤ busy_count ws.
Proof. induction ws as [|w ws IH]; [done|]. rewrite busy_count_cons. destruct w; cbn; lia. Qed.

(** *** Progress *)

Lemma pop_defined p : pool_ok p → mnet_pool_pop p ≠ PopUndefined.
Proof.
  intros Hp. unfold mnet_pool_pop. case_test; [done|]. case_test; [done|]. bool_prop.
  by destruct (take_head_spec p Hp) as (c & p' & -> & _); [lia|].
Qed.

(** A worker that is not waiting and not done can move. *)
Lemma awake_moves s i w :
  queue_inv s → s_workers s !! i = Some w → awake w →
  ∃ s', step s s' ∧ s_workers s' !! i ≠ Some w ∧
        signal_not_full (s_acceptor s') = signal_not_full (s_acceptor s).
Proof.
  intros Hq Hi [Hw1 Hw2]. pose proof (qi_pool _ Hq) as Hp. destruct s as [p r a m ws ac pu po cl].
  cbn in *. apply list_elem_of_split_length in Hi as (ws1 & ws2 & -> & ->).
  assert (∀ w', w' ≠ w → (ws1 ++ w' :: ws2) !! length ws1 ≠ Some w) as Hl.
  { intros w' Hne. rewrite list_lookup_middle by done. congruence. }
  destruct w as [| |c| |]; [|done| | |done].
  - destruct (mnet_pool_pop p) as [| |c p'|] eqn:E; [| | |by destruct (pop_defined p)].
    + eexists. split; [by apply step_pop_wait|]. split; [by apply Hl|done].
    + eexists. split; [by apply step_pop_finished|]. split; [by apply Hl|done].
    + eexists. split; [by apply step_pop|]. split; [by apply Hl|by destruct m].
  - eexists. split; [by apply step_serve|]. split; [by apply Hl|done].
  - eexists. split; [by apply step_release|]. split; [by apply Hl|done].
Qed.

(** What is left to do once the pool shuts down. *)
Definition work (w : worker_pc) : nat :=
  match w with WServe _ => 3 | WRelease => 2 | WPop => 1 | _ => 0 end.

Definition total_work (ws : list worker_pc) : nat := foldr (λ w n, (work w + n)%nat) 0%nat ws.

Lemma total_work_cons w ws : total_work (w :: ws) = (work w + total_work ws)%nat.
Proof. done. Qed.

Lemma total_work_replaced ws1 w ws2 :
  total_work (ws1 ++ w :: ws2) = (total_work ws1 + work w + total_work ws2)%nat.
Proof. induction ws1 as [|w1 ws1 IH]; [done|]. rewrite <-app_comm_cons, !total_work_cons, IH. lia. Qed.

Definition shutdown_measure (s : system) : nat :=
  (3 * po_count (s_pool s) + total_work (s_workers s) +
   match s_acceptor s with AJoin _ => 1 | _ => 0 end)%nat.

Definition stopping (code : Z) (m : acceptor_pc) : Prop := m = AJoin code ∨ m = AReturn code.

Lemma stopping_signal code m : stopping code m → signal_not_full m = m.
Proof. by intros [->| ->]. Qed.

Lemma step_stopping code s s' :
  queue_inv s → stopping code (s_acceptor s) → step s s' →
  stopping code (s_acceptor s') ∧ (shutdown_measure s' < shutdown_measure s)%nat.
Proof.
  intros Hq Hst Hs. pose proof (qi_pool _ Hq) as Hp. unfold shutdown_measure.
  destruct Hs; cbn in Hst, Hp |- *; rewrite ?total_work_replaced;
    try (by destruct Hst); try (split; [exact Hst|cbn [work]; lia]).
  - split; [destruct Hst as [[= ->]|[=]]; by right|].
    destruct (drain_spec p Hp) as (p2 & E & _ & Ez & _). rewrite E in H0. injection H0 as _ <-. lia.
  - rewrite (stopping_signal _ _ Hst). split; [exact Hst|].
    apply pop_done in H as (_ & _ & _ & _ & Ec); [|done]. cbn [work]. lia.
Qed.

(** While it joins, the shutdown is never stuck. *)
Lemma join_moves code s :
  queue_inv s → s_acceptor s = AJoin code → ∃ s', step s s'.
Proof.
  intros Hq Hm. pose proof (qi_pool _ Hq) as Hp. pose proof (qi_phase _ Hq) as Hph.
  rewrite Hm in Hph. destruct Hph as [_ Hnw].
  destruct (decide (Forall (.= WDone) (s_workers s))) as [HF|HF].
  - destruct (drain_spec _ Hp) as (p' & E & _). destruct s as [p r a m ws ac pu po cl]. cbn in *. subst m.
    eexists. by apply step_join.
  - apply not_Forall_Exists, Exists_exists in HF as (w & Hin & Hw); [|apply _].
    apply list_elem_of_lookup in Hin as [i Hi].
    destruct (awake_moves s i w Hq Hi) as (s' & Hs & _); [|by exists s'].
    split; [|done]. intros ->. apply Hnw. by eapply list_elem_of_lookup_2.
Qed.

Lemma stopping_bound code n s s' :
  (0 < workers)%nat → queue_inv s → stopping code (s_acceptor s) → nsteps step n s s' →
  (n ≤ shutdown_measure s)%nat.
Proof.
  intros Hworkers Hq Hst Hr. induction Hr as [s|n s1 s2 s3 Hs _ IH]; [lia|].
  destruct (step_stopping _ _ _ Hq Hst Hs) as [Hst' Hlt].
  specialize (IH (step_queue_inv _ _ Hworkers Hq Hs) Hst'). lia.
Qed.

Lemma join_returns code s :
  (0 < workers)%nat → queue_inv s → s_acceptor s = AJoin code →
  ∃ s', rtc step s s' ∧ s_acceptor s' = AReturn code.
Proof.
  intros Hworkers.
  remember (shutdown_measure s) as n eqn:En. revert s En.
  induction (lt_wf n) as [n _ IH]. intros s -> Hq Hm.
  destruct (join_moves code s Hq Hm) as [s1 Hs].
  destruct (step_stopping code s s1 Hq (or_introl Hm) Hs) as [[Hm1|Hm1] Hlt].
  - destruct (IH _ Hlt s1 eq_refl (step_queue_inv _ _ Hworkers Hq Hs) Hm1) as (s2 & Hr & Hm2).
    exists s2. split; [by eapply rtc_l|done].
  - exists s1. split; [by apply rtc_once|done].
Qed.
End invariants.

(** ** A run for the witnesses

    One worker of two starts, serves connection 7 and is joined. *)

Definition demo_pool (slots : list mnet_socket_t) (head count : nat) (down : bool) : mnet_pool_t :=
  MkPool slots 2 head count down.

Definition demo_start : system :=
  MkSystem (demo_pool [0; 0] 0 0 false) true 0 AStart [] [] [] [] [].

Definition demo_queued : system :=
  MkSystem (demo_pool [7; 0] 0 1 false) true 1 AAccept [WPop] [7] [7] [] [].

Definition demo_joining : system :=
  MkSystem (demo_pool [7; 0] 1 0 true) false 0 (AJoin 0) [WPop] [7] [7] [7] [7].

Definition demo_returned : system :=
  MkSystem (demo_pool [7; 0] 1 0 true) false 0 (AReturn 0) [WDone] [7] [7] [7] [7].

Lemma demo_to_queued : rtc (move 2 2) demo_start demo_queued.
Proof.
  eapply rtc_l; [left; by apply (step_create 2 2); simpl; lia|].
  eapply rtc_l; [left; apply (step_create_fail 2 2); simpl; lia|].
  eapply rtc_l; [left; by apply (step_running 2 2)|].
  eapply rtc_l; [left; apply (step_accept 2 2) with (client := 7); by intros ?%not_elem_of_nil|].
  eapply rtc_l; [left; by apply (step_admit 2 2)|].
  eapply rtc_l; [left; by apply (step_count 2 2)|].
  eapply rtc_l; [left; eapply (step_push 2 2); [by vm_compute|]|].
  { apply signal_lost. set_solver. }
  apply rtc_refl.
Qed.

Lemma demo_to_joining : rtc (move 2 2) demo_queued demo_joining.
Proof.
  eapply rtc_l; [left; by apply (step_pop 2 2 _ _ _ _ [] []); vm_compute|].
  eapply rtc_l; [left; apply (step_serve 2 2 _ _ _ _ [] [])|].
  eapply rtc_l; [left; apply (step_release 2 2 _ _ _ _ [] [])|].
  eapply rtc_l; [right; apply sig_handler|].
  eapply rtc_l; [left; by apply (step_stopped 2 2)|].
  eapply rtc_l; [left; by apply (step_shutdown 2 2)|].
  apply rtc_refl.
Qed.

Lemma demo_to_returned : rtc (move 2 2) demo_joining demo_returned.
Proof.
  eapply rtc_l; [left; by apply (step_pop_finished 2 2 _ _ _ _ [] [])|].
  eapply rtc_l; [left; by apply (step_join 2 2); [repeat constructor|vm_compute]|].
  apply rtc_refl.
Qed.

Lemma demo_initial : initial 2 demo_start.
Proof. by exists [0; 0]. Qed.

Lemma demo_queued_reachable : reachable 2 2 demo_queued.
Proof. exists demo_start. split; [apply demo_initial|apply demo_to_queued]. Qed.

Lemma demo_joining_reachable : reachable 2 2 demo_joining.
Proof.
  exists demo_start. split; [apply demo_initial|]. etrans; [apply demo_to_queued|apply demo_to_joining].
Qed.

Lemma demo_returned_reachable : reachable 2 2 demo_returned.
Proof.
  exists demo_start. split; [apply demo_initial|]. etrans; [apply demo_to_queued|].
  etrans; [apply demo_to_joining|apply demo_to_returned].
Qed.

(** ** Properties *)

(** C35: the ring buffer implements a bounded first-in first-out queue on every
    branch: a push appends, waits exactly when the queue is full and the server
    runs, and is refused exactly when the pool shuts down; a pop takes the
    oldest connection even during the shutdown, waits exactly when there is none
    and the pool is live, and ends the worker otherwise; draining closes what is
    queued in order.  No slot outside the array is touched. *)
Theorem pool_refines_queue (pool : mnet_pool_t) (running : bool) (client : mnet_socket_t) :
  pool_ok pool →
  match mnet_pool_push pool running client with
  | PushDone pool' => pool_ok pool' ∧ queue pool' = queue pool ++ [client] ∧
      po_shutting_down pool = false ∧ (length (queue pool) < po_capacity pool)%nat
  | PushWait => running = true ∧ length (queue pool) = po_capacity pool ∧
      po_shutting_down pool = false
  | PushRefused pool' => pool_ok pool' ∧ queue pool' = queue pool ∧ po_shutting_down pool' = true ∧
      (po_shutting_down pool = true ∨ running = false ∧ length (queue pool) = po_capacity pool)
  | PushUndefined => False
  end ∧
  match mnet_pool_pop pool with
  | PopDone client' pool' => pool_ok pool' ∧ queue pool = client' :: queue pool' ∧
      po_shutting_down pool' = po_shutting_down pool
  | PopWait => queue pool = [] ∧ po_shutting_down pool = false
  | PopFinished => queue pool = [] ∧ po_shutting_down pool = true
  | PopUndefined => False
  end ∧
  (∃ pool', drain pool = Some (queue pool, pool') ∧ queue pool' = []).
Proof.
  intros Hp. pose proof (length_queue pool) as Hl.
  assert (∀ p, po_count p = 0%nat → queue p = []) as Hnil
    by (intros p E; apply nil_length_inv; by rewrite length_queue).
  split_and!.
  - destruct (mnet_pool_push pool running client) as [|p'|p'|] eqn:E.
    + apply push_wait in E; [|done]. by rewrite Hl.
    + destruct (push_refused _ _ _ _ Hp E) as [[-> Hs]|(-> & Hr & Hf & Hs)].
      * split_and!; [done..|by left].
      * split_and!; [by apply set_shutting_down_ok|done|done|right]. by rewrite Hl.
    + destruct (push_done _ _ _ _ Hp E) as (? & ? & ? & ? & ? & ? & ?). by rewrite Hl.
    + rewrite push_spec in E by done. by repeat case_match.
  - destruct (mnet_pool_pop pool) as [| |c p'|] eqn:E.
    + apply pop_wait in E as [Ez Hs]. auto.
    + apply pop_finished in E as [Ez Hs]. auto.
    + by destruct (pop_done _ _ _ Hp E) as (? & ? & ? & ? & ?).
    + by apply (pop_defined pool).
  - destruct (drain_spec pool Hp) as (p' & E & _ & Ez & _). exists p'. auto.
Qed.

Lemma pool_refines_queue_witness :
  mnet_pool_push (demo_pool [7; 8] 1 1 false) true 9 = PushDone (demo_pool [9; 8] 1 2 false) ∧
  pool_ok (demo_pool [9; 8] 1 2 false) ∧
  queue (demo_pool [9; 8] 1 2 false) = queue (demo_pool [7; 8] 1 1 false) ++ [9].
Proof.
  assert (pool_ok (demo_pool [7; 8] 1 1 false)) as Hp by (split; simpl; lia).
  destruct (pool_refines_queue (demo_pool [7; 8] 1 1 false) true 9 Hp) as ((H1 & H2 & _) & _).
  split; [reflexivity|]. split; [exact H1|exact H2].
Defined.

(** with a connection limit, no interleaving of the accept loop and the
    workers exceeds it: the counter, and with it the number of connections
    queued or being served, is at most [max_connections]; and because the queue
    is as large as the limit, the accept loop never has to wait for a slot. *)
Theorem connection_limit (max_connections : Z) (workers : nat) (s : system) :
  (0 < workers)%nat → 0 < max_connections → reachable max_connections workers s →
  0 ≤ s_active s ≤ max_connections ∧
  Z.of_nat (length (queue (s_pool s)) + length (served (s_workers s))) ≤ s_active s ∧
  (∀ c, s_acceptor s ≠ AWaitFull c).
Proof.
  intros Hw Hmax Hr. destruct (reachable_inv _ _ s Hw Hr) as (Hq & [Ha Hl] & _).
  destruct (Hl Hmax) as [Hle _].
  assert (0 ≤ counted (s_acceptor s)) as Hc by (by destruct (s_acceptor s)).
  assert (Z.of_nat (length (served (s_workers s))) ≤ busy_count (s_workers s)) as Hs.
  { clear. induction (s_workers s) as [|w ws IH]; [done|].
    rewrite served_cons, busy_count_cons, length_app. destruct w; simpl; lia. }
  rewrite length_queue. split_and!; [lia..|]. intros c Hm.
  pose proof (qi_phase _ _ Hq) as Hph. rewrite Hm in Hph, Ha. destruct Hph as (_ & _ & Hf).
  cbn [counted] in Ha. rewrite (qi_capacity _ _ Hq) in Hf. unfold pool_capacity in Hf.
  rewrite (proj2 (Z.ltb_lt _ _)) in Hf by done. lia.
Qed.

Lemma connection_limit_witness :
  0 ≤ s_active demo_queued ≤ 2 ∧
  Z.of_nat (length (queue (s_pool demo_queued)) + length (served (s_workers demo_queued)))
    ≤ s_active demo_queued ∧
  (∀ c, s_acceptor demo_queued ≠ AWaitFull c).
Proof. apply (connection_limit 2 2); [lia|lia|apply demo_queued_reachable]. Defined.

(** C16: no connection is lost, served twice or closed twice: at any time the
    connections accepted are those closed and those in exactly one place (the
    queue, a worker or the accept loop), and workers pop them in the order they
    were pushed; when [mnet_run] returns, every connection accepted has been
    closed, every one queued has been served, and the counter is zero. *)
Theorem connections_closed_once (max_connections : Z) (workers : nat) (s : system) :
  (0 < workers)%nat → reachable max_connections workers s →
  s_accepted s ≡ₚ s_closed s ++ open_sockets s ∧ NoDup (open_sockets s) ∧
  s_pushed s = s_popped s ++ queue (s_pool s) ∧
  (∀ code, s_acceptor s = AReturn code →
     s_accepted s ≡ₚ s_closed s ∧ s_pushed s = s_popped s ∧ s_active s = 0).
Proof.
  intros Hw Hr. destruct (reachable_inv _ _ s Hw Hr) as (Hq & [Ha _] & [Ho Hn Hf]).
  split_and!; [done..|]. intros code Hm.
  destruct (returned_empty _ s code Hq Hm) as (Hz & Eq & Es & Eb). split_and!.
  - rewrite Ho. unfold open_sockets. by rewrite Eq, Es, Hm, !app_nil_r.
  - by rewrite Hf, Eq, app_nil_r.
  - by rewrite Ha, Hz, Eb, Hm.
Qed.

Lemma connections_closed_once_witness :
  s_accepted demo_returned ≡ₚ s_closed demo_returned ++ open_sockets demo_returned ∧
  NoDup (open_sockets demo_returned) ∧
  s_pushed demo_returned = s_popped demo_returned ++ queue (s_pool demo_returned) ∧
  (∀ code, s_acceptor demo_returned = AReturn code →
     s_accepted demo_returned ≡ₚ s_closed demo_returned ∧
     s_pushed demo_returned = s_popped demo_returned ∧ s_active demo_returned = 0).
Proof. apply (connections_closed_once 2 2); [lia|apply demo_returned_reachable]. Defined.

(** no wake-up is lost: before the shutdown, whenever a connection is queued
    (in particular while the accept loop waits for a slot), some worker is
    neither waiting nor finished, and it can take its next step without any
    spurious wake-up. *)
Theorem no_lost_wakeup (max_connections : Z) (workers : nat) (s : system) :
  (0 < workers)%nat → reachable max_connections workers s →
  po_shutting_down (s_pool s) = false →
  (queue (s_pool s) ≠ [] ∨ ∃ c, s_acceptor s = AWaitFull c) →
  ∃ i w s', s_workers s !! i = Some w ∧ awake w ∧ step max_connections workers s s' ∧
    s_workers s' !! i ≠ Some w.
Proof.
  intros Hw Hr Hsd Hwork. destruct (reachable_inv _ _ s Hw Hr) as (Hq & _ & _).
  assert (0 < po_count (s_pool s))%nat as Hpos.
  { destruct Hwork as [Hne|[c Hm]].
    - rewrite <-length_queue. by destruct (queue (s_pool s)); [|simpl; lia].
    - pose proof (qi_phase _ _ Hq) as Hph. rewrite Hm in Hph. destruct Hph as (_ & _ & ->).
      apply (qi_pool _ _ Hq). }
  pose proof (qi_awake _ _ Hq Hpos Hsd) as Hex. apply Exists_exists in Hex as (w & Hin & Haw).
  apply list_elem_of_lookup in Hin as [i Hi].
  destruct (awake_moves max_connections workers s i w Hq Hi Haw) as (s' & Hs & Hne & _). eauto 10.
Qed.

Lemma no_lost_wakeup_witness :
  ∃ i w s', s_workers demo_queued !! i = Some w ∧ awake w ∧ step 2 2 demo_queued s' ∧
    s_workers s' !! i ≠ Some w.
Proof.
  apply (no_lost_wakeup 2 2); [lia|apply demo_queued_reachable|reflexivity|left; discriminate].
Defined.

(** C34: the shutdown terminates: once [mnet_pool_shutdown] joins the workers, every
    schedule of the remaining steps is finite (bounded by what is queued and
    being served), and it can always be completed to the return of [mnet_run]
    with the code it was entered with: no worker is left waiting. *)
Theorem shutdown_terminates (max_connections : Z) (workers : nat) (s : system) (code : Z) :
  (0 < workers)%nat → reachable max_connections workers s → s_acceptor s = AJoin code →
  (∀ n s', nsteps (step max_connections workers) n s s' → (n ≤ shutdown_measure s)%nat) ∧
  (∃ s', rtc (step max_connections workers) s s' ∧ s_acceptor s' = AReturn code).
Proof.
  intros Hw Hr Hm. destruct (reachable_inv _ _ s Hw Hr) as (Hq & _ & _). split.
  - intros n s'. by apply (stopping_bound max_connections workers code); [| |left].
  - by apply join_returns.
Qed.

Lemma shutdown_terminates_witness :
  (∀ n s', nsteps (step 2 2) n demo_joining s' → (n ≤ shutdown_measure demo_joining)%nat) ∧
  (∃ s', rtc (step 2 2) demo_joining s' ∧ s_acceptor s' = AReturn 0).
Proof.
  apply (shutdown_terminates 2 2); [lia|apply demo_joining_reachable|reflexivity].
Defined.
