(* ===== verification/Threads.v ===== *)
(** * The threads of the server, instruction by instruction

    [src/mnet_internal.h]: the thread layer ([mnet_mutex_lock] and its
    companions); [src/mnet_server.c]: [mnet_pool_push], [mnet_pool_pop],
    [mnet_worker_main], [mnet_pool_shutdown] and the second half of [mnet_run]
    cut at every access to shared memory.  Any thread can be interrupted between
    any two instructions.

    [Pool.v] takes each critical section for one step.  The theorems below show
    that this loses nothing: every run of the instructions is, read through
    [refines], a run of [Pool.v]; no two threads are ever inside the mutex
    together; nothing undefined happens; and the threads never block each other
    for good. *)

From S2P Require Export Pool.

(** ** The thread layer *)

Inductive thread_id := TMain | TWorker (i : nat).

#[export] Instance thread_id_eq_dec : EqDecision thread_id.
Proof. solve_decision. Defined.

(** A mutex is free, held by a thread, or destroyed. *)
Inductive mnet_mutex_t := Unlocked | Locked (t : thread_id) | Destroyed.

#[export] Instance mnet_mutex_eq_dec : EqDecision mnet_mutex_t.
Proof. solve_decision. Defined.

(** An instruction completes, has to wait, or is undefined. *)
Inductive attempt (A : Type) := Blocked | Undefined | Done (a : A).
Arguments Blocked {A}.
Arguments Undefined {A}.
Arguments Done {A} a.

#[export] Instance attempt_bind : MBind attempt := λ A B k a,
  match a with Blocked => Blocked | Undefined => Undefined | Done a => k a end.

Definition mnet_mutex_init : mnet_mutex_t := Unlocked.

(** Locking a mutex twice in one thread, or a destroyed one, is undefined. *)
Definition mnet_mutex_lock (me : thread_id) (m : mnet_mutex_t) : attempt mnet_mutex_t :=
  match m with
  | Unlocked => Done (Locked me)
  | Locked t => if decide (t = me) then Undefined else Blocked
  | Destroyed => Undefined
  end.

Definition mnet_mutex_unlock (me : thread_id) (m : mnet_mutex_t) : attempt mnet_mutex_t :=
  if decide (m = Locked me) then Done Unlocked else Undefined.

(** [mnet_cond_wait] gives the mutex back and puts the thread to sleep in one step;
    a thread that is woken takes the mutex again with [mnet_mutex_lock]. *)
Definition mnet_cond_wait (me : thread_id) (m : mnet_mutex_t) : attempt mnet_mutex_t :=
  mnet_mutex_unlock me m.

Definition mnet_mutex_destroy (m : mnet_mutex_t) : attempt mnet_mutex_t :=
  match m with Unlocked => Done Destroyed | _ => Undefined end.

(** ** Shared memory *)

Record shared := MkShared {
  sh_pool : mnet_pool_t;
  sh_running : bool;
  sh_active : Z;
  sh_mutex : mnet_mutex_t;
  sh_slots_live : bool;        (* [pool.slots] has not been freed *)
}.

Definition with_mutex (sh : shared) (m : mnet_mutex_t) : shared :=
  MkShared (sh_pool sh) (sh_running sh) (sh_active sh) m (sh_slots_live sh).
Definition with_pool (sh : shared) (p : mnet_pool_t) : shared :=
  MkShared p (sh_running sh) (sh_active sh) (sh_mutex sh) (sh_slots_live sh).
Definition with_active (sh : shared) (a : Z) : shared :=
  MkShared (sh_pool sh) (sh_running sh) a (sh_mutex sh) (sh_slots_live sh).
Definition with_running (sh : shared) (r : bool) : shared :=
  MkShared (sh_pool sh) r (sh_active sh) (sh_mutex sh) (sh_slots_live sh).
Definition free_slots (sh : shared) : shared :=
  MkShared (sh_pool sh) (sh_running sh) (sh_active sh) (sh_mutex sh) false.

(** What an instruction does to the other threads. *)
Inductive effect :=
  | Quiet
  | SignalNotEmpty | SignalNotFull
  | BroadcastNotEmpty | BroadcastNotFull
  | ThreadCreated.

(** What it does to a connection. *)
Inductive event :=
  | EvAccepted (c : mnet_socket_t) | EvPushed (c : mnet_socket_t)
  | EvPopped (c : mnet_socket_t) | EvClosed (c : mnet_socket_t).

(** [pool->slots[pool->head]] *)
Definition slot_at_head (sh : shared) : attempt mnet_socket_t :=
  if sh_slots_live sh then
    match po_slots (sh_pool sh) !! po_head (sh_pool sh) with Some c => Done c | None => Undefined end
  else Undefined.

(** [pool->head = (pool->head + 1) % pool->capacity] *)
Definition advance_head (sh : shared) : attempt shared :=
  let p := sh_pool sh in
  if (po_capacity p =? 0)%nat then Undefined
  else Done (with_pool sh (MkPool (po_slots p) (po_capacity p) ((po_head p + 1) mod po_capacity p)
                             (po_count p) (po_shutting_down p))).

(** [pool->slots[(pool->head + pool->count) % pool->capacity] = client] *)
Definition store_slot (sh : shared) (client : mnet_socket_t) : attempt shared :=
  let p := sh_pool sh in
  if (po_capacity p =? 0)%nat then Undefined
  else
    let i := ((po_head p + po_count p) mod po_capacity p)%nat in
    if (sh_slots_live sh && (i <? length (po_slots p))%nat)%bool then
      Done (with_pool sh (MkPool (<[i := client]> (po_slots p)) (po_capacity p) (po_head p)
                            (po_count p) (po_shutting_down p)))
    else Undefined.

(** [pool->count] after [++] or [--] *)
Definition with_count (sh : shared) (n : nat) : shared :=
  let p := sh_pool sh in
  with_pool sh (MkPool (po_slots p) (po_capacity p) (po_head p) n (po_shutting_down p)).

(** [pool->shutting_down = 1] *)
Definition stop_pool (sh : shared) : shared := with_pool sh (set_shutting_down (sh_pool sh)).

(** ** A worker: [mnet_worker_main], with [mnet_pool_pop] *)

Inductive worker_at :=
  | PopLock | PopTest                  (* mnet_pool_pop: lock; the loop's condition *)
  | PopWait | PopSleep | PopWake       (* mnet_cond_wait: called, asleep, woken *)
  | PopCheck | PopFail                 (* if (count == 0); unlock, return -1 *)
  | PopTake                            (* *out = slots[head] *)
  | PopHead (c : mnet_socket_t) | PopCount (c : mnet_socket_t)
  | PopSignal (c : mnet_socket_t) | PopUnlock (c : mnet_socket_t)
  | Serve (c : mnet_socket_t) | Close (c : mnet_socket_t)
  | RelLock | RelDec | RelUnlock       (* active_connections-- *)
  | Exit.                              (* returned *)

#[export] Instance worker_at_eq_dec : EqDecision worker_at.
Proof. solve_decision. Defined.

Definition worker_step (me : thread_id) (w : worker_at) (sh : shared) :
    attempt (worker_at * shared * effect * option event) :=
  let p := sh_pool sh in
  match w with
  | PopLock => m ← mnet_mutex_lock me (sh_mutex sh); Done (PopTest, with_mutex sh m, Quiet, None)
  | PopTest =>
      if ((po_count p =? 0)%nat && negb (po_shutting_down p))%bool then Done (PopWait, sh, Quiet, None)
      else Done (PopCheck, sh, Quiet, None)
  | PopWait => m ← mnet_cond_wait me (sh_mutex sh); Done (PopSleep, with_mutex sh m, Quiet, None)
  | PopSleep => Blocked
  | PopWake => m ← mnet_mutex_lock me (sh_mutex sh); Done (PopTest, with_mutex sh m, Quiet, None)
  | PopCheck => Done (if (po_count p =? 0)%nat then PopFail else PopTake, sh, Quiet, None)
  | PopFail => m ← mnet_mutex_unlock me (sh_mutex sh); Done (Exit, with_mutex sh m, Quiet, None)
  | PopTake => c ← slot_at_head sh; Done (PopHead c, sh, Quiet, None)
  | PopHead c => sh ← advance_head sh; Done (PopCount c, sh, Quiet, None)
  | PopCount c => Done (PopSignal c, with_count sh (pred (po_count p)), Quiet, None)
  | PopSignal c => Done (PopUnlock c, sh, SignalNotFull, Some (EvPopped c))
  | PopUnlock c => m ← mnet_mutex_unlock me (sh_mutex sh); Done (Serve c, with_mutex sh m, Quiet, None)
  | Serve c => Done (Close c, sh, Quiet, None)
  | Close c => Done (RelLock, sh, Quiet, Some (EvClosed c))
  | RelLock => m ← mnet_mutex_lock me (sh_mutex sh); Done (RelDec, with_mutex sh m, Quiet, None)
  | RelDec => Done (RelUnlock, with_active sh (sh_active sh - 1), Quiet, None)
  | RelUnlock => m ← mnet_mutex_unlock me (sh_mutex sh); Done (PopLock, with_mutex sh m, Quiet, None)
  | Exit => Blocked
  end.

(** ** The accept loop: [mnet_run], with [mnet_pool_push] and [mnet_pool_shutdown] *)

Inductive main_at :=
  | Create                             (* the loop that starts the workers *)
  | TestRunning | Accept               (* while (app->running); mnet_tcp_accept *)
  | AdmLock (c : mnet_socket_t) | AdmRead (c : mnet_socket_t)
  | AdmUnlock (c : mnet_socket_t) (active : Z) | AdmTest (c : mnet_socket_t) (active : Z)
  | Refuse (c : mnet_socket_t)         (* send_simple_error, mnet_close *)
  | CntLock (c : mnet_socket_t) | CntInc (c : mnet_socket_t) | CntUnlock (c : mnet_socket_t)
  (* mnet_pool_push *)
  | PushLock (c : mnet_socket_t) | PushTest (c : mnet_socket_t)
  | PushRunning (c : mnet_socket_t) | PushStop (c : mnet_socket_t)
  | PushWait (c : mnet_socket_t) | PushSleep (c : mnet_socket_t) | PushWake (c : mnet_socket_t)
  | PushCheck (c : mnet_socket_t) | PushFail (c : mnet_socket_t)
  | PushStore (c : mnet_socket_t) | PushCount (c : mnet_socket_t)
  | PushSignal (c : mnet_socket_t) | PushUnlock (c : mnet_socket_t)
  (* the push was refused *)
  | UndoLock (c : mnet_socket_t) | UndoDec (c : mnet_socket_t)
  | UndoUnlock (c : mnet_socket_t) | UndoClose (c : mnet_socket_t)
  (* mnet_pool_shutdown; the code that mnet_run will return *)
  | ShutLock (code : Z) | ShutSet (code : Z) | ShutNotEmpty (code : Z) | ShutNotFull (code : Z)
  | ShutUnlock (code : Z) | ShutJoin (code : Z) (i : nat) | ShutDrain (code : Z)
  | ShutFree (code : Z) | ShutDestroy (code : Z)
  | Return (code : Z).

(** What the system answers to [mnet_thread_create] and [mnet_tcp_accept]. *)
Inductive answer :=
  | AnsCreated | AnsNotCreated
  | AnsAccepted (c : mnet_socket_t) | AnsInterrupted | AnsFailed
  | AnsNone.

Section threads.
(** [app->max_connections] and [app->workers] *)
Variables (max_connections : Z) (workers : nat).

Definition main_step (ans : answer) (ws : list worker_at) (m : main_at) (sh : shared) :
    attempt (main_at * shared * effect * option event) :=
  let p := sh_pool sh in
  let lock m' := m ← mnet_mutex_lock TMain (sh_mutex sh); Done (m', with_mutex sh m, Quiet, None) in
  let unlock m' := m ← mnet_mutex_unlock TMain (sh_mutex sh); Done (m', with_mutex sh m, Quiet, None) in
  let next m' := Done (m', sh, Quiet, None) in
  match m with
  | Create =>
      if (length ws <? workers)%nat then
        match ans with
        | AnsCreated => Done (Create, sh, ThreadCreated, None)
        | AnsNotCreated => next (if (length ws =? 0)%nat then ShutLock (-1) else TestRunning)
        | _ => Blocked
        end
      else next TestRunning
  | TestRunning => next (if sh_running sh then Accept else ShutLock 0)
  | Accept =>
      match ans with
      | AnsAccepted c => Done (AdmLock c, sh, Quiet, Some (EvAccepted c))
      | AnsInterrupted => next TestRunning
      | AnsFailed => next (ShutLock 0)
      | _ => Blocked
      end
  | AdmLock c => lock (AdmRead c)
  | AdmRead c => next (AdmUnlock c (sh_active sh))
  | AdmUnlock c active => unlock (AdmTest c active)
  | AdmTest c active => next (if at_limit max_connections active then Refuse c else CntLock c)
  | Refuse c => Done (TestRunning, sh, Quiet, Some (EvClosed c))
  | CntLock c => lock (CntInc c)
  | CntInc c => Done (CntUnlock c, with_active sh (sh_active sh + 1), Quiet, None)
  | CntUnlock c => unlock (PushLock c)
  | PushLock c => lock (PushTest c)
  | PushTest c =>
      next (if ((po_count p =? po_capacity p)%nat && negb (po_shutting_down p))%bool
            then PushRunning c else PushCheck c)
  | PushRunning c => next (if sh_running sh then PushWait c else PushStop c)
  | PushStop c => Done (PushCheck c, stop_pool sh, Quiet, None)
  | PushWait c => m ← mnet_cond_wait TMain (sh_mutex sh); Done (PushSleep c, with_mutex sh m, Quiet, None)
  | PushSleep c => Blocked
  | PushWake c => lock (PushTest c)
  | PushCheck c => next (if po_shutting_down p then PushFail c else PushStore c)
  | PushFail c => unlock (UndoLock c)
  | PushStore c => sh ← store_slot sh c; Done (PushCount c, sh, Quiet, None)
  | PushCount c => Done (PushSignal c, with_count sh (S (po_count p)), Quiet, None)
  | PushSignal c => Done (PushUnlock c, sh, SignalNotEmpty, Some (EvPushed c))
  | PushUnlock c => unlock TestRunning
  | UndoLock c => lock (UndoDec c)
  | UndoDec c => Done (UndoUnlock c, with_active sh (sh_active sh - 1), Quiet, None)
  | UndoUnlock c => unlock (UndoClose c)
  | UndoClose c => Done (ShutLock 0, sh, Quiet, Some (EvClosed c))
  | ShutLock k => lock (ShutSet k)
  | ShutSet k => Done (ShutNotEmpty k, stop_pool sh, Quiet, None)
  | ShutNotEmpty k => Done (ShutNotFull k, sh, BroadcastNotEmpty, None)
  | ShutNotFull k => Done (ShutUnlock k, sh, BroadcastNotFull, None)
  | ShutUnlock k => unlock (ShutJoin k 0)
  | ShutJoin k i =>
      (* mnet_thread_join *)
      match ws !! i with
      | None => next (ShutDrain k)
      | Some Exit => next (ShutJoin k (S i))
      | Some _ => Blocked
      end
  | ShutDrain k =>
      if (po_count p =? 0)%nat then next (ShutFree k)
      else
        c ← slot_at_head sh;
        sh ← advance_head sh;
        Done (ShutDrain k, with_count sh (pred (po_count p)), Quiet, Some (EvClosed c))
  | ShutFree k => Done (ShutDestroy k, free_slots sh, Quiet, None)
  | ShutDestroy k => m ← mnet_mutex_destroy (sh_mutex sh); Done (Return k, with_mutex sh m, Quiet, None)
  | Return _ => Blocked
  end.
End threads.

(** ** All threads together *)

(** The connections accepted, pushed, popped and closed so far. *)
Record history := MkHistory {
  h_accepted : list mnet_socket_t;
  h_pushed : list mnet_socket_t;
  h_popped : list mnet_socket_t;
  h_closed : list mnet_socket_t;
}.

Definition happens (ev : option event) (h : history) : history :=
  match ev with
  | None => h
  | Some (EvAccepted c) => MkHistory (h_accepted h ++ [c]) (h_pushed h) (h_popped h) (h_closed h)
  | Some (EvPushed c) => MkHistory (h_accepted h) (h_pushed h ++ [c]) (h_popped h) (h_closed h)
  | Some (EvPopped c) => MkHistory (h_accepted h) (h_pushed h) (h_popped h ++ [c]) (h_closed h)
  | Some (EvClosed c) => MkHistory (h_accepted h) (h_pushed h) (h_popped h) (h_closed h ++ [c])
  end.

Record threads := MkThreads {
  th_shared : shared;
  th_main : main_at;
  th_workers : list worker_at;
  th_history : history;
}.

Definition wake_worker (w : worker_at) : worker_at := match w with PopSleep => PopWake | w => w end.
Definition wake_main (m : main_at) : main_at := match m with PushSleep c => PushWake c | m => m end.

(** [mnet_cond_signal] and [mnet_cond_broadcast]; only workers wait for [not_empty]
    and only the accept loop for [not_full].  [mnet_thread_create]. *)
Inductive affects : effect → main_at → list worker_at → main_at → list worker_at → Prop :=
  | affects_quiet m ws : affects Quiet m ws m ws
  | affects_one m ws1 ws2 :
      affects SignalNotEmpty m (ws1 ++ PopSleep :: ws2) m (ws1 ++ PopWake :: ws2)
  | affects_none m ws : PopSleep ∉ ws → affects SignalNotEmpty m ws m ws
  | affects_full m ws : affects SignalNotFull m ws (wake_main m) ws
  | affects_all m ws : affects BroadcastNotEmpty m ws m (wake_worker <$> ws)
  | affects_all_full m ws : affects BroadcastNotFull m ws (wake_main m) ws
  | affects_created m ws : affects ThreadCreated m ws m (ws ++ [PopLock]).

(** A descriptor that [mnet_tcp_accept] returns is not open. *)
Definition fresh (h : history) (ans : answer) : Prop :=
  match ans with
  | AnsAccepted c => ∀ open, h_accepted h ≡ₚ h_closed h ++ open → c ∉ open
  | _ => True
  end.

Section system.
Variables (max_connections : Z) (workers : nat).

(** One instruction of one thread. *)
Inductive instruction : threads → threads → Prop :=
  | run_worker sh m ws h i w w' sh' e ev m' ws' :
      ws !! i = Some w → worker_step (TWorker i) w sh = Done (w', sh', e, ev) →
      affects e m (<[i := w']> ws) m' ws' →
      instruction (MkThreads sh m ws h) (MkThreads sh' m' ws' (happens ev h))
  | run_main sh m ws h ans m1 sh' e ev m' ws' :
      fresh h ans → main_step max_connections workers ans ws m sh = Done (m1, sh', e, ev) →
      affects e m1 ws m' ws' →
      instruction (MkThreads sh m ws h) (MkThreads sh' m' ws' (happens ev h)).

(** Spurious wake-ups, and the signal handler. *)
Inductive interference : threads → threads → Prop :=
  | wakes_worker sh m ws h i :
      ws !! i = Some PopSleep →
      interference (MkThreads sh m ws h) (MkThreads sh m (<[i := PopWake]> ws) h)
  | wakes_main sh c ws h :
      interference (MkThreads sh (PushSleep c) ws h) (MkThreads sh (PushWake c) ws h)
  | clears_running sh m ws h :
      interference (MkThreads sh m ws h) (MkThreads (with_running sh false) m ws h).

Definition advances (f f' : threads) : Prop := instruction f f' ∨ interference f f'.

Definition starts (f : threads) : Prop :=
  ∃ slots, length slots = pool_capacity max_connections ∧
    f = MkThreads (MkShared (new_pool slots) true 0 mnet_mutex_init true) Create []
          (MkHistory [] [] [] []).

Definition runs_to (f : threads) : Prop := ∃ f0, starts f0 ∧ rtc advances f0 f.

(** Some thread is about to do something undefined. *)
Definition goes_wrong (f : threads) : Prop :=
  (∃ i w, th_workers f !! i = Some w ∧ worker_step (TWorker i) w (th_shared f) = Undefined) ∨
  (∃ ans, main_step max_connections workers ans (th_workers f) (th_main f) (th_shared f) = Undefined).
End system.

(** The code between lock and unlock. *)
Definition worker_inside (w : worker_at) : bool :=
  match w with
  | PopTest | PopWait | PopCheck | PopFail | PopTake | PopHead _ | PopCount _ | PopSignal _
  | PopUnlock _ | RelDec | RelUnlock => true
  | _ => false
  end.

Definition main_inside (m : main_at) : bool :=
  match m with
  | AdmRead _ | AdmUnlock _ _ | CntInc _ | CntUnlock _
  | PushTest _ | PushRunning _ | PushStop _ | PushWait _ | PushCheck _ | PushFail _
  | PushStore _ | PushCount _ | PushSignal _ | PushUnlock _ | UndoDec _ | UndoUnlock _
  | ShutSet _ | ShutNotEmpty _ | ShutNotFull _ | ShutUnlock _ => true
  | _ => false
  end.

(** ** Reading a state of the threads as a state of [Pool.v] *)

Definition read_worker (w : worker_at) : worker_pc :=
  match w with
  | PopSleep => WWait
  | PopFail | Exit => WDone
  | PopUnlock c | Serve c | Close c => WServe c
  | RelLock | RelDec => WRelease
  | _ => WPop
  end.

Definition read_main (max_connections : Z) (m : main_at) : acceptor_pc :=
  match m with
  | Create => AStart
  | TestRunning | PushUnlock _ => AAccept
  | Accept => AListen
  | AdmLock c | AdmRead c => AAdmit c
  | AdmUnlock c a | AdmTest c a => if at_limit max_connections a then ARefuse c else ACount c
  | Refuse c => ARefuse c
  | CntLock c | CntInc c => ACount c
  | PushWait c | PushSleep c => AWaitFull c
  | PushFail c | UndoLock c | UndoDec c | UndoUnlock c | UndoClose c => AUndo c
  | ShutLock k | ShutSet k | ShutNotEmpty k => AShutdown k
  | ShutNotFull k | ShutUnlock k | ShutJoin k _ | ShutDrain k => AJoin k
  | ShutFree k | ShutDestroy k | Return k => AReturn k
  | CntUnlock c | PushLock c | PushTest c | PushRunning c | PushStop c | PushWake c | PushCheck c
  | PushStore c | PushCount c | PushSignal c => APush c
  end.

(** How far the shared pool [p] of a thread inside the mutex is ahead of the pool
    [q] of [Pool.v], which changes at the thread's last instruction that others
    can observe. *)
Definition worker_ahead (w : worker_at) (q p : mnet_pool_t) : Prop :=
  match w with
  | PopWait => p = q ∧ po_count p = 0%nat ∧ po_shutting_down p = false
  | PopCheck => p = q ∧ (po_count p = 0%nat → po_shutting_down p = true)
  | PopTake => p = q ∧ po_count p ≠ 0%nat
  | PopHead c => p = q ∧ po_count p ≠ 0%nat ∧ po_slots p !! po_head p = Some c
  | PopCount c => ∃ p', mnet_pool_pop q = PopDone c p' ∧ po_count p' = pred (po_count p) ∧
      p = MkPool (po_slots p') (po_capacity p') (po_head p') (po_count p) (po_shutting_down p')
  | PopSignal c => mnet_pool_pop q = PopDone c p
  | PopTest | PopFail | PopUnlock _ | RelDec | RelUnlock => p = q
  | _ => True
  end.

Definition main_ahead (m : main_at) (r : bool) (q p : mnet_pool_t) : Prop :=
  match m with
  | PushRunning _ => p = q ∧ po_count p = po_capacity p ∧ po_shutting_down p = false
  | PushStop _ => p = q ∧ po_count p = po_capacity p ∧ po_shutting_down p = false ∧ r = false
  | PushCheck c => p = q ∧ (po_count p = po_capacity p → po_shutting_down p = true) ∨
      r = false ∧ mnet_pool_push q false c = PushRefused p
  | PushStore c => p = q ∧ po_count p ≠ po_capacity p ∧ po_shutting_down p = false
  | PushCount c => ∃ p', (∀ r, mnet_pool_push q r c = PushDone p') ∧ po_count p' = S (po_count p) ∧
      p = MkPool (po_slots p') (po_capacity p') (po_head p') (po_count p) (po_shutting_down p')
  | PushSignal c => ∀ r, mnet_pool_push q r c = PushDone p
  | ShutNotEmpty _ => p = set_shutting_down q
  | AdmRead _ | AdmUnlock _ _ | CntInc _ | CntUnlock _ | PushTest _ | PushWait _ | PushFail _
  | PushUnlock _ | UndoDec _ | UndoUnlock _ | ShutSet _ | ShutNotFull _ | ShutUnlock _ => p = q
  | _ => True
  end.

(** The rest of what a position of the accept loop says. *)
Definition main_says (m : main_at) (ws : list worker_at) (h : history) (f : shared) (s : system) : Prop :=
  match m with
  | ShutDrain _ => Forall (.= Exit) ws ∧ ∃ done rest p',
      drain (s_pool s) = Some (done ++ rest, p') ∧ drain (sh_pool f) = Some (rest, p') ∧
      h_closed h = s_closed s ++ done
  | ShutJoin _ i => Forall (.= Exit) (take i ws) ∧ h_closed h = s_closed s
  | ShutFree _ | ShutDestroy _ | Return _ => Forall (.= Exit) ws ∧ h_closed h = s_closed s
  | _ => h_closed h = s_closed s
  end.

(** The positions where the counter is one ahead, where the slots are freed, where
    the mutex is destroyed, and where the pool is between its states without the
    mutex. *)
Definition undone (m : main_at) : Z := match m with UndoUnlock _ | UndoClose _ => 1 | _ => 0 end.
Definition past_free (m : main_at) : bool :=
  match m with ShutDestroy _ | Return _ => true | _ => false end.
Definition past_destroy (m : main_at) : bool := match m with Return _ => true | _ => false end.
Definition draining (m : main_at) : bool := match m with ShutDrain _ => true | _ => false end.

(** Who is inside the mutex is who holds it. *)
Record mutex_ok (x : mnet_mutex_t) (m : main_at) (ws : list worker_at) : Prop := {
  mx_main : main_inside m = true ↔ x = Locked TMain;
  mx_worker : ∀ i w, ws !! i = Some w → (worker_inside w = true ↔ x = Locked (TWorker i));
  mx_holder : ∀ i, x = Locked (TWorker i) → (i < length ws)%nat;
  mx_destroyed : past_destroy m = true ↔ x = Destroyed;
}.

Record refines (max_connections : Z) (f : threads) (s : system) : Prop := {
  rf_main : s_acceptor s = read_main max_connections (th_main f);
  rf_workers : s_workers s = read_worker <$> th_workers f;
  rf_running : s_running s = sh_running (th_shared f);
  rf_active : s_active s = sh_active (th_shared f) + undone (th_main f);
  rf_history : s_accepted s = h_accepted (th_history f) ∧ s_pushed s = h_pushed (th_history f) ∧
    s_popped s = h_popped (th_history f);
  rf_says : main_says (th_main f) (th_workers f) (th_history f) (th_shared f) s;
  rf_mutex : mutex_ok (sh_mutex (th_shared f)) (th_main f) (th_workers f);
  rf_live : sh_slots_live (th_shared f) = negb (past_free (th_main f));
  rf_ahead_main : main_ahead (th_main f) (s_running s) (s_pool s) (sh_pool (th_shared f));
  rf_ahead_worker : ∀ i w, th_workers f !! i = Some w →
    worker_ahead w (s_pool s) (sh_pool (th_shared f));
  rf_free : sh_mutex (th_shared f) = Unlocked → draining (th_main f) = false →
    sh_pool (th_shared f) = s_pool s;
}.

(** ** The mutex *)

(** How an instruction of a thread may change the mutex. *)
Inductive mutex_move (me : thread_id) (inside inside' : bool) (x x' : mnet_mutex_t) : Prop :=
  | mutex_same : inside' = inside → x' = x → mutex_move me inside inside' x x'
  | mutex_taken : inside = false → inside' = true → x = Unlocked → x' = Locked me →
      mutex_move me inside inside' x x'
  | mutex_left : inside = true → inside' = false → x' = Unlocked →
      mutex_move me inside inside' x x'.

Lemma lock_taken me x x' : mnet_mutex_lock me x = Done x' → x = Unlocked ∧ x' = Locked me.
Proof. destruct x as [|t|]; simpl; [by intros [= <-]|by case_decide|done]. Qed.

Lemma unlock_left me x x' : mnet_mutex_unlock me x = Done x' → x = Locked me ∧ x' = Unlocked.
Proof. unfold mnet_mutex_unlock. case_decide; [|done]. by intros [= <-]. Qed.

Lemma lookup_insert_cases {A} (l : list A) i j (x y : A) :
  <[i := x]> l !! j = Some y → (j = i ∧ y = x) ∨ (j ≠ i ∧ l !! j = Some y).
Proof.
  intros H. destruct (decide (j = i)) as [->|Hne].
  - left. assert (i < length l)%nat as Hi by (rewrite <-(length_insert l i x); by eapply lookup_lt_Some).
    rewrite list_lookup_insert in H. rewrite decide_True in H by done. by simplify_eq.
  - right. by rewrite list_lookup_insert_ne in H.
Qed.

Lemma mutex_ok_worker x x' m ws i w w' :
  ws !! i = Some w → mutex_ok x m ws →
  mutex_move (TWorker i) (worker_inside w) (worker_inside w') x x' →
  mutex_ok x' m (<[i := w']> ws).
Proof.
  intros Hi [Hm Hw Hh Hd] Hmove. pose proof (Hw i w Hi) as Hwi. split.
  - destruct Hmove as [_ ->|? ? -> ->|E ? ->]; [done|..].
    + rewrite Hm. by split.
    + rewrite Hm. apply Hwi in E as ->. by split.
  - intros j v [[-> ->]|[Hj Hv]]%lookup_insert_cases.
    + destruct Hmove as [-> ->|? -> ? ->|? -> ->]; [done| |]; by split.
    + rewrite (Hw j v Hv). destruct Hmove as [_ ->|? ? -> ->|E ? ->]; [done| |].
      * split; [done|]. intros [= E]. by subst.
      * apply Hwi in E as ->. split; [|done]. intros [= E]. by subst.
  - intros j Ej. rewrite length_insert. destruct Hmove as [_ ->|? ? ? ->|? ? ->]; [by apply Hh| |done].
    injection Ej as <-. by eapply lookup_lt_Some.
  - rewrite Hd. destruct Hmove as [_ ->|? ? -> ->|E ? ->]; [done|by split|].
    apply Hwi in E as ->. by split.
Qed.

Lemma mutex_ok_main x x' m m' ws :
  mutex_ok x m ws → mutex_move TMain (main_inside m) (main_inside m') x x' →
  past_destroy m = false → past_destroy m' = false → mutex_ok x' m' ws.
Proof.
  intros [Hm Hw Hh Hd] Hmove E E'. rewrite E in Hd. split; rewrite ?E'.
  - destruct Hmove as [-> ->|? -> ? ->|? -> ->]; [done|by split..].
  - intros j v Hv. rewrite (Hw j v Hv). destruct Hmove as [_ ->|? ? -> ->|Ei ? ->]; [done|by split|].
    apply Hm in Ei as ->. by split.
  - intros i Ei. destruct Hmove as [_ ->|? ? ? ->|? ? ->]; [by apply Hh|done|done].
  - destruct Hmove as [_ ->|? ? -> ->|Ei ? ->]; [done|by split|by split].
Qed.

Lemma wake_worker_inside w : worker_inside (wake_worker w) = worker_inside w.
Proof. by destruct w. Qed.

Lemma wake_main_inside m : main_inside (wake_main m) = main_inside m.
Proof. by destruct m. Qed.

(** Waking a thread is not seen by the mutex. *)
Lemma mutex_ok_affected e x m ws m' ws' :
  affects e m ws m' ws' → mutex_ok x m ws → mutex_ok x m' ws'.
Proof.
  intros Ha Hx. destruct Ha as [m ws|m ws1 ws2|m ws Hn|m ws|m ws|m ws|m ws]; [done| |done| | | |].
  - destruct Hx as [Hm Hw Hh Hd]. split; [done| |by rewrite !length_app in *|done].
    intros i w Hi. assert (∃ w', (ws1 ++ PopSleep :: ws2) !! i = Some w' ∧ worker_inside w' = worker_inside w)
      as (w' & Hw' & <-); [|by apply Hw].
    apply lookup_app_Some in Hi as [Hi|[Hl Hi]].
    + exists w. split; [|done]. by apply lookup_app_l_Some.
    + rewrite lookup_app_r by done. destruct (i - length ws1)%nat; simplify_eq/=; eauto.
  - destruct Hx as [Hm Hw Hh Hd]. split; [by rewrite wake_main_inside|done..|by destruct m].
  - destruct Hx as [Hm Hw Hh Hd]. split; [done| |by rewrite length_fmap|done].
    intros i w Hi. rewrite list_lookup_fmap in Hi. destruct (ws !! i) as [v|] eqn:E; simplify_eq/=.
    rewrite wake_worker_inside. by apply Hw.
  - destruct Hx as [Hm Hw Hh Hd]. split; [by rewrite wake_main_inside|done..|by destruct m].
  - destruct Hx as [Hm Hw Hh Hd]. split; [done| | |done].
    + intros i w [Hi|[Hl Hi]]%lookup_app_Some; [by apply Hw|].
      apply list_lookup_singleton_Some in Hi as [Ei <-]. split; [done|]. intros Ex%Hh. simpl in *. lia.
    + intros i Ex%Hh. rewrite length_app. lia.
Qed.

(** ** The simulation *)

Lemma worker_ahead_outside w q p : worker_inside w = false → worker_ahead w q p.
Proof. by destruct w. Qed.

Lemma main_ahead_outside m r q p : main_inside m = false → main_ahead m r q p.
Proof. by destruct m. Qed.

(** While one thread is inside, the others are outside. *)
Lemma others_outside x m ws i w :
  mutex_ok x m ws → ws !! i = Some w → worker_inside w = true →
  x = Locked (TWorker i) ∧ main_inside m = false ∧
  ∀ j v, j ≠ i → ws !! j = Some v → worker_inside v = false.
Proof.
  intros [Hm Hw _ _] Hi Hin. apply (Hw i w Hi) in Hin as ->. split_and!; [done| |].
  - destruct (main_inside m); [|done]. by assert (Locked (TWorker i) = Locked TMain) by tauto.
  - intros j v Hj Hv. specialize (Hw j v Hv). destruct (worker_inside v); [|done].
    assert (Locked (TWorker i) = Locked (TWorker j)) as [= ->] by tauto. done.
Qed.

Lemma workers_outside x m ws i w :
  mutex_ok x m ws → main_inside m = true → ws !! i = Some w → worker_inside w = false.
Proof.
  intros [Hm Hw _ _] Hin Hi. apply Hm in Hin as ->. specialize (Hw i w Hi).
  destruct (worker_inside w); [|done]. by assert (Locked TMain = Locked (TWorker i)) by tauto.
Qed.

(** All workers have returned from here on. *)
Definition joined (m : main_at) : bool :=
  match m with ShutDrain _ | ShutFree _ | ShutDestroy _ | Return _ => true | _ => false end.

Lemma says_joined m ws h sh s : main_says m ws h sh s → joined m = true → Forall (.= Exit) ws.
Proof. destruct m; try done; simpl; tauto. Qed.

Lemma live_not_joined m ws h sh s i w :
  main_says m ws h sh s → ws !! i = Some w → w ≠ Exit → joined m = false.
Proof.
  intros Hs Hi Hw. destruct (joined m) eqn:E; [|done]. pose proof (says_joined _ _ _ _ _ Hs E) as HF.
  by destruct Hw; apply (Forall_lookup_1 _ _ _ _ HF Hi).
Qed.

(** A worker that has not returned moves on. *)
Lemma says_worker m ws h sh s i w w' h' sh' s' :
  main_says m ws h sh s → ws !! i = Some w → w ≠ Exit →
  (h_closed h = s_closed s → h_closed h' = s_closed s') →
  main_says m (<[i := w']> ws) h' sh' s'.
Proof.
  intros Hs Hi Hw Hc. pose proof (live_not_joined _ _ _ _ _ _ _ Hs Hi Hw) as Hj.
  destruct m; try done; simpl in *; try by apply Hc.
  destruct Hs as [HF Hcl]. split; [|by apply Hc].
  rewrite take_insert_ge; [done|]. destruct (decide (i0 ≤ i)%nat); [done|].
  destruct Hw. apply (Forall_lookup_1 _ _ i _ HF). rewrite lookup_take_lt; [done|lia].
Qed.

Section simulation.
Variables (max_connections : Z) (workers : nat).
Notation refines := (refines max_connections).
Notation step := (step max_connections workers).

(** After an instruction of a worker, put the relation together again. *)
Lemma refines_worker sh m ws h s i w w' sh' s' ev :
  refines (MkThreads sh m ws h) s → ws !! i = Some w → w ≠ Exit →
  mutex_move (TWorker i) (worker_inside w) (worker_inside w') (sh_mutex sh) (sh_mutex sh') →
  sh_running sh' = sh_running sh → sh_slots_live sh' = sh_slots_live sh →
  s_acceptor s' = s_acceptor s → s_running s' = s_running s →
  s_workers s' = <[i := read_worker w']> (s_workers s) →
  s_active s' - s_active s = sh_active sh' - sh_active sh →
  (s_accepted s', s_pushed s', s_popped s') =
    (h_accepted (happens ev h), h_pushed (happens ev h), h_popped (happens ev h)) →
  (h_closed h = s_closed s → h_closed (happens ev h) = s_closed s') →
  (worker_inside w = false → sh_pool sh' = sh_pool sh ∧ s_pool s' = s_pool s) →
  (worker_inside w = true → sh_mutex sh' = Unlocked → sh_pool sh' = s_pool s') →
  (worker_inside w' = true → worker_ahead w' (s_pool s') (sh_pool sh')) →
  refines (MkThreads sh' m (<[i := w']> ws) (happens ev h)) s'.
Proof.
  intros [Hm Hws Hr Ha Hh Hs Hx Hl Ham Haw Hf] Hi Hw Hmove Er El Em Er' Ew Ea Eh Hc Hout Hin Hah.
  cbn in *. pose proof (mutex_ok_worker _ _ _ _ _ _ _ Hi Hx Hmove) as Hx'.
  pose proof (live_not_joined _ _ _ _ _ _ _ Hs Hi Hw) as Hj.
  split; cbn; [congruence| |congruence|clear -Ha Ea; lia|by simplify_eq| |done|congruence| | |].
  - by rewrite Ew, Hws, list_fmap_insert.
  - by eapply says_worker.
  - destruct (worker_inside w) eqn:E.
    + destruct (others_outside _ _ _ _ _ Hx Hi E) as (_ & Ho & _). by apply main_ahead_outside.
    + destruct (Hout eq_refl) as [-> ->]. by rewrite Er'.
  - intros j v [[-> ->]|[Hj' Hv]]%lookup_insert_cases.
    + destruct (worker_inside w') eqn:E; [by apply Hah|by apply worker_ahead_outside].
    + destruct (worker_inside w) eqn:E.
      * apply worker_ahead_outside. destruct (others_outside _ _ _ _ _ Hx Hi E) as (_ & _ & Ho). by eapply Ho.
      * destruct (Hout eq_refl) as [-> ->]. by eapply Haw.
  - intros Eu Hd. destruct (worker_inside w) eqn:E; [by apply Hin|].
    destruct (Hout eq_refl) as [-> ->]. apply Hf; [|done].
    destruct Hmove as [_ E'|? ? ? E'|? ? ?]; [congruence|congruence|done].
Qed.

Lemma same_reading (ws : list worker_at) (i : nat) w w' pcs :
  pcs = read_worker <$> ws → ws !! i = Some w → read_worker w' = read_worker w →
  pcs = <[i := read_worker w']> pcs.
Proof.
  intros -> Hi E. symmetry. apply list_insert_id. by rewrite list_lookup_fmap, Hi, E.
Qed.

(** The rules of [Pool.v] name the worker by the lists around it. *)
Lemma at_worker (ws : list worker_at) (i : nat) w pcs :
  pcs = read_worker <$> ws → ws !! i = Some w →
  ∃ ws1 ws2, pcs = ws1 ++ read_worker w :: ws2 ∧ ∀ v, <[i := v]> pcs = ws1 ++ v :: ws2.
Proof.
  intros -> Hi. assert ((read_worker <$> ws) !! i = Some (read_worker w)) as Hi'
    by (by rewrite list_lookup_fmap, Hi).
  apply list_elem_of_split_length in Hi' as (ws1 & ws2 & E & ->). exists ws1, ws2. rewrite E.
  split; [done|]. intros v. by rewrite <-(Nat.add_0_r (length ws1)), insert_app_r.
Qed.

(** A worker's instruction that is no step of [Pool.v]. *)
Lemma worker_silent sh m ws h s i w w' sh' :
  refines (MkThreads sh m ws h) s → ws !! i = Some w → w ≠ Exit →
  read_worker w' = read_worker w →
  mutex_move (TWorker i) (worker_inside w) (worker_inside w') (sh_mutex sh) (sh_mutex sh') →
  sh_running sh' = sh_running sh → sh_slots_live sh' = sh_slots_live sh →
  sh_active sh' = sh_active sh →
  (worker_inside w = false → sh_pool sh' = sh_pool sh) →
  (worker_inside w = true → sh_mutex sh' = Unlocked → sh_pool sh' = s_pool s) →
  (worker_inside w' = true → worker_ahead w' (s_pool s) (sh_pool sh')) →
  ∃ s', (s' = s ∨ step s s') ∧ refines (MkThreads sh' m (<[i := w']> ws) h) s'.
Proof.
  intros Hr Hi Hw Er Hmove Erun El Ea Hout Hin Hah. exists s. split; [by left|].
  destruct (rf_history _ _ _ Hr) as (E1 & E2 & E3). cbn in E1, E2, E3.
  apply (refines_worker sh m ws h s i w w' sh' s None Hr Hi Hw); try done.
  - eapply same_reading; [exact (rf_workers _ _ _ Hr)|exact Hi|exact Er].
  - lia.
  - cbn. by rewrite E1, E2, E3.
  - intros E. by split; [apply Hout|].
Qed.

(** A worker takes the mutex: the pool is as [Pool.v] sees it. *)
Lemma worker_locks sh m ws h s i w w' x :
  refines (MkThreads sh m ws h) s → ws !! i = Some w → w ≠ Exit →
  read_worker w' = read_worker w → worker_inside w = false → worker_inside w' = true →
  (∀ q, worker_ahead w' q q) → mnet_mutex_lock (TWorker i) (sh_mutex sh) = Done x →
  ∃ s', (s' = s ∨ step s s') ∧ refines (MkThreads (with_mutex sh x) m (<[i := w']> ws) h) s'.
Proof.
  intros Hr Hi Hw Er Ho Ho' Hah [Eu ->]%lock_taken.
  pose proof (live_not_joined _ _ _ _ _ _ _ (rf_says _ _ _ Hr) Hi Hw) as Hj. cbn in Hj.
  apply (worker_silent _ _ _ _ _ _ _ _ _ Hr Hi Hw Er); try done.
  - by apply mutex_taken.
  - intros _. pose proof (rf_free _ _ _ Hr) as Hf. cbn in Hf |- *.
    rewrite Hf; [apply Hah|done|by destruct m].
Qed.

(** A worker gives it back. *)
Lemma worker_unlocks sh m ws h s i w w' x :
  refines (MkThreads sh m ws h) s → ws !! i = Some w → w ≠ Exit →
  read_worker w' = read_worker w → worker_inside w = true → worker_inside w' = false →
  (∀ q p, worker_ahead w q p → p = q) → mnet_mutex_unlock (TWorker i) (sh_mutex sh) = Done x →
  ∃ s', (s' = s ∨ step s s') ∧ refines (MkThreads (with_mutex sh x) m (<[i := w']> ws) h) s'.
Proof.
  intros Hr Hi Hw Er Ho Ho' Hah [Eu ->]%unlock_left.
  apply (worker_silent _ _ _ _ _ _ _ _ _ Hr Hi Hw Er); try done.
  - by apply mutex_left.
  - intros _ _. cbn. apply Hah. by apply (rf_ahead_worker _ _ _ Hr i w).
  - by rewrite Ho'.
Qed.

(** It goes on inside, or outside, without touching the mutex. *)
Lemma worker_goes_on sh m ws h s i w w' sh' :
  refines (MkThreads sh m ws h) s → ws !! i = Some w → w ≠ Exit →
  read_worker w' = read_worker w → worker_inside w' = worker_inside w →
  (worker_inside w = false → sh' = sh) →
  sh_mutex sh' = sh_mutex sh → sh_running sh' = sh_running sh → sh_slots_live sh' = sh_slots_live sh →
  sh_active sh' = sh_active sh →
  (worker_ahead w (s_pool s) (sh_pool sh) → worker_ahead w' (s_pool s) (sh_pool sh')) →
  ∃ s', (s' = s ∨ step s s') ∧ refines (MkThreads sh' m (<[i := w']> ws) h) s'.
Proof.
  intros Hr Hi Hw Er Ho Hout Em Erun El Ea Hah.
  apply (worker_silent _ _ _ _ _ _ _ _ _ Hr Hi Hw Er); try done.
  - by apply mutex_same.
  - intros E. by rewrite Hout.
  - intros E Eu. pose proof (mx_worker _ _ _ (rf_mutex _ _ _ Hr) i w Hi) as [Hmx _].
    rewrite Em in Eu. cbn in Hmx. rewrite Eu in Hmx. by specialize (Hmx E).
  - intros _. apply Hah. by apply (rf_ahead_worker _ _ _ Hr i w).
Qed.

(** The instructions of a worker that are steps of [Pool.v]. *)

Lemma wait_simulated sh m ws h s i x :
  refines (MkThreads sh m ws h) s → ws !! i = Some PopWait →
  mnet_cond_wait (TWorker i) (sh_mutex sh) = Done x →
  ∃ s', (s' = s ∨ step s s') ∧ refines (MkThreads (with_mutex sh x) m (<[i := PopSleep]> ws) h) s'.
Proof.
  intros Hr Hi [Eu ->]%unlock_left. pose proof (rf_ahead_worker _ _ _ Hr i _ Hi) as (Ep & Ez & Es).
  cbn in Ep, Ez, Es. destruct (at_worker _ _ _ _ (rf_workers _ _ _ Hr) Hi) as (ws1 & ws2 & Ew & Eins).
  destruct (rf_history _ _ _ Hr) as (E1 & E2 & E3).
  destruct s as [p r a mm pcs ac pu po cl]. cbn in *.
  exists (MkSystem p r a mm (<[i := WWait]> pcs) ac pu po cl). split.
  - right. rewrite Eins, Ew. apply step_pop_wait. unfold mnet_pool_pop. by rewrite <-Ep, Ez, Es.
  - apply (refines_worker sh m ws h _ i PopWait PopSleep _ _ None Hr Hi); try done.
    + by apply mutex_left.
    + cbn. lia.
    + cbn. by rewrite E1, E2, E3.
Qed.

Lemma finished_simulated sh m ws h s i :
  refines (MkThreads sh m ws h) s → ws !! i = Some PopCheck → po_count (sh_pool sh) = 0%nat →
  ∃ s', (s' = s ∨ step s s') ∧ refines (MkThreads sh m (<[i := PopFail]> ws) h) s'.
Proof.
  intros Hr Hi Ez. pose proof (rf_ahead_worker _ _ _ Hr i _ Hi) as [Ep Es].
  cbn in Ep, Es. specialize (Es Ez).
  destruct (at_worker _ _ _ _ (rf_workers _ _ _ Hr) Hi) as (ws1 & ws2 & Ew & Eins).
  destruct (rf_history _ _ _ Hr) as (E1 & E2 & E3).
  destruct s as [p r a mm pcs ac pu po cl]. cbn in *.
  exists (MkSystem p r a mm (<[i := WDone]> pcs) ac pu po cl). split.
  - right. rewrite Eins, Ew. apply step_pop_finished. unfold mnet_pool_pop. by rewrite <-Ep, Ez, Es.
  - apply (refines_worker sh m ws h _ i PopCheck PopFail _ _ None Hr Hi); try done.
    + by apply mutex_same.
    + cbn. lia.
    + cbn. by rewrite E1, E2, E3.
Qed.

Lemma closed_simulated sh m ws h s i c :
  refines (MkThreads sh m ws h) s → ws !! i = Some (Close c) →
  ∃ s', (s' = s ∨ step s s') ∧
    refines (MkThreads sh m (<[i := RelLock]> ws) (happens (Some (EvClosed c)) h)) s'.
Proof.
  intros Hr Hi. destruct (at_worker _ _ _ _ (rf_workers _ _ _ Hr) Hi) as (ws1 & ws2 & Ew & Eins).
  destruct (rf_history _ _ _ Hr) as (E1 & E2 & E3).
  destruct s as [p r a mm pcs ac pu po cl]. cbn in *.
  exists (MkSystem p r a mm (<[i := WRelease]> pcs) ac pu po (cl ++ [c])). split.
  - right. rewrite Eins, Ew. apply step_serve.
  - apply (refines_worker sh m ws h _ i (Close c) RelLock _ _ (Some (EvClosed c)) Hr Hi); try done.
    + by apply mutex_same.
    + cbn. lia.
    + cbn. by rewrite E1, E2, E3.
    + cbn. by intros ->.
Qed.

Lemma released_simulated sh m ws h s i :
  refines (MkThreads sh m ws h) s → ws !! i = Some RelDec →
  ∃ s', (s' = s ∨ step s s') ∧
    refines (MkThreads (with_active sh (sh_active sh - 1)) m (<[i := RelUnlock]> ws) h) s'.
Proof.
  intros Hr Hi. destruct (at_worker _ _ _ _ (rf_workers _ _ _ Hr) Hi) as (ws1 & ws2 & Ew & Eins).
  pose proof (rf_ahead_worker _ _ _ Hr i _ Hi) as Ep.
  pose proof (mx_worker _ _ _ (rf_mutex _ _ _ Hr) i _ Hi) as [Hmx _]. specialize (Hmx eq_refl).
  destruct (rf_history _ _ _ Hr) as (E1 & E2 & E3).
  destruct s as [p r a mm pcs ac pu po cl]. cbn in *.
  exists (MkSystem p r (a - 1) mm (<[i := WPop]> pcs) ac pu po cl). split.
  - right. rewrite Eins, Ew. apply step_release.
  - apply (refines_worker sh m ws h _ i RelDec RelUnlock _ _ None Hr Hi); try done.
    + by apply mutex_same.
    + cbn. lia.
    + cbn. by rewrite E1, E2, E3.
Qed.

(** Waking the accept loop is the same in both. *)
Lemma wake_main_simulated sh m ws h p r a mm pcs ac pu po cl :
  main_inside m = false → refines (MkThreads sh m ws h) (MkSystem p r a mm pcs ac pu po cl) →
  refines (MkThreads sh (wake_main m) ws h) (MkSystem p r a (signal_not_full mm) pcs ac pu po cl).
Proof.
  intros Ho [Hm Hws Hr Ha Hh Hs Hx Hl Ham Haw Hf]. cbn in *. subst mm.
  assert (∀ b c c', signal_not_full (if b : bool then ARefuse c else ACount c') =
            (if b then ARefuse c else ACount c')) as Hif by by intros [].
  destruct m; try done; cbn in *; (split; [by rewrite ?Hif|cbn..]; try done).
  - eapply (mutex_ok_affected SignalNotFull _ (PushSleep c)); [apply affects_full|exact Hx].
Qed.

Lemma popped_simulated sh m ws h s i c :
  refines (MkThreads sh m ws h) s → ws !! i = Some (PopSignal c) →
  ∃ s', (s' = s ∨ step s s') ∧
    refines (MkThreads sh (wake_main m) (<[i := PopUnlock c]> ws) (happens (Some (EvPopped c)) h)) s'.
Proof.
  intros Hr Hi. destruct (at_worker _ _ _ _ (rf_workers _ _ _ Hr) Hi) as (ws1 & ws2 & Ew & Eins).
  pose proof (rf_ahead_worker _ _ _ Hr i _ Hi) as Ep.
  pose proof (others_outside _ _ _ _ _ (rf_mutex _ _ _ Hr) Hi eq_refl) as (Hmx & Ho & _).
  destruct (rf_history _ _ _ Hr) as (E1 & E2 & E3).
  destruct s as [p r a mm pcs ac pu po cl]. cbn in *.
  exists (MkSystem (sh_pool sh) r a (signal_not_full mm) (<[i := WServe c]> pcs) ac pu (po ++ [c]) cl).
  split.
  - right. rewrite Eins, Ew. by apply step_pop.
  - apply wake_main_simulated; [done|].
    apply (refines_worker sh m ws h _ i (PopSignal c) (PopUnlock c) _ _ (Some (EvPopped c)) Hr Hi); try done.
    + by apply mutex_same.
    + cbn. lia.
    + cbn. by rewrite E1, E2, E3.
Qed.

(** Taking the head in three instructions is [mnet_pool_pop]. *)
Lemma pop_ahead p c :
  po_count p ≠ 0%nat → po_slots p !! po_head p = Some c → po_capacity p ≠ 0%nat →
  mnet_pool_pop p = PopDone c (MkPool (po_slots p) (po_capacity p)
    ((po_head p + 1) mod po_capacity p) (pred (po_count p)) (po_shutting_down p)).
Proof.
  intros Hc Hs Hk. unfold mnet_pool_pop, take_head. rewrite (proj2 (Nat.eqb_neq _ _) Hc).
  cbn. by rewrite (proj2 (Nat.eqb_neq _ _) Hk), Hs.
Qed.

(** Every instruction of a worker is a step of [Pool.v] or nothing. *)
Lemma worker_simulated sh m ws h s i w w' sh' e ev m' ws' :
  refines (MkThreads sh m ws h) s → ws !! i = Some w →
  worker_step (TWorker i) w sh = Done (w', sh', e, ev) → affects e m (<[i := w']> ws) m' ws' →
  ∃ s', (s' = s ∨ step s s') ∧ refines (MkThreads sh' m' ws' (happens ev h)) s'.
Proof.
  intros Hr Hi Hstep Ha. pose proof (rf_live _ _ _ Hr) as Hlive. cbn in Hlive.
  destruct w as [| | | | | | | |c|c|c|c|c|c| | | |]; cbn in Hstep; try done.
  - destruct (mnet_mutex_lock _ _) as [| |x] eqn:E; simplify_eq/=. inversion Ha; subst.
    by eapply worker_locks.
  - case_match eqn:E; simplify_eq/=; inversion Ha; subst; (eapply worker_goes_on; [done..|]); cbn.
    + apply andb_true_iff in E as [E Es]. apply Nat.eqb_eq in E. apply negb_true_iff in Es. done.
    + intros <-. split; [done|]. intros Ez. rewrite Ez in E. cbn in E. by apply negb_false_iff in E.
  - destruct (mnet_cond_wait _ _) as [| |x] eqn:E; simplify_eq/=. inversion Ha; subst.
    by eapply wait_simulated.
  - destruct (mnet_mutex_lock _ _) as [| |x] eqn:E; simplify_eq/=. inversion Ha; subst.
    by eapply worker_locks.
  - case_match eqn:E; simplify_eq/=; inversion Ha; subst.
    + apply Nat.eqb_eq in E. by eapply finished_simulated.
    + apply Nat.eqb_neq in E. eapply worker_goes_on; [done..|]. cbn. by intros [<- _].
  - destruct (mnet_mutex_unlock _ _) as [| |x] eqn:E; simplify_eq/=. inversion Ha; subst.
    by eapply worker_unlocks.
  - unfold slot_at_head in Hstep. destruct (sh_slots_live sh); [|done].
    destruct (po_slots _ !! _) as [c|] eqn:E; simplify_eq/=. inversion Ha; subst.
    eapply worker_goes_on; [done..|]. cbn. by intros [<- ?].
  - unfold advance_head in Hstep. case_match eqn:E; simplify_eq/=. inversion Ha; subst.
    apply Nat.eqb_neq in E. eapply worker_goes_on; [done..|]. cbn. intros (<- & Hc & Hs).
    eexists. by split_and!; [apply pop_ahead| |].
  - simplify_eq/=. inversion Ha; subst. eapply worker_goes_on; [done..|]. cbn. intros (p' & -> & Ec & ->). cbn.
    rewrite <-Ec. by destruct p'.
  - simplify_eq/=. inversion Ha; subst. by eapply popped_simulated.
  - destruct (mnet_mutex_unlock _ _) as [| |x] eqn:E; simplify_eq/=. inversion Ha; subst.
    by eapply worker_unlocks.
  - simplify_eq/=. inversion Ha; subst. by eapply worker_goes_on.
  - simplify_eq/=. inversion Ha; subst. by eapply closed_simulated.
  - destruct (mnet_mutex_lock _ _) as [| |x] eqn:E; simplify_eq/=. inversion Ha; subst.
    by eapply worker_locks.
  - simplify_eq/=. inversion Ha; subst. by eapply released_simulated.
  - destruct (mnet_mutex_unlock _ _) as [| |x] eqn:E; simplify_eq/=. inversion Ha; subst.
    by eapply worker_unlocks.
Qed.

(** After an instruction of the accept loop, put the relation together again. *)
Lemma refines_main sh m ws h s m' sh' s' ev :
  refines (MkThreads sh m ws h) s →
  past_destroy m = false → past_destroy m' = false →
  mutex_move TMain (main_inside m) (main_inside m') (sh_mutex sh) (sh_mutex sh') →
  sh_slots_live sh' = negb (past_free m') →
  s_acceptor s' = read_main max_connections m' → s_running s' = sh_running sh' →
  s_workers s' = s_workers s → s_active s' = sh_active sh' + undone m' →
  (s_accepted s', s_pushed s', s_popped s') =
    (h_accepted (happens ev h), h_pushed (happens ev h), h_popped (happens ev h)) →
  main_says m' ws (happens ev h) sh' s' →
  (main_inside m = false → joined m = false → sh_pool sh' = sh_pool sh ∧ s_pool s' = s_pool s) →
  (main_inside m' = true → main_ahead m' (s_running s') (s_pool s') (sh_pool sh')) →
  (sh_mutex sh' = Unlocked → draining m' = false → sh_pool sh' = s_pool s') →
  refines (MkThreads sh' m' ws (happens ev h)) s'.
Proof.
  intros [Hm Hws Hr Ha Hh Hs Hx Hl Ham Haw Hf] Ed Ed' Hmove El Em Er Ew Ea Eh Hs' Hout Hah Hfree.
  cbn in *. split; cbn; [done|congruence|done|done|by simplify_eq|done| |done| | |done].
  - by eapply mutex_ok_main.
  - destruct (main_inside m') eqn:E; [by apply Hah|by apply main_ahead_outside].
  - intros i w Hi. destruct (main_inside m) eqn:E.
    { apply worker_ahead_outside. by eapply workers_outside. }
    destruct (joined m) eqn:Ej.
    { pose proof (says_joined _ _ _ _ _ Hs Ej) as HF.
      by rewrite (Forall_lookup_1 _ _ _ _ HF Hi). }
    destruct (Hout eq_refl eq_refl) as [-> ->]. by eapply Haw.
Qed.

(** The positions at which [main_says] is only about the closed connections. *)
Definition plain (m : main_at) : bool :=
  match m with
  | ShutJoin _ _ | ShutDrain _ | ShutFree _ | ShutDestroy _ | Return _ => false
  | _ => true
  end.

Lemma says_plain m ws h sh s : plain m = true → main_says m ws h sh s = (h_closed h = s_closed s).
Proof. by destruct m. Qed.

(** An instruction between plain positions that is no step of [Pool.v]. *)
Lemma main_silent sh m ws h s m' sh' :
  refines (MkThreads sh m ws h) s → plain m = true → plain m' = true →
  read_main max_connections m' = read_main max_connections m →
  mutex_move TMain (main_inside m) (main_inside m') (sh_mutex sh) (sh_mutex sh') →
  sh_running sh' = sh_running sh → sh_slots_live sh' = sh_slots_live sh →
  sh_active sh' + undone m' = sh_active sh + undone m →
  (main_inside m = false → sh_pool sh' = sh_pool sh) →
  (main_inside m = true → sh_mutex sh' = Unlocked → sh_pool sh' = s_pool s) →
  (main_inside m' = true → main_ahead m' (s_running s) (s_pool s) (sh_pool sh')) →
  ∃ s', (s' = s ∨ step s s') ∧ refines (MkThreads sh' m' ws h) s'.
Proof.
  intros Hr Hp Hp' Er Hmove Erun El Ea Hout Hin Hah. exists s. split; [by left|].
  pose proof Hr as [Hm Hws Hrun Hac (E1 & E2 & E3) Hs _ Hl _ _ Hf]. cbn in *.
  rewrite says_plain in Hs by done.
  apply (refines_main sh m ws h s m' sh' s None Hr); try done.
  - by destruct m.
  - by destruct m'.
  - rewrite El, Hl. by destruct m; [..|done|done|done|done|done]; destruct m'.
  - congruence.
  - congruence.
  - clear -Hac Ea. lia.
  - cbn. by rewrite E1, E2, E3.
  - by rewrite says_plain.
  - intros E _. by split; [apply Hout|].
  - intros Eu _. destruct (main_inside m) eqn:E; [by apply Hin|]. rewrite Hout by done. apply Hf.
    + destruct Hmove as [_ E'|? ? ? E'|? ? ?]; congruence.
    + by destruct m.
Qed.

Lemma main_locks sh m ws h s m' x :
  refines (MkThreads sh m ws h) s → plain m = true → plain m' = true →
  read_main max_connections m' = read_main max_connections m → undone m' = undone m →
  main_inside m = false → main_inside m' = true → (∀ r q, main_ahead m' r q q) →
  mnet_mutex_lock TMain (sh_mutex sh) = Done x →
  ∃ s', (s' = s ∨ step s s') ∧ refines (MkThreads (with_mutex sh x) m' ws h) s'.
Proof.
  intros Hr Hp Hp' Er Eu Ho Ho' Hah [Ex ->]%lock_taken.
  apply (main_silent _ _ _ _ _ _ _ Hr Hp Hp' Er); try done.
  - by apply mutex_taken.
  - cbn. lia.
  - intros _. pose proof (rf_free _ _ _ Hr) as Hf. cbn in Hf |- *.
    rewrite Hf; [apply Hah|done|by destruct m].
Qed.

Lemma main_unlocks sh m ws h s m' x :
  refines (MkThreads sh m ws h) s → plain m = true → plain m' = true →
  read_main max_connections m' = read_main max_connections m → undone m' = undone m →
  main_inside m = true → main_inside m' = false → (∀ r q p, main_ahead m r q p → p = q) →
  mnet_mutex_unlock TMain (sh_mutex sh) = Done x →
  ∃ s', (s' = s ∨ step s s') ∧ refines (MkThreads (with_mutex sh x) m' ws h) s'.
Proof.
  intros Hr Hp Hp' Er Eu Ho Ho' Hah [Ex ->]%unlock_left.
  apply (main_silent _ _ _ _ _ _ _ Hr Hp Hp' Er); try done.
  - by apply mutex_left.
  - cbn. lia.
  - intros _ _. cbn. eapply Hah, (rf_ahead_main _ _ _ Hr).
  - by rewrite Ho'.
Qed.

Lemma main_goes_on sh m ws h s m' sh' :
  refines (MkThreads sh m ws h) s → plain m = true → plain m' = true →
  read_main max_connections m' = read_main max_connections m →
  main_inside m' = main_inside m → (main_inside m = false → sh' = sh) →
  sh_mutex sh' = sh_mutex sh → sh_running sh' = sh_running sh → sh_slots_live sh' = sh_slots_live sh →
  sh_active sh' + undone m' = sh_active sh + undone m →
  (main_ahead m (s_running s) (s_pool s) (sh_pool sh) →
   main_ahead m' (s_running s) (s_pool s) (sh_pool sh')) →
  ∃ s', (s' = s ∨ step s s') ∧ refines (MkThreads sh' m' ws h) s'.
Proof.
  intros Hr Hp Hp' Er Ho Hout Em Erun El Ea Hah.
  apply (main_silent _ _ _ _ _ _ _ Hr Hp Hp' Er); try done.
  - by apply mutex_same.
  - intros E. by rewrite Hout.
  - intros E Eu. pose proof (mx_main _ _ _ (rf_mutex _ _ _ Hr)) as [Hmx _].
    rewrite Em in Eu. cbn in Hmx. rewrite Eu in Hmx. by specialize (Hmx E).
  - intros _. apply Hah, (rf_ahead_main _ _ _ Hr).
Qed.

(** *** The instructions of the accept loop that are steps of [Pool.v] *)

(** Outside the mutex. *)
Lemma main_commits_outside sh m ws h s m' s' ev :
  refines (MkThreads sh m ws h) s → plain m = true → plain m' = true →
  main_inside m = false → main_inside m' = false → step s s' →
  s_acceptor s' = read_main max_connections m' → s_running s' = s_running s →
  s_workers s' = s_workers s → s_pool s' = s_pool s →
  s_active s' = s_active s + undone m' - undone m →
  (s_accepted s', s_pushed s', s_popped s') =
    (h_accepted (happens ev h), h_pushed (happens ev h), h_popped (happens ev h)) →
  (h_closed h = s_closed s → h_closed (happens ev h) = s_closed s') →
  ∃ s', (s' = s ∨ step s s') ∧ refines (MkThreads sh m' ws (happens ev h)) s'.
Proof.
  intros Hr Hp Hp' Ho Ho' Hstep Em Erun Ew Epool Ea Eh Hc. exists s'. split; [by right|].
  pose proof Hr as [_ _ Hrun Hac _ Hs _ Hl _ _ Hf]. cbn in *. rewrite says_plain in Hs by done.
  apply (refines_main sh m ws h s m' sh s' ev Hr); try done.
  - by destruct m.
  - by destruct m'.
  - apply mutex_same; congruence.
  - rewrite Hl. by destruct m; [..|done|done|done|done|done]; destruct m'.
  - congruence.
  - clear -Hac Ea. lia.
  - rewrite says_plain by done. by apply Hc.
  - by rewrite Ho'.
  - intros Eu _. rewrite Epool. apply Hf; [done|]. by destruct m.
Qed.

(** Inside it, keeping it. *)
Lemma main_commits_inside sh m ws h s m' sh' s' ev :
  refines (MkThreads sh m ws h) s → plain m = true → plain m' = true →
  main_inside m = true → main_inside m' = true →
  sh_mutex sh' = sh_mutex sh → sh_running sh' = sh_running sh → sh_slots_live sh' = sh_slots_live sh →
  s_acceptor s' = read_main max_connections m' → s_running s' = s_running s →
  s_workers s' = s_workers s → s_active s' - s_active s = sh_active sh' - sh_active sh →
  undone m = 0 → undone m' = 0 →
  (s_accepted s', s_pushed s', s_popped s') =
    (h_accepted (happens ev h), h_pushed (happens ev h), h_popped (happens ev h)) →
  h_closed (happens ev h) = h_closed h → s_closed s' = s_closed s →
  main_ahead m' (s_running s') (s_pool s') (sh_pool sh') →
  refines (MkThreads sh' m' ws (happens ev h)) s'.
Proof.
  intros Hr Hp Hp' Ho Ho' Ex Esr El Em Erun Ew Ea Eu Eu' Eh Hc Hc' Hah.
  pose proof Hr as [_ _ Hrun Hac _ Hs Hx Hl _ _ Hf]. cbn in *. rewrite says_plain in Hs by done.
  apply (refines_main sh m ws h s m' sh' s' ev Hr); try done.
  - by destruct m.
  - by destruct m'.
  - apply mutex_same; congruence.
  - rewrite El, Hl. by destruct m; [..|done|done|done|done|done]; destruct m'.
  - congruence.
  - rewrite Eu'. clear -Hac Ea Eu. lia.
  - rewrite says_plain by done. congruence.
  - by rewrite Ho.
  - rewrite Ex. intros Eu0. pose proof (mx_main _ _ _ Hx) as [Hmx _]. specialize (Hmx Ho). congruence.
Qed.

(** Waking workers, or starting one, after such an instruction. *)
Lemma refines_affected e sh m ws h p r a pcs ac pu po cl ws' :
  plain m = true → affects e m ws m ws' →
  refines (MkThreads sh m ws h) (MkSystem p r a (read_main max_connections m) pcs ac pu po cl) →
  refines (MkThreads sh m ws' h)
    (MkSystem p r a (read_main max_connections m) (read_worker <$> ws') ac pu po cl).
Proof.
  intros Hp Ha [Hm Hws Hr Hac Hh Hs Hx Hl Ham Haw Hf]. cbn in *.
  split; cbn; [done|done|done|done|done| |by eapply mutex_ok_affected|done|done| |done].
  - by rewrite says_plain in Hs |- *.
  - intros i w Hi. destruct (worker_inside w) eqn:E; [|by apply worker_ahead_outside].
    apply (Haw i). inversion Ha; subst; try done.
    + apply lookup_app_Some in Hi as [Hi|[Hle Hi]]; [by apply lookup_app_l_Some|].
      rewrite lookup_app_r by done. destruct (i - length ws1)%nat; [|done]. by simplify_eq/=.
    + rewrite list_lookup_fmap in Hi. destruct (ws !! i) as [v|]; [|done]. simplify_eq/=.
      rewrite wake_worker_inside in E. by destruct v.
    + apply lookup_app_Some in Hi as [Hi|[_ Hi]]; [done|].
      by apply list_lookup_singleton_Some in Hi as [_ <-].
Qed.

Lemma read_woken (ws : list worker_at) : read_worker <$> (wake_worker <$> ws) = wake <$> (read_worker <$> ws).
Proof. rewrite <-!list_fmap_compose. apply list_fmap_ext. by intros _ [] _. Qed.

Lemma read_signal m ws m' ws' :
  affects SignalNotEmpty m ws m' ws' →
  m' = m ∧ signal_not_empty (read_worker <$> ws) (read_worker <$> ws').
Proof.
  intros Ha. inversion Ha; subst; (split; [done|]).
  - rewrite !fmap_app. apply signal_one.
  - apply signal_lost. intros (w & E & Hw)%list_elem_of_fmap. by destruct w.
Qed.

Lemma system_eta s :
  s = MkSystem (s_pool s) (s_running s) (s_active s) (s_acceptor s) (s_workers s) (s_accepted s)
        (s_pushed s) (s_popped s) (s_closed s).
Proof. by destruct s. Qed.

(** The push, in the instructions that store and count. *)
Lemma push_ahead p c r :
  po_count p ≠ po_capacity p → po_shutting_down p = false → po_capacity p ≠ 0%nat →
  ((po_head p + po_count p) mod po_capacity p < length (po_slots p))%nat →
  mnet_pool_push p r c = PushDone (MkPool
    (<[((po_head p + po_count p) mod po_capacity p)%nat := c]> (po_slots p))
    (po_capacity p) (po_head p) (S (po_count p)) (po_shutting_down p)).
Proof.
  intros Hc Hs Hk Hl. unfold mnet_pool_push. rewrite (proj2 (Nat.eqb_neq _ _) Hc), Hs.
  cbn [andb negb]. by rewrite (proj2 (Nat.eqb_neq _ _) Hk), (proj2 (Nat.ltb_lt _ _) Hl).
Qed.

Lemma push_signalled sh ws h s c m' ws' :
  refines (MkThreads sh (PushSignal c) ws h) s → affects SignalNotEmpty (PushUnlock c) ws m' ws' →
  ∃ s', (s' = s ∨ step s s') ∧ refines (MkThreads sh m' ws' (happens (Some (EvPushed c)) h)) s'.
Proof.
  intros Hr Ha. pose proof (read_signal _ _ _ _ Ha) as [-> Hsig].
  pose proof Hr as [Hm Hws _ _ (E1 & E2 & E3) _ _ _ Ham _ _].
  destruct s as [p r a mm pcs ac pu po cl]. cbn in *. subst mm.
  exists (MkSystem (sh_pool sh) r a AAccept (read_worker <$> ws') ac (pu ++ [c]) po cl). split.
  - right. rewrite Hws. by apply step_push.
  - eapply (refines_affected _ _ (PushUnlock c)); [done|exact Ha|].
    eapply (main_commits_inside sh (PushSignal c) ws h _ (PushUnlock c) _ _ (Some (EvPushed c)) Hr); try done.
    + cbn. lia.
    + cbn. by rewrite E1, E2, E3.
Qed.

Lemma shutdown_signalled sh ws h s k m' ws' :
  refines (MkThreads sh (ShutNotEmpty k) ws h) s →
  affects BroadcastNotEmpty (ShutNotFull k) ws m' ws' →
  ∃ s', (s' = s ∨ step s s') ∧ refines (MkThreads sh m' ws' h) s'.
Proof.
  intros Hr Ha. assert (m' = ShutNotFull k ∧ ws' = wake_worker <$> ws) as [-> ->] by by inversion Ha.
  pose proof Hr as [Hm Hws _ _ (E1 & E2 & E3) _ _ _ Ham _ _].
  destruct s as [p r a mm pcs ac pu po cl]. cbn in *. subst mm.
  exists (MkSystem (sh_pool sh) r a (AJoin k) (wake <$> pcs) ac pu po cl). split.
  - right. rewrite Ham. by apply step_shutdown.
  - rewrite Hws, <-read_woken. eapply (refines_affected _ _ (ShutNotFull k)); [done|exact Ha|].
    eapply (main_commits_inside sh (ShutNotEmpty k) ws h _ (ShutNotFull k) _ _ None Hr); try done.
    + cbn. lia.
    + cbn. by rewrite E1, E2, E3.
Qed.

Lemma refused_simulated sh ws h s c :
  refines (MkThreads sh (PushCheck c) ws h) s → po_shutting_down (sh_pool sh) = true →
  ∃ s', (s' = s ∨ step s s') ∧ refines (MkThreads sh (PushFail c) ws h) s'.
Proof.
  intros Hr Hd. pose proof Hr as [Hm Hws Hrun _ (E1 & E2 & E3) _ _ _ Ham _ _].
  destruct s as [p r a mm pcs ac pu po cl]. cbn in *. subst mm.
  exists (MkSystem (sh_pool sh) r a (AUndo c) pcs ac pu po cl). split.
  - right. apply step_push_refused. destruct Ham as [[<- _]|[-> Hp]]; [|done].
    unfold mnet_pool_push. rewrite Hd, andb_false_r. done.
  - apply (main_commits_inside sh (PushCheck c) ws h _ (PushFail c) _ _ None Hr); try done.
    + cbn. lia.
    + cbn. by rewrite E1, E2, E3.
Qed.

Lemma push_wait_simulated sh ws h s c :
  refines (MkThreads sh (PushRunning c) ws h) s → sh_running sh = true →
  ∃ s', (s' = s ∨ step s s') ∧ refines (MkThreads sh (PushWait c) ws h) s'.
Proof.
  intros Hr Hd. pose proof Hr as [Hm Hws Hrun _ (E1 & E2 & E3) _ _ _ (Ep & Ec & Es) _ _].
  destruct s as [p r a mm pcs ac pu po cl]. cbn in *. subst mm.
  exists (MkSystem p r a (AWaitFull c) pcs ac pu po cl). split.
  - right. apply step_push_wait. unfold mnet_pool_push.
    by rewrite <-Ep, Ec, Nat.eqb_refl, Es, Hrun, Hd.
  - apply (main_commits_inside sh (PushRunning c) ws h _ (PushWait c) _ _ None Hr); try done.
    + cbn. lia.
    + cbn. by rewrite E1, E2, E3.
Qed.

Lemma counted_simulated sh ws h s c :
  refines (MkThreads sh (CntInc c) ws h) s →
  ∃ s', (s' = s ∨ step s s') ∧
    refines (MkThreads (with_active sh (sh_active sh + 1)) (CntUnlock c) ws h) s'.
Proof.
  intros Hr. pose proof Hr as [Hm Hws _ _ (E1 & E2 & E3) _ _ _ Ham _ _].
  destruct s as [p r a mm pcs ac pu po cl]. cbn in *. subst mm.
  exists (MkSystem p r (a + 1) (APush c) pcs ac pu po cl). split.
  - right. apply step_count.
  - apply (main_commits_inside sh (CntInc c) ws h _ (CntUnlock c) _ _ None Hr); try done.
    + cbn. lia.
    + cbn. by rewrite E1, E2, E3.
Qed.

Lemma read_simulated sh ws h s c :
  refines (MkThreads sh (AdmRead c) ws h) s →
  ∃ s', (s' = s ∨ step s s') ∧ refines (MkThreads sh (AdmUnlock c (sh_active sh)) ws h) s'.
Proof.
  intros Hr. pose proof Hr as [Hm Hws _ Ha (E1 & E2 & E3) _ _ _ Ham _ _].
  destruct s as [p r a mm pcs ac pu po cl]. cbn in *. subst mm.
  exists (MkSystem p r a (read_main max_connections (AdmUnlock c (sh_active sh))) pcs ac pu po cl). split.
  - right. cbn. assert (a = sh_active sh) as -> by lia.
    destruct (at_limit max_connections (sh_active sh)) eqn:E; [by apply step_refuse|by apply step_admit].
  - apply (main_commits_inside sh (AdmRead c) ws h _ (AdmUnlock c (sh_active sh)) _ _ None Hr); try done.
    + cbn. lia.
    + cbn. by rewrite E1, E2, E3.
Qed.

(** *** Starting and joining the workers *)

Lemma create_simulated sh ws h s m' e ws' :
  refines (MkThreads sh Create ws h) s →
  (length ws < workers)%nat ∧ m' = Create ∧ e = ThreadCreated ∨
  (0 < length ws)%nat ∧ m' = TestRunning ∧ e = Quiet ∨
  (length ws < workers)%nat ∧ length ws = 0%nat ∧ m' = ShutLock (-1) ∧ e = Quiet ∨
  (workers ≤ length ws)%nat ∧ m' = TestRunning ∧ e = Quiet →
  affects e m' ws m' ws' →
  ∃ s', (s' = s ∨ step s s') ∧ refines (MkThreads sh m' ws' h) s'.
Proof.
  intros Hr Hcases Ha. pose proof Hr as [Hm Hws _ _ (E1 & E2 & E3) _ _ _ Ham _ _].
  assert (length (s_workers s) = length ws) as El by (cbn in Hws; by rewrite Hws, length_fmap).
  destruct s as [p r a mm pcs ac pu po cl]. cbn in *. subst mm.
  assert (∀ m', plain m' = true → main_inside m' = false → undone m' = 0 →
    step (MkSystem p r a AStart pcs ac pu po cl)
      (MkSystem p r a (read_main max_connections m') pcs ac pu po cl) →
    ∃ s', (s' = MkSystem p r a AStart pcs ac pu po cl ∨ step (MkSystem p r a AStart pcs ac pu po cl) s') ∧
      refines (MkThreads sh m' ws h) s') as Hmove.
  { intros m Hp Ho Hu Hstep.
    apply (main_commits_outside sh Create ws h _ m _ None Hr) in Hstep; try done; cbn; [lia|].
    by rewrite E1, E2, E3. }
  destruct Hcases as [(Hl & -> & ->)|[(Hl & -> & ->)|[(Hl & Hz & -> & ->)|(Hl & -> & ->)]]].
  - exists (MkSystem p r a AStart (read_worker <$> ws') ac pu po cl). split.
    + right. inversion Ha; subst. rewrite fmap_app. apply step_create. by rewrite length_fmap.
    + by eapply (refines_affected _ _ Create).
  - inversion Ha; subst ws'. apply Hmove; [done..|]. destruct (decide (workers ≤ length ws)%nat).
    + apply step_created. by rewrite El.
    + apply step_create_fail. lia.
  - inversion Ha; subst ws'. apply Hmove; [done..|].
    rewrite Hz in El. apply nil_length_inv in El as ->. apply step_create_none. lia.
  - inversion Ha; subst ws'. apply Hmove; [done..|]. apply step_created. by rewrite El.
Qed.

(** From the end of the shutdown's critical section on, only what [main_says]
    changes, until the drain is finished. *)
Lemma main_joins sh m ws h s m' x :
  refines (MkThreads sh m ws h) s → past_free m = false → past_free m' = false →
  draining m = false → read_main max_connections m' = read_main max_connections m →
  undone m = 0 → undone m' = 0 → main_inside m' = false →
  mutex_move TMain (main_inside m) false (sh_mutex sh) x →
  main_says m' ws h (with_mutex sh x) s →
  (x = Unlocked → draining m' = false → sh_pool sh = s_pool s) →
  ∃ s', (s' = s ∨ step s s') ∧ refines (MkThreads (with_mutex sh x) m' ws h) s'.
Proof.
  intros Hr Hf Hf' Hd Er Eu Eu' Ho' Hmove Hs' Hfree. exists s. split; [by left|].
  pose proof Hr as [Hm Hws Hrun Ha (E1 & E2 & E3) _ _ Hl _ _ _]. cbn in *.
  apply (refines_main sh m ws h s m' _ s None Hr); try done.
  - by destruct m.
  - by destruct m'.
  - by rewrite Ho'.
  - cbn. by rewrite Hf', Hl, Hf.
  - congruence.
  - cbn. clear -Ha Eu Eu'. lia.
  - cbn. by rewrite E1, E2, E3.
  - by rewrite Ho'.
Qed.

Lemma with_mutex_same sh : with_mutex sh (sh_mutex sh) = sh.
Proof. by destruct sh. Qed.

(** Once all workers have returned the mutex is free. *)
Lemma joined_unlocked x m ws :
  mutex_ok x m ws → main_inside m = false → past_destroy m = false → Forall (.= Exit) ws → x = Unlocked.
Proof.
  intros [Hm Hw Hh Hd] Ho Hp HF. destruct x as [|[|i]|]; [done|exfalso..].
  - rewrite Ho in Hm. by destruct Hm as [_ Hm]; discriminate Hm.
  - destruct (lookup_lt_is_Some_2 ws i (Hh i eq_refl)) as [w Hi].
    pose proof (Forall_lookup_1 _ _ _ _ HF Hi) as ->. by destruct (Hw i _ Hi) as [_ ?%eq_sym].
  - rewrite Hp in Hd. by destruct Hd as [_ Hd]; discriminate Hd.
Qed.

(** One round of the drain. *)
Lemma drain_step p c p1 p' rest :
  po_count p ≠ 0%nat → take_head p = Some (c, p1) → drain p = Some (rest, p') →
  ∃ rest', rest = c :: rest' ∧ drain p1 = Some (rest', p').
Proof.
  unfold drain. intros Hc Ht. destruct (po_count p) as [|n] eqn:En; [done|]. cbn. rewrite Ht.
  assert (po_count p1 = n) as ->.
  { unfold take_head in Ht. repeat case_match; try done. simplify_eq/=. by rewrite En. }
  destruct (drain_loop n p1) as [[rest' p2]|]; [|done]. intros [= <- <-]. eauto.
Qed.

Lemma drain_simulated sh ws h s k c sh' :
  refines (MkThreads sh (ShutDrain k) ws h) s → po_count (sh_pool sh) ≠ 0%nat →
  slot_at_head sh = Done c → advance_head sh = Done sh' →
  refines (MkThreads (with_count sh' (pred (po_count (sh_pool sh)))) (ShutDrain k) ws
             (happens (Some (EvClosed c)) h)) s.
Proof.
  intros Hr Hc Hslot Hadv.
  pose proof Hr as [Hm Hws Hrun Ha (E1 & E2 & E3) (HF & done & rest & p' & D1 & D2 & D3) Hx Hl _ _ Hfree].
  cbn in *. unfold slot_at_head, advance_head in *. destruct (sh_slots_live sh) eqn:Elive; [|done].
  destruct (po_slots _ !! _) as [c'|] eqn:Es; [|done]. case_match eqn:Ek; [done|]. simplify_eq/=.
  destruct (drain_step (sh_pool sh) c _ p' rest Hc ltac:(unfold take_head; by rewrite Ek, Es) D2)
    as (rest' & -> & D2').
  apply (refines_main sh (ShutDrain k) ws h s (ShutDrain k) _ s (Some (EvClosed c)) Hr); try done.
  - by apply mutex_same.
  - cbn. by rewrite E1, E2, E3.
  - split; [done|]. exists (done ++ [c]), rest', p'. cbn. rewrite D3, <-!(assoc_L (++)). done.
Qed.

Lemma drained_simulated sh ws h s k :
  refines (MkThreads sh (ShutDrain k) ws h) s → po_count (sh_pool sh) = 0%nat →
  ∃ s', (s' = s ∨ step s s') ∧ refines (MkThreads sh (ShutFree k) ws h) s'.
Proof.
  intros Hr Hc.
  pose proof Hr as [Hm Hws Hrun Ha (E1 & E2 & E3) (HF & done & rest & p' & D1 & D2 & D3) Hx Hl _ _ Hfree].
  destruct s as [p r a mm pcs ac pu po cl]. cbn in *. subst mm.
  unfold drain in D2. rewrite Hc in D2. injection D2 as <- <-. rewrite app_nil_r in D1.
  exists (MkSystem (sh_pool sh) r a (AReturn k) pcs ac pu po (cl ++ done)). split.
  - right. apply step_join; [|done]. rewrite Hws. apply Forall_fmap.
    eapply Forall_impl; [exact HF|]. by intros ? ->.
  - apply (refines_main sh (ShutDrain k) ws h _ (ShutFree k) _ _ None Hr); try done.
    + by apply mutex_same.
    + cbn. by rewrite E1, E2, E3.
Qed.

Lemma freed_simulated sh ws h s k :
  refines (MkThreads sh (ShutFree k) ws h) s →
  refines (MkThreads (free_slots sh) (ShutDestroy k) ws h) s.
Proof.
  intros Hr. pose proof Hr as [Hm Hws Hrun Ha (E1 & E2 & E3) Hs Hx Hl _ _ Hfree]. cbn in *.
  apply (refines_main sh (ShutFree k) ws h s (ShutDestroy k) (free_slots sh) s None Hr); try done.
  - by apply mutex_same.
  - cbn. by rewrite E1, E2, E3.
Qed.

Lemma destroyed_simulated sh ws h s k x :
  refines (MkThreads sh (ShutDestroy k) ws h) s → mnet_mutex_destroy (sh_mutex sh) = Done x →
  refines (MkThreads (with_mutex sh x) (Return k) ws h) s.
Proof.
  intros [Hm Hws Hrun Ha Hh Hs [Xm Xw Xh Xd] Hl _ Haw Hfree] Hx. cbn in *.
  assert (sh_mutex sh = Unlocked ∧ x = Destroyed) as [Eu ->].
  { destruct (sh_mutex sh); try done. by injection Hx as <-. }
  split; cbn; try done. split; cbn; [by split| |done|by split].
  intros i w Hi. rewrite (Xw i w Hi), Eu. by split.
Qed.

(** A quiet instruction wakes nobody. *)
Lemma affects_quiet_inv m ws m' ws' : affects Quiet m ws m' ws' → m' = m ∧ ws' = ws.
Proof. by inversion 1. Qed.

Lemma affects_full_inv m ws m' ws' :
  affects BroadcastNotFull m ws m' ws' → m' = wake_main m ∧ ws' = ws.
Proof. by inversion 1. Qed.

Ltac quiet Ha := apply affects_quiet_inv in Ha as [-> ->].
Ltac lock_case Hstep Ha x E :=
  destruct (_ TMain _) as [| |x] eqn:E; simplify_eq/=; quiet Ha.

(** Outside the mutex, when the history stays the same. *)
Lemma main_moves_outside sh m ws h s m' :
  refines (MkThreads sh m ws h) s → plain m = true → plain m' = true →
  main_inside m = false → main_inside m' = false → undone m = undone m' →
  (∀ p r a ws ac pu po cl, s_running s = r →
     step (MkSystem p r a (read_main max_connections m) ws ac pu po cl)
       (MkSystem p r a (read_main max_connections m') ws ac pu po cl)) →
  ∃ s', (s' = s ∨ step s s') ∧ refines (MkThreads sh m' ws h) s'.
Proof.
  intros Hr Hp Hp2 Ho Ho2 Hu Hst. pose proof Hr as [Hm _ _ _ (E1 & E2 & E3) _ _ _ _ _ _]. cbn in Hm, E1, E2, E3.
  specialize (Hst (s_pool s) _ (s_active s) (s_workers s) (s_accepted s) (s_pushed s) (s_popped s)
    (s_closed s) eq_refl). rewrite <-Hm, <-system_eta in Hst.
  apply (main_commits_outside sh m ws h s m' _ None Hr) in Hst; try done; cbn; [lia|].
  by rewrite E1, E2, E3.
Qed.

(** In [mnet_pool_push], and in [mnet_pool_shutdown]. *)
Definition pushing (m : main_at) : bool :=
  match m with
  | PushLock _ | PushTest _ | PushRunning _ | PushStop _ | PushWait _ | PushSleep _ | PushWake _
  | PushCheck _ | PushFail _ | PushStore _ | PushCount _ | PushSignal _ | PushUnlock _ => true
  | _ => false
  end.

Definition shutting (m : main_at) : bool :=
  match m with
  | ShutLock _ | ShutSet _ | ShutNotEmpty _ | ShutNotFull _ | ShutUnlock _ | ShutJoin _ _
  | ShutDrain _ | ShutFree _ | ShutDestroy _ | Return _ => true
  | _ => false
  end.

(** Starting the workers. *)
Lemma creating_simulated sh ws h s ans m1 sh' e ev m' ws' :
  refines (MkThreads sh Create ws h) s →
  main_step max_connections workers ans ws Create sh = Done (m1, sh', e, ev) →
  affects e m1 ws m' ws' →
  ∃ s', (s' = s ∨ step s s') ∧ refines (MkThreads sh' m' ws' (happens ev h)) s'.
Proof.
  intros Hr Hstep Ha. cbn in Hstep. case_match eqn:E.
  - apply Nat.ltb_lt in E. destruct ans; simplify_eq/=.
    + assert (m' = Create) as -> by by inversion Ha.
      eapply create_simulated; [done| |done]. by left.
    + destruct (length ws =? 0)%nat eqn:Ez.
      * assert (m' = ShutLock (-1)) as -> by by inversion Ha.
        apply Nat.eqb_eq in Ez. eapply create_simulated; [done| |done]. by right; right; left.
      * assert (m' = TestRunning) as -> by by inversion Ha.
        apply Nat.eqb_neq in Ez. eapply create_simulated; [done| |done]. right; left. split; [lia|done].
  - apply Nat.ltb_ge in E. simplify_eq/=. assert (m' = TestRunning) as -> by by inversion Ha.
    eapply create_simulated; [done| |done]. by do 3 right.
Qed.

Lemma accepted_simulated sh ws h s c :
  refines (MkThreads sh Accept ws h) s → socket_inv s → fresh h (AnsAccepted c) →
  ∃ s', (s' = s ∨ step s s') ∧ refines (MkThreads sh (AdmLock c) ws (happens (Some (EvAccepted c)) h)) s'.
Proof.
  intros Hr Hso Hfresh. pose proof Hr as [Hm _ _ _ (E1 & E2 & E3) Hs _ _ _ _ _]. cbn in Hm, E1, E2, E3, Hs.
  set (s' := MkSystem (s_pool s) (s_running s) (s_active s) (AAdmit c) (s_workers s)
    (s_accepted s ++ [c]) (s_pushed s) (s_popped s) (s_closed s)).
  apply (main_commits_outside sh Accept ws h s (AdmLock c) s' (Some (EvAccepted c)) Hr); try done.
  - rewrite (system_eta s), Hm. apply step_accept.
    assert (c ∉ open_sockets s) as Hc by (apply Hfresh; rewrite <-E1, Hs; apply Hso).
    intros Hin. apply Hc. unfold open_sockets. rewrite (assoc_L (++)). apply elem_of_app. by left.
  - cbn. lia.
  - cbn. by rewrite E1, E2, E3.
Qed.

(** The accept loop itself. *)
Lemma loop_simulated sh m ws h s ans m1 sh' e ev m' ws' :
  pushing m = false → shutting m = false → refines (MkThreads sh m ws h) s → queue_inv max_connections s → socket_inv s → fresh h ans →
  main_step max_connections workers ans ws m sh = Done (m1, sh', e, ev) →
  affects e m1 ws m' ws' →
  ∃ s', (s' = s ∨ step s s') ∧ refines (MkThreads sh' m' ws' (happens ev h)) s'.
Proof.
  intros Hnp Hns Hr Hq Hso Hfresh Hstep Ha.
  pose proof Hr as [Hm Hws Hrun _ (E1 & E2 & E3) Hs _ _ _ _ _]. cbn in Hm, E1, E2, E3, Hrun, Hs.
  destruct m; cbn in Hstep; try done.
  - by eapply creating_simulated.
  - (* TestRunning *)
    simplify_eq/=. quiet Ha. destruct (sh_running _) eqn:E; apply (main_moves_outside _ _ _ _ _ _ Hr); try done; cbn; intros.
    + apply step_running. congruence.
    + apply step_stopped. congruence.
  - (* Accept *)
    destruct ans; simplify_eq/=; quiet Ha.
    + by eapply accepted_simulated.
    + apply (main_moves_outside _ _ _ _ _ _ Hr); try done. intros. apply step_interrupted.
    + apply (main_moves_outside _ _ _ _ _ _ Hr); try done. intros. apply step_accept_fail.
  - lock_case Hstep Ha x E. by eapply main_locks.
  - simplify_eq/=. quiet Ha. by eapply read_simulated.
  - lock_case Hstep Ha x E. by eapply main_unlocks.
  - simplify_eq/=. quiet Ha. destruct (at_limit _ _) eqn:E; eapply main_goes_on; try done; cbn; by rewrite E.
  - simplify_eq/=. quiet Ha.
    set (s' := MkSystem (s_pool s) (s_running s) (s_active s) AAccept (s_workers s)
      (s_accepted s) (s_pushed s) (s_popped s) (s_closed s ++ [c])).
    apply (main_commits_outside sh' (Refuse c) ws h s TestRunning s' (Some (EvClosed c)) Hr); try done.
    + rewrite (system_eta s), Hm. apply step_refused.
    + cbn. lia.
    + cbn. by rewrite E1, E2, E3.
    + cbn. by intros ->.
  - lock_case Hstep Ha x E. by eapply main_locks.
  - simplify_eq/=. quiet Ha. by eapply counted_simulated.
  - lock_case Hstep Ha x E. by eapply main_unlocks.
  - lock_case Hstep Ha x E. by eapply main_locks.
  - simplify_eq/=. quiet Ha. eapply main_goes_on; try done. cbn. lia.
  - lock_case Hstep Ha x E. by eapply main_unlocks.
  - simplify_eq/=. quiet Ha.
    set (s' := MkSystem (s_pool s) (s_running s) (s_active s - 1) (AShutdown 0) (s_workers s)
      (s_accepted s) (s_pushed s) (s_popped s) (s_closed s ++ [c])).
    apply (main_commits_outside sh' (UndoClose c) ws h s (ShutLock 0) s' (Some (EvClosed c)) Hr); try done.
    + rewrite (system_eta s), Hm. apply step_undo.
    + cbn. lia.
    + cbn. by rewrite E1, E2, E3.
    + cbn. by intros ->.
Qed.

(** [mnet_pool_push]. *)
Lemma push_simulated sh m ws h s ans m1 sh' e ev m' ws' :
  pushing m = true → refines (MkThreads sh m ws h) s → queue_inv max_connections s → socket_inv s → fresh h ans →
  main_step max_connections workers ans ws m sh = Done (m1, sh', e, ev) →
  affects e m1 ws m' ws' →
  ∃ s', (s' = s ∨ step s s') ∧ refines (MkThreads sh' m' ws' (happens ev h)) s'.
Proof.
  intros Hph Hr Hq Hso Hfresh Hstep Ha. pose proof (rf_running _ _ _ Hr) as Hrun. cbn in Hrun.
  destruct m; cbn in Hstep; try done.
  - lock_case Hstep Ha x E. by eapply main_locks.
  - (* PushTest *)
    simplify_eq/=. quiet Ha. case_match eqn:E; (eapply main_goes_on; [done..|]); cbn; intros <-.
    + apply andb_true_iff in E as [E Es]. apply Nat.eqb_eq in E. by apply negb_true_iff in Es.
    + left. split; [done|]. intros Ec. rewrite Ec, Nat.eqb_refl in E. by apply negb_false_iff in E.
  - (* PushRunning *)
    simplify_eq/=. quiet Ha. destruct (sh_running _) eqn:E; [by apply push_wait_simulated|].
    eapply main_goes_on; try done. cbn. intros (? & ? & ?). split_and!; congruence.
  - (* PushStop *)
    simplify_eq/=. quiet Ha. eapply main_goes_on; try done. cbn. intros (<- & Ec & Es & ->).
    right. split; [done|]. unfold mnet_pool_push. by rewrite (proj2 (Nat.eqb_eq _ _) Ec), Es.
  - lock_case Hstep Ha x E. by eapply main_unlocks.
  - lock_case Hstep Ha x E. by eapply main_locks.
  - (* PushCheck *)
    simplify_eq/=. quiet Ha. case_match eqn:E; [by apply refused_simulated|].
    eapply main_goes_on; try done. cbn. rewrite E. intros [[<- Hc]|[_ Hp]].
    + split_and!; [done| |done]. intros Ec. by apply Hc in Ec.
    + apply push_refused in Hp; [|apply Hq]. destruct Hp as [[Ep Ed]|(Ep & _)]; rewrite Ep in E; [congruence|done].
  - lock_case Hstep Ha x E. by eapply main_unlocks.
  - (* PushStore *)
    unfold store_slot in Hstep. case_match eqn:E; [done|]. apply Nat.eqb_neq in E.
    case_match eqn:E'; simplify_eq/=. quiet Ha. apply andb_true_iff in E' as [_ E'%Nat.ltb_lt].
    eapply main_goes_on; try done. cbn. intros (<- & Hc & Hd). eexists.
    split_and!; [intros r; by apply push_ahead|done|done].
  - simplify_eq/=. quiet Ha. eapply main_goes_on; try done. cbn. intros (p' & Hp & Ec & ->). cbn.
    intros r. rewrite Hp. f_equal. rewrite <-Ec. by destruct p'.
  - simplify_eq/=. by eapply push_signalled.
  - lock_case Hstep Ha x E. by eapply main_unlocks.
Qed.

(** [mnet_pool_shutdown]. *)
Lemma shutdown_simulated sh m ws h s ans m1 sh' e ev m' ws' :
  shutting m = true → refines (MkThreads sh m ws h) s → queue_inv max_connections s → socket_inv s → fresh h ans →
  main_step max_connections workers ans ws m sh = Done (m1, sh', e, ev) →
  affects e m1 ws m' ws' →
  ∃ s', (s' = s ∨ step s s') ∧ refines (MkThreads sh' m' ws' (happens ev h)) s'.
Proof.
  intros Hsh Hr Hq Hso Hfresh Hstep Ha.
  pose proof Hr as [_ _ _ _ _ Hs Hx _ Ham _ Hfree]. cbn in Hs.
  destruct m; cbn in Hstep; try done.
  - lock_case Hstep Ha x E. by eapply main_locks.
  - simplify_eq/=. quiet Ha. eapply main_goes_on; try done. cbn. by intros ->.
  - simplify_eq/=. by eapply shutdown_signalled.
  - simplify_eq/=. apply affects_full_inv in Ha as [-> ->]. by eapply main_goes_on.
  - lock_case Hstep Ha x E. apply unlock_left in E as [Ex ->].
    apply (main_joins sh (ShutUnlock code) ws h s (ShutJoin code 0) _ Hr); try done.
    by apply mutex_left.
  - (* ShutJoin *)
    destruct Hs as [HF Hc]. destruct (ws !! i) as [w|] eqn:Ei.
    + destruct w; simplify_eq/=; quiet Ha. rewrite <-(with_mutex_same sh').
      apply (main_joins sh' (ShutJoin code i) ws h s (ShutJoin code (S i)) _ Hr); try done.
      * by apply mutex_same.
      * split; [|done]. erewrite take_S_r by done. apply Forall_app. split; [done|].
        by apply Forall_singleton.
    + simplify_eq/=. quiet Ha. apply lookup_ge_None in Ei. rewrite take_ge in HF by done.
      pose proof (joined_unlocked _ _ _ Hx eq_refl eq_refl HF) as Eu.
      rewrite <-(with_mutex_same sh').
      apply (main_joins sh' (ShutJoin code i) ws h s (ShutDrain code) _ Hr); try done.
      * by apply mutex_same.
      * destruct (drain_spec _ (qi_pool _ _ Hq)) as (p' & D & _). split; [done|].
        exists [], (queue (s_pool s)), p'. cbn in *. by rewrite (Hfree Eu eq_refl), app_nil_r.
  - (* ShutDrain *)
    case_match eqn:Ec.
    + apply Nat.eqb_eq in Ec. simplify_eq/=. quiet Ha. by apply drained_simulated.
    + apply Nat.eqb_neq in Ec. destruct (slot_at_head sh) as [| |c] eqn:Es; [done..|].
      destruct (advance_head sh) as [| |sh1] eqn:Ea; [done..|]. simplify_eq/=. quiet Ha.
      exists s. split; [by left|]. by eapply drain_simulated.
  - simplify_eq/=. quiet Ha. exists s. split; [by left|]. by apply freed_simulated.
  - destruct (mnet_mutex_destroy _) as [| |x] eqn:E; simplify_eq/=. quiet Ha.
    exists s. split; [by left|]. by apply destroyed_simulated.
Qed.

(** Every instruction of the accept loop is a step of [Pool.v] or nothing. *)
Lemma main_simulated sh m ws h s ans m1 sh' e ev m' ws' :
  refines (MkThreads sh m ws h) s → queue_inv max_connections s → socket_inv s → fresh h ans →
  main_step max_connections workers ans ws m sh = Done (m1, sh', e, ev) →
  affects e m1 ws m' ws' →
  ∃ s', (s' = s ∨ step s s') ∧ refines (MkThreads sh' m' ws' (happens ev h)) s'.
Proof.
  destruct (pushing m) eqn:Ep; [by apply push_simulated|].
  destruct (shutting m) eqn:Es; [by apply shutdown_simulated|by apply loop_simulated].
Qed.

Lemma with_running_refines sh m ws h p r a mm pcs ac pu po cl :
  refines (MkThreads sh m ws h) (MkSystem p r a mm pcs ac pu po cl) →
  refines (MkThreads (with_running sh false) m ws h) (MkSystem p false a mm pcs ac pu po cl).
Proof.
  intros [Hm Hws Hr Ha Hh Hs Hx Hl Ham Haw Hf]. cbn in *. split; cbn; try done.
  destruct m; cbn in *; tauto.
Qed.

Lemma interference_simulated f f' s :
  refines f s → interference f f' → ∃ s', disturbance s s' ∧ refines f' s'.
Proof.
  intros Hr Hi. destruct Hi as [sh m ws h i Hi|sh c ws h|sh m ws h].
  - destruct (at_worker _ _ _ _ (rf_workers _ _ _ Hr) Hi) as (ws1 & ws2 & Ew & Eins).
    destruct (rf_history _ _ _ Hr) as (E1 & E2 & E3). destruct s as [p r a mm pcs ac pu po cl]. cbn in *.
    exists (MkSystem p r a mm (<[i := WPop]> pcs) ac pu po cl). split.
    + rewrite Eins, Ew. apply spurious_not_empty.
    + apply (refines_worker sh m ws h _ i PopSleep PopWake _ _ None Hr Hi); try done.
      * by apply mutex_same.
      * cbn. lia.
      * cbn. by rewrite E1, E2, E3.
  - pose proof Hr as [Hm Hws Hrun Ha (E1 & E2 & E3) Hs Hx Hl _ _ Hf].
    destruct s as [p r a mm pcs ac pu po cl]. cbn in *. subst mm.
    exists (MkSystem p r a (APush c) pcs ac pu po cl). split; [apply spurious_not_full|].
    apply (refines_main sh (PushSleep c) ws h _ (PushWake c) _ _ None Hr); try done.
    + by apply mutex_same.
    + cbn. by rewrite E1, E2, E3.
  - destruct s as [p r a mm pcs ac pu po cl].
    exists (MkSystem p false a mm pcs ac pu po cl). split; [apply sig_handler|].
    by eapply with_running_refines.
Qed.

Lemma advance_simulated f f' s :
  refines f s → queue_inv max_connections s → socket_inv s →
  advances max_connections workers f f' →
  ∃ s', (s' = s ∨ move max_connections workers s s') ∧ refines f' s'.
Proof.
  intros Hr Hq Hso [Hi|Hi].
  - assert (∃ s', (s' = s ∨ step s s') ∧ refines f' s') as (s' & [->|Hs] & Hr').
    { destruct Hi; [by eapply worker_simulated|by eapply main_simulated]. }
    + exists s. auto.
    + exists s'. split; [right; by left|done].
  - destruct (interference_simulated f f' s Hr Hi) as (s' & Hd & Hr').
    exists s'. split; [right; by right|done].
Qed.

Lemma starts_refines f : starts max_connections f → ∃ s, initial max_connections s ∧ refines f s.
Proof.
  intros (slots & Hl & ->). exists (MkSystem (new_pool slots) true 0 AStart [] [] [] [] []).
  by split; [exists slots|].
Qed.

Lemma runs_refine f :
  (0 < workers)%nat → runs_to max_connections workers f →
  ∃ s, reachable max_connections workers s ∧ refines f s.
Proof.
  intros Hw (f0 & Hi & Hrun). destruct (starts_refines f0 Hi) as (s0 & Hs0 & Hr0).
  assert (reachable max_connections workers s0) as Hreach by by exists s0.
  clear Hi Hs0. revert s0 Hreach Hr0. induction Hrun as [f|f f1 f2 Hadv _ IH]; intros s Hreach Hr; [eauto|].
  destruct (reachable_inv _ _ s Hw Hreach) as (Hq & _ & Hso).
  destruct (advance_simulated f f1 s Hr Hq Hso Hadv) as (s1 & [->|Hm] & Hr1); [by apply (IH s)|].
  apply (IH s1); [|done]. destruct Hreach as (s0 & Hi & Hr0). exists s0. split; [done|].
  by eapply rtc_r.
Qed.

(** ** Nothing goes wrong *)

Lemma not_destroyed_worker x m ws h sh s i w :
  mutex_ok x m ws → main_says m ws h sh s → ws !! i = Some w → w ≠ Exit → x ≠ Destroyed.
Proof.
  intros Hx Hs Hi Hw Ed. apply (mx_destroyed _ _ _ Hx) in Ed.
  pose proof (live_not_joined _ _ _ _ _ _ _ Hs Hi Hw). by destruct m.
Qed.

Lemma lock_fine {B} me x (k : mnet_mutex_t → B) :
  x ≠ Destroyed → x ≠ Locked me →
  (y ← mnet_mutex_lock me x; Done (k y)) ≠ Undefined ∧
  (x = Unlocked → ∃ r, (y ← mnet_mutex_lock me x; Done (k y)) = Done r).
Proof.
  intros Hd Hl. destruct x as [|t|]; cbn; [by eauto| |done]. case_decide; [by subst|done].
Qed.

Lemma unlock_fine me x : x = Locked me → mnet_mutex_unlock me x = Done Unlocked.
Proof. intros ->. unfold mnet_mutex_unlock. by rewrite decide_True. Qed.

Lemma slot_fine sh :
  sh_slots_live sh = true → pool_ok (sh_pool sh) → ∃ c, slot_at_head sh = Done c.
Proof.
  intros Hl [Hs _ Hh _]. unfold slot_at_head. rewrite Hl.
  destruct (lookup_lt_is_Some_2 (po_slots (sh_pool sh)) (po_head (sh_pool sh))) as [c ->]; [lia|eauto].
Qed.

Lemma advance_fine sh : po_capacity (sh_pool sh) ≠ 0%nat → ∃ sh', advance_head sh = Done sh'.
Proof. intros Hc. unfold advance_head. rewrite (proj2 (Nat.eqb_neq _ _) Hc). eauto. Qed.

(** An instruction that waits for nothing but a free mutex. *)
Definition runnable (w : worker_at) : Prop := w ≠ PopSleep ∧ w ≠ Exit.

Lemma worker_runs sh m ws h s i w :
  refines (MkThreads sh m ws h) s → queue_inv max_connections s → ws !! i = Some w →
  worker_step (TWorker i) w sh ≠ Undefined ∧
  (runnable w → (worker_inside w = true ∨ sh_mutex sh = Unlocked) →
   ∃ r, worker_step (TWorker i) w sh = Done r).
Proof.
  intros [Hm Hws Hrun Hac _ Hs Hx Hl Ham Haw Hfree] Hq Hi. cbn in *.
  specialize (Haw i w Hi). pose proof (qi_pool _ _ Hq) as Hp.
  pose proof (mx_worker _ _ _ Hx i w Hi) as Hmx.
  destruct (decide (w = Exit)) as [->|Hne]; [split; [done|by intros [_ ?]]|].
  pose proof (not_destroyed_worker _ _ _ _ _ _ _ _ Hx Hs Hi Hne) as Hnd.
  assert (sh_slots_live sh = true) as Hlive.
  { rewrite Hl. pose proof (live_not_joined _ _ _ _ _ _ _ Hs Hi Hne). by destruct m. }
  destruct w; cbn in Haw, Hmx |- *; try done;
    try (assert (sh_mutex sh = Locked (TWorker i)) as Ex by (by apply Hmx));
    try (assert (sh_mutex sh ≠ Locked (TWorker i)) as Ex by (intros E; discriminate (proj2 Hmx E)));
    unfold mnet_cond_wait; rewrite ?(unlock_fine _ _ Ex);
    try (split; [done|by eauto]);
    try (destruct (lock_fine (TWorker i) (sh_mutex sh) (λ x, (PopTest, with_mutex sh x, Quiet, @None event)) Hnd Ex) as [? Hlock];
         by split; [|intros _ [?|?]; [|apply Hlock]]);
    try (destruct (lock_fine (TWorker i) (sh_mutex sh) (λ x, (RelDec, with_mutex sh x, Quiet, @None event)) Hnd Ex) as [? Hlock];
         by split; [|intros _ [?|?]; [|apply Hlock]]).
  - case_match; split; try done; by eauto.
  - by split; [|intros [? _]].
  - destruct Haw as [Ep _]. destruct (slot_fine sh Hlive) as [c ->]; [by rewrite Ep|].
    split; [done|by eauto].
  - destruct Haw as (Ep & _). destruct (advance_fine sh) as [sh' ->].
    { rewrite Ep. pose proof (pk_capacity _ Hp). lia. }
    split; [done|by eauto].
Qed.

Lemma drain_fine p rest p' :
  po_count p ≠ 0%nat → drain p = Some (rest, p') →
  po_capacity p ≠ 0%nat ∧ ∃ c, po_slots p !! po_head p = Some c.
Proof.
  unfold drain. destruct (po_count p) as [|n]; [done|]. intros _. cbn. unfold take_head.
  destruct (po_capacity p =? 0)%nat eqn:E; [done|]. apply Nat.eqb_neq in E.
  destruct (po_slots p !! po_head p); by eauto.
Qed.

(** The accept loop waits for a slot, for a worker to return, or for nothing more. *)
Definition main_waits (m : main_at) (ws : list worker_at) : Prop :=
  match m with
  | PushSleep _ | Return _ => True
  | ShutJoin _ i => ∃ w, ws !! i = Some w ∧ w ≠ Exit
  | _ => False
  end.

Lemma main_fine sh m ws h s ans :
  refines (MkThreads sh m ws h) s → queue_inv max_connections s →
  main_step max_connections workers ans ws m sh ≠ Undefined.
Proof.
  intros [Hm Hws Hrun Hac _ Hs Hx Hl Ham Haw Hfree] Hq. cbn in *.
  pose proof (qi_pool _ _ Hq) as Hp. pose proof (mx_main _ _ _ Hx) as Hmx.
  pose proof (mx_destroyed _ _ _ Hx) as Hmd.
  destruct m; cbn in Ham, Hmx, Hmd, Hl |- *; try done;
    try (assert (sh_mutex sh = Locked TMain) as Ex by (by apply Hmx));
    try (assert (sh_mutex sh ≠ Locked TMain) as Ex by (intros E; discriminate (proj2 Hmx E)));
    try (assert (sh_mutex sh ≠ Destroyed) as Ed by (intros E; discriminate (proj2 Hmd E)));
    unfold mnet_cond_wait; rewrite ?(unlock_fine _ _ Ex); try done;
    try (by apply (lock_fine TMain (sh_mutex sh) (λ x, (_, with_mutex sh x, Quiet, @None event)))).
  - repeat case_match; done.
  - by destruct ans.
  - destruct Ham as (Ep & _). unfold store_slot. destruct Hp as [Hsl Hcap _ _]. rewrite <-Ep in Hsl, Hcap.
    rewrite (proj2 (Nat.eqb_neq _ _)) by lia. rewrite Hl.
    rewrite (proj2 (Nat.ltb_lt _ _)); [done|]. rewrite Hsl. apply Nat.mod_upper_bound. lia.
  - by repeat case_match.
  - destruct Hs as (_ & dn & rest & p' & _ & D & _). case_match eqn:E; [done|]. apply Nat.eqb_neq in E.
    destruct (drain_fine _ _ _ E D) as (Hc & c & Hslot). unfold slot_at_head. rewrite Hl, Hslot. cbn.
    by destruct (advance_fine sh Hc) as [sh' ->].
  - destruct Hs as [HF _]. by rewrite (joined_unlocked _ _ _ Hx eq_refl eq_refl HF).
Qed.

Lemma main_runs sh m ws h s :
  refines (MkThreads sh m ws h) s → queue_inv max_connections s → ¬ main_waits m ws →
  (main_inside m = true ∨ sh_mutex sh = Unlocked) →
  ∃ ans r, fresh h ans ∧ main_step max_connections workers ans ws m sh = Done r.
Proof.
  intros Hr Hq Hnw Hmx.
  assert (∃ ans, fresh h ans ∧ main_step max_connections workers ans ws m sh ≠ Blocked) as (ans & Hf & Hb).
  { assert (∀ ans, match ans with AnsAccepted _ => False | _ => True end → fresh h ans) as Hfresh
      by by intros [].
    destruct m; try (by destruct Hnw);
      try (exists AnsNone; split; [by apply Hfresh|]; cbn; repeat case_match; done);
      try (destruct Hmx as [Hmx|Hmx]; [done|]; exists AnsNone; split; [by apply Hfresh|];
           cbn; rewrite Hmx; done);
      try (exists AnsNone; split; [by apply Hfresh|]; cbn; unfold mnet_cond_wait, mnet_mutex_unlock;
           by case_decide).
    - exists AnsCreated. split; [by apply Hfresh|]. cbn. by case_match.
    - exists AnsInterrupted. by split; [apply Hfresh|].
    - exists AnsNone. split; [by apply Hfresh|]. cbn. unfold store_slot. by repeat case_match.
    - exists AnsNone. split; [by apply Hfresh|]. cbn. destruct (ws !! i) as [w|] eqn:E; [|done].
      destruct (decide (w = Exit)) as [->|]; [done|]. destruct Hnw. by exists w.
    - exists AnsNone. split; [by apply Hfresh|]. cbn. case_match; [done|].
      unfold slot_at_head. destruct (sh_slots_live sh); [|done].
      destruct (po_slots (sh_pool sh) !! po_head (sh_pool sh)); [|done].
      cbn. unfold advance_head. by case_match. }
  exists ans. pose proof (main_fine _ _ _ _ _ ans Hr Hq).
  destruct (main_step _ _ _ _ _ _) as [| |r]; [done..|eauto].
Qed.
End simulation.

(** ** Running a schedule *)

(** Who goes next, and what the system answers. *)
Inductive turn := MainTurn (ans : answer) | WorkerTurn (i : nat).

(** [mnet_cond_signal] wakes the first thread that sleeps. *)
Fixpoint wake_first (ws : list worker_at) : list worker_at :=
  match ws with
  | [] => []
  | PopSleep :: ws => PopWake :: ws
  | w :: ws => w :: wake_first ws
  end.

Definition apply_effect (e : effect) (m : main_at) (ws : list worker_at) : main_at * list worker_at :=
  match e with
  | Quiet => (m, ws)
  | SignalNotEmpty => (m, wake_first ws)
  | SignalNotFull | BroadcastNotFull => (wake_main m, ws)
  | BroadcastNotEmpty => (m, wake_worker <$> ws)
  | ThreadCreated => (m, ws ++ [PopLock])
  end.

Definition is_fresh (h : history) (ans : answer) : bool :=
  match ans with AnsAccepted c => bool_decide (c ∉ h_accepted h) | _ => true end.

Section schedules.
Variables (max_connections : Z) (workers : nat).

Definition take_turn (t : turn) (f : threads) : option threads :=
  match t with
  | MainTurn ans =>
      if is_fresh (th_history f) ans then
        match main_step max_connections workers ans (th_workers f) (th_main f) (th_shared f) with
        | Done (m, sh, e, ev) =>
            let '(m, ws) := apply_effect e m (th_workers f) in
            Some (MkThreads sh m ws (happens ev (th_history f)))
        | _ => None
        end
      else None
  | WorkerTurn i =>
      match th_workers f !! i with
      | None => None
      | Some w =>
          match worker_step (TWorker i) w (th_shared f) with
          | Done (w, sh, e, ev) =>
              let '(m, ws) := apply_effect e (th_main f) (<[i := w]> (th_workers f)) in
              Some (MkThreads sh m ws (happens ev (th_history f)))
          | _ => None
          end
      end
  end.

Fixpoint run_schedule (ts : list turn) (f : threads) : option threads :=
  match ts with
  | [] => Some f
  | t :: ts => match take_turn t f with Some f => run_schedule ts f | None => None end
  end.

Lemma wake_first_cases m ws : affects SignalNotEmpty m ws m (wake_first ws).
Proof.
  destruct (decide (PopSleep ∈ ws)) as [Hin|Hn].
  - assert (∃ ws1 ws2, ws = ws1 ++ PopSleep :: ws2 ∧ wake_first ws = ws1 ++ PopWake :: ws2)
      as (ws1 & ws2 & -> & ->); [|apply affects_one].
    induction ws as [|w ws IH]; [by apply not_elem_of_nil in Hin|].
    destruct (decide (w = PopSleep)) as [->|Hne]; [by exists [], ws|].
    apply elem_of_cons in Hin as [?|Hin]; [done|].
    destruct (IH Hin) as (ws1 & ws2 & -> & E). exists (w :: ws1), ws2. split; [done|].
    rewrite <-app_comm_cons, <-E. by destruct w.
  - replace (wake_first ws) with ws; [by apply affects_none|].
    induction ws as [|w ws IH]; [done|]. apply not_elem_of_cons in Hn as [Hne Hn].
    destruct w; try done; cbn; by rewrite <-IH.
Qed.

Lemma apply_effect_affects e m ws m' ws' : apply_effect e m ws = (m', ws') → affects e m ws m' ws'.
Proof. destruct e; cbn; intros [= <- <-]; by (constructor || apply wake_first_cases). Qed.

Lemma effect_exists e m ws : ∃ m' ws', affects e m ws m' ws'.
Proof. destruct (apply_effect e m ws) as [m' ws'] eqn:E. exists m', ws'. by apply apply_effect_affects. Qed.

Lemma is_fresh_fresh h ans : is_fresh h ans = true → fresh h ans.
Proof.
  destruct ans; try done. cbn. intros Hn%bool_decide_eq_true open E Hin. apply Hn. rewrite E.
  apply elem_of_app. by right.
Qed.

Lemma take_turn_instruction t f f' :
  take_turn t f = Some f' → instruction max_connections workers f f'.
Proof.
  destruct f as [sh m ws h], t as [ans|i]; cbn.
  - destruct (is_fresh h ans) eqn:Hf; [|done].
    destruct (main_step _ _ _ _ _ _) as [| |[[[m1 sh'] e] ev]] eqn:E; [done..|].
    destruct (apply_effect _ _ _) as [m' ws'] eqn:Ea. intros [= <-].
    eapply run_main; [by apply is_fresh_fresh|done|by apply apply_effect_affects].
  - destruct (ws !! i) as [w|] eqn:Hi; [|done].
    destruct (worker_step _ _ _) as [| |[[[w' sh'] e] ev]] eqn:E; [done..|].
    destruct (apply_effect _ _ _) as [m' ws'] eqn:Ea. intros [= <-].
    eapply run_worker; [done|done|by apply apply_effect_affects].
Qed.

Lemma run_schedule_advances ts f f' :
  run_schedule ts f = Some f' → rtc (advances max_connections workers) f f'.
Proof.
  revert f. induction ts as [|t ts IH]; intros f; cbn; [intros [= <-]; apply rtc_refl|].
  destruct (take_turn t f) as [f1|] eqn:E; [|done]. intros Hr.
  eapply rtc_l; [left; by eapply take_turn_instruction|by apply IH].
Qed.

Lemma run_schedule_runs_to ts f0 f :
  starts max_connections f0 → run_schedule ts f0 = Some f → runs_to max_connections workers f.
Proof. intros Hs Hr. exists f0. split; [done|by apply (run_schedule_advances ts)]. Qed.
End schedules.

(** A schedule in which the only worker falls asleep before connection 7 arrives,
    is woken, serves it, sleeps again, and is woken by the shutdown. *)
Definition demo_threads : threads :=
  MkThreads (MkShared (new_pool [0; 0]) true 0 mnet_mutex_init true) Create [] (MkHistory [] [] [] []).

Definition main_turns (n : nat) : list turn := replicate n (MainTurn AnsNone).
Definition worker_turns (n : nat) : list turn := replicate n (WorkerTurn 0).

Definition demo_pushing : list turn :=
  MainTurn AnsCreated :: worker_turns 3 ++ main_turns 2 ++ MainTurn (AnsAccepted 7) :: main_turns 13.

Definition demo_returning : list turn :=
  demo_pushing ++ main_turns 1 ++ worker_turns 16 ++ main_turns 1 ++ MainTurn AnsFailed ::
  main_turns 5 ++ worker_turns 4 ++ main_turns 5.

(** The worker is woken, and the accept loop still holds the mutex. *)
Definition demo_pushed : threads :=
  MkThreads (MkShared (MkPool [7; 0] 2 0 1 false) true 1 (Locked TMain) true) (PushUnlock 7) [PopWake]
    (MkHistory [7] [7] [] []).

Definition demo_over : threads :=
  MkThreads (MkShared (MkPool [7; 0] 2 1 0 true) true 0 Destroyed false) (Return 0) [Exit]
    (MkHistory [7] [7] [7] [7]).

Lemma demo_threads_start : starts 2 demo_threads.
Proof. by exists [0; 0]. Qed.

Lemma demo_pushed_runs : runs_to 2 1 demo_pushed.
Proof. apply (run_schedule_runs_to 2 1 demo_pushing demo_threads); [apply demo_threads_start|by vm_compute]. Qed.

Lemma demo_over_runs : runs_to 2 1 demo_over.
Proof. apply (run_schedule_runs_to 2 1 demo_returning demo_threads); [apply demo_threads_start|by vm_compute]. Qed.

(** No instruction is ever undefined. *)
Lemma never_undefined max_connections workers f :
  (0 < workers)%nat → runs_to max_connections workers f → ¬ goes_wrong max_connections workers f.
Proof.
  intros Hw Hf. destruct (runs_refine _ _ f Hw Hf) as (s & Hs & Hr).
  destruct (reachable_inv _ _ s Hw Hs) as (Hq & _ & _). destruct f as [sh m ws h].
  intros [(i & w & Hi & Hu)|(ans & Hu)]; cbn in *.
  - by destruct (worker_runs max_connections sh m ws h s i w Hr Hq Hi) as [? _].
  - by apply (main_fine max_connections workers sh m ws h s ans Hr Hq).
Qed.

(** ** Properties *)

(** C5: the instructions of the threads refine the atomic steps of [Pool.v]: for
    every interleaving, spurious wake-ups and signals included, there is a run of
    [Pool.v] with every thread where its code says, the same history, and, when
    no thread is inside the mutex or draining the queue, the same pool. *)
Theorem threads_refine_pool (max_connections : Z) (workers : nat) (f : threads) :
  (0 < workers)%nat → runs_to max_connections workers f →
  ∃ s, reachable max_connections workers s ∧
    s_acceptor s = read_main max_connections (th_main f) ∧
    s_workers s = read_worker <$> th_workers f ∧
    s_running s = sh_running (th_shared f) ∧
    s_accepted s = h_accepted (th_history f) ∧ s_pushed s = h_pushed (th_history f) ∧
    s_popped s = h_popped (th_history f) ∧
    (draining (th_main f) = false → s_closed s = h_closed (th_history f)) ∧
    (sh_mutex (th_shared f) = Unlocked → draining (th_main f) = false →
       s_pool s = sh_pool (th_shared f)).
Proof.
  intros Hw Hf. destruct (runs_refine _ _ f Hw Hf) as (s & Hs & [Hm Hws Hr Ha (E1 & E2 & E3) Hsays _ _ _ _ Hfree]).
  exists s. split_and!; [done..| |]; intros; [|symmetry; by apply Hfree].
  destruct (th_main f); try done; cbn in Hsays; try done; by destruct Hsays.
Qed.

Lemma threads_refine_pool_witness :
  ∃ s, reachable 2 1 s ∧ s_acceptor s = read_main 2 (th_main demo_pushed) ∧
    s_workers s = read_worker <$> th_workers demo_pushed ∧
    s_running s = sh_running (th_shared demo_pushed) ∧
    s_accepted s = h_accepted (th_history demo_pushed) ∧ s_pushed s = h_pushed (th_history demo_pushed) ∧
    s_popped s = h_popped (th_history demo_pushed) ∧
    (draining (th_main demo_pushed) = false → s_closed s = h_closed (th_history demo_pushed)) ∧
    (sh_mutex (th_shared demo_pushed) = Unlocked → draining (th_main demo_pushed) = false →
       s_pool s = sh_pool (th_shared demo_pushed)).
Proof. apply (threads_refine_pool 2 1); [lia|apply demo_pushed_runs]. Defined.

(** C8: the threads are safe under every interleaving: no two are between lock and
    unlock at once, and no instruction is ever undefined: no lock is taken twice,
    given back by another thread, used after it is destroyed or destroyed while it
    is held, and the slots are not accessed out of bounds or after they are freed. *)
Theorem threads_safe (max_connections : Z) (workers : nat) (f : threads) :
  (0 < workers)%nat → runs_to max_connections workers f →
  ¬ goes_wrong max_connections workers f ∧
  (∀ i w, th_workers f !! i = Some w → worker_inside w = true →
     main_inside (th_main f) = false ∧
     ∀ j v, th_workers f !! j = Some v → worker_inside v = true → j = i).
Proof.
  intros Hw Hf. split; [by apply never_undefined|].
  destruct (runs_refine _ _ f Hw Hf) as (s & Hs & Hr). destruct f as [sh m ws h].
  intros i w Hi Hin. destruct (others_outside _ _ _ _ _ (rf_mutex _ _ _ Hr) Hi Hin) as (_ & Ho & Hoth).
  split; [done|]. intros j v Hj Hjin. destruct (decide (j = i)) as [|Hne]; [done|].
  by rewrite (Hoth j v Hne Hj) in Hjin.
Qed.

Lemma threads_safe_witness :
  ¬ goes_wrong 2 1 demo_pushed ∧
  (∀ i w, th_workers demo_pushed !! i = Some w → worker_inside w = true →
     main_inside (th_main demo_pushed) = false ∧
     ∀ j v, th_workers demo_pushed !! j = Some v → worker_inside v = true → j = i).
Proof. apply (threads_safe 2 1); [lia|apply demo_pushed_runs]. Defined.

(** C17: the threads never block each other for good: until [mnet_run] returns, some
    thread can execute its next instruction without a spurious wake-up or a
    signal. *)
Theorem threads_never_deadlock (max_connections : Z) (workers : nat) (f : threads) :
  (0 < workers)%nat → runs_to max_connections workers f → (∀ code, th_main f ≠ Return code) →
  ∃ f', instruction max_connections workers f f'.
Proof.
  intros Hw Hf Hret. destruct (runs_refine _ _ f Hw Hf) as (s & Hs & Hr).
  destruct (reachable_inv _ _ s Hw Hs) as (Hq & _ & _). destruct f as [sh m ws h]. cbn in Hret.
  assert (∀ i w, ws !! i = Some w → runnable w → worker_inside w = true ∨ sh_mutex sh = Unlocked →
    ∃ f', instruction max_connections workers (MkThreads sh m ws h) f') as Hworker.
  { intros i w Hi Hrun Hmx. destruct (worker_runs max_connections sh m ws h s i w Hr Hq Hi) as [_ Hgo].
    destruct (Hgo Hrun Hmx) as [[[[w' sh'] e] ev] E].
    destruct (effect_exists e m (<[i := w']> ws)) as (m' & ws' & Ha). eexists. by eapply run_worker. }
  assert (¬ main_waits m ws → main_inside m = true ∨ sh_mutex sh = Unlocked →
    ∃ f', instruction max_connections workers (MkThreads sh m ws h) f') as Hmain.
  { intros Hnw Hmx. destruct (main_runs max_connections workers sh m ws h s Hr Hq Hnw Hmx)
      as (ans & [[[m1 sh'] e] ev] & Hfr & E).
    destruct (effect_exists e m1 ws) as (m' & ws' & Ha). eexists. by eapply run_main. }
  pose proof Hr as [Hm Hws _ _ _ Hsays [Xm Xw Xh Xd] _ _ _ _]. cbn in *.
  pose proof (qi_phase _ _ Hq) as Hph. rewrite Hm, Hws in Hph.
  destruct (sh_mutex sh) as [|[|i]|] eqn:Ex.
  - destruct m; try (apply Hmain; [by intros []|by right]).
    + cbn in Hph. destruct Hph as (Hd & _ & Ec).
      assert (Exists awake (s_workers s)) as Haw.
      { apply (qi_awake _ _ Hq); [|done]. rewrite Ec. apply (qi_pool _ _ Hq). }
      apply Exists_exists in Haw as (w & Hin & Hw1 & Hw2).
      rewrite Hws in Hin. apply list_elem_of_fmap in Hin as (v & -> & Hin).
      apply list_elem_of_lookup in Hin as [i Hi]. apply (Hworker i v Hi); [|by right].
      by split; intros ->.
    + destruct (ws !! i) as [w|] eqn:Ei.
      * destruct (decide (w = Exit)) as [->|Hne].
        { apply Hmain; [|by right]. intros (w & Ew & Hw'). rewrite Ei in Ew. by injection Ew as <-. }
        apply (Hworker i w Ei); [|by right]. split; [|done]. intros ->. cbn in Hph.
        destruct Hph as [_ Hn]. apply Hn. apply list_elem_of_fmap. exists PopSleep.
        split; [done|by eapply list_elem_of_lookup_2].
      * apply Hmain; [|by right]. intros (w & Ew & _). by rewrite Ei in Ew.
    + by destruct (Hret code).
  - assert (main_inside m = true) as Hin by by apply Xm. apply Hmain; [intros Hwait; by destruct m|by left].
  - destruct (lookup_lt_is_Some_2 ws i (Xh i eq_refl)) as [w Hi].
    assert (worker_inside w = true) as Hin by by apply (Xw i w Hi).
    apply (Hworker i w Hi); [|by left]. by split; intros ->.
  - assert (past_destroy m = true) as Hp by by apply Xd. destruct m; try done. by destruct (Hret code).
Qed.

Lemma threads_never_deadlock_witness : ∃ f', instruction 2 1 demo_pushed f'.
Proof. apply (threads_never_deadlock 2 1); [lia|apply demo_pushed_runs|discriminate]. Defined.


