(* ===== verification/WinThreads.v ===== *)
(** * The thread layer of the Windows build

    [src/mnet_internal.h], the branch for [_WIN32]: the wrappers of the mutex around a
    critical section, which a thread may enter again while it owns it.  [Threads]
    follows the POSIX build.  The theorem below says that the two builds run the
    same: no call that [src/mnet_server.c] makes in any reachable state can tell a
    critical section from a mutex. *)

From S2P Require Export Threads.

Module Win32.

(** [CRITICAL_SECTION]: free, entered [depth + 1] times by its owner, or deleted. *)
Inductive mnet_mutex_t := Free | Owned (t : thread_id) (depth : nat) | Deleted.

(** [InitializeCriticalSection] *)
Definition mnet_mutex_init : mnet_mutex_t := Free.

(** [EnterCriticalSection] *)
Definition mnet_mutex_lock (me : thread_id) (m : mnet_mutex_t) : attempt mnet_mutex_t :=
  match m with
  | Free => Done (Owned me 0)
  | Owned t depth => if decide (t = me) then Done (Owned me (S depth)) else Blocked
  | Deleted => Undefined
  end.

(** [LeaveCriticalSection] *)
Definition mnet_mutex_unlock (me : thread_id) (m : mnet_mutex_t) : attempt mnet_mutex_t :=
  match m with
  | Owned t depth =>
      if decide (t = me) then Done match depth with O => Free | S depth => Owned me depth end
      else Undefined
  | _ => Undefined
  end.

(** [SleepConditionVariableCS] leaves the section once. *)
Definition mnet_cond_wait (me : thread_id) (m : mnet_mutex_t) : attempt mnet_mutex_t :=
  mnet_mutex_unlock me m.

(** [DeleteCriticalSection] *)
Definition mnet_mutex_destroy (m : mnet_mutex_t) : attempt mnet_mutex_t :=
  match m with Free => Done Deleted | _ => Undefined end.

End Win32.

(** ** The calls of the threads *)

Inductive mutex_call := CallLock | CallUnlock | CallWait | CallDestroy.

Definition posix_call (call : mutex_call) (me : thread_id) (m : mnet_mutex_t) : attempt mnet_mutex_t :=
  match call with
  | CallLock => mnet_mutex_lock me m
  | CallUnlock => mnet_mutex_unlock me m
  | CallWait => mnet_cond_wait me m
  | CallDestroy => mnet_mutex_destroy m
  end.

Definition win32_call (call : mutex_call) (me : thread_id) (m : Win32.mnet_mutex_t) :
    attempt Win32.mnet_mutex_t :=
  match call with
  | CallLock => Win32.mnet_mutex_lock me m
  | CallUnlock => Win32.mnet_mutex_unlock me m
  | CallWait => Win32.mnet_cond_wait me m
  | CallDestroy => Win32.mnet_mutex_destroy m
  end.

(** The call that a thread makes next. *)
Definition worker_call (w : worker_at) : option mutex_call :=
  match w with
  | PopLock | PopWake | RelLock => Some CallLock
  | PopWait => Some CallWait
  | PopFail | PopUnlock _ | RelUnlock => Some CallUnlock
  | _ => None
  end.

Definition main_call (m : main_at) : option mutex_call :=
  match m with
  | AdmLock _ | CntLock _ | PushLock _ | PushWake _ | UndoLock _ | ShutLock _ => Some CallLock
  | PushWait _ => Some CallWait
  | AdmUnlock _ _ | CntUnlock _ | PushFail _ | PushUnlock _ | UndoUnlock _ | ShutUnlock _ => Some CallUnlock
  | ShutDestroy _ => Some CallDestroy
  | _ => None
  end.

(** The critical section in the place of a mutex. *)
Definition as_section (m : mnet_mutex_t) : Win32.mnet_mutex_t :=
  match m with
  | Unlocked => Win32.Free
  | Locked t => Win32.Owned t 0
  | Destroyed => Win32.Deleted
  end.

Definition attempt_map {A B} (f : A → B) (a : attempt A) : attempt B :=
  match a with Blocked => Blocked | Undefined => Undefined | Done a => Done (f a) end.

(** A call that is defined for a mutex does the same to a critical section; only a
    second lock by the owner is different. *)
Lemma call_same call me m :
  posix_call call me m ≠ Undefined →
  win32_call call me (as_section m) = attempt_map as_section (posix_call call me m).
Proof.
  destruct call; unfold posix_call, win32_call, mnet_cond_wait, Win32.mnet_cond_wait,
    mnet_mutex_unlock, Win32.mnet_mutex_unlock;
    destruct m as [|t|]; cbn; try done; repeat case_decide; simplify_eq; done.
Qed.

Lemma second_lock_differs me :
  mnet_mutex_lock me (Locked me) = Undefined ∧
  Win32.mnet_mutex_lock me (as_section (Locked me)) = Done (Win32.Owned me 1).
Proof. cbn. by rewrite !decide_True by done. Qed.

(** The calls are the ones that the instructions make. *)
Lemma worker_call_undefined me w sh call :
  worker_call w = Some call → posix_call call me (sh_mutex sh) = Undefined →
  worker_step me w sh = Undefined.
Proof. intros Hc Hu. destruct w; try done; injection Hc as <-; cbn in *; by rewrite Hu. Qed.

Lemma main_call_undefined max_connections workers ans ws m sh call :
  main_call m = Some call → posix_call call TMain (sh_mutex sh) = Undefined →
  main_step max_connections workers ans ws m sh = Undefined.
Proof. intros Hc Hu. destruct m; try done; injection Hc as <-; cbn in *; by rewrite Hu. Qed.

(** ** Properties *)

(** the Windows build runs its threads as the POSIX build does: in every state
    that the threads can reach, each call of the thread layer that a thread makes next
    has the same outcome with a critical section, which may be entered again by its
    owner, as with a mutex. *)
Theorem windows_threads_same (max_connections : Z) (workers : nat) (f : threads) :
  (0 < workers)%nat → runs_to max_connections workers f →
  let m := sh_mutex (th_shared f) in
  (∀ i w call, th_workers f !! i = Some w → worker_call w = Some call →
     win32_call call (TWorker i) (as_section m) =
       attempt_map as_section (posix_call call (TWorker i) m)) ∧
  (∀ call, main_call (th_main f) = Some call →
     win32_call call TMain (as_section m) = attempt_map as_section (posix_call call TMain m)).
Proof.
  intros Hw Hf m. pose proof (never_undefined _ _ f Hw Hf) as Hgood. split.
  - intros i w call Hi Hcall. apply call_same. intros Hu. apply Hgood. left. exists i, w.
    split; [done|]. by eapply worker_call_undefined.
  - intros call Hcall. apply call_same. intros Hu. apply Hgood. right. exists AnsNone.
    by eapply main_call_undefined.
Qed.

Lemma windows_threads_same_witness :
  let m := sh_mutex (th_shared demo_pushed) in
  (∀ i w call, th_workers demo_pushed !! i = Some w → worker_call w = Some call →
     win32_call call (TWorker i) (as_section m) =
       attempt_map as_section (posix_call call (TWorker i) m)) ∧
  (∀ call, main_call (th_main demo_pushed) = Some call →
     win32_call call TMain (as_section m) = attempt_map as_section (posix_call call TMain m)).
Proof. apply (windows_threads_same 2 1); [lia|apply demo_pushed_runs]. Defined.
