(* ===== verification/Run.v ===== *)
(** * Running an application

    [src/mnet_server.c]: [mnet_run] with at most one worker, which serves the
    accepted connections one after the other; and the two halves of the library
    joined: an application built with the operations of [App.v] is one that the
    server of [Server.v] can serve.  (The pool of workers is in [Pool.v], and [mnet_run] with workers in [Workers.v].) *)

From S2P Require Export Net Server App.

Definition MNET_LISTEN_BACKLOG : Z := 128.

(** The flag [app->running] as the signal handler and [mnet_stop] leave it, and the
    contents of the uninitialised buffer of each connection. *)
Class Listener := {
  ls_running : nat → bool;
  ls_buffer : nat → bytes;
  ls_buffer_size : ∀ k, length (ls_buffer k) = MNET_REQUEST_BUFFER_SIZE;
  ls_buffer_bytes : ∀ k, Forall is_byte (ls_buffer k);
}.

Section run.
Context `{!Allocator, !OS, !Process, !Files, !Network, !Listener}.

(** The single-threaded accept loop; [false] when it has not ended after [fuel]
    passes, or a connection not after [requests] requests. *)
Fixpoint accept_loop (fuel requests : nat) (app : mnet_app_t) : M (bool * mnet_app_t) :=
  match fuel with
  | O => mret (false, app)
  | S fuel =>
      running ← sys ls_running;
      if negb running then mret (true, app)
      else
        client ← mnet_tcp_accept;
        if negb client then
          eintr ← sys nt_eintr;
          if eintr : bool then accept_loop fuel requests app
          else
            mnet_app_log (app_log_handler app) MNET_LOG_ERROR
              (lit "accept failed, stopping the server");;
            mret (true, app)
        else if ((0 <? app_max_connections app) &&
                 (app_max_connections app <=? app_active_connections app))%bool then
          mnet_app_log (app_log_handler app) MNET_LOG_WARN
            (lit "refused a connection: " ++ print_int (app_active_connections app) ++
             lit " active (max_connections)");;
          send_simple_error 503 (lit "Service Unavailable")
            (lit "The server is at its connection limit.") (app_debug app);;
          mnet_close client;;
          accept_loop fuel requests app
        else
          let app := with_active_connections (app_active_connections app + 1) app in
          buffer ← sys ls_buffer;
          closed ← mnet_handle_client requests app buffer;
          if negb closed then mret (false, app)
          else
            mnet_close client;;
            accept_loop fuel requests
              (with_active_connections (app_active_connections app - 1) app)
  end.

(** [mnet_run (app, port)] when [app->workers <= 1] *)
Definition mnet_run_single (fuel requests : nat) (app : option mnet_app_t) (port : Z) :
    M (option Z * option mnet_app_t) :=
  match app with
  | None => mret (Some (-1), None)
  | Some app =>
      let app := with_port port app in
      server ← mnet_tcp_listen port MNET_LISTEN_BACKLOG;
      if negb server then
        mnet_log_msg MNET_LOG_ERROR (lit "failed to listen on port " ++ print_int port);;
        mret (Some (-1), Some app)
      else
        let app := with_active_connections 0 (with_running true app) in
        mnet_app_log (app_log_handler app) MNET_LOG_INFO
          (lit "listening on port " ++ print_int port);;
        '(stopped, app) ← accept_loop fuel requests app;
        if negb stopped then mret (None, Some app)
        else
          mnet_close server;;
          mnet_app_log (app_log_handler app) MNET_LOG_INFO (lit "server stopped");;
          mret (Some 0, Some app)
  end.
End run.

(** ** Applications that can be served *)

(** A prefix whose characters mean themselves in a pattern, and that fits the
    pattern's buffer. *)
Definition plain_prefix (u : bytes) : Prop :=
  Forall (λ c, c ≠ 0 ∧ c ≠ chCOLON ∧ c ≠ chSTAR) u ∧ (length u ≤ Z.to_nat 2044)%nat.

(** A user's route: at most 16 captures and the wildcard last. *)
Definition good_pattern (p : bytes) : Prop := (capture_chars p ≤ MNET_MAX_PARAMS)%nat ∧ wild_last p.

Definition handler_good (h : mnet_handler_t) : Prop :=
  match h with HandlerStatic => True | HandlerUser f => handler_ok f end.

Definition route_good (r : mnet_route_t) : Prop :=
  handler_good (rt_handler r) ∧
  match rt_user_data r with
  | None => ∃ p, rt_path r = Some p ∧ good_pattern p
  | Some _ => rt_param_names r = None ∧ ∃ u, rt_path r = Some (u ++ lit "/*") ∧ plain_prefix u
  end.

Record app_good (app : mnet_app_t) : Prop := {
  ag_routes : Forall route_good (app_routes app);
  ag_not_found : match app_not_found_handler app with Some h => handler_ok h | None => True end;
  ag_middleware : match app_middleware app with Some m => middleware_ok m | None => True end;
  ag_limits : limits_ok app;
}.

(** The arguments of an operation, as the interface asks for them. *)
Definition op_ok (op : app_op) : Prop :=
  match op with
  | OpRoute _ p h =>
      match p, h with Some p, Some h => good_pattern p ∧ handler_good h | _, _ => True end
  | OpStatic u _ => match u with Some u => plain_prefix u | None => True end
  | OpNotFound h => match h with Some h => handler_ok h | None => True end
  | OpUse m => match m with Some m => middleware_ok m | None => True end
  | OpTimeout s | OpKeepAlive s => s * 1000 < 2 ^ 31
  | OpMaxBody n => n < 2 ^ 31 - 1
  | _ => True
  end.

(** ** What a static pattern matches *)

Lemma plain_matches u path caps :
  Forall (λ c, c ≠ 0 ∧ c ≠ chCOLON ∧ c ≠ chSTAR) u →
  route_matches (u ++ lit "/*") path caps → (length u ≤ length path)%nat.
Proof.
  intros Hu. revert path. induction Hu as [|c u (_ & Hc & Hs) Hu IH]; intros path Hm; simpl; [lia|].
  apply route_matches_char_inv in Hm as (path' & -> & Hm); [|done..]. apply IH in Hm. simpl. lia.
Qed.

Lemma plain_capture_chars u :
  Forall (λ c, c ≠ 0 ∧ c ≠ chCOLON ∧ c ≠ chSTAR) u → capture_chars (u ++ lit "/*") = 1%nat.
Proof.
  intros Hu. unfold capture_chars. rewrite filter_app, length_app.
  assert (filter (λ c, c = chSTAR ∨ c = chCOLON) u = []) as ->; [|done].
  induction Hu as [|c u (_ & Hc & Hs) _ IH]; [done|]. rewrite filter_cons_False; [done|]. by intros [?|?].
Qed.

Lemma static_pattern_plain u url_prefix :
  plain_prefix u → static_pattern url_prefix = u ++ lit "/*" → url_prefix = u.
Proof.
  intros [_ Hlen] E. unfold static_pattern in E.
  assert (length (take 2047 (url_prefix ++ lit "/*")) = length (u ++ lit "/*")) as El by by rewrite E.
  rewrite length_take, !length_app in El. change (length (lit "/*")) with 2%nat in El.
  rewrite take_ge in E; [by apply app_inj_2 in E as [-> _]|].
  rewrite length_app. change (length (lit "/*")) with 2%nat. lia.
Qed.

Lemma static_pattern_fits u : plain_prefix u → static_pattern u = u ++ lit "/*".
Proof.
  intros [_ Hlen]. unfold static_pattern. apply take_ge. rewrite length_app.
  change (length (lit "/*")) with 2%nat. lia.
Qed.

(** ** A configured application can be served *)

Lemma name_block_nul name count : 0 ∈ param_name_block name count.
Proof.
  destruct name as [|c name]; cbn [param_name_block].
  - apply elem_of_app. left. apply elem_of_app. right. by left.
  - apply elem_of_app. right. by left.
Qed.

Lemma name_blocks_nul fuel : ∀ p count, Forall (λ b, 0 ∈ b) (pattern_name_blocks fuel p count).
Proof.
  induction fuel as [|fuel IH]; intros [|c p] count; cbn [pattern_name_blocks]; try constructor.
  case_test; [constructor; [apply name_block_nul|apply IH]|].
  case_test; [|apply IH]. by repeat constructor; right; left.
Qed.

Lemma names_at w p a bs :
  names_owned (Some a) (pattern_name_blocks (length p) p 0) bs →
  (∀ l b, (l, b) ∈ bs → w_heap w !! l = Some b) →
  points_to w (pa_elems a) (pattern_names p).
Proof.
  intros (locs & -> & Hl & ->) Hin. apply points_to_blocks; [|apply name_blocks_nul].
  apply Forall2_same_length_lookup. split; [done|]. intros i l b Hi Hb. apply Hin. right.
  apply list_elem_of_lookup. exists i. apply lookup_zip_with_Some. eauto.
Qed.

(** A block that ends in a terminator holds a string. *)
Lemma terminated_block s : ∃ k, s ++ [0] = cstr (s ++ [0]) ++ 0 :: k.
Proof. apply cstr_block, elem_of_app. right. by left. Qed.

Lemma cstr_prefix u : Forall (λ c, c ≠ 0 ∧ c ≠ chCOLON ∧ c ≠ chSTAR) u → cstr (u ++ [0]) = u.
Proof.
  intros Hu. apply cstr_app_nul. eapply Forall_impl; [exact Hu|]. by intros c [? _].
Qed.

Lemma route_owned_at w r rb :
  route_good r → route_owned r rb → (∀ l b, (l, b) ∈ rb → w_heap w !! l = Some b) → route_at w r.
Proof.
  intros [Hh Hr] (bs1 & bs2 & bs3 & Hn & _ & Hc & ->) Hin. unfold route_names in Hn.
  destruct (rt_user_data r) as [cfg|] eqn:Eu.
  - destruct Hr as (Ep & u & Epath & Hu). pose proof Hu as [Hplain _].
    destruct Hc as (lu & lf & url_prefix & root & bc & E1 & E2 & E3 & Epat).
    rewrite Epath in Epat. injection Epat as Epat. symmetry in Epat.
    apply static_pattern_plain in Epat as ->; [|done].
    split; [done| |by rewrite Ep|].
    + intros p Ep2. rewrite Epath in Ep2. injection Ep2 as <-. rewrite plain_capture_chars by done.
      unfold MNET_MAX_PARAMS. lia.
    + intros cfg' Ecfg. rewrite Eu in Ecfg. injection Ecfg as <-. exists u, (cstr (root ++ [0])).
      destruct (terminated_block root) as [kf Ekf]. split.
      * exists lu, lf, [], kf. subst bs3. split_and!; [done..| | | |apply cstr_nul_free].
        -- apply Hin. set_solver.
        -- rewrite <-Ekf. apply Hin. set_solver.
        -- eapply Forall_impl; [exact Hplain|]. by intros c [? _].
      * intros path caps (p & Ep2 & _ & _ & Hm). rewrite Epath in Ep2. injection Ep2 as <-.
        by eapply plain_matches.
  - destruct Hr as (p & Epath & Hcap & Hw). rewrite Epath in Hn. split; [done| | |by rewrite Eu].
    + intros p' Ep. rewrite Epath in Ep. by injection Ep as <-.
    + destruct (rt_param_names r) as [a|]; [|done]. exists (pattern_names p). split.
      * eapply names_at; [exact Hn|]. intros l b Hl. apply Hin. set_solver.
      * intros path caps (p' & Ep & _ & _ & Hm). rewrite Epath in Ep. injection Ep as <-.
        by eapply captures_le_names.
Qed.

(** The link between the operations of the application and the server. *)
Lemma app_owned_at w0 w app bs :
  app_good app → app_owned app bs → owns w0 w bs → app_at w app.
Proof.
  intros [Hr Hnf Hmw _] [_ _ (rbs & Hrb & ->)] Ho. split; [|done..].
  assert (∀ l b, (l, b) ∈ concat rbs → w_heap w !! l = Some b) as Hin.
  { intros l b Hl. eapply owns_in_heap; [exact Ho|]. right. apply elem_of_app. by right. }
  clear Ho. induction Hrb as [|r rb rs rbs Hown Hrb IH]; [constructor|].
  apply Forall_cons in Hr as [Hg Hr]. cbn [concat] in Hin. constructor.
  - eapply route_owned_at; [done..|]. intros l b Hl. apply Hin, elem_of_app. by left.
  - apply IH; [done|]. intros l b Hl. apply Hin, elem_of_app. by right.
Qed.

Section good.
Context `{!Allocator}.

(** An application under construction, with what it owns. *)
Definition good_inv (w0 : world) (app : option mnet_app_t) (w : world) : Prop :=
  match app with
  | None => owns w0 w []
  | Some app => app_good app ∧ ∃ bs, app_owned app bs ∧ owns w0 w bs
  end.

Lemma app_good_retabled app app' : retabled app app' → app_good app → app_good app'.
Proof. intros (t & c & ->) [? ? ? [? ? ?]]. by split. Qed.

Lemma app_good_route app app1 r :
  retabled app app1 → route_good r → app_good app →
  app_good (with_routes (app_routes app ++ [r]) app1).
Proof.
  intros (t & c & ->) Hr [Hrs ? ? [? ? ?]]. split; [|done..|by split]. cbn.
  apply Forall_app. split; [done|]. by constructor.
Qed.

Lemma run_op_good w0 w app op :
  op_ok op → good_inv w0 app w → wp (run_op app op) (good_inv w0) w.
Proof.
  intros Hok Hinv. destruct app as [app|]; simpl in Hinv.
  2:{ by destruct op; simpl; try by apply wp_ret. }
  destruct Hinv as [Hg (bs & Ha & Ho)]. pose proof Hg as [Hr Hnf Hmw Hl]. pose proof Hl as [Ht Hk Hm].
  destruct op; cbn [run_op op_ok] in *;
    try (apply wp_ret; simpl; split; [|exists bs; split; [by eapply app_owned_config|done]];
         split; [done..|by split]).
  - apply wp_bind. unfold mnet_route. destruct path as [path|], handler as [handler|];
      try (apply wp_ret, wp_ret; simpl; by eauto).
    destruct Hok as [Hp Hh]. eapply wp_mono; [by eapply add_route_spec|].
    intros [rc app2] w' (app' & bs' & E & Ha' & Ho' & Hres). simpl in E. subst app2.
    apply wp_ret. split; [|eauto].
    destruct Hres as [(_ & names & blks & nbs & _ & _ & _ & app1 & Hre & ->)|(_ & _ & Hre)].
    + apply app_good_route; [done| |done]. split; [done|]. by exists path.
    + by eapply app_good_retabled.
  - destruct url_prefix as [u|], fs_path as [f|]; try (apply wp_ret; simpl; by eauto).
    eapply wp_mono; [by eapply static_spec|].
    intros app2 w' (app' & bs' & -> & Ha' & Ho' & Hres). split; [|eauto].
    destruct Hres as [[Hre _]|(app1 & cfg & p & Hre & ->)].
    + by eapply app_good_retabled.
    + apply app_good_route; [done| |done]. split; [done|]. split; [done|]. exists u.
      split; [|done]. cbn. f_equal. by apply static_pattern_fits.
  - apply wp_ret. simpl. split; [|exists bs; split; [by eapply app_owned_config|done]].
    split; [done..|]. split; [|done..]. cbn. unfold MNET_DEFAULT_TIMEOUT. case_test; lia.
  - apply wp_ret. simpl. split; [|exists bs; split; [by eapply app_owned_config|done]].
    split; [done..|]. split; [done| |done]. cbn. unfold MNET_DEFAULT_KEEP_ALIVE_TIMEOUT. case_test; lia.
Qed.

Lemma run_ops_good w0 ops : ∀ app w,
  Forall op_ok ops → good_inv w0 app w → wp (run_ops app ops) (good_inv w0) w.
Proof.
  induction ops as [|op ops IH]; intros app w Hok Hinv; simpl.
  - by apply wp_ret.
  - apply Forall_cons in Hok as [Hop Hok]. apply wp_bind.
    eapply wp_mono; [by apply run_op_good|]. intros app' w' H'. by apply IH.
Qed.

Lemma create_good w : wf_world w → wp mnet_create (good_inv w) w.
Proof.
  intros Hwf. unfold mnet_create. apply wp_bind. eapply wp_alloc; [by apply owns_refl| |].
  - intros w' _ Ho. by apply wp_ret.
  - intros l w' Ho. apply wp_ret. split.
    + split; [constructor|done|done|]. by split.
    + eexists. split; [|exact Ho]. split; [done|done|]. by exists [].
Qed.
End good.

(** ** Serving *)

Lemma app_at_active w n app : app_at w app → app_at w (with_active_connections n app).
Proof. by intros [? ? ?]. Qed.

Lemma limits_active n app : limits_ok app → limits_ok (with_active_connections n app).
Proof. by intros [? ? ?]. Qed.

Section run_proofs.
Context `{!Allocator, !OS, !Process, !Files, !Network, !Listener}.

Lemma handle_client_spec w0 w R requests app k :
  owns w0 w R → app_at w0 app → limits_ok app →
  wp (mnet_handle_client requests app (ls_buffer k)) (λ _ w', held w0 w' R) w.
Proof.
  intros Ho Ha Hl. eapply serve_loop_spec; [done..|]. pose proof size_value.
  split; [apply ls_buffer_size|apply ls_buffer_bytes|lia|lia].
Qed.

(** The loop keeps the heap; when it ends, the counter is back where it was and
    every socket accepted is closed. *)
Definition accept_post (w0 : world) (R : list (loc * bytes)) (app : mnet_app_t)
    (res : bool * mnet_app_t) (w' : world) : Prop :=
  ∃ n evs a, owns (io w0 n evs) w' R ∧ snd res = with_active_connections a app ∧
    (fst res = true → a = app_active_connections app ∧ open_sockets evs = 0).

Lemma accept_post_stop w0 w R app n evs stopped :
  owns (io w0 n evs) w R → (stopped = true → open_sockets evs = 0) →
  accept_post w0 R app (stopped, app) w.
Proof.
  intros Ho Hs. exists n, evs, (app_active_connections app).
  split_and!; [done|by destruct app|by intros ?; auto].
Qed.

Lemma accept_post_again w0 n evs w R app res :
  open_sockets evs = 0 → accept_post (io w0 n evs) R app res w → accept_post w0 R app res w.
Proof.
  intros Hs (n2 & evs2 & a & Ho & E & Hres). rewrite io_io in Ho. eexists _, _, a.
  split; [exact Ho|]. split; [done|]. intros Hst. destruct (Hres Hst) as [Ha Hs2].
  split; [done|sockets].
Qed.

Lemma accept_loop_spec fuel requests : ∀ w0 w R app,
  owns w0 w R → app_at w0 app → limits_ok app →
  wp (accept_loop fuel requests app) (accept_post w0 R app) w.
Proof.
  induction fuel as [|fuel IH]; intros w0 w R app Ho Ha Hl; cbn [accept_loop].
  { apply wp_ret, (accept_post_stop _ _ _ _ 0 []); [by rewrite io_nil|done]. }
  assert (∀ n evs w', owns (io w0 n evs) w' R → open_sockets evs = 0 →
            wp (accept_loop fuel requests app) (accept_post w0 R app) w') as Hagain.
  { intros n evs w' Ho' Hs. eapply wp_mono; [by apply (IH _ _ _ _ Ho'); [apply app_at_io|]|].
    intros res w2. by apply accept_post_again. }
  apply wp_bind. eapply wp_sys; [exact Ho|]. intros running w1 Ho1.
  destruct running; cbn [negb]; [|by eapply wp_ret, accept_post_stop].
  apply wp_bind. eapply wp_new_socket; [exact Ho1|]. intros client w2 Ho2. rewrite io_io in Ho2.
  destruct client; cbn [negb].
  2:{ apply wp_bind. eapply wp_sys; [exact Ho2|]. intros eintr w3 Ho3. rewrite io_io in Ho3.
      destruct eintr; [by eapply Hagain|].
      apply wp_bind. eapply wp_app_log; [exact Ho3|]. intros w4 Ho4. rewrite io_io in Ho4.
      eapply wp_ret, accept_post_stop; [exact Ho4|intros _; sockets]. }
  case_test; bool_prop.
  - apply wp_bind. eapply wp_app_log; [exact Ho2|]. intros w3 Ho3. rewrite io_io in Ho3.
    apply wp_bind. eapply simple_error_spec; [exact Ho3|]. intros n w4 Ho4. rewrite io_io in Ho4.
    apply wp_bind. eapply wp_close; [exact Ho4|]. intros n5 w5 Ho5. rewrite io_io in Ho5.
    eapply Hagain; [exact Ho5|sockets].
  - set (app1 := with_active_connections _ app). apply wp_bind.
    eapply wp_sys_at; [exact Ho2|]. intros w3 Ho3. rewrite io_io in Ho3. apply wp_bind.
    eapply wp_mono.
    { eapply handle_client_spec; [exact Ho3|by apply app_at_io, app_at_active|by apply limits_active]. }
    intros closed w4 (n4 & evs4 & Ho4 & Es4). rewrite io_io in Ho4. destruct closed; cbn [negb].
    2:{ apply wp_ret. eexists _, _, _. split; [exact Ho4|]. by split. }
    apply wp_bind. eapply wp_close; [exact Ho4|]. intros n5 w5 Ho5. rewrite io_io in Ho5.
    assert (with_active_connections (app_active_connections app1 - 1) app1 = app) as ->.
    { destruct app. unfold app1, with_active_connections. cbn. f_equal. lia. }
    eapply Hagain; [exact Ho5|sockets].
Qed.

Lemma run_single_spec w0 w R fuel requests app port :
  owns w0 w R → app_at w0 app → limits_ok app →
  wp (mnet_run_single fuel requests (Some app) port)
    (λ res w', ∃ n evs r a, owns (io w0 n evs) w' R ∧
       snd res = Some (with_active_connections a (with_running r (with_port port app))) ∧
       (fst res ≠ None → open_sockets evs = 0) ∧ (fst res = Some 0 → a = 0)) w.
Proof.
  intros Ho Ha Hl. unfold mnet_run_single. cbn zeta. set (app1 := with_port port app).
  apply wp_bind. eapply wp_mono; [by apply tcp_listen_spec|].
  intros server w1 (n1 & evs1 & Ho1 & Es1 & _). destruct server; cbn [negb].
  2:{ apply wp_bind. eapply wp_log_msg; [exact Ho1|]. intros w2 Ho2. rewrite io_io in Ho2.
      apply wp_ret. eexists _, _, (app_running app1), (app_active_connections app1).
      split_and!; [exact Ho2|by destruct app| |done]. intros _. cbn in Es1. sockets. }
  set (app2 := with_active_connections 0 _). apply wp_bind. eapply wp_app_log; [exact Ho1|].
  intros w2 Ho2. rewrite io_io in Ho2. apply wp_bind.
  assert (app_at w0 app2) as Ha2 by by destruct Ha.
  assert (limits_ok app2) as Hl2 by by destruct Hl.
  eapply wp_mono; [eapply accept_loop_spec; [exact Ho2|by apply app_at_io|done]|].
  intros [stopped app3] w3 (n3 & evs3 & a & Ho3 & E & Hend). cbn [fst snd] in *. subst app3.
  rewrite io_io in Ho3. destruct stopped; cbn [negb].
  2:{ apply wp_ret. eexists _, _, true, a. by split_and!. }
  destruct (Hend eq_refl) as [-> Es3].
  apply wp_bind. eapply wp_close; [exact Ho3|]. intros n4 w4 Ho4. rewrite io_io in Ho4.
  apply wp_bind. eapply wp_app_log; [exact Ho4|]. intros w5 Ho5. rewrite io_io in Ho5.
  apply wp_ret. eexists _, _, true, _. split_and!; [exact Ho5|done| |done].
  intros _. cbn in Es1. sockets.
Qed.
End run_proofs.

(** ** Properties *)

(** C1: the whole life of an application is safe: created, configured and given
    routes, directories, handlers and middleware by any sequence of calls within
    the documented limits, run single-threaded against any peers, system and
    allocator until it stops, and destroyed, it meets no undefined behaviour,
    leaves the heap as it was, and has closed the listening socket and every
    connection it accepted. *)
Theorem application_safe `{!Allocator, !OS, !Process, !Files, !Network, !Listener}
    (ops : list app_op) (fuel requests : nat) (port : Z) (w : world) :
  wf_world w → Forall op_ok ops →
  wp (app ← mnet_create;
      app ← run_ops app ops;
      '(code, app) ← mnet_run_single fuel requests app port;
      mnet_destroy app;;
      mret code)
    (λ code w', w_heap w' = w_heap w ∧ (code ≠ None → released w w')) w.
Proof.
  intros Hwf Hok. apply wp_bind. eapply wp_mono; [by apply create_good|]. intros app w1 Hi1.
  apply wp_bind. eapply wp_mono; [by apply run_ops_good|]. intros app' w2 Hi2.
  destruct app' as [app'|]; cbn [good_inv] in Hi2.
  2:{ apply wp_bind, wp_ret, wp_bind, wp_ret, wp_ret. pose proof (held_owns _ _ _ Hi2) as Hh.
      split; [by apply held_nil_heap|]. intros _. by apply held_released. }
  destruct Hi2 as [Hg (bs & Ha & Ho)]. apply wp_bind. eapply wp_mono.
  { eapply (run_single_spec w2 w2 []); [by eapply owns_refl, owns_wf_world| |by apply ag_limits].
    by eapply app_owned_at. }
  intros [code app''] w3 (n & evs & r & a & Ho3 & E & Hs & _). cbn [fst snd] in *. subst app''.
  rewrite <-(io_nil w) in Ho. pose proof (owns_io_trans _ _ _ _ _ _ _ _ _ Ho Ho3) as Ho4.
  apply wp_bind. eapply wp_destroy; [|exact Ho4|].
  - eapply app_owned_config; [exact Ha|done..].
  - intros w5 Ho5. apply wp_ret. split; [by apply owns_nil_heap in Ho5|].
    intros Hc. eapply held_released, held_io; [exact Ho5|]. by apply Hs.
Qed.

Program Definition one_client : Listener := {|
  ls_running k := (k <? 9)%nat;
  ls_buffer _ := fresh_buffer;
|}.
Next Obligation. intros k. apply length_replicate. Qed.
Next Obligation. intros k. apply fresh_buffer_bytes. Qed.

(** A network in which everything succeeds. *)
Definition demo_handler (req : mnet_request_t) : M mnet_response_t := mret zero_response.

Lemma demo_handler_ok : handler_ok demo_handler.
Proof.
  intros req w0 w bs Ho _. apply wp_ret. exists [].
  split; [by apply held_owns|apply zero_response_ok].
Qed.

Lemma good_wild : good_pattern (lit "/a/:b/*").
Proof.
  split; [vm_compute; lia|]. intros pre post E.
  change (lit "/a/:b/*") with [47; 97; 47; 58; 98; 47; 42] in E.
  do 7 (destruct pre as [|? pre]; [by injection E|simpl in E; injection E as ? E]).
  by destruct pre.
Qed.

Lemma plain_static : plain_prefix (lit "/s").
Proof. split; [by repeat constructor|]. change (length (lit "/s")) with 2%nat. lia. Qed.

Lemma application_safe_witness :
  wp (app ← mnet_create (H := all_ok);
      app ← run_ops (H := all_ok) app
        [OpRoute MNET_HTTP_GET (Some (lit "/a/:b/*")) (Some (HandlerUser demo_handler));
         OpStatic (Some (lit "/s")) (Some (lit "/var/www")); OpWorkers 1; OpTimeout 10];
      '(code, app) ← mnet_run_single (H := all_ok) (H0 := silent_os) (H1 := quiet)
        (H2 := demo_files) (H3 := demo_network) (H4 := one_client) 5 5 app 8080;
      mnet_destroy app;;
      mret code)
    (λ code w', w_heap w' = w_heap empty_world ∧ (code ≠ None → released empty_world w'))
    empty_world.
Proof.
  apply (application_safe (H := all_ok) (H0 := silent_os) (H1 := quiet) (H2 := demo_files)
    (H3 := demo_network) (H4 := one_client)).
  - apply empty_world_wf.
  - apply Forall_cons. split; [split; [apply good_wild|apply demo_handler_ok]|].
    apply Forall_cons. split; [apply plain_static|by repeat constructor].
Defined.

(** a served application is one that [dispatch] can serve: once built by any
    sequence of calls within the documented limits, every route has a name for
    each value its pattern can capture, at most 16 of them, and a static route's
    configuration is alive and its prefix no longer than the paths it gets. *)
Theorem built_app_servable `{!Allocator} (ops : list app_op) (w : world) :
  wf_world w → Forall op_ok ops →
  wp (app ← mnet_create; run_ops app ops)
    (λ app w', match app with Some app => app_at w' app ∧ limits_ok app | None => True end) w.
Proof.
  intros Hwf Hok. apply wp_bind. eapply wp_mono; [by apply create_good|]. intros app w1 Hi1.
  eapply wp_mono; [by apply run_ops_good|]. intros [app'|] w2 Hi2; [|done].
  destruct Hi2 as [Hg (bs & Ha & Ho)]. split; [by eapply app_owned_at|by apply ag_limits].
Qed.

Lemma built_app_servable_witness :
  wp (app ← mnet_create (H := all_ok);
      run_ops (H := all_ok) app
        [OpRoute MNET_HTTP_GET (Some (lit "/a/:b/*")) (Some (HandlerUser demo_handler));
         OpStatic (Some (lit "/s")) (Some (lit "/var/www"))])
    (λ app w', match app with Some app => app_at w' app ∧ limits_ok app | None => True end)
    empty_world.
Proof.
  apply (built_app_servable (H := all_ok)).
  - apply empty_world_wf.
  - apply Forall_cons. split; [split; [apply good_wild|apply demo_handler_ok]|].
    apply Forall_cons. split; [apply plain_static|done].
Defined.

(** A prefix that is not plain is not safe: with the prefix ["/:section"] the route
    accepts ["/a/b"], which is shorter than the prefix, and the handler's
    [url_path + strlen (cfg->url_prefix)] points past the path. *)
Lemma static_prefix_overread :
  route_matches (static_pattern (lit "/:section")) (lit "/a/b") [CapParam (lit "a"); CapWild (lit "b")] ∧
  static_handler (H := all_ok) (H0 := quiet) (H1 := demo_files) None
    (MkRequest (lit "GET") (lit "/a/b") None BodyNull 0 0 None None 0 None None 0 None None
       0 None None zero_extras (Some (MkStatic 5 (Some 0%nat) (Some 1%nat))))
    (World 2 {[ 0%nat := lit "/:section" ++ [0]; 1%nat := lit "/www" ++ [0] ]} 0 []) = None.
Proof.
  split; [|by vm_compute].
  change (static_pattern (lit "/:section")) with (lit "/:section/*").
  apply matches_char; [done|done|].
  apply (matches_param (lit "section") (lit "/*") (lit "a") (lit "/b"));
    first [by left|by right|by repeat constructor|by apply matches_wild].
Qed.
