(* ===== verification/Workers.v ===== *)
(** * Running an application with worker threads

    [src/mnet_server.c]: [mnet_run] as a whole, and what its threads do to memory
    and to sockets when it serves with a pool.  [Pool.v] says which thread may do
    what next; here every such step comes with the work it does on the one memory
    of the process: the accept loop accepts, refuses and closes, and the workers
    serve their connections, one request of one worker at a time, in any order.

    The signal handler and the pointer [g_running_app] that it follows are at the
    end. *)

From S2P Require Import Pool.
From S2P Require Export Run.

Definition sizeof_socket : nat := 4.
Definition sizeof_thread : nat := 8.

Inductive run_result :=
  | RunReturned (code : Z)              (* [mnet_run] returned *)
  | RunUnfinished                       (* the fuel of the single-threaded loop is used up *)
  | RunPool (slots threads : loc).      (* the workers are about to be started *)

(** Between two requests: the buffer, the bytes used in it and [keep_alive]. *)
Abbreviation conn_t := (bytes * nat * bool)%type.

(** The threads, the connections that workers have begun to serve, and memory. *)
Record server := MkServer {
  sv_system : system;
  sv_conns : gmap nat conn_t;
  sv_world : world;
}.

Section workers.
Context `{!Allocator, !OS, !Process, !Files, !Network, !Listener}.

(** The allocation of the pool; [server] is closed again when it fails. *)
Definition alloc_pool (app : mnet_app_t) : M (option (loc * loc)) :=
  slots ← alloc (zeros (pool_capacity (app_max_connections app) * sizeof_socket));
  threads ← alloc (zeros (Z.to_nat (app_workers app) * sizeof_thread));
  match slots, threads with
  | Some slots, Some threads => mret (Some (slots, threads))
  | _, _ =>
      free slots;;
      free threads;;
      mnet_close true;;
      mnet_log_msg MNET_LOG_ERROR (lit "failed to allocate the worker pool");;
      mret None
  end.

(** [mnet_run], up to the start of the workers when there are several. *)
Definition mnet_run (fuel requests : nat) (app : option mnet_app_t) (port : Z) :
    M (run_result * option mnet_app_t) :=
  match app with
  | None => mret (RunReturned (-1), None)
  | Some app =>
      if app_workers app <=? 1 then
        '(code, app) ← mnet_run_single fuel requests (Some app) port;
        mret (match code with Some code => RunReturned code | None => RunUnfinished end, app)
      else
        let app := with_port port app in
        server ← mnet_tcp_listen port MNET_LISTEN_BACKLOG;
        if negb server then
          mnet_log_msg MNET_LOG_ERROR (lit "failed to listen on port " ++ print_int port);;
          mret (RunReturned (-1), Some app)
        else
          let app := with_active_connections 0 (with_running true app) in
          mnet_app_log (app_log_handler app) MNET_LOG_INFO
            (lit "listening on port " ++ print_int port);;
          pool ← alloc_pool app;
          match pool with
          | None => mret (RunReturned (-1), Some app)
          | Some (slots, threads) => mret (RunPool slots threads, Some app)
          end
  end.

Section pool.
(** The application, and the two blocks of the pool. *)
Variables (app : mnet_app_t) (slots threads : loc).
Let max_connections : Z := app_max_connections app.
Let workers : nat := Z.to_nat (app_workers app).

(** *** The work of the accept loop *)

(** The end of the loop that starts the workers, after [started] of them.  When
    they are fewer than asked for, the code also stores [started] into
    [app->workers], which nothing here reads again. *)
Definition started_turn (started : nat) : M unit :=
  (if (started <? workers)%nat then
     mnet_app_log (app_log_handler app) MNET_LOG_ERROR
       (lit "failed to start worker " ++ print_int (Z.of_nat started) ++ lit " of " ++
        print_int (app_workers app))
   else mret ());;
  if (started =? 0)%nat then mret ()
  else mnet_app_log (app_log_handler app) MNET_LOG_INFO
         (lit "serving with " ++ print_int (Z.of_nat started) ++ lit " worker threads").

Inductive accept_result := ClientAccepted | AcceptInterrupted | AcceptFailed.

Definition accept_turn : M accept_result :=
  client ← mnet_tcp_accept;
  if client : bool then mret ClientAccepted
  else
    eintr ← sys nt_eintr;
    if eintr : bool then mret AcceptInterrupted
    else
      mnet_app_log (app_log_handler app) MNET_LOG_ERROR (lit "accept failed, stopping the server");;
      mret AcceptFailed.

(** [active] is the number that was read from [app->active_connections]. *)
Definition refuse_turn (active : Z) : M unit :=
  mnet_app_log (app_log_handler app) MNET_LOG_WARN
    (lit "refused a connection: " ++ print_int active ++ lit " active (max_connections)");;
  send_simple_error 503 (lit "Service Unavailable")
    (lit "The server is at its connection limit.") (app_debug app);;
  mnet_close true.

Fixpoint close_all (clients : list mnet_socket_t) : M unit :=
  match clients with
  | [] => mret ()
  | _ :: clients => mnet_close true;; close_all clients
  end.

(** After the workers are joined: the rest of [mnet_pool_shutdown], which closes the
    connections still [queued], and of [mnet_run]. *)
Definition finish_turn (code : Z) (queued : list mnet_socket_t) : M unit :=
  free (Some threads);;
  close_all queued;;
  free (Some slots);;
  mnet_close true;;
  if code =? 0 then mnet_app_log (app_log_handler app) MNET_LOG_INFO (lit "server stopped")
  else mret ().

(** What the accept loop does next with the result of accept. *)
Definition accepted (r : accept_result) (m : acceptor_pc) : Prop :=
  match r with
  | ClientAccepted => ∃ c, m = AAdmit c
  | AcceptInterrupted => m = AAccept
  | AcceptFailed => m = AShutdown 0
  end.

(** The steps of [Pool.v] that do no work on memory or sockets. *)
Definition internal (s s' : system) : Prop :=
  s_closed s' = s_closed s ∧ s_accepted s' = s_accepted s ∧
  (s_acceptor s = AListen → s_acceptor s' = AListen) ∧
  (s_acceptor s = AStart → s_acceptor s' = AStart) ∧
  (∀ code, s_acceptor s' = AReturn code → s_acceptor s = AReturn code).

(** The worker [i] is done with its connection. *)
Definition done_serving (s s' : system) (i : nat) : Prop :=
  ∃ c, s_workers s !! i = Some (WServe c) ∧
    s' = MkSystem (s_pool s) (s_running s) (s_active s) (s_acceptor s) (<[i := WRelease]> (s_workers s))
           (s_accepted s) (s_pushed s) (s_popped s) (s_closed s ++ [c]).

Inductive serves : server → server → Prop :=
  | serves_internal s s' cs w :
      step max_connections workers s s' → internal s s' →
      serves (MkServer s cs w) (MkServer s' cs w)
  | serves_started s s' cs w w' :
      step max_connections workers s s' → s_acceptor s = AStart → s_acceptor s' ≠ AStart →
      s_workers s' = s_workers s →
      started_turn (length (s_workers s)) w = Some ((), w') →
      serves (MkServer s cs w) (MkServer s' cs w')
  | serves_accept s s' cs w r w' :
      step max_connections workers s s' → s_acceptor s = AListen →
      accept_turn w = Some (r, w') → accepted r (s_acceptor s') →
      serves (MkServer s cs w) (MkServer s' cs w')
  | serves_refuse s s' cs w c active w' :
      step max_connections workers s s' → s_acceptor s = ARefuse c → s_acceptor s' = AAccept →
      refuse_turn active w = Some ((), w') →
      serves (MkServer s cs w) (MkServer s' cs w')
  | serves_undo s s' cs w c w' :
      step max_connections workers s s' → s_acceptor s = AUndo c → s_acceptor s' = AShutdown 0 →
      mnet_close true w = Some ((), w') →
      serves (MkServer s cs w) (MkServer s' cs w')
  | serves_finish s s' cs w code queued w' :
      step max_connections workers s s' → s_acceptor s = AJoin code → s_acceptor s' = AReturn code →
      s_closed s' = s_closed s ++ queued →
      finish_turn code queued w = Some ((), w') →
      serves (MkServer s cs w) (MkServer s' cs w')
  (* the worker [i]: the buffer on its stack, a request, the end of the connection *)
  | serves_begin s cs w i c buffer w' :
      s_workers s !! i = Some (WServe c) → cs !! i = None →
      sys ls_buffer w = Some (buffer, w') →
      serves (MkServer s cs w) (MkServer s (<[i := (buffer, 0%nat, false)]> cs) w')
  | serves_request s cs w i c buffer used ka buffer' used' w' :
      s_workers s !! i = Some (WServe c) → cs !! i = Some (buffer, used, ka) →
      serve_one app buffer used ka w = Some (Some (true, buffer', used'), w') →
      serves (MkServer s cs w) (MkServer s (<[i := (buffer', used', true)]> cs) w')
  | serves_last s s' cs w i buffer used ka r w' w'' :
      done_serving s s' i → cs !! i = Some (buffer, used, ka) →
      serve_one app buffer used ka w = Some (r, w') → (∀ b u, r ≠ Some (true, b, u)) →
      mnet_close true w' = Some ((), w'') →
      serves (MkServer s cs w) (MkServer s' (delete i cs) w'').

(** Spurious wake-ups, and [app->running] being cleared. *)
Inductive disturbed : server → server → Prop :=
  | disturbed_system s s' cs w : disturbance s s' → disturbed (MkServer s cs w) (MkServer s' cs w).

Definition server_move (sv sv' : server) : Prop := serves sv sv' ∨ disturbed sv sv'.

(** The work that a thread is about to do. *)
Inductive pending : server → M unit → Prop :=
  | pending_started s cs w :
      s_acceptor s = AStart → pending (MkServer s cs w) (started_turn (length (s_workers s)))
  | pending_accept s cs w :
      s_acceptor s = AListen → pending (MkServer s cs w) (accept_turn;; mret ())
  | pending_refuse s cs w c active :
      s_acceptor s = ARefuse c → pending (MkServer s cs w) (refuse_turn active)
  | pending_undo s cs w c :
      s_acceptor s = AUndo c → pending (MkServer s cs w) (mnet_close true)
  | pending_finish s cs w code queued :
      s_acceptor s = AJoin code → pending (MkServer s cs w) (finish_turn code queued)
  | pending_request s cs w i c buffer used ka :
      s_workers s !! i = Some (WServe c) → cs !! i = Some (buffer, used, ka) →
      pending (MkServer s cs w) (serve_one app buffer used ka;; mnet_close true).

(** Right after [mnet_run] has allocated the pool in the world [w]. *)
Definition serving_from (w : world) (sv : server) : Prop :=
  ∃ s0, initial max_connections s0 ∧ rtc server_move (MkServer s0 ∅ w) sv.
End pool.
End workers.

(** ** The work keeps memory and sockets in order *)

(** Run in a world that owns the blocks [R], the computation ends owning [R'], with
    [k] more sockets open. *)
Definition works {A} (w0 : world) (R R' : list (loc * bytes)) (k : Z) (c : M A) : Prop :=
  ∀ w, owns w0 w R → wp c (λ _ w', ∃ n evs, owns (io w0 n evs) w' R' ∧ open_sockets evs = k) w.

Lemma works_run {A} w0 R R' k (c : M A) w a w' n evs :
  (∀ n evs, works (io w0 n evs) R R' k c) → owns (io w0 n evs) w R → c w = Some (a, w') →
  ∃ n evs', owns (io w0 n evs') w' R' ∧ open_sockets evs' = open_sockets evs + k.
Proof.
  intros Hc Ho E. specialize (Hc n evs w Ho). unfold wp in Hc. rewrite E in Hc.
  destruct Hc as (n2 & evs2 & Ho2 & Es). rewrite io_io in Ho2. eexists _, _. split; [exact Ho2|].
  rewrite open_sockets_app. lia.
Qed.

Section works_proofs.
Context `{!Allocator, !OS, !Process, !Files, !Network, !Listener}.
Variables (app : mnet_app_t) (slots threads : loc).

Lemma started_works w0 R n : works w0 R R 0 (started_turn app n).
Proof.
  intros w Ho. unfold started_turn. apply wp_bind.
  apply (wp_mono _ (λ _ w', ∃ evs, owns (io w0 0 evs) w' R ∧ open_sockets evs = 0)).
  { case_test; [eapply wp_app_log; [exact Ho|]|].
    - intros w1 Ho1. eexists. split; [exact Ho1|sockets].
    - apply wp_ret. exists []. by rewrite io_nil. }
  intros _ w1 (evs & Ho1 & Es). case_test.
  - apply wp_ret. by eexists _, _.
  - eapply wp_app_log; [exact Ho1|]. intros w2 Ho2. rewrite io_io in Ho2.
    eexists _, _. split; [exact Ho2|sockets].
Qed.

Lemma accept_turn_spec w0 w R :
  owns w0 w R →
  wp (accept_turn app) (λ r w', ∃ n evs, owns (io w0 n evs) w' R ∧
    open_sockets evs = match r with ClientAccepted => 1 | _ => 0 end) w.
Proof.
  intros Ho. unfold accept_turn. apply wp_bind. eapply wp_new_socket; [exact Ho|].
  intros [] w1 Ho1; [apply wp_ret; by eexists _, _|].
  apply wp_bind. eapply wp_sys; [exact Ho1|]. intros [] w2 Ho2; rewrite io_io in Ho2.
  - apply wp_ret. by eexists _, _.
  - apply wp_bind. eapply wp_app_log; [exact Ho2|]. intros w3 Ho3. rewrite io_io in Ho3.
    apply wp_ret. eexists _, _. split; [exact Ho3|sockets].
Qed.

Lemma close_works w0 R : works w0 R R (-1) (mnet_close true).
Proof.
  intros w Ho. eapply wp_close; [exact Ho|]. intros n w1 Ho1. eexists _, _. by split; [exact Ho1|].
Qed.

Lemma refuse_works w0 R active : works w0 R R (-1) (refuse_turn app active).
Proof.
  intros w Ho. unfold refuse_turn. apply wp_bind. eapply wp_app_log; [exact Ho|]. intros w1 Ho1.
  apply wp_bind. eapply simple_error_spec; [exact Ho1|]. intros n w2 Ho2. rewrite io_io in Ho2.
  eapply wp_close; [exact Ho2|]. intros n2 w3 Ho3. rewrite io_io in Ho3.
  eexists _, _. split; [exact Ho3|]. sockets.
Qed.

Lemma close_all_works w0 R clients : works w0 R R (- Z.of_nat (length clients)) (close_all clients).
Proof.
  revert w0. induction clients as [|c clients IH]; intros w0 w Ho; cbn [close_all].
  { apply wp_ret. exists 0%nat, []. by rewrite io_nil. }
  apply wp_bind. eapply wp_mono; [by apply (close_works w0 R)|]. intros _ w1 (n1 & evs1 & Ho1 & E1).
  eapply wp_mono; [by apply (IH (io w0 n1 evs1))|]. intros _ w2 (n2 & evs2 & Ho2 & E2).
  rewrite io_io in Ho2. eexists _, _. split; [exact Ho2|]. rewrite open_sockets_app. cbn [length]. lia.
Qed.

(** The blocks of the pool. *)
Definition pool_blocks : list (loc * bytes) :=
  [(slots, zeros (pool_capacity (app_max_connections app) * sizeof_socket));
   (threads, zeros (Z.to_nat (app_workers app) * sizeof_thread))].

Lemma finish_works w0 R code queued :
  works w0 (pool_blocks ++ R) R (-1 - Z.of_nat (length queued))
    (finish_turn app slots threads code queued).
Proof.
  intros w Ho. unfold finish_turn, pool_blocks in *. apply wp_bind.
  eapply wp_free; [exact Ho|cbn; apply Permutation_swap|]. intros w1 Ho1.
  apply wp_bind. eapply wp_mono; [by apply close_all_works|]. intros _ w2 (n2 & evs2 & Ho2 & E2).
  apply wp_bind. eapply wp_free; [exact Ho2|reflexivity|]. intros w3 Ho3.
  apply wp_bind. eapply wp_close; [exact Ho3|]. intros n4 w4 Ho4. rewrite io_io in Ho4. case_test.
  - eapply wp_app_log; [exact Ho4|]. intros w5 Ho5. rewrite io_io in Ho5.
    eexists _, _. split; [exact Ho5|sockets].
  - apply wp_ret. eexists _, _. split; [exact Ho4|sockets].
Qed.

(** Serving one request, and closing the connection if it was the last. *)
Lemma request_spec w0 w R buffer used ka :
  owns w0 w R → app_at w0 app → limits_ok app → conn_ok buffer used →
  wp (serve_one app buffer used ka) (λ res w', ∃ n evs, owns (io w0 n evs) w' R ∧
    open_sockets evs = 0 ∧ ∀ b u, res = Some (true, b, u) → conn_ok b u) w.
Proof.
  intros Ho Ha Hl Hc. eapply wp_mono; [by apply serve_one_spec|].
  intros res w' (n & evs & Ho' & Es & Hres). eexists _, _. split_and!; [exact Ho'|done|].
  intros b u ->. apply Hres.
Qed.

End works_proofs.

(** What the allocation of the pool leaves. *)
Definition pool_post (app : mnet_app_t) (w0 : world) (r : option (loc * loc)) (w' : world) : Prop :=
  ∃ n evs, match r with
  | Some (slots, threads) => owns (io w0 n evs) w' (pool_blocks app slots threads) ∧ open_sockets evs = 0
  | None => owns (io w0 n evs) w' [] ∧ open_sockets evs = -1
  end.

Section run_pool.
Context `{!Allocator, !OS, !Process, !Files, !Network, !Listener}.

Lemma alloc_pool_spec app w0 w : owns w0 w [] → wp (alloc_pool app) (pool_post app w0) w.
Proof.
  intros Ho. unfold alloc_pool. set (sb := zeros (_ * sizeof_socket)). set (tb := zeros (_ * sizeof_thread)).
  assert (∀ w p q bs, owns w0 w bs →
    bs ≡ₚ match p with Some l => [(l, sb)] | None => [] end ++
          match q with Some l => [(l, tb)] | None => [] end →
    wp (free p;; free q;; mnet_close true;;
        mnet_log_msg MNET_LOG_ERROR (lit "failed to allocate the worker pool");; mret None)
      (pool_post app w0) w) as Hgive.
  { clear Ho w. intros w p q bs Ho Hbs. apply wp_bind.
    eapply (wp_free_opt w0 w p sb (match q with Some l => [(l, tb)] | None => [] end)).
    { eapply owns_proper; [|exact Ho]. rewrite Hbs. by destruct p. }
    intros w1 Ho1. apply wp_bind. eapply (wp_free_opt w0 w1 q tb []); [by rewrite app_nil_r|].
    intros w2 Ho2. apply wp_bind. eapply wp_close; [exact Ho2|]. intros n w3 Ho3.
    apply wp_bind. eapply wp_log_msg; [exact Ho3|]. intros w4 Ho4. rewrite io_io in Ho4.
    apply wp_ret. eexists _, _. split; [exact Ho4|sockets]. }
  apply wp_bind. eapply wp_alloc; [exact Ho| |].
  - intros w1 _ Ho1. apply wp_bind. eapply wp_alloc; [exact Ho1| |].
    + intros w2 _ Ho2. by eapply (Hgive w2 None None).
    + intros t w2 Ho2. by eapply (Hgive w2 None (Some t)).
  - intros s w1 Ho1. apply wp_bind. eapply wp_alloc; [exact Ho1| |].
    + intros w2 _ Ho2. by eapply (Hgive w2 (Some s) None).
    + intros t w2 Ho2. apply wp_ret. exists 0%nat, []. rewrite io_nil. split; [|done].
      eapply owns_proper; [|exact Ho2]. apply Permutation_swap.
Qed.

(** [mnet_run] either returns with everything closed, or has one socket open and
    owns the pool. *)
Definition run_post (w0 : world) (app : mnet_app_t) (res : run_result * option mnet_app_t)
    (w' : world) : Prop :=
  ∃ n evs r a, snd res = Some (with_active_connections a (with_running r app)) ∧
    match fst res with
    | RunReturned _ => owns (io w0 n evs) w' [] ∧ open_sockets evs = 0
    | RunUnfinished => owns (io w0 n evs) w' []
    | RunPool slots threads => 1 < app_workers app ∧
        owns (io w0 n evs) w' (pool_blocks app slots threads) ∧ open_sockets evs = 1
    end.

Lemma run_spec w0 w fuel requests app port :
  owns w0 w [] → app_at w0 app → limits_ok app →
  wp (mnet_run fuel requests (Some app) port) (run_post w0 (with_port port app)) w.
Proof.
  intros Ho Ha Hl. unfold mnet_run. case_test; bool_prop.
  { apply wp_bind. eapply wp_mono; [by apply run_single_spec|].
    intros [code app'] w1 (n & evs & r & a & Ho1 & E & Hs & _). cbn in E, Hs. apply wp_ret.
    exists n, evs, r, a. split; [exact E|]. destruct code; cbn; [|done]. by split; [|apply Hs]. }
  set (app1 := with_port port app). apply wp_bind. eapply wp_mono; [by apply tcp_listen_spec|].
  intros server w1 (n1 & evs1 & Ho1 & Es1 & _). destruct server; cbn [negb].
  2:{ apply wp_bind. eapply wp_log_msg; [exact Ho1|]. intros w2 Ho2. rewrite io_io in Ho2.
      apply wp_ret. eexists _, _, (app_running app1), (app_active_connections app1).
      split; [by destruct app|]. split; [exact Ho2|]. cbn in Es1. sockets. }
  apply wp_bind. eapply wp_app_log; [exact Ho1|]. intros w2 Ho2. rewrite io_io in Ho2.
  apply wp_bind. eapply wp_mono; [by eapply alloc_pool_spec|].
  intros pool w3 (n3 & evs3 & Hp). destruct pool as [[slots threads]|]; destruct Hp as [Ho3 Es3];
    rewrite io_io in Ho3; apply wp_ret; eexists _, _, true, 0; (split; [done|]); cbn in Es1.
  - split; [done|]. split; [exact Ho3|sockets].
  - split; [exact Ho3|sockets].
Qed.
End run_pool.

(** ** Serving keeps memory and sockets in order *)

(** When [mnet_run] has returned nothing moves the accept loop any more. *)
Lemma move_returned mc n s s' code :
  move mc n s s' → s_acceptor s = AReturn code → s_acceptor s' = AReturn code.
Proof. intros [Hm|Hm] E; destruct Hm; cbn in *; by simplify_eq/=. Qed.

Lemma done_serving_step mc n s s' i : done_serving s s' i → step mc n s s'.
Proof.
  intros (c & Hi & ->). destruct s as [p r a m ws ac pu po cl]. cbn in *.
  apply list_elem_of_split_length in Hi as (ws1 & ws2 & -> & ->).
  rewrite <-(Nat.add_0_r (length ws1)), insert_app_r. apply step_serve.
Qed.

(** What the pool owns and the sockets that are open beside the connections. *)
Definition pool_owned (app : mnet_app_t) (slots threads : loc) (m : acceptor_pc) : list (loc * bytes) :=
  match m with AReturn _ => [] | _ => pool_blocks app slots threads end.

Definition listening (m : acceptor_pc) : Z := match m with AReturn _ => 0 | _ => 1 end.

(** Sockets that should be open: the connections not closed, and the listening one. *)
Definition sockets_due (s : system) : Z :=
  listening (s_acceptor s) + Z.of_nat (length (s_accepted s)) - Z.of_nat (length (s_closed s)).

Section serving.
Context `{!Allocator, !OS, !Process, !Files, !Network, !Listener}.
Variables (app : mnet_app_t) (slots threads : loc) (w0 : world).
Let mc : Z := app_max_connections app.
Let workers : nat := Z.to_nat (app_workers app).
Let owned (s : system) : list (loc * bytes) := pool_owned app slots threads (s_acceptor s).
Context (Happ : app_at w0 app) (Hlimits : limits_ok app) (Hworkers : (0 < workers)%nat).

Definition conns_ok (cs : gmap nat conn_t) : Prop :=
  ∀ i buffer used ka, cs !! i = Some (buffer, used, ka) → conn_ok buffer used.

Record server_inv (sv : server) : Prop := {
  sv_reachable : reachable mc workers (sv_system sv);
  sv_owns : ∃ n evs, owns (io w0 n evs) (sv_world sv) (owned (sv_system sv)) ∧
    open_sockets evs = sockets_due (sv_system sv);
  sv_conns_ok : conns_ok (sv_conns sv);
}.

Lemma reachable_step s s' : reachable mc workers s → move mc workers s s' → reachable mc workers s'.
Proof. intros (s0 & Hi & Hr) Hm. exists s0. split; [done|]. by eapply rtc_r. Qed.

(** A thread does its work and moves on. *)
Lemma server_inv_ran s s' cs cs' w w' k :
  server_inv (MkServer s cs w) → reachable mc workers s' →
  (∀ n evs, owns (io w0 n evs) w (owned s) →
     ∃ n2 evs2, owns (io (io w0 n evs) n2 evs2) w' (owned s') ∧ open_sockets evs2 = k) →
  sockets_due s' = sockets_due s + k → conns_ok cs' →
  server_inv (MkServer s' cs' w').
Proof.
  intros [_ (n & evs & Ho & Es) _] Hr Hw Hk Hc. cbn in *. split; cbn; [done| |done].
  destruct (Hw _ _ Ho) as (n2 & evs2 & Ho2 & Es2). rewrite io_io in Ho2.
  eexists _, _. split; [exact Ho2|]. rewrite open_sockets_app. lia.
Qed.

Lemma conns_ok_insert cs i buffer used ka :
  conns_ok cs → conn_ok buffer used → conns_ok (<[i := (buffer, used, ka)]> cs).
Proof.
  intros Hcs Hc j b u k Hj. destruct (decide (i = j)) as [<-|Hne].
  - rewrite lookup_insert_eq in Hj. by simplify_eq.
  - rewrite lookup_insert_ne in Hj by done. by eapply Hcs.
Qed.

Lemma conns_ok_delete cs i : conns_ok cs → conns_ok (delete i cs).
Proof. intros Hcs j b u k Hj. apply lookup_delete_Some in Hj as [_ Hj]. by eapply Hcs. Qed.

(** The steps that [internal] allows keep what is due. *)
Lemma internal_due s s' :
  move mc workers s s' → internal s s' → owned s' = owned s ∧ sockets_due s' = sockets_due s.
Proof.
  intros Hm (Ecl & Eac & _ & _ & Hret). pose proof (move_returned _ _ _ _ 0 Hm) as Hk.
  assert (∀ code, s_acceptor s = AReturn code → s_acceptor s' = AReturn code) as Hkeep
    by (intros code; by apply move_returned with mc workers).
  unfold owned, sockets_due. rewrite Ecl, Eac.
  destruct (s_acceptor s') eqn:Em'; try (by rewrite (Hret _ eq_refl));
    destruct (s_acceptor s); try done; by discriminate (Hkeep _ eq_refl).
Qed.

Lemma internal_inv s s' cs w :
  server_inv (MkServer s cs w) → move mc workers s s' → internal s s' → server_inv (MkServer s' cs w).
Proof.
  intros Hi Hm Hint. destruct (internal_due _ _ Hm Hint) as [Eo Ed]. pose proof Hi as [Hr _ Hcs].
  apply (server_inv_ran _ _ _ _ _ _ 0 Hi); [by eapply reachable_step| |by rewrite Ed, Z.add_0_r|done].
  intros n evs Ho. rewrite Eo. exists 0%nat, []. by rewrite io_nil.
Qed.

Lemma disturbed_inv sv sv' : server_inv sv → disturbed sv sv' → server_inv sv'.
Proof.
  intros Hi Hd. destruct Hd as [s s' cs w Hd]. eapply internal_inv; [exact Hi|by right|]. by destruct Hd.
Qed.

(** The other steps of the accept loop. *)
Lemma accepted_due s s' r :
  step mc workers s s' → s_acceptor s = AListen → accepted r (s_acceptor s') →
  owned s' = owned s ∧ sockets_due s' = sockets_due s + match r with ClientAccepted => 1 | _ => 0 end.
Proof.
  intros Hst Em Hr. unfold owned, sockets_due. destruct r; cbn in Hr; [destruct Hr as [c Hr]|..];
    destruct Hst; simplify_eq/=; (split; [done|]); rewrite ?length_app; cbn; lia.
Qed.

Lemma closing_due s s' m m' :
  step mc workers s s' → s_acceptor s = m → s_acceptor s' = m' → listening m = listening m' →
  (∃ c, m = ARefuse c ∧ m' = AAccept ∨ m = AUndo c ∧ m' = AShutdown 0) →
  sockets_due s' = sockets_due s + -1.
Proof.
  intros Hst Em Em' El (c & [[-> ->]|[-> ->]]); unfold sockets_due; rewrite Em, Em';
    destruct Hst; simplify_eq/=; rewrite ?length_app; cbn; lia.
Qed.

Lemma finish_due s s' code queued :
  step mc workers s s' → s_acceptor s = AJoin code → s_acceptor s' = AReturn code →
  s_closed s' = s_closed s ++ queued →
  sockets_due s' = sockets_due s + (-1 - Z.of_nat (length queued)).
Proof.
  intros Hst Em Em' Ecl. unfold sockets_due. rewrite Em, Em', Ecl, length_app.
  destruct Hst; simplify_eq/=. lia.
Qed.

Lemma done_serving_due s s' i :
  done_serving s s' i → owned s' = owned s ∧ sockets_due s' = sockets_due s + -1.
Proof.
  intros (c & _ & ->). unfold owned, sockets_due. cbn. split; [done|]. rewrite length_app. cbn. lia.
Qed.

Lemma request_ran n evs w R buffer used ka r w' :
  owns (io w0 n evs) w R → conn_ok buffer used → serve_one app buffer used ka w = Some (r, w') →
  ∃ n2 evs2, owns (io (io w0 n evs) n2 evs2) w' R ∧ open_sockets evs2 = 0 ∧
    ∀ b u, r = Some (true, b, u) → conn_ok b u.
Proof.
  intros Ho Hc E. pose proof (request_spec app _ _ _ _ _ ka Ho (app_at_io _ _ _ _ Happ) Hlimits Hc) as Hw.
  apply (wp_ran _ _ _ _ _ Hw E).
Qed.

Lemma serves_inv sv sv' : server_inv sv → serves app slots threads sv sv' → server_inv sv'.
Proof.
  intros Hi Hs. pose proof (sv_reachable _ Hi) as Hr. pose proof (sv_conns_ok _ Hi) as Hcs.
  assert (∀ s s', step mc workers s s' → reachable mc workers s → reachable mc workers s') as Hnext
    by (intros; eapply reachable_step; [done|by left]).
  destruct Hs as [s s' cs w Hm Hint|s s' cs w w' Hst Em Hne Ews E
    |s s' cs w r w' Hst Em E Hacc|s s' cs w c active w' Hst Em Em' E|s s' cs w c w' Hst Em Em' E
    |s s' cs w code queued w' Hst Em Em' Ecl E|s cs w i c buffer w' Hi2 Hcs2 E
    |s cs w i c buffer used ka buffer' used' w' Hi2 Hcs2 E
    |s s' cs w i buffer used ka r w' w'' Hd Hcs2 E Hlast E2]; cbn in Hr, Hcs.
  - eapply internal_inv; [exact Hi|by left|done].
  - assert (owned s' = owned s ∧ sockets_due s' = sockets_due s) as [Eo Ed].
    { unfold owned, sockets_due. destruct Hst; by simplify_eq/=. }
    apply (server_inv_ran _ _ _ _ _ _ 0 Hi); [by eapply Hnext| |by rewrite Ed, Z.add_0_r|done].
    intros n evs Ho. rewrite Eo. apply (wp_ran _ _ _ _ _ (started_works app _ _ _ w Ho) E).
  - destruct (accepted_due _ _ _ Hst Em Hacc) as [Eo Ed].
    eapply (server_inv_ran _ _ _ _ _ _ _ Hi); [by eapply Hnext| |exact Ed|done].
    intros n evs Ho. rewrite Eo. apply (wp_ran _ _ _ _ _ (accept_turn_spec app _ _ _ Ho) E).
  - apply (server_inv_ran _ _ _ _ _ _ (-1) Hi); [by eapply Hnext| |by eapply closing_due; eauto|done].
    intros n evs Ho. assert (owned s' = owned s) as -> by (unfold owned; by rewrite Em, Em').
    apply (wp_ran _ _ _ _ _ (refuse_works app _ _ _ _ Ho) E).
  - apply (server_inv_ran _ _ _ _ _ _ (-1) Hi); [by eapply Hnext| |by eapply closing_due; eauto|done].
    intros n evs Ho. assert (owned s' = owned s) as -> by (unfold owned; by rewrite Em, Em').
    apply (wp_ran _ _ _ _ _ (close_works _ _ _ Ho) E).
  - eapply (server_inv_ran _ _ _ _ _ _ _ Hi); [by eapply Hnext| |by eapply finish_due|done].
    intros n evs Ho. unfold owned in *. rewrite Em in Ho. rewrite Em'. cbn [pool_owned] in *.
    rewrite <-(app_nil_r (pool_blocks _ _ _)) in Ho.
    apply (wp_ran _ _ _ _ _ (finish_works app slots threads _ _ _ _ _ Ho) E).
  - apply (server_inv_ran _ _ _ _ _ _ 0 Hi); [done| |by rewrite Z.add_0_r|].
    + intros n evs Ho. exists 1%nat, []. split; [|done].
      refine (wp_ran (sys ls_buffer) (λ _ w', owns (io (io w0 n evs) 1 []) w' _) _ _ _ _ E).
      by eapply wp_sys.
    + assert (buffer = ls_buffer (w_calls w)) as -> by (unfold sys in E; by simplify_eq).
      pose proof size_value. apply conns_ok_insert; [done|].
      split; [apply ls_buffer_size|apply ls_buffer_bytes|lia|lia].
  - pose proof (Hcs _ _ _ _ Hcs2) as Hc.
    apply (server_inv_ran _ _ _ _ _ _ 0 Hi); [done| |by rewrite Z.add_0_r|].
    + intros n evs Ho. destruct (request_ran _ _ _ _ _ _ _ _ _ Ho Hc E) as (n2 & evs2 & ? & ? & _). eauto.
    + apply conns_ok_insert; [done|]. destruct Hi as [_ (n & evs & Ho & _) _].
      destruct (request_ran _ _ _ _ _ _ _ _ _ Ho Hc E) as (_ & _ & _ & _ & Hb). by apply Hb.
  - destruct (done_serving_due _ _ _ Hd) as [Eo Ed]. pose proof (Hcs _ _ _ _ Hcs2) as Hc.
    apply (server_inv_ran _ _ _ _ _ _ (-1) Hi); [|..|done|by apply conns_ok_delete].
    { eapply Hnext; [|done]. by eapply done_serving_step. }
    intros n evs Ho. rewrite Eo. destruct (request_ran _ _ _ _ _ _ _ _ _ Ho Hc E) as (n2 & evs2 & Ho2 & Es2 & _).
    destruct (wp_ran _ _ _ _ _ (close_works _ _ _ Ho2) E2) as (n3 & evs3 & Ho3 & Es3).
    rewrite io_io in Ho3. eexists _, _. split; [exact Ho3|sockets].
Qed.

(** No work that a thread is about to do is undefined. *)
Lemma pending_defined sv c : server_inv sv → pending app slots threads sv c → c (sv_world sv) ≠ None.
Proof.
  intros [_ (n & evs & Ho & _) Hcs] Hp.
  destruct Hp as [| | | |s cs w code queued Em|]; cbn in *.
  - eapply wp_defined, started_works, Ho.
  - apply (wp_defined _ (λ _ _, True)), wp_bind. eapply wp_mono; [by eapply accept_turn_spec|].
    intros; by apply wp_ret.
  - eapply wp_defined, refuse_works, Ho.
  - eapply wp_defined, close_works, Ho.
  - unfold owned in Ho. rewrite Em in Ho. cbn [pool_owned] in Ho. rewrite <-(app_nil_r (pool_blocks _ _ _)) in Ho.
    eapply wp_defined, finish_works, Ho.
  - apply (wp_defined _ (λ _ _, True)), wp_bind. eapply wp_mono.
    { eapply request_spec; [exact Ho|by apply app_at_io|done|by eapply Hcs]. }
    intros r w' (n2 & evs2 & Ho2 & _).
    eapply wp_mono; [eapply close_works, Ho2|done].
Qed.

(** When [mnet_run] has returned, the pool is freed and every socket is closed. *)
Lemma returned_held sv code :
  server_inv sv → s_acceptor (sv_system sv) = AReturn code → held w0 (sv_world sv) [].
Proof.
  intros [Hr (n & evs & Ho & Es) _] Em. destruct (reachable_inv _ _ _ Hworkers Hr) as (Hq & _ & [Hop _ _]).
  destruct (returned_empty _ _ _ Hq Em) as (_ & Eq & Es2 & _). unfold owned in Ho. rewrite Em in Ho.
  eapply held_io; [exact Ho|]. rewrite Es. unfold sockets_due. rewrite Em, Hop. unfold Pool.open_sockets.
  rewrite Eq, Es2, Em. cbn. rewrite !length_app. cbn. lia.
Qed.

Lemma serving_inv w sv n evs :
  owns (io w0 n evs) w (pool_blocks app slots threads) → open_sockets evs = 1 →
  serving_from app slots threads w sv → server_inv sv.
Proof.
  intros Ho Es (s0 & Hi & Hs). pose proof Hi as (slots0 & Hl & E). revert Hs.
  assert (server_inv (MkServer s0 ∅ w)) as Hstart.
  { split; cbn; [by exists s0| |intros i b u k Hk; by rewrite lookup_empty in Hk].
    exists n, evs. subst s0. by split. }
  intros Hs. induction Hs as [|sv1 sv2 sv3 [Hs|Hs] _ IH]; [done|..]; apply IH; [by eapply serves_inv|].
  by eapply disturbed_inv.
Qed.
End serving.

(** ** A thread can always go on *)

Section progress.
Context `{!Allocator, !OS, !Process, !Files, !Network, !Listener}.
Variables (app : mnet_app_t) (slots threads : loc) (w0 : world).
Let mc : Z := app_max_connections app.
Let workers : nat := Z.to_nat (app_workers app).
Context (Happ : app_at w0 app) (Hlimits : limits_ok app) (Hworkers : (0 < workers)%nat).
Notation serves := (serves app slots threads).
Notation server_inv := (server_inv app slots threads w0).

Definition goes_on (sv : server) : Prop := ∃ sv', serves sv sv'.

Lemma goes_on_internal s s' cs w :
  step mc workers s s' → internal s s' → goes_on (MkServer s cs w).
Proof.
  intros Hst Hint. exists (MkServer s' cs w). by apply serves_internal.
Qed.

Lemma serving_worker_goes_on s cs w i v :
  server_inv (MkServer s cs w) → s_workers s !! i = Some v → awake v → goes_on (MkServer s cs w).
Proof.
  intros Hi Hv [Hv1 Hv2]. pose proof (sv_reachable _ _ _ _ _ Hi) as Hr. cbn in Hr.
  destruct (reachable_inv _ _ _ Hworkers Hr) as (Hq & _ & _). pose proof (qi_pool _ _ Hq) as Hp.
  pose proof Hv as Hsplit. apply list_elem_of_split_length in Hsplit as (ws1 & ws2 & Ews & El).
  destruct v as [| |c| |]; [| done| | |done].
  - destruct s as [p r a m ws ac pu po cl]. cbn in *. subst ws.
    assert (∀ code, signal_not_full m = AReturn code → m = AReturn code) as Hret by by destruct m.
    destruct (mnet_pool_pop p) as [| |c p'|] eqn:E; [| | |by destruct (pop_defined p)].
    + eapply goes_on_internal; [by apply step_pop_wait|]. by split_and!.
    + eapply goes_on_internal; [by apply step_pop_finished|]. by split_and!.
    + eapply goes_on_internal; [by apply step_pop|]. split_and!; cbn; [done..| | |exact Hret]; by intros ->.
  - destruct (cs !! i) as [[[buffer used] ka]|] eqn:Ecs.
    2:{ eexists. by eapply serves_begin. }
    destruct Hi as [_ (n & evs & Ho & _) Hcs]. cbn in Ho, Hcs.
    pose proof (request_spec app _ _ _ _ _ ka Ho (app_at_io _ _ _ _ Happ) Hlimits (Hcs _ _ _ _ Ecs)) as Hw.
    apply wp_run in Hw as (r & w' & E & n2 & evs2 & Ho2 & _ & _).
    assert (serve_one app buffer used ka w = Some (r, w') → (∀ b u, r ≠ Some (true, b, u)) →
      goes_on (MkServer s cs w)) as Hlast.
    { intros _ Hr2. pose proof (close_works _ _ _ Ho2) as Hcl. apply wp_run in Hcl as ([] & w'' & Ecl & _).
      assert (done_serving s (MkSystem (s_pool s) (s_running s) (s_active s) (s_acceptor s)
        (<[i := WRelease]> (s_workers s)) (s_accepted s) (s_pushed s) (s_popped s) (s_closed s ++ [c])) i)
        as Hd by by exists c.
      eexists. by eapply serves_last. }
    destruct r as [[[[] b] u]|]; [|by apply Hlast..].
    eexists. by eapply serves_request.
  - destruct s as [p r a m ws ac pu po cl]. cbn in *. subst ws.
    eapply goes_on_internal; [by apply step_release|]. by split_and!.
Qed.

Lemma goes_on_work {A} (c : M A) Q w (P : Prop) : wp c Q w → (∀ a w', c w = Some (a, w') → P) → P.
Proof. intros Hw HP. apply wp_run in Hw as (a & w' & E & _). by eapply HP. Qed.

Lemma push_goes_on p r a ws ac pu po cl cs w c :
  pool_ok p → goes_on (MkServer (MkSystem p r a (APush c) ws ac pu po cl) cs w).
Proof.
  intros Hp. destruct (mnet_pool_push p r c) as [|p'|p'|] eqn:E.
  - eapply goes_on_internal; [by apply step_push_wait|]. by split_and!.
  - eapply goes_on_internal; [by apply step_push_refused|]. by split_and!.
  - assert (∃ ws', signal_not_empty ws ws') as [ws' Hs].
    { destruct (decide (WWait ∈ ws)) as [Hin|Hin]; [|exists ws; by constructor].
      apply list_elem_of_split in Hin as (ws1 & ws2 & ->). eexists. constructor. }
    eapply goes_on_internal; [by apply step_push|]. by split_and!.
  - rewrite push_spec in E by done. destruct (po_shutting_down p); [done|].
    case_match; [by destruct r|done].
Qed.

Lemma accept_goes_on p r a ws ac pu po cl cs w n evs :
  owns (io w0 n evs) w (pool_blocks app slots threads) →
  goes_on (MkServer (MkSystem p r a AListen ws ac pu po cl) cs w).
Proof.
  intros Ho. eapply goes_on_work; [by eapply accept_turn_spec|]. intros res w' E.
  destruct res; (eexists; eapply serves_accept; [|done|exact E|]).
  - apply (step_accept _ _ _ _ _ _ _ _ _ _ (fresh (queue p ++ served ws))), infinite_is_fresh.
  - by eexists.
  - apply step_interrupted.
  - done.
  - apply step_accept_fail.
  - done.
Qed.

(** The server is never stuck before [mnet_run] returns. *)
Lemma server_goes_on sv :
  server_inv sv → (∃ code, s_acceptor (sv_system sv) = AReturn code) ∨ goes_on sv.
Proof.
  intros Hi. pose proof Hi as [Hr (n & evs & Ho & _) _]. destruct sv as [s cs w].
  destruct (reachable_inv _ _ _ Hworkers Hr) as (Hq & _ & _).
  pose proof (qi_pool _ _ Hq) as Hp. pose proof (qi_phase _ _ Hq) as Hph.
  destruct s as [p r a m ws ac pu po cl]. cbn in Ho, Hp, Hph, Hq, Hr.
  destruct m as [| | |c|c|c|c|c|c|code|code|code]; cbn [pool_owned s_acceptor] in Ho;
    [right..|by left; exists code].
  - destruct (decide (length ws < workers)%nat) as [Hlt|Hge].
    + eapply goes_on_internal; [by apply step_create|]. by split_and!.
    + eapply goes_on_work; [eapply started_works, Ho|]. intros [] w' E.
      eexists. eapply serves_started; [apply step_created; lia|done..|exact E].
  - destruct r.
    + eapply goes_on_internal; [by apply step_running|]. by split_and!.
    + eapply goes_on_internal; [by apply step_stopped|]. by split_and!.
  - by eapply accept_goes_on.
  - destruct (at_limit mc a) eqn:E.
    + eapply goes_on_internal; [by apply step_refuse|]. by split_and!.
    + eapply goes_on_internal; [by apply step_admit|]. by split_and!.
  - eapply goes_on_work; [eapply (refuse_works app _ _ 0), Ho|]. intros [] w' E.
    eexists. eapply serves_refuse; [apply step_refused|done..|exact E].
  - eapply goes_on_internal; [by apply step_count|]. by split_and!.
  - by apply push_goes_on.
  - destruct Hph as (Hsd & Hne & Hfull).
    pose proof (qi_awake _ _ Hq) as Hex. cbn in Hex. rewrite Hfull in Hex.
    specialize (Hex (pk_capacity _ Hp) Hsd). apply Exists_exists in Hex as (v & Hin & Haw).
    apply list_elem_of_lookup in Hin as [i Hv]. by eapply serving_worker_goes_on.
  - eapply goes_on_work; [eapply close_works, Ho|]. intros [] w' E.
    eexists. eapply serves_undo; [apply step_undo|done..|exact E].
  - eapply goes_on_internal; [by apply step_shutdown|]. by split_and!.
  - destruct Hph as [_ Hw]. destruct (decide (Forall (.= WDone) ws)) as [Hall|Hn].
    + destruct (drain_spec p Hp) as (p' & E & _). eapply goes_on_work.
      { rewrite <-(app_nil_r (pool_blocks _ _ _)) in Ho. eapply finish_works, Ho. }
      intros [] w' E2. eexists. eapply serves_finish; [by apply step_join|done..|exact E2].
    + apply not_Forall_Exists in Hn; [|intros v; apply _]. apply Exists_exists in Hn as (v & Hin & Hv).
      apply list_elem_of_lookup in Hin as [i Hi2]. eapply serving_worker_goes_on; [exact Hi|exact Hi2|].
      split; [|done]. intros ->. apply Hw. by apply list_elem_of_lookup_2 in Hi2.
Qed.
End progress.

(** ** A worker that runs alone is [mnet_handle_client] *)

Section alone.
Context `{!Allocator, !OS, !Process, !Files, !Network, !Listener}.
Variables (app : mnet_app_t) (slots threads : loc).
Notation serves := (serves app slots threads).

(** The system when the worker [i] is done with [c]. *)
Definition served_by (s : system) (i : nat) (c : mnet_socket_t) : system :=
  MkSystem (s_pool s) (s_running s) (s_active s) (s_acceptor s) (<[i := WRelease]> (s_workers s))
    (s_accepted s) (s_pushed s) (s_popped s) (s_closed s ++ [c]).

Lemma serve_loop_serves requests : ∀ s cs w i c buffer used ka w' w'',
  s_workers s !! i = Some (WServe c) →
  serve_loop requests app buffer used ka w = Some (true, w') → mnet_close true w' = Some ((), w'') →
  rtc serves (MkServer s (<[i := (buffer, used, ka)]> cs) w) (MkServer (served_by s i c) (delete i cs) w'').
Proof.
  induction requests as [|n IH]; intros s cs w i c buffer used ka w' w'' Hi E Ecl; [done|].
  cbn [serve_loop] in E. unfold mbind, M_bind in E.
  destruct (serve_one app buffer used ka w) as [[r w1]|] eqn:E1; [|done].
  assert (∀ b u, r = Some (true, b, u) → rtc serves (MkServer s (<[i := (buffer, used, ka)]> cs) w)
    (MkServer (served_by s i c) (delete i cs) w'')) as Hmore.
  { intros b u ->. eapply rtc_l; [eapply serves_request; [exact Hi|by rewrite lookup_insert_eq|exact E1]|].
    rewrite insert_insert_eq. by eapply IH. }
  destruct r as [[[[] b] u]|]; [by eapply Hmore|..]; injection E as <-;
    rewrite <-(delete_insert_eq cs i (buffer, used, ka)); apply rtc_once;
    (eapply serves_last; [by exists c|by rewrite lookup_insert_eq|exact E1|done|exact Ecl]).
Qed.

Lemma handle_client_serves s cs w i c requests w' :
  s_workers s !! i = Some (WServe c) → cs !! i = None →
  (buffer ← sys ls_buffer; closed ← mnet_handle_client requests app buffer;
   mnet_close true;; mret closed) w = Some (true, w') →
  rtc serves (MkServer s cs w) (MkServer (served_by s i c) cs w').
Proof.
  intros Hi Hcs E. rewrite <-(delete_id cs i Hcs). rewrite (delete_id cs i Hcs) at 1.
  unfold mbind, M_bind, sys, mnet_handle_client in E.
  destruct (serve_loop _ _ _ _ _ _) as [[closed w1]|] eqn:E1; [|done].
  destruct (mnet_close true w1) as [[[] w2]|] eqn:E2; [|done]. injection E as -> <-.
  eapply rtc_l; [by eapply serves_begin|]. by eapply serve_loop_serves.
Qed.
End alone.

(** ** The signal handler *)

Section signals.
Context `{!Allocator}.

(** [sig_handler]: it stores into the application that [g_running_app] points to.
    The store is the step [Pool.sig_handler]; here it is the access to the block.
    [mnet_run] sets [g_running_app] and nothing ever resets it. *)
Definition sig_handler (g_running_app : option mnet_app_t) : M unit :=
  match g_running_app with
  | None => mret ()
  | Some app => load (Some (app_block app));; mret ()
  end.

Lemma app_block_owned app bs : app_owned app bs → (app_block app, zeros sizeof_app) ∈ bs.
Proof. intros [_ _ (rbs & _ & ->)]. by left. Qed.

Lemma sig_handler_defined w0 w app bs :
  app_owned app bs → owns w0 w bs → sig_handler (Some app) w ≠ None.
Proof.
  intros Ha Ho. apply (wp_defined _ (λ _ _, True)), wp_bind. eapply wp_load; [exact Ho|by apply app_block_owned|].
  by apply wp_ret.
Qed.

(** A signal that arrives after [mnet_destroy] writes to freed memory. *)
Lemma signal_after_destroy w0 w app bs :
  app_owned app bs → owns w0 w bs →
  wp (mnet_destroy (Some app)) (λ _ w', sig_handler (Some app) w' = None) w.
Proof.
  intros Ha Ho. eapply wp_destroy; [done..|]. intros w' Ho'.
  assert (w_heap w' !! app_block app = None) as E.
  { rewrite (owns_nil_heap _ _ Ho'). apply (owns_wf _ _ _ Ho).
    pose proof (owns_fresh _ _ _ Ho) as Hf. rewrite Forall_forall in Hf.
    apply (Hf (app_block app)). apply list_elem_of_fmap. exists (app_block app, zeros sizeof_app).
    split; [done|by apply app_block_owned]. }
  unfold sig_handler, load, mbind, M_bind. by rewrite E.
Qed.
End signals.


(** ** Properties *)

Section whole.
Context `{!Allocator, !OS, !Process, !Files, !Network, !Listener}.

(** What [mnet_run] leaves of an application that was built in [w]. *)
Definition ran (w : world) (res : run_result * option mnet_app_t) (w1 : world) : Prop :=
  match snd res with
  | None => held w w1 [] ∧ ∃ code, fst res = RunReturned code
  | Some app => ∃ n evs bs w2, app_owned app bs ∧ owns w w2 bs ∧ app_at w2 app ∧ limits_ok app ∧
      match fst res with
      | RunReturned _ => owns (io w2 n evs) w1 [] ∧ open_sockets evs = 0
      | RunUnfinished => owns (io w2 n evs) w1 []
      | RunPool slots threads => 1 < app_workers app ∧
          owns (io w2 n evs) w1 (pool_blocks app slots threads) ∧ open_sockets evs = 1
      end
  end.

Lemma run_good_spec w w1 app fuel requests port :
  good_inv w app w1 → wp (mnet_run fuel requests app port) (ran w) w1.
Proof.
  intros Hi. destruct app as [app'|]; cbn [good_inv] in Hi.
  2:{ apply wp_ret. split; [by apply held_owns|by exists (-1)]. }
  destruct Hi as [Hg (bs & Ha & Ho)]. pose proof (app_owned_at _ _ _ _ Hg Ha Ho) as Hat.
  eapply wp_mono.
  { apply (run_spec w1 w1); [by eapply owns_refl, owns_wf_world|exact Hat|by apply ag_limits]. }
  intros res w3 (n & evs & r & a & E & Hres). unfold ran. rewrite E. exists n, evs, bs, w1.
  split_and!; [by eapply app_owned_config|done|by destruct Hat|by destruct (ag_limits _ Hg)|].
  destruct (fst res); [done|done|]. exact Hres.
Qed.

Lemma build_run_spec ops fuel requests port w :
  wf_world w → Forall op_ok ops →
  wp (app ← mnet_create; app ← run_ops app ops; mnet_run fuel requests app port) (ran w) w.
Proof.
  intros Hwf Hok. apply wp_bind. eapply wp_mono; [by apply create_good|]. intros app w1 Hi1.
  apply wp_bind. eapply wp_mono; [by apply run_ops_good|]. intros app' w2 Hi2. by apply run_good_spec.
Qed.

Lemma destroy_released w w2 w1 n evs app bs :
  app_owned app bs → owns w w2 bs → owns (io w2 n evs) w1 [] → open_sockets evs = 0 →
  wp (mnet_destroy (Some app)) (λ _ w', released w w') w1.
Proof.
  intros Ha Ho Ho1 Es. rewrite <-(io_nil w) in Ho. pose proof (owns_io_trans _ _ _ _ _ _ _ _ _ Ho Ho1) as Ho2.
  eapply wp_destroy; [exact Ha|exact Ho2|]. intros w' Ho'. eapply held_released, held_io; [exact Ho'|done].
Qed.

(** The application served, from the moment its pool is allocated in [w1]: whatever
    a thread is about to do is defined, a signal finds the application alive, and
    after [mnet_run] [mnet_destroy] releases all that was acquired since [w]. *)
Definition pool_safe (w : world) (app : mnet_app_t) (slots threads : loc) (w1 : world) : Prop :=
  ∀ sv, serving_from app slots threads w1 sv →
    (∀ c, pending app slots threads sv c → c (sv_world sv) ≠ None) ∧
    sig_handler (Some app) (sv_world sv) ≠ None ∧
    (∀ code, s_acceptor (sv_system sv) = AReturn code →
      wp (mnet_destroy (Some app)) (λ _ w', released w w') (sv_world sv)).

(** Either [mnet_run] has returned or a thread can go on, without spurious wake-ups
    or signals. *)
Definition pool_goes_on (app : mnet_app_t) (slots threads : loc) (w1 : world) : Prop :=
  ∀ sv, serving_from app slots threads w1 sv →
    (∃ code, s_acceptor (sv_system sv) = AReturn code) ∨
    (∃ sv', serves app slots threads sv sv').

Lemma ran_pool_safe w slots threads app w1 :
  ran w (RunPool slots threads, Some app) w1 → pool_safe w app slots threads w1.
Proof.
  intros (n & evs & bs & w2 & Ha & Ho & Hat & Hl & Hn & Ho1 & Es).
  assert (0 < Z.to_nat (app_workers app))%nat as Hw by (clear -Hn; lia).
  intros sv Hsv. pose proof (serving_inv app slots threads w2 Hat Hl Hw _ _ _ _ Ho1 Es Hsv) as Hi.
  split_and!.
  - intros c. by eapply pending_defined.
  - destruct Hi as [_ (n2 & evs2 & Ho2 & _) _]. apply (wp_defined _ (λ _ _, True)), wp_bind.
    eapply wp_load_at; [|by apply wp_ret].
    eapply owns_old_heap; [exact Ho2|]. exact (owns_in_heap _ _ _ _ _ Ho (app_block_owned _ _ Ha)).
  - intros code Em. destruct (returned_held app slots threads w2 Hw _ _ Hi Em) as (n2 & evs2 & Ho2 & Es2).
    by eapply destroy_released.
Qed.

Lemma ran_pool_goes_on w slots threads app w1 :
  ran w (RunPool slots threads, Some app) w1 → pool_goes_on app slots threads w1.
Proof.
  intros (n & evs & bs & w2 & _ & _ & Hat & Hl & Hn & Ho1 & Es).
  assert (0 < Z.to_nat (app_workers app))%nat as Hw by (clear -Hn; lia).
  intros sv Hsv. pose proof (serving_inv app slots threads w2 Hat Hl Hw _ _ _ _ Ho1 Es Hsv) as Hi.
  by eapply server_goes_on.
Qed.

Lemma ran_returned w code app w1 :
  ran w (RunReturned code, app) w1 → wp (mnet_destroy app) (λ _ w', released w w') w1.
Proof.
  destruct app as [app|].
  - intros (n & evs & bs & w2 & Ha & Ho & _ & _ & Ho1 & Es). by eapply destroy_released.
  - intros [Hh _]. by apply wp_ret, held_released.
Qed.

(** C4: serving with worker threads is safe: an application built by any calls
    within the documented limits and run with several workers never meets
    undefined behaviour, however the requests of its workers, the accept loop and
    the shutdown interleave: what a thread is about to do is always defined, a
    signal finds the application alive, and once [mnet_run] has returned, or when
    it returns without starting a worker, [mnet_destroy] leaves the heap as it was
    at the start and every socket closed. *)
Theorem pool_server_safe (ops : list app_op) (fuel requests : nat) (port : Z) (w : world) :
  wf_world w → Forall op_ok ops →
  wp (app ← mnet_create; app ← run_ops app ops; mnet_run fuel requests app port)
    (λ '(result, app) w1,
      match result, app with
      | RunPool slots threads, Some app => pool_safe w app slots threads w1
      | RunPool _ _, None => False
      | RunReturned _, app => wp (mnet_destroy app) (λ _ w', released w w') w1
      | RunUnfinished, app => True
      end) w.
Proof.
  intros Hwf Hok. eapply wp_mono; [by apply build_run_spec|]. intros [result app] w1 Hres.
  destruct result as [code| |slots threads]; [by eapply ran_returned|done|].
  destruct app as [app|]; [by apply ran_pool_safe|by destruct Hres as [_ [code Hres]]].
Qed.

(** C18: the server with worker threads is never stuck: in every state that an
    application built by any calls within the limits can reach while it serves,
    either [mnet_run] has returned or some thread can take its next step with the
    work that belongs to it, without any spurious wake-up or signal. *)
Theorem pool_server_progress (ops : list app_op) (fuel requests : nat) (port : Z) (w : world) :
  wf_world w → Forall op_ok ops →
  wp (app ← mnet_create; app ← run_ops app ops; mnet_run fuel requests app port)
    (λ '(result, app) w1,
      match result, app with
      | RunPool slots threads, Some app => pool_goes_on app slots threads w1
      | RunPool _ _, None => False
      | _, _ => True
      end) w.
Proof.
  intros Hwf Hok. eapply wp_mono; [by apply build_run_spec|]. intros [result app] w1 Hres.
  destruct result as [code| |slots threads]; [done|done|].
  destruct app as [app|]; [by eapply ran_pool_goes_on|by destruct Hres as [_ [code Hres]]].
Qed.
End whole.

Definition demo_ops : list app_op :=
  [OpRoute MNET_HTTP_GET (Some (lit "/a/:b/*")) (Some (HandlerUser demo_handler));
   OpWorkers 3; OpMaxConnections 10].

Lemma demo_ops_ok : Forall op_ok demo_ops.
Proof. apply Forall_cons. split; [split; [apply good_wild|apply demo_handler_ok]|by repeat constructor]. Qed.

(** Such an application does get as far as its workers. *)
Example demo_ops_run :
  match (app ← mnet_create (H := all_ok);
         app ← run_ops (H := all_ok) app demo_ops;
         mnet_run (H := all_ok) (H0 := silent_os) (H1 := quiet) (H2 := demo_files) (H3 := demo_network)
           (H4 := one_client) 0 0 app 8080) empty_world with
  | Some (RunPool _ _, Some app, w) => app_workers app = 3 ∧ open_sockets (w_trace w) = 1
  | _ => False
  end.
Proof. vm_compute. done. Qed.

Lemma pool_server_safe_witness :
  wp (app ← mnet_create (H := all_ok);
      app ← run_ops (H := all_ok) app demo_ops;
      mnet_run (H := all_ok) (H0 := silent_os) (H1 := quiet) (H2 := demo_files) (H3 := demo_network)
        (H4 := one_client) 0 0 app 8080)
    (λ '(result, app) w1,
      match result, app with
      | RunPool slots threads, Some app => pool_safe (H := all_ok) (H0 := silent_os) (H1 := quiet) (H2 := demo_files)
          (H3 := demo_network) (H4 := one_client) empty_world app slots threads w1
      | RunPool _ _, None => False
      | RunReturned _, app => wp (mnet_destroy app) (λ _ w', released empty_world w') w1
      | RunUnfinished, app => True
      end) empty_world.
Proof.
  apply (pool_server_safe (H := all_ok) (H0 := silent_os) (H1 := quiet) (H2 := demo_files)
    (H3 := demo_network) (H4 := one_client)); [apply empty_world_wf|apply demo_ops_ok].
Defined.

Lemma pool_server_progress_witness :
  wp (app ← mnet_create (H := all_ok);
      app ← run_ops (H := all_ok) app demo_ops;
      mnet_run (H := all_ok) (H0 := silent_os) (H1 := quiet) (H2 := demo_files) (H3 := demo_network)
        (H4 := one_client) 0 0 app 8080)
    (λ '(result, app) w1,
      match result, app with
      | RunPool slots threads, Some app => pool_goes_on (H := all_ok) (H0 := silent_os) (H1 := quiet) (H2 := demo_files)
          (H3 := demo_network) (H4 := one_client) app slots threads w1
      | RunPool _ _, None => False
      | _, _ => True
      end) empty_world.
Proof.
  apply (pool_server_progress (H := all_ok) (H0 := silent_os) (H1 := quiet) (H2 := demo_files)
    (H3 := demo_network) (H4 := one_client)); [apply empty_world_wf|apply demo_ops_ok].
Defined.
