(* ===== verification/Signals.v ===== *)
(** * Signals

    [src/mnet_server.c]: how [mnet_run] installs [sig_handler] for SIGINT and SIGTERM
    and what a signal does to it.  A signal can be delivered between any two steps,
    to the thread of [mnet_run] or, when there are any, to a worker.  The work of a
    round of the accept loop is in [Run], [Workers] and [Threads]; here a round is what
    it is to a signal: the test of [app->running], the call of [accept], the time
    that it waits, and the time that the connection takes, which is served,
    refused or queued then.  Leaving the loop is [Returned 0]; with workers,
    [mnet_pool_shutdown] comes before the return.

    Access to [g_running_app] after the application is gone is in [Workers]. *)

From S2P Require Export Prelude.

Inductive signal := SIGINT | SIGTERM.

(** [SIG_DFL], which ends the process, or [sig_handler] *)
Inductive disposition := SigDefault | SigHandler.

Record process := MkProcess {
  ps_sigint : disposition;
  ps_sigterm : disposition;
  ps_running_app : bool;       (* [g_running_app] points to the application *)
  ps_running : bool;           (* [app->running] *)
  ps_alive : bool;
}.

(** [sigaction]; [signal] on Windows *)
Definition install (sig : signal) (p : process) : process :=
  match sig with
  | SIGINT => MkProcess SigHandler (ps_sigterm p) (ps_running_app p) (ps_running p) (ps_alive p)
  | SIGTERM => MkProcess (ps_sigint p) SigHandler (ps_running_app p) (ps_running p) (ps_alive p)
  end.

Definition set_running_app (p : process) : process :=
  MkProcess (ps_sigint p) (ps_sigterm p) true (ps_running p) (ps_alive p).
Definition set_running (r : bool) (p : process) : process :=
  MkProcess (ps_sigint p) (ps_sigterm p) (ps_running_app p) r (ps_alive p).

Definition sig_handler (p : process) : process :=
  if ps_running_app p then set_running false p else p.

Definition deliver (sig : signal) (p : process) : process :=
  match (match sig with SIGINT => ps_sigint p | SIGTERM => ps_sigterm p end) with
  | SigDefault => MkProcess (ps_sigint p) (ps_sigterm p) (ps_running_app p) (ps_running p) false
  | SigHandler => sig_handler p
  end.

(** Where [mnet_run] is. *)
Inductive run_at :=
  | InstallInt | InstallTerm           (* sigaction *)
  | SetApp                             (* g_running_app = app *)
  | Listen                             (* mnet_tcp_listen *)
  | SetRunning                         (* app->running = 1 *)
  | StartPool                          (* allocating the pool, starting the workers *)
  | TestRunning                        (* while (app->running) *)
  | CallAccept                         (* about to call accept *)
  | InAccept                           (* accept waits *)
  | Connected                          (* the connection is served, refused or queued *)
  | Returned (code : Z).

Inductive move :=
  | Step                               (* the next step of the code *)
  | ListenFails | PoolFails | AcceptFails
  | Connects                           (* a connection is accepted *)
  | Delivered (sig : signal)           (* to the thread of mnet_run *)
  | DeliveredToWorker (sig : signal).

(** A signal interrupts [accept], which fails with EINTR: [sa_flags] has no
    [SA_RESTART]. *)
Definition interrupted (at_ : run_at) : run_at :=
  match at_ with InAccept => TestRunning | at_ => at_ end.

Definition in_loop (at_ : run_at) : bool :=
  match at_ with TestRunning | CallAccept | InAccept | Connected => true | _ => false end.

(** Workers may exist. *)
Definition has_workers (workers : Z) (at_ : run_at) : bool :=
  (1 <? workers) && match at_ with StartPool => true | _ => in_loop at_ end.

Section run.
Context (workers : Z).                 (* [app->workers] *)

Definition run_step (mv : move) (st : run_at * process) : option (run_at * process) :=
  let '(at_, p) := st in
  if ps_alive p then
    match mv, at_ with
    | Delivered sig, Returned _ => None
    | Delivered sig, _ => Some (interrupted at_, deliver sig p)
    | DeliveredToWorker sig, _ => if has_workers workers at_ then Some (at_, deliver sig p) else None
    | Step, InstallInt => Some (InstallTerm, install SIGINT p)
    | Step, InstallTerm => Some (SetApp, install SIGTERM p)
    | Step, SetApp => Some (Listen, set_running_app p)
    | Step, Listen => Some (SetRunning, p)
    | ListenFails, Listen => Some (Returned (-1), p)
    | Step, SetRunning => Some (if workers <=? 1 then TestRunning else StartPool, set_running true p)
    | Step, StartPool => Some (TestRunning, p)
    | PoolFails, StartPool => Some (Returned (-1), p)
    | Step, TestRunning => Some (if ps_running p then CallAccept else Returned 0, p)
    | Step, CallAccept => Some (InAccept, p)
    | Connects, InAccept => Some (Connected, p)
    | AcceptFails, InAccept => Some (Returned 0, p)
    | Step, Connected => Some (TestRunning, p)
    | _, _ => None
    end
  else None.

Fixpoint run_moves (mvs : list move) (st : run_at * process) : option (run_at * process) :=
  match mvs with
  | [] => Some st
  | mv :: mvs => match run_step mv st with Some st => run_moves mvs st | None => None end
  end.

(** [mnet_run] has been called in some process, which may have run it before. *)
Definition reached (st : run_at * process) : Prop :=
  ∃ p mvs, run_moves mvs (InstallInt, p) = Some st.

(** ** Invariants *)

(** Once the handlers are installed, signals do not end the process. *)
Definition installed (st : run_at * process) : Prop :=
  let '(at_, p) := st in
  match at_ with
  | InstallInt => True
  | InstallTerm => ps_sigint p = SigHandler
  | SetApp => ps_sigint p = SigHandler ∧ ps_sigterm p = SigHandler ∧ ps_alive p = true
  | _ => ps_sigint p = SigHandler ∧ ps_sigterm p = SigHandler ∧ ps_alive p = true ∧
         ps_running_app p = true
  end.

Lemma deliver_handled sig p :
  ps_sigint p = SigHandler → ps_sigterm p = SigHandler → deliver sig p = sig_handler p.
Proof. intros H1 H2. destruct sig; unfold deliver; by rewrite ?H1, ?H2. Qed.

Lemma installed_step mv st st' : installed st → run_step mv st = Some st' → installed st'.
Proof.
  destruct st as [at_ [i t a r l]]. unfold run_step. cbn [ps_alive]. destruct l; [|done].
  intros Hi E.
  destruct mv as [| | | | |[]|[]], at_, i, t, a, r; try done; unfold has_workers in E;
    destruct (workers <=? 1), (1 <? workers); try done; injection E as <-; cbn in *; intuition done.
Qed.

Lemma reached_installed st : reached st → installed st.
Proof.
  intros (p & mvs & E). assert (∀ st0, installed st0 → run_moves mvs st0 = Some st → installed st) as H.
  { clear E. induction mvs as [|mv mvs IH]; intros st0 Hi E; [by injection E as <-|].
    cbn [run_moves] in E. destruct (run_step mv st0) as [st1|] eqn:Es; [|done].
    eapply IH; [by eapply installed_step|done]. }
  eapply (H (InstallInt, p)); [done|exact E].
Qed.

(** ** After a signal *)

(** The steps, and the connections, that are still possible when [app->running] has
    been cleared. *)
Definition steps_left (at_ : run_at) : nat :=
  match at_ with TestRunning => 1 | Connected | InAccept => 2 | CallAccept => 3 | _ => 0 end.
Definition connections_left (at_ : run_at) : nat :=
  match at_ with CallAccept | InAccept => 1 | _ => 0 end.

Definition count_moves (mv : move) (mvs : list move) : nat :=
  length (List.filter (λ m, match m, mv with
                            | Step, Step | Connects, Connects => true
                            | _, _ => false
                            end) mvs).

(** In the loop, or out of it, with the flag cleared. *)
Definition stopping (st : run_at * process) : Prop :=
  (in_loop (fst st) = true ∨ fst st = Returned 0) ∧ ps_running (snd st) = false ∧
  ps_sigint (snd st) = SigHandler ∧ ps_sigterm (snd st) = SigHandler ∧
  ps_alive (snd st) = true ∧ ps_running_app (snd st) = true.

Lemma stopping_step mv st st' :
  stopping st → run_step mv st = Some st' →
  stopping st' ∧
  (count_moves Step [mv] + steps_left (fst st') ≤ steps_left (fst st))%nat ∧
  (count_moves Connects [mv] + connections_left (fst st') ≤ connections_left (fst st))%nat.
Proof.
  destruct st as [at_ [i t a r l]]. unfold stopping, run_step. cbn.
  intros (Hat & -> & -> & -> & -> & ->) E.
  unfold has_workers in E.
  destruct mv as [| | | | |[]|[]], at_, (1 <? workers); try done; cbn in E;
    try (injection E as <-; cbn; split_and!; first [done | lia | by left | by right]);
    by destruct Hat.
Qed.

Lemma count_moves_cons mv m mvs :
  count_moves mv (m :: mvs) = (count_moves mv [m] + count_moves mv mvs)%nat.
Proof. unfold count_moves. cbn [List.filter]. by destruct m, mv. Qed.

Lemma stopping_run mvs : ∀ st st',
  stopping st → run_moves mvs st = Some st' →
  stopping st' ∧ (count_moves Step mvs + steps_left (fst st') ≤ steps_left (fst st))%nat ∧
  (count_moves Connects mvs + connections_left (fst st') ≤ connections_left (fst st))%nat.
Proof.
  induction mvs as [|mv mvs IH]; intros st st' Hs E; cbn [run_moves] in E.
  { injection E as <-. split_and!; [done|cbn; lia|cbn; lia]. }
  destruct (run_step mv st) as [st1|] eqn:E1; [|done].
  destruct (stopping_step mv st st1 Hs E1) as (Hs1 & H1 & H2).
  destruct (IH st1 st' Hs1 E) as (Hs' & H3 & H4). split; [done|].
  rewrite (count_moves_cons Step mv mvs), (count_moves_cons Connects mv mvs). lia.
Qed.

(** Only [accept] waits. *)
Lemma stopping_goes_on st :
  stopping st → fst st = Returned 0 ∨ fst st = InAccept ∨ ∃ st', run_step Step st = Some st'.
Proof.
  destruct st as [at_ p]. unfold stopping, run_step. cbn. intros (Hat & _ & _ & _ & -> & _).
  destruct at_, Hat as [?|Hat]; try done; first [by left | by right; left | right; right; by eexists].
Qed.

(** The connections that are still accepted when a signal has been delivered here. *)
Definition still_accepts (mv : move) (at_ : run_at) : nat :=
  match mv, at_ with _, CallAccept | DeliveredToWorker _, InAccept => 1 | _, _ => 0 end.

Lemma delivered_stopping sig mv st st' :
  installed st → in_loop (fst st) = true → mv ∈ [Delivered sig; DeliveredToWorker sig] →
  run_step mv st = Some st' →
  stopping st' ∧ (steps_left (fst st') ≤ 3)%nat ∧
  (connections_left (fst st') ≤ still_accepts mv (fst st))%nat.
Proof.
  destruct st as [at_ [i t a r l]]. intros Hi Hin Hmv E.
  assert (i = SigHandler ∧ t = SigHandler ∧ l = true ∧ a = true) as (-> & -> & -> & ->) by by destruct at_.
  unfold run_step, has_workers, stopping in *. cbn [ps_alive fst snd] in *.
  rewrite !elem_of_cons, elem_of_nil in Hmv.
  destruct Hmv as [-> | [-> | []]], sig, at_, (1 <? workers); try done; cbn in E; injection E as <-;
    cbn; split_and!; first [done | lia | by left].
Qed.

Definition steps_to_running (at_ : run_at) : nat :=
  match at_ with SetApp => 3 | Listen => 2 | SetRunning => 1 | _ => 0 end.
End run.

(** ** Properties *)

(** C32: a signal stops the server: when SIGINT or SIGTERM is delivered in the accept
    loop of [mnet_run], the process survives and, whatever happens then, at most one
    more connection is accepted, and at most three more steps are made before the
    loop is left.  A signal that the thread of the loop receives while [accept]
    waits, or while a connection is served, lets no further connection in.  Until the
    loop is left, a next step is possible unless the thread waits in [accept]. *)
Theorem signal_stops (workers : Z) (sig : signal) (mv : move) (mvs : list move)
    (st st' : run_at * process) :
  reached workers st → in_loop (fst st) = true → mv ∈ [Delivered sig; DeliveredToWorker sig] →
  run_moves workers (mv :: mvs) st = Some st' →
  (count_moves Step mvs ≤ 3)%nat ∧
  (count_moves Connects mvs ≤ still_accepts mv (fst st))%nat ∧
  ps_alive (snd st') = true ∧ ps_running (snd st') = false ∧
  (fst st' = Returned 0 ∨ fst st' = InAccept ∨ ∃ st2, run_step workers Step st' = Some st2).
Proof.
  intros Hr Hin Hmv E. apply reached_installed in Hr. cbn [run_moves] in E.
  destruct (run_step workers mv st) as [st1|] eqn:E1; [|done].
  destruct (delivered_stopping _ _ _ _ _ Hr Hin Hmv E1) as (Hs & Hst & Hco).
  destruct (stopping_run _ _ _ _ Hs E) as (Hs' & Hsteps & Hconn).
  pose proof (stopping_goes_on workers _ Hs'). destruct Hs' as (_ & ? & _ & _ & ? & _).
  split_and!; [lia|lia|done..].
Qed.

Lemma signal_stops_witness :
  let st := (InAccept, MkProcess SigHandler SigHandler true true true) in
  let st' := (Returned 0, MkProcess SigHandler SigHandler true false true) in
  let mvs := [Connects; Step; Step] in
  (count_moves Step mvs ≤ 3)%nat ∧
  (count_moves Connects mvs ≤ still_accepts (DeliveredToWorker SIGTERM) (fst st))%nat ∧
  ps_alive (snd st') = true ∧ ps_running (snd st') = false ∧
  (fst st' = Returned 0 ∨ fst st' = InAccept ∨ ∃ st2, run_step 2 Step st' = Some st2).
Proof.
  apply (signal_stops 2 SIGTERM).
  - by exists (MkProcess SigDefault SigDefault false false true), (replicate 8 Step).
  - done.
  - set_solver.
  - done.
Defined.

(** a signal that arrives while the server is set up, after the handlers are
    installed and before [app->running] is set, has no effect: the handler either
    finds no application or clears a flag that is then set. *)
Theorem setup_signal_lost (workers : Z) (sig : signal) (at_ : run_at) (p : process) :
  reached workers (at_, p) → at_ ∈ [SetApp; Listen; SetRunning] →
  let rest := replicate (steps_to_running at_) Step in
  run_moves workers (Delivered sig :: rest) (at_, p) = run_moves workers rest (at_, p) ∧
  ∃ at' q, run_moves workers rest (at_, p) = Some (at', q) ∧
    at' ∈ [TestRunning; StartPool] ∧ ps_running q = true.
Proof.
  intros Hr Hin. apply reached_installed in Hr. destruct p as [i t a r l].
  rewrite !elem_of_cons, elem_of_nil in Hin.
  destruct sig, i, t, a, r, l, Hin as [-> | [-> | [-> | []]]]; cbn in Hr |- *; destruct_and? Hr;
    try done; (split; [done|]); eexists _, _; split_and!; try done; case_match; set_solver.
Qed.

Lemma setup_signal_lost_witness :
  let p := MkProcess SigHandler SigHandler true false true in
  let rest := replicate (steps_to_running Listen) Step in
  run_moves 1 (Delivered SIGINT :: rest) (Listen, p) = run_moves 1 rest (Listen, p) ∧
  ∃ at' q, run_moves 1 rest (Listen, p) = Some (at', q) ∧
    at' ∈ [TestRunning; StartPool] ∧ ps_running q = true.
Proof.
  apply (setup_signal_lost 1 SIGINT Listen).
  - by exists (MkProcess SigDefault SigDefault false false true), [Step; Step; Step].
  - set_solver.
Defined.

(** A signal that arrives between the test of the flag and the call of [accept] does
    not interrupt it: the server waits for one more connection, with the flag
    cleared. *)
Lemma signal_before_accept :
  let p := MkProcess SigHandler SigHandler true true true in
  run_moves 1 [Delivered SIGINT; Step] (CallAccept, p) = Some (InAccept, set_running false p) ∧
  run_moves 1 [Delivered SIGINT; Step; Connects; Step; Step] (CallAccept, p) =
    Some (Returned 0, set_running false p).
Proof. by split. Qed.

(** Nor does a signal that a worker receives while [accept] waits. *)
Lemma signal_to_worker :
  let p := MkProcess SigHandler SigHandler true true true in
  run_moves 2 [DeliveredToWorker SIGINT] (InAccept, p) = Some (InAccept, set_running false p) ∧
  run_moves 2 [DeliveredToWorker SIGINT; Connects; Step; Step] (InAccept, p) =
    Some (Returned 0, set_running false p).
Proof. by split. Qed.
