(* ===== verification/Client.v ===== *)
(** * The HTTP client

    [src/mnet_client.c]: [mnet_url_parse], [mnet_read_response], [mnet_call] and
    [mnet_call_async] ([mnet_socket_connect] is in [Net.v]). *)

From S2P Require Export Net Send.

(** ** URLs *)

(** The characters that end the host, and those that end the port. *)
Definition path_char (c : Z) : bool := ((c =? chSLASH) || (c =? chQMARK) || (c =? chHASH))%bool.
Definition host_end (c : Z) : bool := ((c =? chCOLON) || path_char c)%bool.

Definition skip_scheme (url : bytes) : bytes :=
  if strncmp_eq url (lit "https://") 8 then drop 8 url
  else if strncmp_eq url (lit "http://") 7 then drop 7 url
  else url.

(** [memcpy] of a string into a buffer of [size] bytes, cut to fit. *)
Definition copy_cut (size : nat) (s : bytes) : bytes :=
  let len := if (size <=? length s)%nat then (size - 1)%nat else length s in take len s.

(** The port at [port_start]; [path_start] is where the path begins. *)
Definition url_port (port_start : option bytes) (path_start : bytes) : Z :=
  match port_start with
  | None => 80
  | Some s =>
      if (length s =? length path_start)%nat then 80
      else
        let '(port, n) := strtol s in
        if (negb (n =? 0)%nat && (length s - n =? length path_start)%nat &&
            (0 <? port) && (port <? 65536))%bool
        then port else 80
  end.

(** The host, the port and the path. *)
Definition mnet_url_parse (url : option bytes) (host_size path_size : nat) :
    option (bytes * Z * bytes) :=
  match url with
  | None => None
  | Some url =>
      let p := skip_scheme url in
      let host := take_while (λ c, negb (host_end c)) p in
      let p := drop_while (λ c, negb (host_end c)) p in
      if (length host =? 0)%nat then None
      else
        let '(port_start, p) :=
          match p with
          | c :: p1 => if c =? chCOLON then (Some p1, drop_while (λ c, negb (path_char c)) p1)
                       else (None, p)
          | [] => (None, p)
          end in
        let path_start := match p with
                          | [] => p
                          | c :: _ => if path_char c then p else lit "/"
                          end in
        Some (copy_cut host_size host, url_port port_start path_start,
              copy_cut path_size path_start)
  end.

(** ** Reading a response *)

(** [atoi] of text that may be read up to its end but not beyond: undefined when
    the end is reached or the number is not an [int]. *)
Definition atoi (s : bytes) : option Z :=
  let s1 := drop_while isspace s in
  let '(neg, s2) :=
    match s1 with
    | c :: k => if c =? chMINUS then (true, k) else if c =? chPLUS then (false, k) else (false, s1)
    | [] => (false, [])
    end in
  match drop_while isdigit s2 with
  | [] => None
  | _ =>
      let v := if neg : bool then - dec_val (take_while isdigit s2)
               else dec_val (take_while isdigit s2) in
      if ((- 2 ^ 31 <=? v) && (v <? 2 ^ 31))%bool then Some v else None
  end.

(** [*out_status]; [None] when reading it is undefined. *)
Definition response_status (raw : bytes) : option Z :=
  if ((12 <=? length raw)%nat && strncmp_eq raw (lit "HTTP/") 5)%bool then
    match memchr raw chSP (length raw) with
    | Some sp => atoi (drop (sp + 1) raw)
    | None => Some 0
    end
  else Some 0.

(** The loop over [i] that looks for the first blank line. *)
Fixpoint body_offset (raw : bytes) : option nat :=
  match raw with
  | a :: ((b :: rest) as raw1) =>
      if ((a =? chCR) && (b =? chLF) && bool_decide (take 2 rest = CRLF))%bool then Some 4%nat
      else if ((a =? chLF) && (b =? chLF))%bool then Some 2%nat
      else S <$> body_offset raw1
  | _ => None
  end.

Definition RESPONSE_BUF : nat := Z.to_nat 8192.

(** [while (ncap < need) ncap *= 2] *)
Fixpoint grow_cap (fuel : nat) (ncap need : Z) : option Z :=
  if ncap <? need then
    match fuel with
    | O => None
    | S fuel => grow_cap fuel (wrap_size (ncap * 2)) need
    end
  else Some ncap.

Inductive recv_end :=
  | RecvPending           (* the loop has not ended *)
  | RecvNoMemory          (* [realloc] failed *)
  | RecvEnd (n : Z).      (* the last result of [mnet_recv] *)

Section client.
Context `{!Allocator, !OS, !Network, !Process}.

(** Make room for [need] bytes; [None] when there is no memory. *)
Definition grow_raw (raw : ptr) (raw_len : nat) (raw_cap need : Z) : M (option (ptr * Z)) :=
  if raw_cap <? need then
    match grow_cap 64 (if raw_cap =? 0 then 16384 else wrap_size (raw_cap * 2)) need with
    | None => ub
    | Some ncap =>
        old ← (match raw with None => mret [] | Some _ => load raw end);
        nb ← realloc raw (take raw_len old ++ replicate (Z.to_nat ncap - raw_len) 0);
        match nb with
        | None => free raw;; mret None
        | Some _ => mret (Some (nb, ncap))
        end
    end
  else mret (Some (raw, raw_cap)).

(** The receive loop of [mnet_read_response]; [n] is the last result. *)
Fixpoint recv_loop (fuel : nat) (n : Z) (raw : ptr) (raw_len : nat) (raw_cap cap : Z) :
    M (recv_end * ptr * nat) :=
  if Z.of_nat raw_len <? cap then
    match fuel with
    | O => mret (RecvPending, raw, raw_len)
    | S fuel =>
        r ← mnet_recv RESPONSE_BUF;
        match r with
        | None =>
            eintr ← sys nt_eintr;
            if eintr : bool then recv_loop fuel (-1) raw raw_len raw_cap cap
            else mret (RecvEnd (-1), raw, raw_len)
        | Some [] => mret (RecvEnd 0, raw, raw_len)
        | Some data =>
            g ← grow_raw raw raw_len raw_cap (Z.of_nat raw_len + Z.of_nat (length data));
            match g with
            | None => mret (RecvNoMemory, None, raw_len)
            | Some (raw, raw_cap) =>
                b ← load raw;
                (if (raw_len + length data <=? length b)%nat
                 then store raw (splice raw_len data b) else ub);;
                recv_loop fuel (Z.of_nat (length data)) raw (raw_len + length data) raw_cap cap
            end
        end
    end
  else mret (RecvEnd n, raw, raw_len).

(** The result, the body, its length and the status; [None] when the loop has not
    ended after [fuel] receptions. *)
Definition mnet_read_response (fuel : nat) (max_body : Z) : M (option (Z * (ptr * nat * Z))) :=
  '(e, raw, raw_len) ← recv_loop fuel 0 None 0 0 (wrap_size (max_body + Z.of_nat RESPONSE_BUF));
  match e with
  | RecvPending => mret None
  | RecvNoMemory => mret (Some (-1, (None, 0%nat, 0)))
  | RecvEnd n =>
      if n <? 0 then free raw;; mret (Some (-1, (None, 0%nat, 0)))
      else
        match raw with
        | None => mret (Some (-1, (None, 0%nat, 0)))
        | Some _ =>
            b ← load raw;
            let received := take raw_len b in
            status ← (match response_status received with Some s => mret s | None => ub end);
            let body_off := match body_offset received with Some i => i | None => raw_len end in
            let body_len := (raw_len - body_off)%nat in
            let body_len := if max_body <? Z.of_nat body_len then Z.to_nat max_body else body_len in
            body ← alloc (take body_len (drop body_off received) ++ [chNUL]);
            match body with
            | None => free raw;; mret (Some (-1, (None, 0%nat, status)))
            | Some _ => free raw;; mret (Some (0, (body, body_len, status)))
            end
        end
  end.

(** ** The call *)

Definition call_request (path host : bytes) : bytes :=
  lit "GET " ++ path ++ lit " HTTP/1.1" ++ CRLF ++
  lit "Host: " ++ host ++ CRLF ++
  lit "User-Agent: mnet/0.2.5" ++ CRLF ++
  lit "Accept: */*" ++ CRLF ++
  lit "Connection: close" ++ CRLF ++
  CRLF.

(** [None] when the response has not ended after [fuel] receptions. *)
Definition mnet_call (fuel : nat) (url : option bytes) : M (option ptr) :=
  match url with
  | None => mret (Some None)
  | Some url =>
      match mnet_url_parse (Some url) (Z.to_nat 1024) (Z.to_nat 2048) with
      | None => mret (Some None)
      | Some (host, port, path) =>
          sock ← mnet_socket_connect (Some host) port;
          if negb sock then mret (Some None)
          else
            _ ← sys nt_setsockopt;
            let '(req_len, req) := snprintf (Z.to_nat 4096) (call_request path host) in
            if ((req_len <? 0) || (4096 <=? req_len))%bool then
              mnet_close sock;; mret (Some None)
            else
              n ← mnet_send req;
              if n <? 0 then mnet_close sock;; mret (Some None)
              else
                r ← mnet_read_response fuel MNET_MAX_BODY_SIZE;
                match r with
                | None => mret None
                | Some (rc, (body, _, status)) =>
                    if negb (rc =? 0) then mnet_close sock;; mret (Some None)
                    else
                      mnet_close sock;;
                      if 400 <=? status then free body;; mret (Some None)
                      else mret (Some body)
                end
      end
  end.

(** [false] when the call has not ended. *)
Definition mnet_call_async (fuel : nat) (url : option bytes)
    (callback : option (ptr → M unit)) : M bool :=
  match url, callback with
  | Some _, Some callback =>
      r ← mnet_call fuel url;
      match r with
      | None => mret false
      | Some body => callback body;; free body;; mret true
      end
  | _, _ => mret true
  end.
End client.

(** ** What a peer says *)

Section heard.
Context `{!OS, !Network}.

(** The data that at most [fuel] receptions deliver from the [k]-th system call on,
    until the stream ends ([false]), a reception fails ([true]) or [room] bytes
    have come; [None] when none of these happens within [fuel] receptions. *)
Fixpoint heard (fuel k : nat) (room : Z) : option (bytes * bool) :=
  if room <=? 0 then Some ([], false)
  else
    match fuel with
    | O => None
    | S fuel =>
        match os_recv k RESPONSE_BUF with
        | None => if nt_eintr (k + 1) then heard fuel (k + 2) room else Some ([], true)
        | Some [] => Some ([], false)
        | Some data =>
            match heard fuel (k + 1) (room - Z.of_nat (length data)) with
            | Some (more, failed) => Some (data ++ more, failed)
            | None => None
            end
        end
    end.

(** Once no call is interrupted any more, every reception ends the loop or takes
    room away. *)
Lemma heard_ends K fuel : ∀ k room,
  (∀ j, (K ≤ j)%nat → nt_eintr j = false) →
  (Z.to_nat room + (K - k) ≤ fuel)%nat → heard fuel k room ≠ None.
Proof.
  induction fuel as [|fuel IH]; intros k room HK Hf; cbn [heard].
  - case_test; bool_prop; [done|lia].
  - case_test; bool_prop; [done|]. destruct (os_recv k RESPONSE_BUF) as [[|c d]|]; [done| |].
    + set (data := c :: d). assert (0 < length data)%nat by (unfold data; simpl; lia).
      specialize (IH (k + 1)%nat (room - Z.of_nat (length data)) HK ltac:(lia)).
      by destruct (heard _ _ _) as [[]|].
    + destruct (nt_eintr (k + 1)) eqn:E; [|done].
      destruct (decide (K ≤ k + 1)%nat) as [Hle|Hlt]; [by rewrite HK in E|].
      apply IH; [done|lia].
Qed.
End heard.

(** ** The receive loop *)

Lemma grow_cap_spec fuel : ∀ ncap need,
  0 < ncap → need <= 2 ^ 62 → need <= ncap * 2 ^ Z.of_nat fuel →
  ∃ c, grow_cap fuel ncap need = Some c ∧ need <= c.
Proof.
  induction fuel as [|fuel IH]; intros ncap need Hn Hneed Hf; cbn [grow_cap].
  - case_test; bool_prop; [lia|by eexists].
  - case_test; bool_prop; [|by eexists]. rewrite wrap_size_small by (unfold size_mod; lia).
    apply IH; [lia|done|]. rewrite Nat2Z.inj_succ, Z.pow_succ_r in Hf by lia. lia.
Qed.

(** The buffer [raw] of [raw_cap] bytes that starts with [pre]. *)
Definition raw_at (raw : ptr) (raw_cap : Z) (pre : bytes) (bs : list (loc * bytes)) : Prop :=
  match raw with
  | None => bs = [] ∧ pre = [] ∧ raw_cap = 0
  | Some l => ∃ k, bs = [(l, pre ++ k)] ∧ Z.of_nat (length (pre ++ k)) = raw_cap ∧ pre ≠ []
  end.

Section recv_proofs.
Context `{!Allocator, !OS, !Network}.

Lemma grow_raw_spec w0 w raw raw_cap pre bs R need :
  owns w0 w (bs ++ R) → raw_at raw raw_cap pre bs →
  Z.of_nat (length pre) < need <= 2 ^ 62 →
  wp (grow_raw raw (length pre) raw_cap need)
    (λ g w', (g = None ∧ alloc_failure ∧ owns w0 w' R) ∨
       ∃ l cap k, g = Some (Some l, cap) ∧ owns w0 w' ((l, pre ++ k) :: R) ∧
         Z.of_nat (length (pre ++ k)) = cap ∧ need <= cap) w.
Proof.
  intros Ho Hraw Hneed. unfold grow_raw. case_test; bool_prop.
  2:{ apply wp_ret. right. destruct raw as [l|]; cbn [raw_at] in Hraw.
      - destruct Hraw as (k & -> & Hlen & _). by exists l, raw_cap, k.
      - destruct Hraw as (_ & _ & ->). lia. }
  assert (0 <= raw_cap) as Hpos by (destruct raw; [destruct Hraw as (k & _ & <- & _)|destruct Hraw as (_ & _ & ->)]; lia).
  set (start := if raw_cap =? 0 then 16384 else wrap_size (raw_cap * 2)).
  assert (0 < start) as Hstart.
  { unfold start. case_test; bool_prop; [lia|]. rewrite wrap_size_small by (unfold size_mod; lia). lia. }
  destruct (grow_cap_spec 64 start need Hstart ltac:(lia) ltac:(lia)) as (ncap & -> & Hn).
  apply wp_bind.
  apply (wp_mono _ (λ old w', take (length pre) old = pre ∧ owns w0 w' (bs ++ R) )).
  { destruct raw as [l|]; cbn [raw_at] in Hraw.
    - destruct Hraw as (k & -> & _). eapply wp_load; [exact Ho|by left|].
      split; [by rewrite take_app_length|done].
    - destruct Hraw as (-> & -> & _). by apply wp_ret. }
  intros old w1 [Eold Ho1]. rewrite Eold. apply wp_bind.
  set (k := replicate (Z.to_nat ncap - length pre) 0).
  assert (Z.of_nat (length (pre ++ k)) = ncap) as Hlen.
  { unfold k. rewrite length_app, length_replicate. lia. }
  assert (∀ w', alloc_failure → owns w0 w' (bs ++ R) →
    wp (free raw;; mret (@None (ptr * Z)))
      (λ g w', (g = None ∧ alloc_failure ∧ owns w0 w' R) ∨
         ∃ l cap k, g = Some (Some l, cap) ∧ owns w0 w' ((l, pre ++ k) :: R) ∧
           Z.of_nat (length (pre ++ k)) = cap ∧ need <= cap) w') as Hfail.
  { intros w' Hf Ho'. destruct raw as [l|]; cbn [raw_at] in Hraw.
    - destruct Hraw as (k' & -> & _). apply wp_bind. eapply (wp_free _ _ R _ _ (pre ++ k')); [exact Ho'|done|].
      intros w2 Ho2.
      apply wp_ret. by left.
    - destruct Hraw as (-> & _). apply wp_bind, wp_free_null, wp_ret. by left. }
  eapply (wp_realloc _ _ R _ raw (match bs with (_, b) :: _ => b | [] => [] end)); [exact Ho1| | |].
  - destruct raw; [by destruct Hraw as (k' & -> & _)|by destruct Hraw as (-> & _)].
  - intros w2 Hf Ho2. by apply Hfail.
  - intros l w2 Ho2. apply wp_ret. right. exists l, ncap, k. by split_and!.
Qed.

(** The loop stores what it hears behind what it has. *)
Definition recv_post (w0 : world) (R : list (loc * bytes)) (pre : bytes)
    (h : option (bytes * bool)) (res : recv_end * ptr * nat) (w' : world) : Prop :=
  let '(e, raw, len) := res in
  ∃ n chunks bs, owns (io w0 n (EvRecv <$> chunks)) w' (bs ++ R) ∧
    ((e = RecvNoMemory ∧ alloc_failure ∧ bs = []) ∨
     match h with
     | None => e = RecvPending
     | Some (data, failed) =>
         (∃ m, e = RecvEnd m ∧ (m < 0 ↔ failed = true)) ∧
         len = length (pre ++ data) ∧ ∃ cap, raw_at raw cap (pre ++ data) bs
     end).

Lemma recv_post_later w0 R pre n chunks data h res w :
  recv_post (io w0 n (EvRecv <$> chunks)) R (pre ++ data) h res w →
  recv_post w0 R pre
    (match h with Some (more, failed) => Some (data ++ more, failed) | None => None end) res w.
Proof.
  destruct res as [[e raw] len]. intros (n2 & chunks2 & bs & Ho & Hres).
  rewrite io_io, <-fmap_app in Ho. exists (n + n2)%nat, (chunks ++ chunks2), bs.
  split; [exact Ho|]. destruct Hres as [?|Hres]; [by left|right].
  destruct h as [[more failed]|]; [|done]. by rewrite (assoc_L app pre).
Qed.

Lemma recv_loop_spec fuel : ∀ w0 w n raw pre raw_cap cap bs R,
  owns w0 w (bs ++ R) → raw_at raw raw_cap pre bs → cap <= 2 ^ 61 →
  (n < 0 → Z.of_nat (length pre) < cap) →
  wp (recv_loop fuel n raw (length pre) raw_cap cap)
    (recv_post w0 R pre (heard fuel (w_calls w0) (cap - Z.of_nat (length pre)))) w.
Proof.
  induction fuel as [|fuel IH]; intros w0 w n raw pre raw_cap cap bs R Ho Hraw Hcap Hn;
    cbn [recv_loop heard]; (destruct (Z.of_nat (length pre) <? cap) eqn:Hlt; bool_prop;
    [rewrite (proj2 (Z.leb_gt _ _)) by lia|rewrite (proj2 (Z.leb_le _ _)) by lia]).
  1:{ apply wp_ret. exists 0%nat, [], bs. rewrite io_nil. split; [exact Ho|by right]. }
  1,3: apply wp_ret; exists 0%nat, [], bs; rewrite io_nil; split; [exact Ho|right];
      rewrite app_nil_r; split; [exists n; split; [done|split; [lia|done]]|split; [done|by exists raw_cap]].
  assert (∀ m, (m < 0 ↔ m = -1) → ∀ w' k chunks, owns (io w0 k (EvRecv <$> chunks)) w' (bs ++ R) →
    wp (mret (RecvEnd m, raw, length pre))
      (recv_post w0 R pre (Some ([], bool_decide (m = -1)))) w') as Hend.
  { intros m Hm w' k chunks Ho'. apply wp_ret. exists k, chunks, bs. split; [exact Ho'|right].
    rewrite app_nil_r. split; [|split; [done|by exists raw_cap]]. exists m.
    split; [done|]. by rewrite bool_decide_eq_true. }
  apply wp_bind. eapply wp_recv_at; [|exact Ho|]; [done|]. intros r w1 Er Ho1 _ Hrl. rewrite <-Er.
  destruct r as [[|c d]|]; cbn [default from_option id recv_events] in *.
  - by apply (Hend 0 ltac:(lia) w1 1%nat [[]]).
  - set (data := c :: d) in *. clear Hend.
    assert (Z.of_nat (length data) <= 8192) by (unfold RESPONSE_BUF in Hrl; lia).
    assert (0 < Z.of_nat (length data)) by (unfold data; simpl; lia).
    apply wp_bind. eapply wp_mono; [eapply grow_raw_spec; [exact Ho1|exact Hraw|lia]|].
    intros g w2 [(-> & Hf & Ho2)|(l & ncap & k & -> & Ho2 & Hk & Hneed)].
    { apply wp_ret. exists 1%nat, [data], []. split; [exact Ho2|by left]. }
    apply wp_bind. eapply wp_load; [exact Ho2|by left|].
    rewrite (proj2 (Nat.leb_le _ _)) by lia.
    apply wp_bind. eapply wp_store; [exact Ho2|done| |].
    { rewrite length_splice; [done|lia]. }
    intros w3 Ho3. rewrite <-length_app.
    eapply wp_mono; [eapply (IH _ _ _ _ (pre ++ data) ncap cap [_] R Ho3); [|done|lia]|].
    + exists (drop (length data) k). split; [|split; [|by destruct pre]].
      * unfold splice. rewrite take_app_length, drop_app_ge by lia. rewrite <-(assoc_L app).
        repeat f_equal. lia.
      * rewrite !length_app, length_drop in *. lia.
    + intros res w4 Hres. apply (recv_post_later _ _ _ 1%nat [data]) in Hres.
      unfold io in Hres. cbn [w_calls] in Hres. rewrite length_app, Nat2Z.inj_add in Hres.
      by rewrite Z.sub_add_distr in Hres.
  - apply wp_bind. eapply wp_sys_at; [exact Ho1|]. intros w2 Ho2. rewrite io_io in Ho2.
    change (w_calls (io w0 1 [])) with (w_calls w0 + 1)%nat.
    destruct (nt_eintr (w_calls w0 + 1)).
    + eapply wp_mono; [eapply (IH _ _ _ _ pre _ cap _ R Ho2); [done|done|lia]|].
      intros res w3 Hres. destruct res as [[e raw'] len].
      destruct Hres as (n3 & chunks & bs' & Ho3 & Hres). rewrite io_io in Ho3.
      exists (1 + 1 + n3)%nat, chunks, bs'. split; [exact Ho3|exact Hres].
    + by apply (Hend (-1) ltac:(lia) w2 2%nat []).
Qed.
End recv_proofs.

(** ** The response *)

(** What follows the first blank line, cut to [max_body] bytes. *)
Definition response_body (max_body : Z) (data : bytes) : bytes :=
  take (Z.to_nat max_body)
    (drop (match body_offset data with Some i => i | None => length data end) data).

Section response_proofs.
Context `{!Allocator, !OS, !Network}.

(** What [mnet_read_response] makes of what it heard. *)
Definition read_outcome (max_body : Z) (h : option (bytes * bool))
    (res : option (Z * (ptr * nat * Z))) (bs : list (loc * bytes)) : Prop :=
  (∃ s, res = Some (-1, (None, 0%nat, s)) ∧ bs = [] ∧
     (alloc_failure ∨ ∃ data failed, h = Some (data, failed) ∧ (failed = true ∨ data = []))) ∨
  match h with
  | None => res = None
  | Some (data, failed) =>
      let body := response_body max_body data in
      failed = false ∧ data ≠ [] ∧ ∃ l s, response_status data = Some s ∧
        res = Some (0, (Some l, length body, s)) ∧ bs = [(l, body ++ [0])]
  end.

(** The part of [mnet_read_response] after a complete reception. *)
Lemma parse_response_spec w0 w R l k data max_body n chunks :
  owns (io w0 n (EvRecv <$> chunks)) w ((l, data ++ k) :: R) → data ≠ [] →
  response_status data ≠ None → 0 <= max_body →
  wp (b ← load (Some l);
      let received := take (length data) b in
      status ← (match response_status received with Some s => mret s | None => ub end);
      let body_off := match body_offset received with Some i => i | None => length data end in
      let body_len := (length data - body_off)%nat in
      let body_len := if max_body <? Z.of_nat body_len then Z.to_nat max_body else body_len in
      body ← alloc (take body_len (drop body_off received) ++ [chNUL]);
      match body with
      | None => free (Some l);; mret (Some (-1, (None, 0%nat, status)))
      | Some _ => free (Some l);; mret (Some (0, (body, body_len, status)))
      end)
    (λ res w', ∃ bs, owns (io w0 n (EvRecv <$> chunks)) w' (bs ++ R) ∧
       read_outcome max_body (Some (data, false)) res bs) w.
Proof.
  intros Ho Hne Hs Hmax. apply wp_bind. eapply wp_load; [exact Ho|by left|]. cbn zeta.
  rewrite take_app_length. destruct (response_status data) as [s|] eqn:Es; [|done].
  apply wp_bind, wp_ret. set (off := match body_offset data with Some i => i | None => _ end).
  set (body_len := if max_body <? _ then _ else _).
  assert (take body_len (drop off data) = response_body max_body data ∧
          body_len = length (response_body max_body data)) as [Eb El].
  { unfold response_body, body_len. fold off. rewrite length_take, length_drop.
    case_test; bool_prop; [split; [done|lia]|]. split; [|lia].
    rewrite !take_ge; [done|rewrite length_drop; lia..]. }
  rewrite Eb, El. apply wp_bind. eapply wp_alloc; [exact Ho| |].
  - intros w1 Hf Ho1. apply wp_bind. eapply wp_free; [exact Ho1|done|]. intros w2 Ho2.
    apply wp_ret. exists []. split; [exact Ho2|]. left. exists s. split_and!; [done|done|by left].
  - intros l2 w1 Ho1. apply wp_bind.
    eapply (wp_free _ _ ((l2, response_body max_body data ++ [chNUL]) :: R));
      [exact Ho1|apply Permutation_swap|].
    intros w2 Ho2. apply wp_ret. eexists [_]. split; [exact Ho2|]. right.
    split_and!; [done|done|]. by exists l2, s.
Qed.

Lemma read_response_spec w0 w R fuel max_body :
  owns w0 w R → 0 <= max_body <= 2 ^ 60 →
  (∀ data, heard fuel (w_calls w0) (max_body + 8192) = Some (data, false) →
     response_status data ≠ None) →
  wp (mnet_read_response fuel max_body)
    (λ res w', ∃ n chunks bs, owns (io w0 n (EvRecv <$> chunks)) w' (bs ++ R) ∧
       read_outcome max_body (heard fuel (w_calls w0) (max_body + 8192)) res bs) w.
Proof.
  intros Ho Hmax Hst. unfold mnet_read_response. change (Z.of_nat RESPONSE_BUF) with 8192.
  rewrite wrap_size_small by (unfold size_mod; lia).
  apply wp_bind. eapply wp_mono.
  { apply (recv_loop_spec fuel w0 w 0 None [] 0 (max_body + 8192) [] R);
      [exact Ho|done|lia|done]. }
  cbn [length Z.of_nat]. rewrite Z.sub_0_r. intros [[e raw] len] w1 (n & chunks & bs & Ho1 & Hres).
  destruct Hres as [(-> & Hf & ->)|Hres].
  { apply wp_ret. exists n, chunks, []. split; [exact Ho1|]. left. exists 0.
    split_and!; [done..|by left]. }
  destruct (heard fuel (w_calls w0) (max_body + 8192)) as [[data failed]|] eqn:Eh.
  2:{ subst e. apply wp_ret. exists n, chunks, bs. split; [exact Ho1|by right]. }
  destruct Hres as ((m & -> & Hm) & -> & cap & Hraw). cbn [app] in *.
  destruct (m <? 0) eqn:Em; bool_prop.
  - assert (failed = true) as -> by (by apply Hm).
    assert (wp (free raw) (λ _ w', owns (io w0 n (EvRecv <$> chunks)) w' R) w1) as Hfree.
    { destruct raw as [l|]; cbn [raw_at] in Hraw.
      - destruct Hraw as (k & -> & _). by eapply (wp_free _ _ R _ _ (data ++ k)); [exact Ho1|..].
      - destruct Hraw as (-> & _). by apply wp_free_null. }
    apply wp_bind. eapply wp_mono; [exact Hfree|]. intros [] w2 Ho2. apply wp_ret.
    exists n, chunks, []. split; [exact Ho2|]. left. exists 0. split_and!; [done..|].
    right. exists data, true. split; [done|by left].
  - assert (failed = false) as -> by (destruct failed; [|done]; exfalso; apply Zle_not_lt in Em; by apply Em, Hm).
    destruct raw as [l|]; cbn [raw_at] in Hraw.
    + destruct Hraw as (k & -> & _ & Hne). eapply wp_mono.
      { eapply (parse_response_spec w0 w1 R l k data max_body); [exact Ho1|done| |lia]. by apply Hst. }
      intros res w2 (bs2 & Ho2 & Hres). by exists n, chunks, bs2.
    + destruct Hraw as (-> & -> & _). apply wp_ret. exists n, chunks, []. split; [exact Ho1|].
      left. exists 0. split_and!; [done..|]. right. exists [], false. split; [done|by right].
Qed.
End response_proofs.

(** ** What a URL names *)

Lemma copy_cut_fits size s : (length s < size)%nat → copy_cut size s = s.
Proof. intros Hs. unfold copy_cut. rewrite (proj2 (Nat.leb_gt _ _)) by done. by apply take_ge. Qed.

Lemma length_copy_cut size s : (0 < size)%nat → (length (copy_cut size s) < size)%nat.
Proof. intros Hs. unfold copy_cut. rewrite length_take. case_test; bool_prop; lia. Qed.

Lemma url_port_range s p : 0 < url_port s p < 65536.
Proof.
  unfold url_port. destruct s as [s|]; [|lia]. case_test; [lia|].
  destruct (strtol s) as [port n]. case_test; bool_prop; lia.
Qed.

Lemma url_parse_range url hs ps host port path :
  mnet_url_parse url hs ps = Some (host, port, path) → (0 < hs)%nat → (0 < ps)%nat →
  (length host < hs)%nat ∧ (length path < ps)%nat ∧ 0 < port < 65536.
Proof.
  unfold mnet_url_parse. destruct url as [url|]; [|done]. case_test; [done|].
  destruct (match drop_while _ _ with [] => _ | _ => _ end) as [port_start p].
  intros [= <- <- <-] Hh Hp. split; [by apply length_copy_cut|].
  split; [by apply length_copy_cut|apply url_port_range].
Qed.

(** The scheme, the authority and the rest of a URL, put together. *)
Definition url_text (scheme host : bytes) (port : option Z) (path : bytes) : bytes :=
  scheme ++ host ++ (match port with Some p => chCOLON :: print_nat p | None => [] end) ++ path.

Definition host_ok (host : bytes) : Prop :=
  host ≠ [] ∧ Forall (λ c, host_end c = false) host.

Definition path_ok (path : bytes) : Prop :=
  match path with [] => True | c :: _ => path_char c = true end.

Lemma digits_not_path n : 0 <= n → Forall (λ c, negb (path_char c) = true) (print_nat n).
Proof.
  intros Hn. eapply Forall_impl; [by apply print_nat_digits|]. intros c Hc. cbv beta in Hc.
  unfold isdigit in Hc. unfold path_char. bool_prop. by repeat case_test; lia.
Qed.

(** [strtol] on digits followed by something else. *)
Lemma strtol_digits n rest :
  0 <= n <= long_max → (∀ c, head rest = Some c → isdigit c = false) →
  strtol (print_nat n ++ rest) = (n, length (print_nat n)).
Proof.
  intros Hn Hrest. pose proof (print_nat_digits n ltac:(lia)) as Hd.
  pose proof (dec_val_print n ltac:(lia)) as Hv.
  destruct (print_nat n) as [|c ds] eqn:E; [by destruct (print_nat_nonempty n ltac:(lia))|].
  assert (isdigit c = true) as Hc by (by apply Forall_cons in Hd as [? _]).
  assert (48 <= c <= 57) as Hr by (unfold isdigit in Hc; bool_prop; lia).
  unfold strtol. cbn [app drop_while].
  assert (isspace c = false) as -> by (unfold isspace; lia).
  rewrite (proj2 (Z.eqb_neq c chMINUS)), (proj2 (Z.eqb_neq c chPLUS)) by lia.
  change (c :: ds ++ rest) with ((c :: ds) ++ rest).
  destruct (take_while_app isdigit (c :: ds) rest Hd Hrest) as [-> _].
  rewrite Hv. f_equal; [|lia]. unfold long_min, long_max in *. lia.
Qed.

Lemma path_char_digit c : path_char c = true → isdigit c = false.
Proof. unfold path_char, isdigit. intros. lia. Qed.

Lemma skip_scheme_text scheme host port path :
  scheme ∈ [[]; lit "http://"; lit "https://"] → host_ok host → path_ok path →
  match port with Some p => 0 <= p | None => True end →
  skip_scheme (url_text scheme host port path) = url_text [] host port path.
Proof.
  intros Hs [Hne Hh] Hp Hport. unfold skip_scheme, url_text, strncmp_eq.
  set (tail := (match port with Some p => _ | None => [] end) ++ path).
  repeat (apply elem_of_cons in Hs as [->|Hs]); [| | |by apply elem_of_nil in Hs].
  2:{ rewrite bool_decide_false; [|by intros [=]]. by rewrite bool_decide_true. }
  2:{ by rewrite bool_decide_true. }
  (* without a scheme, the first colon follows the whole host *)
  assert (∀ pre, Forall (λ c, host_end c = false) pre →
            take (length pre + 3) (host ++ tail) ≠ pre ++ [chCOLON; chSLASH; chSLASH]) as Hno.
  { intros pre Hpre E.
    assert (host ++ tail = (pre ++ [chCOLON; chSLASH; chSLASH]) ++ drop (length pre + 3) (host ++ tail)) as E2.
    { by rewrite <-E, take_drop. }
    assert (∀ l k, Forall (λ c, host_end c = false) l → (∀ c, head k = Some c → host_end c = true) →
              take_while (λ c, negb (host_end c)) (l ++ k) = l ∧
              drop_while (λ c, negb (host_end c)) (l ++ k) = k) as Hcut.
    { intros l k Hl Hk. apply take_while_app.
      - eapply Forall_impl; [exact Hl|]. intros c Hc. cbv beta in *. by rewrite Hc.
      - intros c Hc. by rewrite (Hk c). }
    destruct (Hcut host tail Hh) as [_ Ht].
    { intros c. unfold tail. destruct port as [p|]; [by intros [= <-]|].
      destruct path as [|x path]; [done|]. intros [= ->]. cbn in Hp. unfold host_end.
      by rewrite Hp, orb_true_r. }
    rewrite E2, <-(assoc_L app) in Ht.
    edestruct (Hcut pre) as [_ Ht2]; [done| |rewrite Ht2 in Ht]; [by intros c [= <-]|].
    unfold tail in Ht. destruct port as [p|].
    - destruct (print_nat p) as [|c ds] eqn:Ec; [by destruct (print_nat_nonempty p)|].
      pose proof (print_nat_digits p Hport) as Hd. rewrite Ec in Hd.
      cbn in Ht. injection Ht as <- _. by apply Forall_cons in Hd as [? _].
    - cbn in Ht. destruct path as [|x path]; [done|]. injection Ht as <- _. done. }
  rewrite !bool_decide_false; [done| |].
  - apply (Hno (lit "http")). by repeat constructor.
  - apply (Hno (lit "https")). by repeat constructor.
Qed.

Lemma url_parse_text scheme host port path hs ps :
  scheme ∈ [[]; lit "http://"; lit "https://"] → host_ok host → path_ok path →
  match port with Some p => 0 < p < 65536 | None => True end →
  mnet_url_parse (Some (url_text scheme host port path)) hs ps =
    Some (copy_cut hs host, default 80 port, copy_cut ps path).
Proof.
  intros Hs Hh Hp Hport. unfold mnet_url_parse.
  assert (match port with Some p => 0 <= p | None => True end) as Hp0 by (destruct port; [lia|done]).
  rewrite skip_scheme_text by done.
  destruct Hh as [Hne Hh]. unfold url_text. cbn [app].
  set (tail := (match port with Some p => _ | None => [] end) ++ path).
  destruct (take_while_app (λ c, negb (host_end c)) host tail) as [-> ->].
  { eapply Forall_impl; [exact Hh|]. intros c Hc. cbv beta in *. by rewrite Hc. }
  { intros c. unfold tail. destruct port as [p|]; [by intros [= <-]|].
    destruct path as [|x path]; [done|]. intros [= ->]. cbn in Hp. unfold host_end.
    by rewrite Hp, orb_true_r. }
  rewrite (proj2 (Nat.eqb_neq _ _)) by (by destruct host).
  assert (match path with [] => path | c :: _ => if path_char c then path else lit "/" end = path)
    as Epath by (destruct path as [|c path]; [done|cbn in Hp; by rewrite Hp]).
  unfold tail. destruct port as [p|]; cbn [app].
  - rewrite Z.eqb_refl.
    destruct (take_while_app (λ c, negb (path_char c)) (print_nat p) path) as [_ ->].
    { by apply digits_not_path; lia. }
    { intros c. destruct path as [|x path]; [done|]. intros [= ->]. cbn in Hp. by rewrite Hp. }
    cbv beta iota. rewrite Epath. do 2 f_equal. unfold url_port, default. f_equal.
    rewrite length_app. pose proof (print_nat_nonempty p ltac:(lia)) as Hn.
    destruct (print_nat p) as [|c ds] eqn:E; [done|]. rewrite <-E in *.
    assert (0 < length (print_nat p))%nat by (rewrite E; simpl; lia).
    rewrite (proj2 (Nat.eqb_neq _ _)) by lia. rewrite strtol_digits.
    + rewrite (proj2 (Nat.eqb_neq _ 0)) by lia. cbn [negb andb].
      rewrite (proj2 (Nat.eqb_eq _ _)) by lia. cbn [andb].
      by rewrite (proj2 (Z.ltb_lt _ _)), (proj2 (Z.ltb_lt _ _)) by lia.
    + unfold long_max. lia.
    + intros x Hx. destruct path as [|y path]; [done|]. injection Hx as ->.
      by apply path_char_digit.
  - destruct path as [|c path]; [done|]. cbn in Hp.
    assert (c =? chCOLON = false) as ->
      by (unfold path_char in Hp; destruct (c =? chCOLON) eqn:E; [bool_prop; subst; done|done]).
    cbv beta iota. by rewrite Epath.
Qed.

(** ** The call *)

Section call_proofs.
Context `{!Allocator, !OS, !Network, !Process}.

(** Whatever it hears, the status line of the peer ends within what was received
    and its number is an [int]. *)
Definition peer_defined : Prop :=
  ∀ fuel k data, heard fuel k (MNET_MAX_BODY_SIZE + 8192) = Some (data, false) →
    response_status data ≠ None.

(** What a call for [path] at [host] and [port] does to the outside. *)
Definition call_event (host : bytes) (port : Z) (path : bytes) (e : event) : Prop :=
  match e with
  | EvResolve h s => h = Some host ∧ s = print_nat port
  | EvSend d => d = call_request path host
  | EvRecv _ | EvSocket | EvHangup => True
  | _ => False
  end.

(** The result of a call that ended: nothing, or the body of a response. *)
Definition call_result (p : ptr) (bs : list (loc * bytes)) : Prop :=
  match p with
  | None => bs = []
  | Some l => ∃ fuel k data s, heard fuel k (MNET_MAX_BODY_SIZE + 8192) = Some (data, false) ∧
      response_status data = Some s ∧ s < 400 ∧
      bs = [(l, response_body MNET_MAX_BODY_SIZE data ++ [0])]
  end.

Definition call_post (w0 : world) (R : list (loc * bytes)) (fuel : nat) (url : option bytes)
    (res : option ptr) (w' : world) : Prop :=
  ∃ n evs bs, owns (io w0 n evs) w' (bs ++ R) ∧
    match mnet_url_parse url (Z.to_nat 1024) (Z.to_nat 2048) with
    | None => evs = []
    | Some (host, port, path) => Forall (call_event host port path) evs
    end ∧
    match res with
    | None => ∃ k, heard fuel k (MNET_MAX_BODY_SIZE + 8192) = None
    | Some p => open_sockets evs = 0 ∧ call_result p bs
    end.

Lemma call_request_length path host :
  (length path < Z.to_nat 2048)%nat → (length host < Z.to_nat 1024)%nat →
  Z.of_nat (length (call_request path host)) < 4096.
Proof.
  intros Hp Hh. unfold call_request. rewrite !length_app.
  change (length (lit "GET ")) with 4%nat. change (length (lit " HTTP/1.1")) with 9%nat.
  change (length (lit "Host: ")) with 6%nat. change (length CRLF) with 2%nat.
  change (length (lit "User-Agent: mnet/0.2.5")) with 22%nat.
  change (length (lit "Accept: */*")) with 11%nat.
  change (length (lit "Connection: close")) with 17%nat. lia.
Qed.

Lemma socket_call_event host port path evs :
  Forall socket_event evs → Forall (call_event host port path) evs.
Proof. intros H'. eapply Forall_impl; [exact H'|]. by intros e [->| ->]. Qed.

Lemma recv_call_event host port path chunks :
  Forall (call_event host port path) (EvRecv <$> chunks).
Proof. by apply Forall_fmap, Forall_true. Qed.

(** Giving up: the socket is closed and there is no result. *)
Lemma call_fail_spec w0 w R fuel url n evs :
  owns (io w0 n evs) w R → open_sockets evs = 1 →
  match mnet_url_parse url (Z.to_nat 1024) (Z.to_nat 2048) with
  | None => False
  | Some (host, port, path) => Forall (call_event host port path) evs
  end →
  wp (mnet_close true;; mret (Some (@None loc))) (call_post w0 R fuel url) w.
Proof.
  intros Ho Hs Hev. apply wp_bind. eapply wp_close; [exact Ho|]. intros n2 w2 Ho2.
  rewrite io_io in Ho2. apply wp_ret. eexists _, _, []. split; [exact Ho2|].
  destruct (mnet_url_parse _ _ _) as [[[host port] path]|]; [|done].
  split; [by apply Forall_app; split; [|repeat constructor]|]. split; [sockets|done].
Qed.

Lemma mnet_call_spec w0 w R fuel url :
  owns w0 w R → peer_defined → wp (mnet_call fuel url) (call_post w0 R fuel url) w.
Proof.
  intros Ho Hpeer. unfold mnet_call.
  destruct url as [url|]; [|by apply wp_ret; exists 0%nat, [], []; rewrite io_nil].
  destruct (mnet_url_parse (Some url) (Z.to_nat 1024) (Z.to_nat 2048)) as [[[host port] path]|] eqn:Eu.
  2:{ apply wp_ret. exists 0%nat, [], []. rewrite io_nil, Eu. done. }
  destruct (url_parse_range _ _ _ _ _ _ Eu ltac:(lia) ltac:(lia)) as (Hhost & Hpath & Hport).
  pose proof (call_request_length path host Hpath Hhost) as Hreq.
  apply wp_bind. eapply wp_mono; [by eapply socket_connect_spec; [exact Ho|lia]|].
  intros sock w1 (n1 & evs1 & Ho1 & Es1 & Hev1).
  set (evs1' := EvResolve (Some host) (print_nat port) :: evs1) in *.
  assert (Forall (call_event host port path) evs1') as Hc1
    by (by constructor; [|apply socket_call_event]).
  assert (open_sockets evs1' = Z.b2z sock) as Es1'
    by (change (open_sockets evs1 + 0 = Z.b2z sock); lia).
  clearbody evs1'.
  destruct sock; cbn [negb Z.b2z] in *.
  2:{ apply wp_ret. exists n1, evs1', []. split; [exact Ho1|]. by rewrite Eu. }
  apply wp_bind. eapply wp_sys; [exact Ho1|]. intros _ w2 Ho2. rewrite io_io, app_nil_r in Ho2.
  unfold snprintf. rewrite (take_ge (call_request path host)) by lia.
  rewrite (proj2 (Z.ltb_ge _ _)), (proj2 (Z.leb_gt _ _)) by lia. cbn [orb].
  apply wp_bind. eapply wp_send; [exact Ho2|]. intros m w3 Ho3. rewrite io_io in Ho3.
  set (evs3 := evs1' ++ [EvSend (call_request path host)]) in *.
  assert (Forall (call_event host port path) evs3 ∧ open_sockets evs3 = 1) as [Hc3 Es3].
  { split; [by apply Forall_app; split; [|repeat constructor]|unfold evs3; sockets]. }
  clearbody evs3. case_test; [by eapply call_fail_spec; [exact Ho3|done|rewrite Eu]|].
  apply wp_bind. eapply wp_mono.
  { eapply (read_response_spec _ _ _ fuel MNET_MAX_BODY_SIZE); [exact Ho3| |intros data; apply Hpeer].
    unfold MNET_MAX_BODY_SIZE. lia. }
  intros res w4 (n4 & chunks & bs & Ho4 & Hres). rewrite io_io in Ho4.
  set (evs4 := evs3 ++ (EvRecv <$> chunks)) in *.
  assert (Forall (call_event host port path) evs4 ∧ open_sockets evs4 = 1) as [Hc4 Es4].
  { split; [by apply Forall_app; split; [|apply recv_call_event]|unfold evs4; sockets]. }
  clearbody evs4. destruct Hres as [(s & -> & -> & _)|Hres].
  { cbn [Z.eqb negb]. by eapply call_fail_spec; [exact Ho4|done|rewrite Eu]. }
  destruct (heard fuel _ _) as [[data failed]|] eqn:Eh.
  2:{ subst res. apply wp_ret. eexists _, evs4, bs. split; [exact Ho4|]. rewrite Eu.
      split; [done|by eexists]. }
  destruct Hres as (-> & Hne & l & s & Es & -> & ->). cbn [Z.eqb negb].
  apply wp_bind. eapply wp_close; [exact Ho4|]. intros n5 w5 Ho5. rewrite io_io in Ho5.
  case_test; bool_prop.
  - apply wp_bind. eapply (wp_free _ _ R _ _ (response_body MNET_MAX_BODY_SIZE data ++ [0])); [exact Ho5|done|]. intros w6 Ho6. apply wp_ret.
    eexists _, _, []. split; [exact Ho6|]. rewrite Eu.
    split; [by apply Forall_app; split; [|repeat constructor]|]. split; [sockets|done].
  - apply wp_ret. eexists _, _, [_]. split; [exact Ho5|]. rewrite Eu.
    split; [by apply Forall_app; split; [|repeat constructor]|]. split; [sockets|].
    by eexists fuel, _, data, s.
Qed.
End call_proofs.

(** ** Reading what the server sends *)

(** Text without CR and LF. *)
Definition clean (s : bytes) : Prop := Forall (λ c, c ≠ chCR ∧ c ≠ chLF) s.

Lemma body_offset_cons a b rest :
  body_offset (a :: b :: rest) =
    if ((a =? chCR) && (b =? chLF) && bool_decide (take 2 rest = CRLF))%bool then Some 4%nat
    else if ((a =? chLF) && (b =? chLF))%bool then Some 2%nat
    else S <$> body_offset (b :: rest).
Proof. done. Qed.

Lemma body_offset_clean l k :
  clean l → k ≠ [] → body_offset (l ++ k) = Nat.add (length l) <$> body_offset k.
Proof.
  intros Hl Hk. induction Hl as [|c l [Hcr Hlf] Hl IH]; cbn [app length].
  - by destruct (body_offset k).
  - destruct (l ++ k) as [|b rest] eqn:E; [by apply app_nil in E as [_ ?]|].
    rewrite body_offset_cons, (proj2 (Z.eqb_neq c chCR)), (proj2 (Z.eqb_neq c chLF)) by done.
    cbn [andb]. rewrite IH. by destruct (body_offset k).
Qed.

Lemma body_offset_line k :
  k ≠ [] → (∀ c, head k = Some c → c ≠ chCR ∧ c ≠ chLF) →
  body_offset (CRLF ++ k) = Nat.add 2 <$> body_offset k.
Proof.
  intros Hk Hc. destruct k as [|c k]; [done|]. destruct (Hc c eq_refl) as [Hcr Hlf].
  change (CRLF ++ c :: k) with (chCR :: chLF :: c :: k). rewrite !body_offset_cons. cbn [Z.eqb Pos.eqb andb].
  rewrite bool_decide_false by (by destruct k; intros [= ->]).
  rewrite (proj2 (Z.eqb_neq c chLF)) by done. cbn [andb].
  by destruct (body_offset (c :: k)).
Qed.

(** The body starts right after the block of lines. *)
Lemma body_offset_block ls rest :
  ls ≠ [] → Forall (λ l, clean l ∧ l ≠ []) ls →
  body_offset (block_of ls ++ rest) = Some (length (block_of ls)).
Proof.
  intros Hne Hls. unfold block_of. induction Hls as [|l ls [Hl Hl0] Hls IH]; [done|].
  rewrite fmap_cons. cbn [concat]. rewrite <-!(assoc_L app), body_offset_clean by done.
  destruct ls as [|l2 ls].
  - cbn [fmap list_fmap concat app]. change (CRLF ++ CRLF ++ rest) with (chCR :: chLF :: chCR :: chLF :: rest).
    rewrite body_offset_cons. cbn [Z.eqb Pos.eqb andb take]. rewrite bool_decide_true by done.
    cbn. by rewrite !length_app.
  - set (k := concat _ ++ CRLF ++ rest) in *.
    assert (∀ c, head k = Some c → c ≠ chCR ∧ c ≠ chLF) as Hhead.
    { apply Forall_cons in Hls as [[Hl2 Hl20] _]. destruct l2 as [|x l2]; [done|].
      intros c. unfold k. rewrite fmap_cons. cbn. intros [= <-]. by apply Forall_cons in Hl2 as [? _]. }
    rewrite body_offset_line; [|by unfold k; destruct l2|done].
    rewrite <-(assoc_L app) in IH. fold k in IH. rewrite IH by done. cbn.
    rewrite !length_app. cbn [length]. rewrite !length_app. change (length CRLF) with 2%nat. (f_equal; lia).
Qed.

Lemma atoi_digits n c rest :
  0 <= n < 2 ^ 31 → isdigit c = false → atoi (print_nat n ++ c :: rest) = Some n.
Proof.
  intros Hn Hrest. pose proof (print_nat_digits n ltac:(lia)) as Hd.
  pose proof (dec_val_print n ltac:(lia)) as Hv.
  destruct (print_nat n) as [|d ds] eqn:E; [by destruct (print_nat_nonempty n ltac:(lia))|].
  assert (isdigit d = true) as Hc by (by apply Forall_cons in Hd as [? _]).
  assert (48 <= d <= 57) as Hr by (unfold isdigit in Hc; bool_prop; lia).
  unfold atoi. cbn [app drop_while].
  assert (isspace d = false) as -> by (unfold isspace; lia).
  rewrite (proj2 (Z.eqb_neq d chMINUS)), (proj2 (Z.eqb_neq d chPLUS)) by lia.
  change (d :: ds ++ c :: rest) with ((d :: ds) ++ c :: rest).
  destruct (take_while_app isdigit (d :: ds) (c :: rest) Hd) as [-> ->]; [by intros x [= <-]|].
  rewrite Hv. by rewrite (proj2 (Z.leb_le _ _)), (proj2 (Z.ltb_lt _ _)) by lia.
Qed.

(** The status line of the server gives its status back. *)
Lemma response_status_line n text rest :
  0 <= n < 2 ^ 31 → (2 ≤ length (text ++ rest))%nat →
  response_status (lit "HTTP/1.1 " ++ print_int n ++ lit " " ++ text ++ rest) = Some n.
Proof.
  intros Hn Hlen. unfold print_int. rewrite (proj2 (Z.ltb_ge _ _)) by lia.
  pose proof (print_nat_nonempty n ltac:(lia)) as Hne.
  unfold response_status. rewrite (proj2 (Nat.leb_le _ _)).
  2:{ rewrite !length_app in *. change (length (lit "HTTP/1.1 ")) with 9%nat.
      change (length (lit " ")) with 1%nat. destruct (print_nat n); [done|]. cbn [length]. lia. }
  unfold strncmp_eq. rewrite bool_decide_true by done. cbn [andb].
  set (k := print_nat n ++ lit " " ++ text ++ rest).
  assert (memchr (lit "HTTP/1.1 " ++ k) chSP (length (lit "HTTP/1.1 " ++ k)) = Some 8%nat) as -> by done.
  change (drop (8 + 1) (lit "HTTP/1.1 " ++ k)) with k. unfold k. by apply atoi_digits.
Qed.

Lemma clean_app s k : clean (s ++ k) ↔ clean s ∧ clean k.
Proof. apply Forall_app. Qed.

Lemma lit_clean s : forallb (λ c, negb (c =? chCR) && negb (c =? chLF))%bool (lit s) = true → clean (lit s).
Proof.
  rewrite Forall_forallb. intros H. eapply Forall_impl; [exact H|].
  intros c Hc. cbv beta in Hc. by bool_prop.
Qed.

Lemma plain_clean s : Forall plain_char s → clean s.
Proof. intros H. eapply Forall_impl; [exact H|]. unfold plain_char. cbv beta. lia. Qed.

Lemma response_lines_clean r ka :
  mnet_header_value_valid (Some (default_type r)) = true →
  Forall (λ l, clean l ∧ l ≠ []) (response_lines r ka).
Proof.
  intros Hv. unfold response_lines.
  assert (clean (default_type r)) as Ht.
  { apply header_value_valid_Forall in Hv. eapply Forall_impl; [exact Hv|].
    unfold header_value_char. cbv beta. lia. }
  assert (clean (connection_text ka)) by (destruct ka; by apply lit_clean).
  assert (clean (status_text (rs_status r)))
    by (unfold status_text; repeat case_test; apply lit_clean; reflexivity).
  assert (clean (print_int (rs_status r))) by apply plain_clean, print_int_plain.
  assert (clean (print_nat (Z.of_nat (rs_body_length r)))) by (apply plain_clean, print_nat_plain; lia).
  repeat apply Forall_cons_2; [..|by constructor]; try (destruct (rs_chunked r));
    (split; [|done]); rewrite ?clean_app; split_and?; try done; by apply lit_clean.
Qed.

(** What the client makes of a response that is sent in one piece. *)
Lemma response_sends_body r ka body max_body :
  mnet_header_value_valid (Some (default_type r)) = true → rs_chunked r = false →
  (has_body r = true ∨ body = []) → (length body ≤ Z.to_nat max_body)%nat →
  0 <= rs_status r < 2 ^ 31 →
  let data := concat (response_sends r false ka body) in
  data ≠ [] ∧ response_body max_body data = body ∧ response_status data = Some (rs_status r).
Proof.
  intros Hv Hch Hb Hlen Hst data.
  assert (data = response_header r (default_type r) ka ++ body) as ->.
  { unfold data, response_sends. rewrite Hch. destruct (has_body r); cbn [concat]; rewrite app_nil_r; [done|].
    destruct Hb as [?| ->]; [done|]. by rewrite app_nil_r. }
  split_and!.
  - rewrite response_header_lines. intros E. by apply app_nil in E as [[_ ?]%app_nil _].
  - unfold response_body. rewrite response_header_lines.
    change (concat _ ++ CRLF) with (block_of (response_lines r ka)).
    rewrite body_offset_block; [|by destruct r|by apply response_lines_clean].
    rewrite drop_app_length. by apply take_ge.
  - unfold response_header. rewrite Hch, <-!(assoc_L app). apply response_status_line; [done|].
    rewrite !length_app. change (length CRLF) with 2%nat. lia.
Qed.

(** What [mnet_read_response] makes of the bytes of a response. *)
Lemma client_reads_sent (mem : Allocator) (client : OS) (net : Network) (r : mnet_response_t)
    (ka : bool) (body : bytes) (max_body : Z) (fuel : nat) (v : world) :
  mnet_header_value_valid (Some (default_type r)) = true → rs_chunked r = false →
  (has_body r = true ∨ body = []) → 0 <= rs_status r < 2 ^ 31 →
  Z.of_nat (length body) <= max_body <= 2 ^ 60 → wf_world v →
  heard (H := client) (H0 := net) fuel (w_calls v) (max_body + 8192) =
    Some (concat (response_sends r false ka body), false) →
  wp (mnet_read_response (H := mem) (H0 := client) (H1 := net) fuel max_body)
    (λ res v', (alloc_failure (H := mem) ∧ w_heap v' = w_heap v) ∨
       ∃ l, res = Some (0, (Some l, length body, rs_status r)) ∧
         w_heap v' = <[l := body ++ [0]]> (w_heap v)) v.
Proof.
  intros Hv Hch Hhas Hst Hmax Hwv Eh.
  destruct (response_sends_body r ka body max_body Hv Hch Hhas ltac:(lia) Hst) as (Hne & Ebody & Est).
  set (data := concat _) in *. clearbody data.
  eapply wp_mono; [eapply (read_response_spec v v []); [by apply owns_refl|lia|]|].
  - intros data' E. rewrite Eh in E. injection E as <-. by rewrite Est.
  - intros res v' (m & chunks & bs & Ho' & Hres). rewrite Eh, app_nil_r in *.
    destruct Hres as [(s & -> & -> & Hf)|(_ & _ & l & s & Es & -> & ->)].
    + left. split; [|by apply owns_nil_heap in Ho'].
      destruct Hf as [Hf|(data' & failed & [= <- <-] & [?|?])]; [exact Hf|done|done].
    + right. exists l. rewrite Est in Es. injection Es as <-. rewrite Ebody in *. split; [done|].
      rewrite (owns_heap _ _ _ Ho'). cbn [list_to_map foldr fmap]. by rewrite <-insert_union_l, (left_id_L ∅ (∪)).
Qed.

(** ** Properties *)

(** the client reads what the server sends: whatever [send_response] puts on
    the wire for a response sent in one piece, delivered to the client in any
    chunks until the end of the stream, [mnet_read_response] returns the status
    of the response and its body, unless one of the two sides is out of memory. *)
Theorem client_reads_server (mem : Allocator) (server client : OS) (net : Network)
    (r : mnet_response_t) (ka : bool) (body : bytes) (max_body : Z) (w : world) :
  wf_world w → body_at w r body → rs_chunked r = false → 0 <= rs_status r < 2 ^ 31 →
  Z.of_nat (length body) <= max_body <= 2 ^ 60 →
  wp (send_response (H := mem) (H0 := server) r false ka)
    (λ _ w1, ∃ sent, w_trace w1 = w_trace w ++ (EvSend <$> sent) ∧
       (sent = [] ∧ unsendable (H := mem) r ka ∨
        ∀ fuel v, wf_world v →
          heard (H := client) (H0 := net) fuel (w_calls v) (max_body + 8192) = Some (concat sent, false) →
          wp (mnet_read_response (H := mem) (H0 := client) (H1 := net) fuel max_body)
            (λ res v', (alloc_failure (H := mem) ∧ w_heap v' = w_heap v) ∨
               ∃ l, res = Some (0, (Some l, length body, rs_status r)) ∧
                 w_heap v' = <[l := body ++ [0]]> (w_heap v)) v)) w.
Proof.
  intros Hwf Hb Hch Hst Hmax. eapply send_response_spec; [by apply owns_refl|by left|by rewrite Hch|].
  intros sent n w1 Ho Hs. exists sent. split; [by apply owns_trace in Ho|].
  destruct Hs as [Hs|[Hv ->]]; [by left|right]. intros fuel v Hwv Eh.
  assert (has_body r = true ∨ body = []) as Hhas.
  { destruct Hb as [Hlen Hb]. destruct body as [|c body]; [by right|left].
    destruct (Hb ltac:(done)) as (l & k & El & _). unfold has_body. rewrite El, <-Hlen. done. }
  by apply (client_reads_sent mem client net r ka).
Qed.

(** The events a call adds to the trace and what it leaves to its caller. *)
Definition call_leaves `{!OS, !Network} (url : option bytes) (w : world) (res : option ptr)
    (w' : world) : Prop :=
  ∃ evs, w_trace w' = w_trace w ++ evs ∧
    match mnet_url_parse url (Z.to_nat 1024) (Z.to_nat 2048) with
    | None => evs = []
    | Some (host, port, path) => Forall (call_event host port path) evs
    end ∧
    match res with
    | None => True
    | Some None => open_sockets evs = 0 ∧ w_heap w' = w_heap w
    | Some (Some l) => open_sockets evs = 0 ∧
        ∃ fuel k data s, heard fuel k (MNET_MAX_BODY_SIZE + 8192) = Some (data, false) ∧
          response_status data = Some s ∧ s < 400 ∧ w_heap w !! l = None ∧
          w_heap w' = <[l := response_body MNET_MAX_BODY_SIZE data ++ [0]]> (w_heap w)
    end.


(** a call ends: when the system stops interrupting receptions at some point,
    [mnet_call] returns after finitely many of them, however slowly and in
    whatever pieces the peer sends, because the response is read up to a fixed
    number of bytes. *)
Theorem mnet_call_ends `{!Allocator, !OS, !Network} (K fuel : nat) (url : option bytes) (w : world) :
  wf_world w → peer_defined → (∀ j, (K ≤ j)%nat → nt_eintr j = false) →
  (Z.to_nat (MNET_MAX_BODY_SIZE + 8192) + K ≤ fuel)%nat →
  wp (mnet_call fuel url) (λ res _, res ≠ None) w.
Proof.
  intros Hwf Hpeer HK Hfuel. eapply wp_mono; [eapply (mnet_call_spec w w []); [by apply owns_refl|done]|].
  intros res w' (n & evs & bs & Ho & Hev & Hres) ->. destruct Hres as [k Hk]. revert Hk.
  apply (heard_ends K); [done|]. set (room := Z.to_nat _) in *. lia.
Qed.

(** an asynchronous call frees the body: whatever the callback does with the
    body it is given, as long as it releases what it acquires, once
    [mnet_call_async] returns the heap is what it was and no socket is open. *)
Theorem call_async_released `{!Allocator, !OS, !Network} (fuel : nat) (url : option bytes)
    (callback : option (ptr → M unit)) (w : world) :
  wf_world w → peer_defined →
  (∀ f, callback = Some f → ∀ p v, wf_world v → wp (f p) (λ _ v', held v v' []) v) →
  wp (mnet_call_async fuel url callback) (λ ended w', ended = true → released w w') w.
Proof.
  intros Hwf Hpeer Hcb. unfold mnet_call_async.
  assert (released w w) as Hrefl by (by apply held_released, held_owns, owns_refl).
  destruct url as [url|]; [|by apply wp_ret]. destruct callback as [f|]; [|by apply wp_ret].
  apply wp_bind. eapply wp_mono; [eapply (mnet_call_spec w w []); [by apply owns_refl|done]|].
  intros res w1 (n & evs & bs & Ho & Hev & Hres). rewrite app_nil_r in Ho.
  destruct res as [p|]; [|by apply wp_ret]. destruct Hres as [Es Hres].
  apply wp_bind. eapply wp_mono; [apply (Hcb f eq_refl); by apply owns_wf_world in Ho|].
  intros [] w2 Hh. pose proof (held_trans _ _ _ _ _ (held_io _ _ _ _ _ Ho Es) Hh) as (n2 & evs2 & Ho2 & Es2).
  apply wp_bind. destruct p as [l|]; cbn [call_result] in Hres.
  - destruct Hres as (fuel' & k & data & s & _ & _ & _ & Ebs). rewrite Ebs in Ho2.
    eapply (wp_free _ _ [] _ _ (response_body MNET_MAX_BODY_SIZE data ++ [0])); [exact Ho2|done|].
    intros w3 Ho3. apply wp_ret. intros _.
    by eapply held_released, held_io.
  - rewrite Hres in Ho2. apply wp_free_null, wp_ret. intros _. by eapply held_released, held_io.
Qed.

(** [mnet_url_parse] takes a URL apart: for a URL put together from an
    optional scheme, a host, an optional port and a path, it gives the host, the
    port (80 without one) and the path back, when they fit their buffers. *)
Theorem url_parse_correct (scheme host : bytes) (port : option Z) (path : bytes) (hs ps : nat) :
  scheme ∈ [[]; lit "http://"; lit "https://"] → host_ok host → path_ok path →
  match port with Some p => 0 < p < 65536 | None => True end →
  (length host < hs)%nat → (length path < ps)%nat →
  mnet_url_parse (Some (url_text scheme host port path)) hs ps = Some (host, default 80 port, path).
Proof. intros. by rewrite url_parse_text, !copy_cut_fits. Qed.

(** ** Examples *)

Definition demo_reply : bytes :=
  lit "HTTP/1.1 200 OK" ++ CRLF ++ lit "Content-Length: 2" ++ CRLF ++ CRLF ++ lit "hi".

(** A system on which every other reception delivers [demo_reply] and the rest
    end the stream. *)
Program Definition reply_os : OS := {|
  os_clock _ := 0;
  os_poll _ _ := 1;
  os_recv k n := if Nat.odd k then Some (take n demo_reply) else Some [];
  os_send _ d := Z.of_nat (length d);
|}.
Next Obligation.
  intros k n bs. cbn. case_match; intros [= <-]; [|done]. apply Forall_take.
  unfold demo_reply. rewrite !Forall_app. split_and!; try apply lit_bytes; by repeat constructor.
Qed.
Next Obligation.
  intros k n bs. cbn. case_match; intros [= <-]; [|simpl; lia]. rewrite length_take. lia.
Qed.

Lemma heard_reply fuel k room data failed :
  heard (H := reply_os) (H0 := demo_network) fuel k room = Some (data, failed) →
  data = [] ∨ data = demo_reply.
Proof.
  assert (∀ fuel k room data, Nat.odd k = false →
    heard (H := reply_os) (H0 := demo_network) fuel k room = Some (data, failed) → data = []) as Heven.
  { intros f j r d Hj. destruct f; cbn [heard os_recv reply_os]; case_test; try done; try by intros [= <-].
    rewrite Hj. by intros [= <-]. }
  destruct (Nat.odd k) eqn:Hk; [|intros E; left; by eapply Heven].
  destruct fuel as [|fuel]; cbn [heard os_recv reply_os]; case_test; try done; [by intros [= <-]; left..|].
  rewrite Hk. rewrite take_ge by (vm_compute; lia).
  assert (∃ c d, demo_reply = c :: d) as (c & d & ->) by (by eexists _, _).
  destruct (heard fuel (k + 1) _) as [[more f]|] eqn:E; [|done]. intros [= <- <-]. right.
  apply Heven in E as ->; [by rewrite app_nil_r|]. by rewrite Nat.add_1_r, Nat.odd_succ, <-Nat.negb_odd, Hk.
Qed.

Lemma reply_defined : peer_defined (H0 := reply_os) (H1 := demo_network).
Proof. intros fuel k data E. apply heard_reply in E as [->| ->]; by vm_compute. Qed.


Lemma mnet_call_ends_witness :
  wp (mnet_call (H := all_ok) (H0 := reply_os) (H1 := demo_network)
        (Z.to_nat (MNET_MAX_BODY_SIZE + 8192) + 0) (Some (lit "http://example.com/")))
    (λ res _, res ≠ None) empty_world.
Proof.
  apply (mnet_call_ends (H := all_ok) (H0 := reply_os) (H1 := demo_network) 0).
  - apply empty_world_wf.
  - apply reply_defined.
  - done.
  - apply Nat.le_refl.
Defined.

(** The callback of the example writes the body to the standard error. *)
Definition print_body (p : ptr) : M unit :=
  match p with None => mret () | Some _ => fprintf_stderr (lit "body") end.

Lemma call_async_released_witness :
  wp (mnet_call_async (H := all_ok) (H0 := reply_os) (H1 := demo_network) 10
        (Some (lit "http://example.com/")) (Some print_body))
    (λ ended w', ended = true → released empty_world w') empty_world.
Proof.
  apply (call_async_released (H := all_ok) (H0 := reply_os) (H1 := demo_network)).
  - apply empty_world_wf.
  - apply reply_defined.
  - intros f [= <-] [l|] v Hv; unfold print_body.
    + eapply wp_stderr; [by apply owns_refl|]. intros w' Ho. by eapply held_io.
    + by apply wp_ret, held_owns, owns_refl.
Defined.

Lemma client_reads_server_witness :
  let r := MkResponse 404 (Some (lit "text/plain")) (Some 0%nat) 2 false in
  let w := World 1 {[0%nat := lit "no" ++ [0]]} 0 [] in
  wp (send_response (H := all_ok) (H0 := silent_os) r false true)
    (λ _ w1, ∃ sent, w_trace w1 = w_trace w ++ (EvSend <$> sent) ∧
       (sent = [] ∧ unsendable (H := all_ok) r true ∨
        ∀ fuel v, wf_world v →
          heard (H := reply_os) (H0 := demo_network) fuel (w_calls v) (1000 + 8192) =
            Some (concat sent, false) →
          wp (mnet_read_response (H := all_ok) (H0 := reply_os) (H1 := demo_network) fuel 1000)
            (λ res v', (alloc_failure (H := all_ok) ∧ w_heap v' = w_heap v) ∨
               ∃ l, res = Some (0, (Some l, length (lit "no"), rs_status r)) ∧
                 w_heap v' = <[l := lit "no" ++ [0]]> (w_heap v)) v)) w.
Proof.
  apply (client_reads_server all_ok silent_os reply_os demo_network).
  - intros l Hl. simpl in *. apply lookup_singleton_None. lia.
  - split; [done|]. intros _. by exists 0%nat, [0].
  - done.
  - done.
  - by vm_compute.
Defined.

Lemma url_parse_correct_witness :
  mnet_url_parse (Some (url_text (lit "https://") (lit "example.com") (Some 8443) (lit "/a?b=c")))
    1024 2048 = Some (lit "example.com", 8443, lit "/a?b=c").
Proof.
  apply (url_parse_correct _ _ (Some 8443)).
  - right. right. left.
  - split; [done|]. by repeat constructor.
  - done.
  - done.
  - vm_compute. lia.
  - vm_compute. lia.
Defined.

(** The status number is read with [atoi] from a buffer that ends where the data
    ends: a response that stops right after the number is read past its end. *)
Lemma status_overread : response_status (lit "HTTP/1.1 200") = None.
Proof. reflexivity. Qed.

(** A URL without a path gives an empty path, and so the request line has none;
    the server takes the version for the target. *)
Lemma url_without_path :
  mnet_url_parse (Some (lit "http://example.com")) 1024 2048 = Some (lit "example.com", 80, []) ∧
  take 13 (call_request [] (lit "example.com")) = lit "GET  HTTP/1.1".
Proof. by split; vm_compute. Qed.

(** The body of a chunked response is returned with its chunk sizes. *)
Lemma chunked_not_decoded :
  response_body 1000
    (lit "HTTP/1.1 200 OK" ++ CRLF ++ lit "Transfer-Encoding: chunked" ++ CRLF ++ CRLF ++
     lit "2" ++ CRLF ++ lit "hi" ++ CRLF ++ lit "0" ++ CRLF ++ CRLF) =
  lit "2" ++ CRLF ++ lit "hi" ++ CRLF ++ lit "0" ++ CRLF ++ CRLF.
Proof. by vm_compute. Qed.
