(* ===== verification/Wire.v ===== *)
(** * Requests on the wire

    The request a client writes and the request [parse_request] reads: printing
    a method, a target, header fields and a body, and parsing the text, gives
    them back.  [mnet_call] writes such a request. *)

From S2P Require Export Parse Client.

Definition method_text (m : mnet_http_method_t) : bytes :=
  match m with
  | MNET_HTTP_GET => lit "GET"
  | MNET_HTTP_POST => lit "POST"
  | MNET_HTTP_PUT => lit "PUT"
  | MNET_HTTP_PATCH => lit "PATCH"
  | MNET_HTTP_DELETE => lit "DELETE"
  | MNET_HTTP_HEAD => lit "HEAD"
  | MNET_HTTP_OPTIONS => lit "OPTIONS"
  end.

Definition request_line_text (m : mnet_http_method_t) (target : bytes) : bytes :=
  method_text m ++ lit " " ++ target ++ lit " HTTP/1.1".

Definition header_line (f : bytes * bytes) : bytes := fst f ++ lit ": " ++ snd f.

(** The lines of a request up to the blank line. *)
Definition request_lines (m : mnet_http_method_t) (target : bytes) (hs : list (bytes * bytes)) :
    list bytes := request_line_text m target :: (header_line <$> hs).

Definition print_request (m : mnet_http_method_t) (target : bytes) (hs : list (bytes * bytes)) :
    bytes := block_of (request_lines m target hs).

(** ** Blocks of lines *)

(** A line of a header block. *)
Definition line_ok (l : bytes) : Prop := clean l ∧ Forall (λ c, c ≠ 0) l ∧ l ≠ [].

Lemma block_of_cons l ls : block_of (l :: ls) = l ++ CRLF ++ block_of ls.
Proof. unfold block_of. rewrite fmap_cons. cbn [concat]. by rewrite <-!(assoc_L app). Qed.

Lemma block_of_nul_free ls : Forall line_ok ls → Forall (λ c, c ≠ 0) (block_of ls).
Proof.
  intros Hls. induction Hls as [|l ls (_ & Hn & _) _ IH]; [by repeat constructor|].
  rewrite block_of_cons. apply Forall_app. split; [done|]. by repeat constructor.
Qed.

Lemma cstr_app s k : Forall (λ c, c ≠ 0) s → cstr (s ++ k) = s ++ cstr k.
Proof.
  intros Hs. induction Hs as [|c s Hc Hs IH]; [done|]. cbn [app].
  unfold cstr in *. cbn [take_while]. unfold not_nul at 1.
  rewrite (proj2 (Z.eqb_neq _ _)) by done. cbn [negb]. by rewrite IH.
Qed.

Lemma find_sub_clean l k :
  clean l → find_sub Z.eqb CRLFCRLF (l ++ k) = Nat.add (length l) <$> find_sub Z.eqb CRLFCRLF k.
Proof.
  intros Hl. induction Hl as [|c l [Hcr Hlf] Hl IH]; cbn [app length].
  - by destruct (find_sub Z.eqb CRLFCRLF k).
  - cbn [find_sub]. assert (starts_with Z.eqb CRLFCRLF (c :: l ++ k) = false) as ->.
    { unfold CRLFCRLF. cbn [starts_with]. by rewrite (proj2 (Z.eqb_neq _ _)) by done. }
    rewrite IH. by destruct (find_sub Z.eqb CRLFCRLF k).
Qed.

Lemma find_sub_line c k :
  c ≠ chCR → find_sub Z.eqb CRLFCRLF (CRLF ++ c :: k) =
             Nat.add 2 <$> find_sub Z.eqb CRLFCRLF (c :: k).
Proof.
  intros Hc. change (CRLF ++ c :: k) with (chCR :: chLF :: c :: k). cbn [find_sub].
  assert (starts_with Z.eqb CRLFCRLF (chCR :: chLF :: c :: k) = false) as ->.
  { unfold CRLFCRLF. cbn [starts_with]. rewrite !Z.eqb_refl. cbn [andb].
    by rewrite (proj2 (Z.eqb_neq _ _)) by done. }
  assert (starts_with Z.eqb CRLFCRLF (chLF :: c :: k) = false) as -> by done.
  destruct (if starts_with Z.eqb CRLFCRLF (c :: k) then Some 0%nat else _); done.
Qed.

Lemma find_sub_block ls rest :
  ls ≠ [] → Forall line_ok ls →
  find_sub Z.eqb CRLFCRLF (block_of ls ++ rest) = Some (length (block_of ls) - 4)%nat.
Proof.
  intros Hne Hls. induction Hls as [|l ls (Hl & _ & Hl0) Hls IH]; [done|].
  rewrite block_of_cons, <-!(assoc_L app), find_sub_clean by done. destruct ls as [|l2 ls].
  - change (CRLF ++ block_of [] ++ rest) with (chCR :: chLF :: chCR :: chLF :: rest).
    cbn [find_sub starts_with]. unfold CRLFCRLF. cbn [starts_with]. rewrite !Z.eqb_refl. cbn.
    rewrite !length_app. cbn. f_equal. lia.
  - apply Forall_cons in Hls as [(Hl2 & _ & Hl20) Hls]. specialize (IH ltac:(done)).
    assert (4 ≤ length (block_of (l2 :: ls)))%nat as H4.
    { rewrite block_of_cons, !length_app. unfold block_of. rewrite length_app. cbn. lia. }
    destruct (block_of (l2 :: ls) ++ rest) as [|c k] eqn:E.
    { apply app_nil in E as [E _]. by rewrite E in H4. }
    assert (c ≠ chCR) as Hc.
    { destruct l2 as [|x l2]; [done|]. rewrite block_of_cons in E. injection E as <- _.
      by apply Forall_cons in Hl2 as [[? _] _]. }
    rewrite find_sub_line, IH by done. cbn [fmap option_fmap option_map]. rewrite !length_app.
    change (length CRLF) with 2%nat. f_equal. lia.
Qed.

(** The header section ends at the blank line. *)
Lemma end_of_block ls rest :
  ls ≠ [] → Forall line_ok ls →
  end_of_headers (block_of ls ++ rest) = Some ((length (block_of ls) - 4)%nat, 4%nat).
Proof.
  intros Hne Hls. unfold end_of_headers, strstr.
  rewrite cstr_app by (by apply block_of_nul_free). by rewrite find_sub_block.
Qed.

(** ** Lines that start with a name *)

Fixpoint line_hits (name : bytes) (off : nat) (ls : list bytes) : list nat :=
  match ls with
  | [] => []
  | l :: ls => (if starts_with eqc_case name l then [off] else []) ++
               line_hits name (off + length l + 2) ls
  end.

Lemma tolower_cr c : tolower c = tolower chCR → c = chCR.
Proof. unfold tolower. repeat case_test; lia. Qed.

Lemma starts_with_line name l k :
  clean name → starts_with eqc_case name (l ++ CRLF ++ k) = starts_with eqc_case name l.
Proof.
  intros Hn. revert l. induction Hn as [|x name [Hcr _] Hn IH]; intros [|y l]; try done.
  - change ([] ++ CRLF ++ k) with (chCR :: chLF :: k). cbn [starts_with].
    unfold eqc_case at 1. rewrite (proj2 (Z.eqb_neq _ _)); [done|].
    intros E. by apply tolower_cr in E.
  - cbn [app starts_with]. by rewrite IH.
Qed.

(** A line starts right behind [pre]. *)
Definition at_line_start (pre : bytes) : Prop := pre = [] ∨ ∃ p, pre = p ++ [chLF].

Lemma line_initial_start pre k : at_line_start pre → line_initial (pre ++ k) (length pre) = true.
Proof.
  unfold line_initial. intros [->|[p ->]]; [done|]. apply orb_true_iff. right.
  apply bool_decide_eq_true. rewrite length_app, Nat.add_sub, <-(assoc_L app).
  by rewrite lookup_app_r, Nat.sub_diag by lia.
Qed.

Lemma no_hit_in_line name pre l k j :
  clean l → (length pre < j < length pre + length l + 2)%nat →
  ¬ hit (pre ++ l ++ CRLF ++ k) name j.
Proof.
  intros Hl Hj [Hli _]. unfold line_initial in Hli. rewrite (proj2 (Nat.eqb_neq _ _)) in Hli by lia.
  cbn [orb] in Hli. apply bool_decide_eq_true in Hli.
  rewrite lookup_app_r in Hli by lia.
  destruct (decide (j - 1 - length pre < length l)%nat) as [Hlt|Hge].
  - rewrite lookup_app_l in Hli by done. unfold clean in Hl. rewrite Forall_lookup in Hl.
    by destruct (Hl _ _ Hli).
  - rewrite lookup_app_r in Hli by lia.
    replace (j - 1 - length pre - length l)%nat with 0%nat in Hli by lia. done.
Qed.

Lemma hits_block name ls : ∀ pre rest buffer hend,
  clean name → Forall line_ok ls → Forall (λ c, c ≠ 0) pre → at_line_start pre →
  buffer = pre ++ block_of ls ++ rest →
  hend = (length pre + length (block_of ls) - 4)%nat →
  filter (hit buffer name) (seq (length pre) (hend - length pre)) = line_hits name (length pre) ls.
Proof.
  induction ls as [|l ls IH]; intros pre rest buffer hend Hn Hls Hpre Hstart Hb Hh.
  { unfold block_of in Hh. cbn in Hh. by replace (hend - length pre)%nat with 0%nat by lia. }
  apply Forall_cons in Hls as [(Hl & Hln & Hl0) Hls].
  rewrite block_of_cons in Hb, Hh. rewrite !length_app in Hh. change (length CRLF) with 2%nat in Hh.
  assert (0 < length l)%nat by (destruct l; [done|simpl; lia]).
  assert (2 ≤ length (block_of ls))%nat by (unfold block_of; rewrite length_app; cbn; lia).
  rewrite hits_cons by lia. cbn [line_hits].
  assert (hit buffer name (length pre) ↔ starts_with eqc_case name l = true) as Hhit.
  { unfold hit. rewrite Hb at 1. rewrite line_initial_start by done.
    rewrite Hb, cstr_app, drop_app_length, <-!(assoc_L app), cstr_app by done.
    change (CRLF ++ block_of ls ++ rest) with (chCR :: chLF :: block_of ls ++ rest).
    assert (cstr (chCR :: chLF :: block_of ls ++ rest) = CRLF ++ cstr (block_of ls ++ rest)) as -> by done.
    rewrite starts_with_line by done. naive_solver. }
  f_equal.
  - destruct (decide (hit buffer name (length pre))) as [Hd|Hd], (starts_with eqc_case name l);
      try done; exfalso; [by apply Hhit in Hd|by apply Hd, Hhit].
  - assert (length (pre ++ l ++ CRLF) = (length pre + length l + 2)%nat) as Hlen
      by (rewrite !length_app; change (length CRLF) with 2%nat; lia).
    rewrite (hits_skip _ _ hend (S (length pre)) (length pre + length l + 2)).
    + rewrite <-Hlen. apply (IH _ rest); [done|done| | | |].
      * apply Forall_app. split; [done|]. apply Forall_app. split; [done|]. by repeat constructor.
      * right. exists (pre ++ l ++ [chCR]). by rewrite <-!(assoc_L app).
      * rewrite Hb. by rewrite <-!(assoc_L app).
      * rewrite Hlen. lia.
    + lia.
    + intros j Hj. rewrite Hb, <-!(assoc_L app). by apply no_hit_in_line; [|lia].
Qed.

Lemma header_hits_block name ls rest :
  clean name → ls ≠ [] → Forall line_ok ls →
  header_hits name (block_of ls ++ rest) (length (block_of ls) - 4) = line_hits name 0 ls.
Proof.
  intros Hn Hne Hls. unfold header_hits.
  pose proof (hits_block name ls [] rest _ (length (block_of ls) - 4) Hn Hls (Forall_nil_2 _)
    (or_introl eq_refl) eq_refl eq_refl) as E.
  cbn [length app] in E. by rewrite Nat.sub_0_r in E.
Qed.

(** ** Reading the lines back *)

Lemma tokens_line l k : clean l → l ≠ [] → tokens CRLF (l ++ CRLF ++ k) = l :: tokens CRLF k.
Proof.
  intros Hl Hne. unfold tokens. rewrite split_on_app.
  2:{ eapply Forall_impl; [exact Hl|]. intros c [Hcr Hlf]. unfold mem_char.
      apply bool_decide_eq_false. unfold CRLF. set_solver. }
  change (split_on (mem_char CRLF) (CRLF ++ k)) with ([] :: [] :: split_on (mem_char CRLF) k).
  cbv beta iota. rewrite app_nil_r, filter_cons_True by done. by rewrite filter_cons_False by (by intros []).
Qed.

Lemma tokens_block ls :
  Forall line_ok ls →
  tokens CRLF (take (length (block_of ls) - 4) (block_of ls)) = ls.
Proof.
  intros Hls. induction Hls as [|l ls (Hl & _ & Hl0) Hls IH]; [done|].
  rewrite block_of_cons, !length_app. change (length CRLF) with 2%nat. destruct ls as [|l2 ls].
  - change (length (block_of [])) with 2%nat. rewrite take_app_le, take_ge by lia.
    unfold tokens. rewrite <-(app_nil_r l) at 1. rewrite split_on_app.
    2:{ eapply Forall_impl; [exact Hl|]. intros c [Hcr Hlf]. unfold mem_char.
        apply bool_decide_eq_false. unfold CRLF. set_solver. }
    cbn [split_on]. by rewrite app_nil_r, filter_cons_True by done.
  - assert (4 ≤ length (block_of (l2 :: ls)))%nat as H4.
    { apply Forall_cons in Hls as [(_ & _ & Hl20) _].
      rewrite block_of_cons, !length_app. unfold block_of. rewrite length_app. cbn.
      destruct l2; [done|]. simpl. lia. }
    rewrite take_app_ge by lia.
    replace (length l + (2 + length (block_of (l2 :: ls))) - 4 - length l)%nat
      with (length CRLF + (length (block_of (l2 :: ls)) - 4))%nat
      by (change (length CRLF) with 2%nat; lia).
    rewrite take_app_add, tokens_line by done. by rewrite IH.
Qed.

Lemma scan_word_text width ws w c k :
  Forall (λ c, isspace c = true) ws → w ≠ [] → Forall (λ c, isspace c = false) w →
  (length w ≤ width)%nat → isspace c = true →
  scan_word width (ws ++ w ++ c :: k) = Some (w, c :: k).
Proof.
  intros Hws Hne Hw Hlen Hc. unfold scan_word.
  destruct (take_while_app isspace ws (w ++ c :: k) Hws) as [_ ->].
  { destruct w as [|x w]; [done|]. intros y [= <-]. by apply Forall_cons in Hw as [? _]. }
  destruct (take_while_app (λ c, negb (isspace c)) w (c :: k)) as [-> _].
  { eapply Forall_impl; [exact Hw|]. intros x Hx. cbv beta in *. by rewrite Hx. }
  { intros x [= <-]. by rewrite Hc. }
  rewrite take_ge by done. rewrite drop_app_length. by destruct w.
Qed.

Lemma strchr_app n c k : c ∉ n → strchr (n ++ c :: k) c = Some (length n).
Proof.
  induction n as [|x n IH]; intros Hn; cbn [app strchr length].
  - by rewrite Z.eqb_refl.
  - apply not_elem_of_cons in Hn as [Hx Hn].
    rewrite (proj2 (Z.eqb_neq x c)) by done. by rewrite IH.
Qed.

(** A pattern [name:] at the start of a line that starts with [n:]. *)
Lemma starts_with_name name n k :
  chCOLON ∉ name → chCOLON ∉ n →
  starts_with eqc_case (name ++ [chCOLON]) (n ++ chCOLON :: k) = strcasecmp_eq n name.
Proof.
  assert (∀ c, tolower c = chCOLON → c = chCOLON) as Hlow
    by (intros c; unfold tolower; case_test; lia).
  revert n. induction name as [|x name IH]; intros [|c n] Hname Hn; unfold strcasecmp_eq;
    cbn [app starts_with]; rewrite ?not_elem_of_cons in *.
  - done.
  - rewrite bool_decide_false by done. unfold eqc_case. rewrite (proj2 (Z.eqb_neq _ _)); [done|].
    change (tolower chCOLON) with chCOLON. intros E. symmetry in E. apply Hlow in E. naive_solver.
  - rewrite bool_decide_false by done. unfold eqc_case. rewrite (proj2 (Z.eqb_neq _ _)); [done|].
    change (tolower chCOLON) with chCOLON. intros E. apply Hlow in E. naive_solver.
  - destruct Hname as [_ Hname], Hn as [_ Hn]. rewrite (IH n) by done. unfold eqc_case, strcasecmp_eq.
    rewrite !fmap_cons. destruct (tolower x =? tolower c) eqn:E; bool_prop; cbn [andb].
    + apply bool_decide_ext. split; [by intros ->; rewrite E|]. by intros [= _ ->].
    + symmetry. apply bool_decide_eq_false. intros [= Hx _]. by apply E.
Qed.

Definition lines_text (ls : list bytes) : bytes := concat ((λ l, l ++ CRLF) <$> ls).

Lemma line_hits_app name ls1 ls2 : ∀ off,
  line_hits name off (ls1 ++ ls2) =
  line_hits name off ls1 ++ line_hits name (off + length (lines_text ls1)) ls2.
Proof.
  induction ls1 as [|l ls1 IH]; intros off; cbn [app line_hits].
  - by rewrite Nat.add_0_r.
  - rewrite IH, (assoc_L app). do 2 f_equal. unfold lines_text. rewrite fmap_cons. cbn [concat].
    rewrite !length_app. change (length CRLF) with 2%nat. lia.
Qed.

Lemma line_hits_none name ls off :
  Forall (λ l, starts_with eqc_case name l = false) ls → line_hits name off ls = [].
Proof.
  intros Hls. revert off. induction Hls as [|l ls Hl Hls IH]; intros off; [done|].
  cbn [line_hits]. by rewrite Hl, IH.
Qed.

Lemma block_of_app ls1 ls2 : block_of (ls1 ++ ls2) = lines_text ls1 ++ block_of ls2.
Proof. unfold block_of, lines_text. by rewrite fmap_app, concat_app, (assoc_L app). Qed.

Lemma filter_nil {A} (P : A → bool) l : List.filter P l = [] → Forall (λ x, P x = false) l.
Proof.
  induction l as [|x l IH]; [done|]. cbn. destruct (P x) eqn:E; [done|]. intros. by constructor; auto.
Qed.

Lemma filter_one {A} (P : A → bool) l x :
  List.filter P l = [x] →
  ∃ l1 l2, l = l1 ++ x :: l2 ∧ Forall (λ x, P x = false) (l1 ++ l2) ∧ P x = true.
Proof.
  induction l as [|y l IH]; [done|]. cbn. destruct (P y) eqn:E.
  - intros [= -> Hl]. exists [], l. split_and!; [done|by apply filter_nil|done].
  - intros (l1 & l2 & -> & Hf & Hx)%IH. exists (y :: l1), l2. split_and!; [done|by constructor|done].
Qed.

(** ** Well-formed requests *)

(** A header field that is written and read back unchanged. *)
Record field_ok (f : bytes * bytes) : Prop := {
  fo_name : mnet_header_name_valid (Some (fst f)) = true;
  fo_name_bytes : Forall is_cchar (fst f);
  fo_value : Forall (λ c, is_cchar c ∧ c ≠ chCR ∧ c ≠ chLF) (snd f);
  fo_blank : match snd f with c :: _ => c ≠ chSP ∧ c ≠ chTAB | [] => True end;
  fo_length : (length (header_line f) < MNET_MAX_HEADER_LINE)%nat;
}.

Definition named (name : bytes) (f : bytes * bytes) : bool := strcasecmp_eq (fst f) name.

(** A request: a target that fits, at least one header field, no Transfer-Encoding,
    and a body announced by its only Content-Length, or no body. *)
Record request_ok (target : bytes) (hs : list (bytes * bytes)) (body : bytes) : Prop := {
  ro_target : target ≠ [] ∧ Forall (λ c, is_cchar c ∧ isspace c = false) target;
  ro_target_length : (length target ≤ Z.to_nat 2047)%nat;
  ro_headers : hs ≠ [] ∧ (length hs ≤ MNET_MAX_HEADERS)%nat ∧ Forall field_ok hs;
  ro_encoding : Forall (λ f, named (lit "transfer-encoding") f = false) hs;
  ro_length : List.filter (named (lit "content-length")) hs = [] ∧ body = [] ∨
              ∃ name, List.filter (named (lit "content-length")) hs =
                [(name, print_nat (Z.of_nat (length body)))];
  ro_body : Forall is_byte body;
}.

Lemma token_char_not c : token_char c = true → c ≠ 0 → c ≠ chSP ∧ c ≠ chCOLON ∧ c ≠ chCR ∧ c ≠ chLF.
Proof. intros Hc Hn. split_and!; intros ->; by vm_compute in Hc. Qed.

Lemma field_name_chars f :
  field_ok f → fst f ≠ [] ∧ Forall (λ c, c ≠ 0 ∧ c ≠ chSP ∧ c ≠ chCOLON ∧ c ≠ chCR ∧ c ≠ chLF) (fst f).
Proof.
  intros [Hn Hb _ _ _]. destruct (fst f) as [|x n]; [done|]. split; [done|].
  unfold mnet_header_name_valid in Hn. apply Forall_forallb in Hn.
  rewrite Forall_forall in *. intros c Hc. specialize (Hn c Hc). specialize (Hb c Hc).
  assert (c ≠ 0) by (unfold is_cchar in Hb; lia). split; [done|]. by apply token_char_not.
Qed.

Lemma header_line_ok f : field_ok f → line_ok (header_line f).
Proof.
  intros Hf. destruct (field_name_chars f Hf) as [Hne Hn]. unfold header_line, line_ok, clean.
  rewrite !Forall_app. split_and!.
  - eapply Forall_impl; [exact Hn|]. naive_solver.
  - by repeat constructor.
  - eapply Forall_impl; [exact (fo_value _ Hf)|]. naive_solver.
  - eapply Forall_impl; [exact Hn|]. naive_solver.
  - by repeat constructor.
  - eapply Forall_impl; [exact (fo_value _ Hf)|]. unfold is_cchar. intros c. lia.
  - by destruct (fst f).
Qed.

Lemma method_text_chars m :
  Forall (λ c, is_cchar c ∧ isspace c = false ∧ c ≠ chCOLON) (method_text m) ∧
  (0 < length (method_text m) ≤ 7)%nat.
Proof.
  destruct m; (split; [|vm_compute; lia]); repeat apply Forall_cons_2; try apply Forall_nil_2;
    by unfold is_cchar; split_and!.
Qed.

Section request.
Context (m : mnet_http_method_t) (target : bytes) (hs : list (bytes * bytes)) (body : bytes).
(** What is in the buffer behind the request. *)
Context (tail : bytes).
Hypothesis Hok : request_ok target hs body.

Lemma isspace_clean c : isspace c = false → c ≠ chCR ∧ c ≠ chLF.
Proof. intros Hc. split; intros ->; by vm_compute in Hc. Qed.

Lemma request_line_ok : line_ok (request_line_text m target).
Proof.
  destruct (method_text_chars m) as [Hm Hml]. destruct (ro_target _ _ _ Hok) as [_ Ht].
  unfold request_line_text, line_ok, clean. rewrite !Forall_app. split_and!.
  - eapply Forall_impl; [exact Hm|]. intros c (_ & Hc & _). by apply isspace_clean.
  - by repeat constructor.
  - eapply Forall_impl; [exact Ht|]. intros c [_ Hc]. by apply isspace_clean.
  - by repeat constructor.
  - eapply Forall_impl; [exact Hm|]. unfold is_cchar. intros c. lia.
  - by repeat constructor.
  - eapply Forall_impl; [exact Ht|]. unfold is_cchar. intros c. lia.
  - by repeat constructor.
  - destruct (method_text m); [simpl in Hml; lia|done].
Qed.

Lemma request_lines_ok : Forall line_ok (request_lines m target hs).
Proof.
  constructor; [apply request_line_ok|]. apply Forall_fmap.
  destruct (ro_headers _ _ _ Hok) as (_ & _ & Hf). eapply Forall_impl; [exact Hf|].
  apply header_line_ok.
Qed.

Lemma request_line_field : header_field (request_line_text m target) = None.
Proof.
  unfold header_field, request_line_text. set (l := method_text m ++ _).
  destruct (strchr l chCOLON) as [i|] eqn:E; [|done].
  apply strchr_Some in E as (El & _ & Hi); [|done].
  destruct (method_text_chars m) as [Hm _].
  assert (l !! i = Some chCOLON) as Hli.
  { rewrite El, lookup_app_r, length_take, Nat.min_l, Nat.sub_diag by (rewrite ?length_take; lia). done. }
  assert (length (method_text m) < i)%nat as Hlt.
  { destruct (decide (i < length (method_text m))%nat) as [Hin|Hout].
    - unfold l in Hli. rewrite lookup_app_l in Hli by done. rewrite Forall_lookup in Hm.
      by destruct (Hm _ _ Hli) as (_ & _ & ?).
    - destruct (decide (i = length (method_text m))) as [->|]; [|lia].
      unfold l in Hli. by rewrite lookup_app_r, Nat.sub_diag in Hli by lia. }
  destruct (mnet_header_name_valid (Some (take i l))) eqn:Ev; [|done]. exfalso.
  assert (take i l !! length (method_text m) = Some chSP) as Hsp.
  { rewrite lookup_take_lt by done. unfold l. by rewrite lookup_app_r, Nat.sub_diag by lia. }
  unfold mnet_header_name_valid in Ev. destruct (take i l) as [|x k]; [done|].
  apply Forall_forallb in Ev. rewrite Forall_lookup in Ev. by specialize (Ev _ _ Hsp).
Qed.

Lemma header_field_line f : field_ok f → header_field (header_line f) = Some f.
Proof.
  intros Hf. destruct (field_name_chars f Hf) as [_ Hn].
  assert (chCOLON ∉ fst f) as Hc.
  { intros Hin. rewrite Forall_forall in Hn. by destruct (Hn _ Hin) as (_ & _ & ? & _). }
  unfold header_field, header_line. change (lit ": " ++ snd f) with (chCOLON :: chSP :: snd f).
  rewrite strchr_app, take_app_length by done. rewrite (fo_name _ Hf).
  replace (drop (S (length (fst f))) (fst f ++ chCOLON :: chSP :: snd f)) with (chSP :: snd f).
  2:{ rewrite drop_app_ge by lia. by replace (S (length (fst f)) - length (fst f))%nat with 1%nat by lia. }
  destruct f as [n v]. cbn [fst snd] in *. do 2 f_equal. unfold skip_blanks. cbn [drop_while].
  rewrite Z.eqb_refl. cbn [orb]. pose proof (fo_blank _ Hf) as Hb. cbn [snd] in Hb.
  destruct v as [|c v]; [done|]. destruct Hb as [Hsp Htab]. cbn [drop_while].
  by rewrite (proj2 (Z.eqb_neq c chSP)), (proj2 (Z.eqb_neq c chTAB)) by done.
Qed.

Lemma collect_header_lines fs : ∀ count,
  Forall field_ok fs → (count + length fs ≤ MNET_MAX_HEADERS)%nat →
  collect_headers count (header_line <$> fs) = Some fs.
Proof.
  induction fs as [|f fs IH]; intros count Hfs Hc; [done|].
  apply Forall_cons in Hfs as [Hf Hfs]. cbn [length] in Hc. rewrite fmap_cons. cbn [collect_headers].
  rewrite (proj2 (Nat.leb_gt _ _)) by lia.
  rewrite (proj2 (Nat.leb_gt _ _)) by apply (fo_length _ Hf).
  rewrite header_field_line by done. by rewrite IH by (done || lia).
Qed.

(** The header section of the printed request gives the fields back. *)
Lemma request_headers :
  header_fields (take (length (print_request m target hs) - 4)
                   (print_request m target hs ++ body ++ tail)) = Some hs.
Proof.
  unfold header_fields, print_request. rewrite take_app_le by lia.
  rewrite tokens_block by apply request_lines_ok. unfold request_lines. cbn [collect_headers].
  destruct (ro_headers _ _ _ Hok) as (_ & Hlen & Hf).
  rewrite (proj2 (Nat.leb_gt _ _)) by (unfold MNET_MAX_HEADERS; lia).
  rewrite (proj2 (Nat.leb_gt _ _)).
  { rewrite request_line_field. by apply collect_header_lines. }
  unfold request_line_text. rewrite !length_app.
  destruct (method_text_chars m) as [_ Hm]. pose proof (ro_target_length _ _ _ Hok).
  change (length (lit " ")) with 1%nat. change (length (lit " HTTP/1.1")) with 9%nat.
  unfold MNET_MAX_HEADER_LINE. lia.
Qed.

Lemma request_end :
  end_of_headers (print_request m target hs ++ body ++ tail) =
    Some ((length (print_request m target hs) - 4)%nat, 4%nat).
Proof. apply end_of_block; [done|apply request_lines_ok]. Qed.

(** At least one line follows the request line. *)
Lemma request_two_lines :
  ∃ k, print_request m target hs = request_line_text m target ++ CRLF ++ k ∧ (5 ≤ length k)%nat.
Proof.
  destruct (ro_headers _ _ _ Hok) as (Hne & _ & Hf). destruct hs as [|f fs]; [done|].
  unfold print_request, request_lines. rewrite block_of_cons. eexists. split; [done|].
  apply Forall_cons in Hf as [Hf _]. destruct (header_line_ok f Hf) as (_ & _ & Hl).
  rewrite fmap_cons, block_of_cons, !length_app. unfold block_of. rewrite length_app.
  change (length CRLF) with 2%nat. destruct (header_line f); [done|]. cbn [length]. lia.
Qed.

Lemma request_line_read :
  request_line (print_request m target hs ++ body ++ tail) = Some (method_text m, target).
Proof.
  unfold request_line, parse_raw_request. rewrite request_end.
  destruct request_two_lines as (k & Ek & Hk).
  assert (memchr (print_request m target hs ++ body ++ tail) chLF
            (length (print_request m target hs) - 4) ≠ None) as Hlf.
  { intros E. apply memchr_None in E. apply E. rewrite Ek, <-!(assoc_L app).
    set (l := request_line_text m target). set (rest := k ++ _).
    assert (length l + 1 < length (l ++ CRLF ++ k) - 4)%nat as Hlen
      by (rewrite !length_app; change (length CRLF) with 2%nat; lia).
    apply list_elem_of_lookup. exists (length l + 1)%nat. rewrite lookup_take_lt by done.
    rewrite lookup_app_r by lia. by replace (length l + 1 - length l)%nat with 1%nat by lia. }
  destruct (memchr _ _ _); [|done].
  destruct (method_text_chars m) as [Hm Hml]. destruct (ro_target _ _ _ Hok) as [Hne Ht].
  assert (cstr (print_request m target hs ++ body ++ tail) =
    [] ++ method_text m ++ chSP :: ([] ++ target ++ chSP ::
      lit "HTTP/1.1" ++ CRLF ++ k ++ cstr (body ++ tail))) as ->.
  { rewrite cstr_app by (apply block_of_nul_free, request_lines_ok).
    rewrite Ek. unfold request_line_text. by rewrite <-!(assoc_L app). }
  rewrite scan_word_text; [|done| | |lia|done].
  2:{ by destruct (method_text m); [simpl in Hml; lia|]. }
  2:{ eapply Forall_impl; [exact Hm|]. naive_solver. }
  change (chSP :: [] ++ target ++ ?x) with ([chSP] ++ target ++ x).
  rewrite scan_word_text; [done|by repeat constructor|done| |apply (ro_target_length _ _ _ Hok)|done].
  eapply Forall_impl; [exact Ht|]. naive_solver.
Qed.

Lemma named_line name f :
  chCOLON ∉ name → field_ok f →
  starts_with eqc_case (name ++ [chCOLON]) (header_line f) = named name f.
Proof.
  intros Hname Hf. unfold header_line. change (lit ": " ++ snd f) with (chCOLON :: chSP :: snd f).
  apply starts_with_name; [done|]. intros Hin. destruct (field_name_chars f Hf) as [_ Hn].
  rewrite Forall_forall in Hn. by destruct (Hn _ Hin) as (_ & _ & ? & _).
Qed.

Lemma unnamed_lines name fs :
  chCOLON ∉ name → Forall field_ok fs → Forall (λ f, named name f = false) fs →
  Forall (λ l, starts_with eqc_case (name ++ [chCOLON]) l = false) (header_line <$> fs).
Proof.
  intros Hname Hf Hn. apply Forall_fmap. rewrite Forall_forall in *. intros f Hin. cbn.
  rewrite named_line by auto. by apply Hn.
Qed.

Lemma request_hits name :
  clean (name ++ [chCOLON]) →
  header_hits (name ++ [chCOLON]) (print_request m target hs ++ body ++ tail)
    (length (print_request m target hs) - 4) =
  line_hits (name ++ [chCOLON]) 0 (request_lines m target hs).
Proof. intros Hn. apply header_hits_block; [done|done|apply request_lines_ok]. Qed.

Lemma decimal_line_print n k : 0 <= n → decimal_line (print_nat n ++ chCR :: k) = Some n.
Proof.
  intros Hn. unfold decimal_line.
  destruct (take_while_app isdigit (print_nat n) (chCR :: k)) as [-> ->];
    [by apply print_nat_digits|by intros c [= <-]|].
  rewrite bool_decide_false by (by apply print_nat_nonempty).
  cbn [orb Z.eqb Pos.eqb]. by rewrite dec_val_print.
Qed.

(** The header section announces exactly the body. *)
Lemma decimal_line_blank n k :
  0 <= n →
  decimal_line (drop_while (λ c, (c =? chSP) || (c =? chTAB))%bool (chSP :: print_nat n ++ chCR :: k)) =
    Some n.
Proof.
  intros Hn. cbn [drop_while]. rewrite Z.eqb_refl. cbn [orb].
  pose proof (print_nat_digits n Hn) as Hd. pose proof (decimal_line_print n k Hn) as Hdec.
  destruct (print_nat n) as [|c ds] eqn:Ep; [by destruct (print_nat_nonempty n Hn)|].
  cbn [app drop_while] in *. apply Forall_cons in Hd as [Hd _].
  assert (48 <= c) as Hr by (unfold isdigit in Hd; lia).
  by rewrite (proj2 (Z.eqb_neq c chSP)), (proj2 (Z.eqb_neq c chTAB)) by lia.
Qed.

Lemma named_length n (f : bytes * bytes) : named n f = true → length (fst f) = length n.
Proof.
  unfold named, strcasecmp_eq. intros E%bool_decide_eq_true. apply (f_equal length) in E.
  by rewrite !length_fmap in E.
Qed.

Lemma request_announced max_body :
  Z.of_nat (length body) <= max_body →
  announced_length (print_request m target hs ++ body ++ tail)
    (length (print_request m target hs) - 4) max_body = Z.of_nat (length body).
Proof.
  intros Hmax. destruct (ro_headers _ _ _ Hok) as (_ & _ & Hf). unfold announced_length.
  change (lit "content-length:") with (lit "content-length" ++ [chCOLON]).
  change (lit "transfer-encoding:") with (lit "transfer-encoding" ++ [chCOLON]).
  assert (chCOLON ∉ lit "content-length") as Hc1 by (by vm_compute; set_solver).
  assert (chCOLON ∉ lit "transfer-encoding") as Hc2 by (by vm_compute; set_solver).
  rewrite !request_hits by (by repeat constructor).
  assert (line_hits (lit "transfer-encoding" ++ [chCOLON]) 0 (request_lines m target hs) = []) as Hte.
  { apply line_hits_none. constructor; [by destruct m|].
    apply unnamed_lines; [done|done|apply (ro_encoding _ _ _ Hok)]. }
  assert (∀ off, line_hits (lit "content-length" ++ [chCOLON]) off [request_line_text m target] = []) as Hreq.
  { intros off. apply line_hits_none. constructor; [by destruct m|done]. }
  rewrite Hte. change (request_lines m target hs) with ([request_line_text m target] ++ (header_line <$> hs)).
  rewrite line_hits_app, Hreq. cbn [app].
  destruct (ro_length _ _ _ Hok) as [[Hnone ->]|[name Hone]].
  { rewrite line_hits_none; [done|]. by apply unnamed_lines; [..|apply filter_nil]. }
  apply filter_one in Hone as (fs1 & fs2 & E & Hun & Hname). rewrite E in Hf |- *.
  apply Forall_app in Hf as [Hf1 [Hf Hf2]%Forall_cons]. apply Forall_app in Hun as [Hu1 Hu2].
  set (f := (name, print_nat (Z.of_nat (length body)))) in *.
  rewrite fmap_app, fmap_cons, line_hits_app.
  rewrite (line_hits_none _ (header_line <$> fs1)) by (by apply unnamed_lines).
  cbn [app line_hits]. rewrite named_line, Hname by done.
  rewrite (line_hits_none _ (header_line <$> fs2)) by (by apply unnamed_lines).
  cbn [app].
  set (a := lines_text [request_line_text m target]). set (b := lines_text (header_line <$> fs1)).
  pose proof (named_length _ _ Hname : length name = 14%nat) as Hlen.
  set (k := [chLF] ++ block_of (header_line <$> fs2) ++ body ++ tail).
  assert (print_request m target (fs1 ++ f :: fs2) ++ body ++ tail =
    (a ++ b) ++ (name ++ [chCOLON]) ++ chSP :: print_nat (Z.of_nat (length body)) ++ chCR :: k) as ->.
  { unfold print_request.
    change (request_lines m target ?fs) with ([request_line_text m target] ++ (header_line <$> fs)).
    rewrite block_of_app, fmap_app, fmap_cons, block_of_app, block_of_cons.
    unfold header_line at 2. by rewrite <-!(assoc_L app). }
  replace (drop _ _) with (chSP :: print_nat (Z.of_nat (length body)) ++ chCR :: k).
  2:{ rewrite drop_app_ge by (rewrite length_app; lia).
      rewrite drop_app_ge by (rewrite !length_app, Hlen; cbn [length]; lia).
      rewrite !length_app, Hlen. cbn [length].
      by replace (0 + length a + length b + 15 - (length a + length b) - (14 + 1))%nat
        with 0%nat by lia. }
  rewrite decimal_line_blank by lia. by rewrite (proj2 (Z.ltb_ge _ _)) by lia.
Qed.
End request.

Lemma parse_method_text m : mnet_parse_method (method_text m) = Some m.
Proof. by destruct m. Qed.

Section roundtrip.
Context `{!Allocator, !OS}.

(** [pr] is the request that was printed; what it owns is live in [w']. *)
Definition parsed_as (m : mnet_http_method_t) (target : bytes) (hs : list (bytes * bytes))
    (body tail : bytes) (pr : parsed_request_t) (w w' : world) : Prop :=
  pr_method pr = method_text m ∧ pr_method_enum pr = Some m ∧
  pr_path pr = target ∧ (pr_path_only pr, pr_query_string pr) = cut_path target ∧
  pr_keep_alive pr = existsb asks_keep_alive hs ∧
  pr_body pr = BodyInBuffer (body ++ tail) ∧ pr_body_length pr = length body ∧
  ∃ n qf cf pb, owns (io w n []) w' pb ∧ parsed_owned pr qf hs cf pb ∧
    (alloc_failure ∨ cf = cookies_of hs ∧ qf = query_of target).

Lemma request_bytes m target hs body tail :
  request_ok target hs body → Forall is_byte tail → Forall is_byte (print_request m target hs ++ body ++ tail).
Proof.
  intros Hok Hj. assert (∀ s, Forall is_cchar s → Forall is_byte s) as Hcb.
  { intros s Hs. eapply Forall_impl; [exact Hs|]. unfold is_cchar, is_byte. lia. }
  assert (∀ ls, Forall (Forall is_byte) ls → Forall is_byte (block_of ls)) as Hblock.
  { intros ls Hls. induction Hls as [|l ls Hl Hls IH]; [by repeat constructor|].
    rewrite block_of_cons. apply Forall_app. split; [done|]. by repeat constructor. }
  apply Forall_app. split; [|apply Forall_app; split; [apply (ro_body _ _ _ Hok)|done]].
  apply Hblock. constructor.
  - unfold request_line_text. rewrite !Forall_app. split_and!; [|apply lit_bytes| |apply lit_bytes].
    + destruct m; apply lit_bytes.
    + apply Hcb. destruct (ro_target _ _ _ Hok) as [_ Ht]. eapply Forall_impl; [exact Ht|]. naive_solver.
  - apply Forall_fmap. destruct (ro_headers _ _ _ Hok) as (_ & _ & Hf).
    eapply Forall_impl; [exact Hf|]. intros f Hfo. cbn. unfold header_line.
    rewrite !Forall_app. split_and!; [apply Hcb, (fo_name_bytes _ Hfo)|apply lit_bytes|].
    apply Hcb. eapply Forall_impl; [exact (fo_value _ Hfo)|]. naive_solver.
Qed.

Lemma request_code m target hs body tail max_body :
  request_ok target hs body → Z.of_nat (length body) <= max_body →
  expected_code (print_request m target hs ++ body ++ tail) max_body = MNET_PARSE_OK.
Proof.
  intros Hok Hmax. unfold expected_code.
  rewrite request_line_read, request_end, parse_method_text by done. cbv zeta.
  rewrite request_announced, request_headers by done.
  by repeat (case_test; bool_prop; [lia|]).
Qed.

Lemma request_not_incomplete m target hs body tail max_body received :
  request_ok target hs body → Z.of_nat (length body) <= max_body →
  (length (print_request m target hs ++ body) ≤ received)%nat →
  ¬ body_incomplete (print_request m target hs ++ body ++ tail) received max_body.
Proof.
  intros Hok Hmax Hrec (h & s & He & Hinc). rewrite request_end in He by done.
  injection He as <- <-. rewrite request_announced in Hinc by done.
  destruct (request_two_lines m target hs body Hok) as (k & Ek & Hk).
  assert (4 ≤ length (print_request m target hs))%nat by (rewrite Ek, !length_app; lia).
  rewrite length_app in Hrec. lia.
Qed.

(** What the specification of [parse_request] says of a printed request. *)
Lemma parsed_ok_printed m target hs body tail max_body received pr qf hf cf chunks bs :
  request_ok target hs body → Z.of_nat (length body) <= max_body →
  (length (print_request m target hs ++ body) ≤ received)%nat →
  parsed_ok (print_request m target hs ++ body ++ tail) received max_body pr qf hf cf chunks bs →
  hf = hs ∧ chunks = [] ∧
  pr_method pr = method_text m ∧ pr_method_enum pr = Some m ∧
  pr_path pr = target ∧ (pr_path_only pr, pr_query_string pr) = cut_path target ∧
  pr_keep_alive pr = existsb asks_keep_alive hs ∧
  pr_body pr = BodyInBuffer (body ++ tail) ∧ pr_body_length pr = length body ∧
  (alloc_failure ∨ cf = cookies_of hs ∧ qf = query_of target).
Proof.
  intros Hok Hmax Hrec [Hline [Hm Hm0] Hpath (h & s & He & Hhf) Hc Hq Hka Hbody].
  rewrite request_line_read in Hline by done. injection Hline as Hmt Htg.
  rewrite request_end in He by done. injection He as <- <-.
  rewrite request_headers in Hhf by done. injection Hhf as <-.
  unfold body_outcome in Hbody. rewrite request_end, request_announced in Hbody by done.
  cbv zeta in Hbody. rewrite <-Hmt, parse_method_text in Hm. rewrite <-Htg in *.
  destruct (request_two_lines m target hs body Hok) as (k & Ek & Hk).
  assert (4 ≤ length (print_request m target hs))%nat by (rewrite Ek, !length_app; lia).
  replace (length (print_request m target hs) - 4 + 4)%nat with (length (print_request m target hs))
    in Hbody by lia.
  rewrite length_app in Hrec.
  destruct Hbody as [(Hneg & _)|[(_ & _ & Epair & _ & Ec)|(_ & Hlt & _)]]; [lia| |lia].
  injection Epair as Eb El. rewrite Ec, Eb, El. clear Eb El Ec.
  rewrite drop_app_length, Nat2Z.id.
  split_and!; try done. destruct Hc as [?| ->]; [by left|]. destruct Hq as [?| ->]; [by left|by right].
Qed.

(** A printed request is read back. *)
Lemma parse_printed m target hs body rest junk max_body timeout_ms w :
  wf_world w → request_ok target hs body → Forall is_byte (rest ++ junk) →
  Z.of_nat (length body) <= max_body < 2 ^ 31 - 1 →
  Z.of_nat (length (print_request m target hs ++ body ++ rest ++ chNUL :: junk)) < 2 ^ 31 →
  wp (parse_request (print_request m target hs ++ body ++ rest ++ chNUL :: junk)
        (length (print_request m target hs ++ body ++ rest)) max_body timeout_ms)
    (λ '(code, pr) w', (code = MNET_PARSE_HEADERS_TOO_LARGE ∧ alloc_failure) ∨
       (code = MNET_PARSE_OK ∧ parsed_as m target hs body (rest ++ chNUL :: junk) pr w w')) w.
Proof.
  intros Hwf Hok [Hr Hj]%Forall_app Hmax Hlen.
  assert (length (print_request m target hs ++ body) ≤
    length (print_request m target hs ++ body ++ rest))%nat as Hrec by (rewrite !length_app; lia).
  eapply wp_mono.
  { eapply (parse_request_spec w w []); [by apply owns_refl| |exact Hlen|lia]. split.
    - apply request_bytes; [done|]. apply Forall_app. split; [done|by constructor].
    - rewrite !(assoc_L app), lookup_app_r, Nat.sub_diag by lia. done. }
  intros [code pr] w' (n & chunks & qf & hf & cf & pb & Ho & Hp & Hcode & Hres). cbn [fst snd] in *.
  rewrite app_nil_r in Ho. destruct Hcode as [Hcode|[[_ Hinc]|[-> Hf]]]; [|exfalso|by left].
  2:{ by eapply request_not_incomplete; [..|exact Hinc]; [|lia|]. }
  rewrite request_code in Hcode by (done || lia). right. split; [done|].
  destruct (Hres Hcode) as (bs & Hpo & _). eapply parsed_ok_printed in Hpo; [|done|lia|done].
  destruct Hpo as (-> & -> & ? & ? & ? & ? & ? & ? & ? & ?). unfold parsed_as.
  split_and!; try done. by exists n, qf, cf, pb.
Qed.
End roundtrip.

(** ** What the client sends *)

(** The header fields of [mnet_call]'s request. *)
Definition client_headers (host : bytes) : list (bytes * bytes) :=
  [(lit "Host", host); (lit "User-Agent", lit "mnet/0.2.5"); (lit "Accept", lit "*/*");
   (lit "Connection", lit "close")].

Lemma call_request_printed path host :
  call_request path host = print_request MNET_HTTP_GET path (client_headers host).
Proof.
  unfold call_request, print_request, request_lines, block_of, client_headers, header_line,
    request_line_text.
  rewrite !fmap_cons. cbn [fmap list_fmap concat fst snd method_text]. by rewrite <-!(assoc_L app).
Qed.

(** Characters that may stand in a URL: no NUL and no blank. *)
Definition url_chars (s : bytes) : Prop := Forall (λ c, is_cchar c ∧ isspace c = false) s.

Lemma call_request_ok path host :
  url_chars host → url_chars path → path ≠ [] →
  (length host < Z.to_nat 1024)%nat → (length path < Z.to_nat 2048)%nat →
  request_ok path (client_headers host) [].
Proof.
  intros Hh Hp Hne Hlh Hlp. unfold client_headers.
  assert (∀ n v, mnet_header_name_valid (Some n) = true → Forall is_cchar n → url_chars v →
    (length n + length v + 2 < MNET_MAX_HEADER_LINE)%nat → field_ok (n, v)) as Hfield.
  { intros n v Hn Hb Hv Hl. split; cbn [fst snd]; [done|done| | |].
    - eapply Forall_impl; [exact Hv|]. intros c [Hc Hs]. split; [done|]. by apply isspace_clean.
    - destruct v as [|c v]; [done|]. apply Forall_cons in Hv as [[_ Hs] _].
      split; intros ->; by vm_compute in Hs.
    - unfold header_line. cbn [fst snd]. rewrite !length_app. change (length (lit ": ")) with 2%nat. lia. }
  assert (∀ s, forallb (λ c, (0 <? c) && (c <? 256) && negb (isspace c))%bool (lit s) = true →
    url_chars (lit s)) as Hlit.
  { intros s Hs. apply Forall_forallb in Hs. eapply Forall_impl; [exact Hs|].
    intros c Hc. cbv beta in *. bool_prop. unfold is_cchar. split; [lia|done]. }
  assert (∀ s, url_chars s → Forall is_cchar s) as Hcc.
  { intros s Hs. eapply Forall_impl; [exact Hs|]. naive_solver. }
  split.
  - done.
  - lia.
  - split; [done|]. split; [vm_compute; lia|].
    repeat apply Forall_cons_2; [..|by constructor]; (apply Hfield; [done|by apply Hcc, Hlit|..]);
      try done; try (by apply Hlit); try (by vm_compute; lia).
    unfold MNET_MAX_HEADER_LINE. change (length (lit "Host")) with 4%nat. lia.
  - by repeat constructor.
  - left. done.
  - constructor.
Qed.

(** ** Properties *)


Definition demo_headers : list (bytes * bytes) :=
  [(lit "Host", lit "example.com"); (lit "Content-Length", lit "5"); (lit "Cookie", lit "a=1; b=2")].

Lemma demo_request_ok : request_ok (lit "/a?x=1") demo_headers (lit "hello").
Proof.
  assert (∀ s, forallb (λ c, (0 <? c) && (c <? 256))%bool (lit s) = true → Forall is_cchar (lit s)) as Hc.
  { intros s Hs. apply Forall_forallb in Hs. eapply Forall_impl; [exact Hs|].
    intros c Hc. cbv beta in *. bool_prop. unfold is_cchar. lia. }
  split.
  - split; [done|]. by repeat constructor.
  - vm_compute. lia.
  - split; [done|]. split; [vm_compute; lia|].
    repeat apply Forall_cons_2; [..|by constructor]; (split; cbn [fst snd];
      [done|by apply Hc|by repeat constructor|by vm_compute|vm_compute; lia]).
  - by repeat constructor.
  - right. by exists (lit "Content-Length").
  - apply lit_bytes.
Qed.


(** the server understands the client: for every URL with a path,
    [mnet_url_parse] finds the host, the port and the path, and [parse_request]
    on the request that [mnet_call] builds from them succeeds, unless an
    allocation fails, with the method GET, that path cut at the query, the four
    header fields of the client and no body, and does not keep the connection
    alive. *)
Theorem server_reads_client `{!Allocator, !OS} (scheme host : bytes) (port : option Z) (path junk : bytes)
    (max_body timeout_ms : Z) (w : world) :
  scheme ∈ [[]; lit "http://"; lit "https://"] → host_ok host → path_ok path → path ≠ [] →
  match port with Some p => 0 < p < 65536 | None => True end →
  url_chars host → url_chars path →
  (length host < Z.to_nat 1024)%nat → (length path < Z.to_nat 2048)%nat →
  wf_world w → 0 <= max_body < 2 ^ 31 - 1 →
  Forall is_byte junk → Z.of_nat (length (call_request path host ++ chNUL :: junk)) < 2 ^ 31 →
  mnet_url_parse (Some (url_text scheme host port path)) (Z.to_nat 1024) (Z.to_nat 2048) =
    Some (host, default 80 port, path) ∧
  wp (parse_request (call_request path host ++ chNUL :: junk) (length (call_request path host))
        max_body timeout_ms)
    (λ '(code, pr) w', (code = MNET_PARSE_HEADERS_TOO_LARGE ∧ alloc_failure) ∨
       (code = MNET_PARSE_OK ∧ pr_keep_alive pr = false ∧
        parsed_as MNET_HTTP_GET path (client_headers host) [] (chNUL :: junk) pr w w')) w.
Proof.
  intros Hs Hho Hpo Hne Hport Hh Hp Hlh Hlp Hwf Hmax Hj Hlen. split.
  { by rewrite url_parse_text, !copy_cut_fits. }
  pose proof (call_request_ok path host Hh Hp Hne Hlh Hlp) as Hok.
  rewrite call_request_printed in *.
  pose proof (parse_printed MNET_HTTP_GET path (client_headers host) [] [] junk max_body timeout_ms w
    Hwf Hok Hj ltac:(cbn; lia)) as Hparse.
  rewrite app_nil_r in Hparse. cbn [app] in Hparse. eapply wp_mono; [by apply Hparse|].
  intros [code pr] w' [?|[-> Hpr]]; [by left|right]. split; [done|]. split; [|done].
  destruct Hpr as (_ & _ & _ & _ & -> & _). by vm_compute.
Qed.

Lemma server_reads_client_witness :
  mnet_url_parse (Some (url_text (lit "http://") (lit "example.com") (Some 8080) (lit "/a?x=1")))
    (Z.to_nat 1024) (Z.to_nat 2048) = Some (lit "example.com", 8080, lit "/a?x=1") ∧
  wp (parse_request (H := all_ok) (H0 := silent_os)
        (call_request (lit "/a?x=1") (lit "example.com") ++ 0 :: lit "old")
        (length (call_request (lit "/a?x=1") (lit "example.com"))) 1000 30000)
    (λ '(code, pr) w', (code = MNET_PARSE_HEADERS_TOO_LARGE ∧ alloc_failure (H := all_ok)) ∨
       (code = MNET_PARSE_OK ∧ pr_keep_alive pr = false ∧
        parsed_as (H := all_ok) MNET_HTTP_GET (lit "/a?x=1") (client_headers (lit "example.com")) [] (0 :: lit "old")
          pr empty_world w')) empty_world.
Proof.
  apply (server_reads_client (H := all_ok) (H0 := silent_os) _ _ (Some 8080)).
  - right. left.
  - split; [done|]. by repeat constructor.
  - done.
  - done.
  - done.
  - by repeat constructor.
  - by repeat constructor.
  - vm_compute. lia.
  - vm_compute. lia.
  - apply empty_world_wf.
  - done.
  - apply lit_bytes.
  - by vm_compute.
Defined.

(** A URL without a path makes a request whose target is the version. *)
Lemma no_path_request :
  request_line (call_request [] (lit "example.com") ++ [0]) = Some (lit "GET", lit "HTTP/1.1").
Proof. by vm_compute. Qed.
