(* ===== verification/Site.v ===== *)
(** * What an application answers

    An application seen from outside: it answers requests with pages.  [serves]
    says that the routes and handlers of an application ([src/mnet_dispatch.c],
    [src/mnet_router.c]) answer a request with a page, and [handle_ask] that
    [mnet_handle_client] ([src/mnet_server.c]), having received that request, sends
    exactly this page.  [Exchange] and [Pipeline] build on it. *)

From S2P Require Export Server Wire.

#[local] Opaque MNET_REQUEST_BUFFER_SIZE.

(** ** Requests and pages *)

(** A request without a body. *)
Record ask := MkAsk {
  ask_method : mnet_http_method_t;
  ask_target : bytes;
  ask_headers : list (bytes * bytes);
}.

Definition ask_text (a : ask) : bytes := print_request (ask_method a) (ask_target a) (ask_headers a).
Definition ask_ok (a : ask) : Prop := request_ok (ask_target a) (ask_headers a) [].
Definition ask_path (a : ask) : bytes := fst (cut_path (ask_target a)).
Definition ask_keeps (a : ask) : bool := existsb asks_keep_alive (ask_headers a).

Record page := MkPage { pg_status : Z; pg_type : bytes; pg_text : bytes }.

(** A page as the body of a response. *)
Definition page_response (pg : page) (body : ptr) : mnet_response_t :=
  MkResponse (pg_status pg) (Some (pg_type pg)) body (length (pg_text pg)) false.

(** A page on the wire. *)
Definition message (pg : page) (keep_alive : bool) : bytes :=
  response_header (page_response pg None) (pg_type pg) keep_alive ++ pg_text pg.

(** The response is this page, and can be sent in one piece. *)
Definition shows (w : world) (r : mnet_response_t) (pg : page) : Prop :=
  rs_status r = pg_status pg ∧ default_type r = pg_type pg ∧ body_at w r (pg_text pg) ∧
  rs_chunked r = false ∧ mnet_header_value_valid (Some (pg_type pg)) = true ∧
  ∀ ka, Z.of_nat (length (response_header r (pg_type pg) ka)) < 1024.

(** ** Handlers that answer with pages *)

(** The first [n] of the pointers, if there are any, point to these strings. *)
Definition strings_at (w : world) (n : nat) (ps : option (list ptr)) (ss : list bytes) : Prop :=
  length ss = n ∧ match ps with Some ps => points_to w (take n ps) ss | None => ss = [] end.

(** The names and values of the parameters that a handler is given; the values are
    texts without NUL, shorter than an [int] can count. *)
Definition params_at (w : world) (req : mnet_request_t) (params : list (bytes * bytes)) : Prop :=
  strings_at w (rq_param_count req) (rq_param_names req) params.*1 ∧
  strings_at w (rq_param_count req) (rq_param_values req) params.*2 ∧
  Forall text_ok params.*2.

(** The handler answers the parameters [ps] with [pg ps], as long as memory
    lasts, and neither sends nor receives anything itself. *)
Definition gives `{!Allocator} (h : mnet_request_t → M mnet_response_t)
    (pg : list (bytes * bytes) → page) : Prop :=
  ∀ req w0 w bs ps, owns w0 w bs → request_at w req → params_at w req ps →
    wp (h req) (λ r w', alloc_failure ∨ shows w' r (pg ps) ∧
      ∃ evs, w_trace w' = w_trace w ++ evs ∧ Forall no_traffic evs) w.

(** The parameters of a request: the names of its route with the captured values. *)
Definition route_params (caps : list capture) (names : list bytes) : list (bytes * bytes) :=
  zip names (capture_string <$> caps).

(** The route has stored these names for what it captures. *)
Definition stored_names (w : world) (route : mnet_route_t) (caps : list capture) (names : list bytes) :
    Prop :=
  strings_at w (length caps) (pa_elems <$> rt_param_names route) names.

(** The application answers [a] with [pg]: the first route for it belongs to a
    handler that gives this page for what the route captures. *)
Definition serves `{!Allocator} (app : mnet_app_t) (w : world) (a : ask) (pg : page) : Prop :=
  app_middleware app = None ∧ ask_method a ≠ MNET_HTTP_HEAD ∧ 0 < pg_status pg < 2 ^ 31 ∧
  ∃ route caps h names give,
    first_route (app_routes app) (ask_method a) (ask_path a) route caps ∧
    rt_handler route = HandlerUser h ∧ stored_names w route caps names ∧
    gives h give ∧ give (route_params caps names) = pg.

Lemma strings_at_kept w w' n ps ss : heap_kept w w' → strings_at w n ps ss → strings_at w' n ps ss.
Proof. intros Hk [Hl Hs]. split; [done|]. destruct ps; [by eapply points_to_kept|done]. Qed.

Lemma serves_kept `{!Allocator} app w w' a pg : heap_kept w w' → serves app w a pg → serves app w' a pg.
Proof.
  intros Hk (Hm & Hh & Hs & route & caps & h & names & give & H1 & H2 & H3 & H4).
  refine (conj Hm (conj Hh (conj Hs _))). exists route, caps, h, names, give.
  split_and!; [done..| |apply H4|apply H4]. by eapply strings_at_kept.
Qed.

Lemma first_route_unique routes method path r1 caps1 r2 caps2 :
  first_route routes method path r1 caps1 → first_route routes method path r2 caps2 →
  r1 = r2 ∧ caps1 = caps2.
Proof.
  intros (pre1 & post1 & E1 & Hm1 & Ha1 & Hno1) (pre2 & post2 & E2 & Hm2 & Ha2 & Hno2).
  assert (r1 = r2) as <-.
  { subst routes. revert pre2 E2 Hno2. induction pre1 as [|x pre1 IH]; intros [|y pre2] E2 Hno2;
      injection E2 as E2 E3; subst.
    - done.
    - destruct (Hno2 y caps1); [by left|done|done].
    - destruct (Hno1 r2 caps2); [by left|done|done].
    - eapply IH; [|exact E3|]; intros; [eapply Hno1|eapply Hno2]; (done || by right). }
  split; [done|]. destruct Ha1 as (p1 & Ep1 & _ & _ & H1), Ha2 as (p2 & Ep2 & _ & _ & H2).
  rewrite Ep1 in Ep2. injection Ep2 as <-. by eapply route_matches_det.
Qed.

(** ** Dispatching and answering *)

Section serving.
Context `{!Allocator, !OS, !Process, !Files}.

(** What the handler of a route is given. *)
Lemma route_params_at w0 w w1 pr qf hf cf pb R route caps n out names path :
  owns w0 w (pb ++ R) → parsed_owned pr qf hf cf pb → pr_path_only pr = path →
  captured w0 w1 path (length out) (pb ++ R) route n out caps → stored_names w0 route caps names →
  params_at w1 (route_request pr route n out) (route_params caps names).
Proof.
  intros Ho Hp Hpath Hcap Hnames. pose proof Hcap as (_ & -> & locs & rest & _ & _ & _ & Ho1).
  pose proof Hnames as [Hlen _]. unfold params_at, route_params.
  cbn [route_request rq_param_count rq_param_names rq_param_values].
  rewrite fst_zip, snd_zip by (rewrite length_fmap; lia). split_and!.
  - eapply strings_at_kept; [by eapply owns_heap_kept|exact Hnames].
  - split; [by rewrite length_fmap|].
    change (capture_string <$> caps) with ((cstr ∘ capture_block) <$> caps).
    rewrite list_fmap_compose. by eapply captured_values.
  - apply Forall_fmap. destruct Hp as (? & ? & _ & _ & _ & Htext). rewrite Hpath in Htext.
    destruct Hcap as [(p & _ & _ & _ & Hmatch) _]. by eapply captures_text.
Qed.

Lemma dispatch_shows w0 w app a pg pr qf hf cf pb R r n out w' :
  owns w0 w (pb ++ R) → app_at w0 app → serves app w0 a pg → parsed_owned pr qf hf cf pb →
  pr_method_enum pr = Some (ask_method a) → pr_path_only pr = ask_path a →
  dispatch app pr (replicate MNET_MAX_PARAMS None) MNET_MAX_PARAMS w = Some ((r, n, out), w') →
  alloc_failure ∨ shows w' r pg ∧ ∃ evs, w_trace w' = w_trace w0 ++ evs ∧ Forall no_traffic evs.
Proof.
  intros Ho [Hroutes _ _] (Hmw & Hhead & _ & route & caps & h & names & give & Hroute & Hh & Hnames & Hgives & <-)
    Hp Hm Hpath E. unfold dispatch in E. rewrite Hm, Hpath in E.
  apply bind_ran in E as ([[found count] slots] & w1 & E1 & E).
  pose proof (length_replicate MNET_MAX_PARAMS (@None loc)) as Hout.
  set (out0 := replicate MNET_MAX_PARAMS None) in *.
  assert (Forall (λ r, route_fits r (length out0)) (app_routes app)) as Hfits.
  { eapply Forall_impl; [exact Hroutes|]. intros r0 [_ Hf _ _]. by rewrite Hout. }
  pose proof (find_route_spec _ _ _ app (ask_method a) (ask_path a) out0 Ho Hfits) as Hfind.
  rewrite Hout in Hfind. pose proof (wp_ran _ _ _ _ _ Hfind E1) as Hfound. clear Hfind E1.
  pose proof Hroute as (pre & post & Eroutes & Hmethod & Hacc & _).
  destruct (app_route_count app =? 0)%nat eqn:Hcount; bool_prop.
  { unfold app_route_count in Hcount. apply nil_length_inv in Hcount. rewrite Hcount in Eroutes.
    by destruct pre. }
  destruct found as [route'|].
  2:{ destruct Hfound as (_ & _ & _ & [Hf|[Hno _]]); [by left|]. exfalso.
      eapply Hno; [|exact Hmethod|exact Hacc]. rewrite Eroutes. apply elem_of_app. right. by left. }
  destruct Hfound as (caps' & Hcap & Hin & _ & [Hf|[Hfirst|[? _]]]); [by left| |done].
  destruct (first_route_unique _ _ _ _ _ _ _ Hroute Hfirst) as [<- <-].
  rewrite Hmw, Hh in E. apply bind_ran in E as (r1 & w2 & Eh & E).
  injection E as -> _ _ ->. cbn [run_handler] in Eh.
  pose proof Hcap as (_ & _ & locs & rest & _ & _ & Hslots & Ho1).
  assert (request_at w1 (route_request pr route count slots)) as Hreq.
  { rewrite Forall_forall in Hroutes.
    eapply route_request_at; [by eapply owns_heap_kept|by apply Hroutes|exact Hp|].
    rewrite Hpath. exists w0, (pb ++ R). split; [exact Hcap|]. exists []. by rewrite app_nil_r. }
  rewrite <-Hslots in Hcap. pose proof (route_params_at _ _ _ _ _ _ _ _ _ _ _ _ _ _ _ Ho Hp Hpath Hcap Hnames) as Hvals.
  rewrite <-(owns_trace _ _ _ Ho1). exact (wp_ran _ _ _ _ _ (Hgives _ _ _ _ _ Ho1 Hreq Hvals) Eh).
Qed.

(** The response of the handler goes out whole. *)
Lemma shows_body w r pg body :
  shows w r pg → body_or_none w r body → body = pg_text pg ∧ (has_body r = true ∨ pg_text pg = []).
Proof.
  intros (_ & _ & [Hlen Hb] & _) Hbody. destruct pg as [st ty text]. cbn [pg_text] in *.
  assert (has_body r = true ∨ text = []) as Hhas.
  { destruct text as [|c text]; [by right|left]. destruct (Hb ltac:(done)) as (l & k & El & _).
    unfold has_body. by rewrite El, <-Hlen. }
  split; [|done]. destruct Hbody as [[Hlen2 Hb2]|[E ->]].
  - destruct text as [|c text]; [by apply nil_length_inv; rewrite Hlen2, <-Hlen|].
    destruct (Hb ltac:(done)) as (l & k & El & Eh). destruct (Hb2) as (l2 & k2 & El2 & Eh2).
    { intros ->. cbn [length] in *. lia. }
    rewrite El in El2. injection El2 as <-. rewrite Eh in Eh2. injection Eh2 as Eh2.
    symmetry. by apply (app_inj_1 (c :: text) body k k2); [rewrite Hlen2|].
  - destruct text as [|c text]; [done|]. destruct (Hb ltac:(done)) as (l & k & El & _). by rewrite E in El.
Qed.

Lemma shows_message w r pg ka :
  shows w r pg → has_body r = true ∨ pg_text pg = [] →
  response_sends r false ka (pg_text pg) = [message pg ka].
Proof.
  intros (Est & Ety & [Hlen _] & Hch & _) Hhas. unfold response_sends, message. rewrite Hch, Ety.
  assert (response_header r (pg_type pg) ka = response_header (page_response pg None) (pg_type pg) ka) as ->.
  { unfold response_header, page_response. cbn [rs_chunked rs_status rs_body_length].
    by rewrite Hch, Est, <-Hlen. }
  destruct (has_body r); [done|]. destruct Hhas as [?| ->]; [done|]. by rewrite app_nil_r.
Qed.

(** A request that has been parsed is answered with one message. *)
Lemma answer_shown w0 w app a pg pr qf hf cf pb :
  owns w0 w pb → app_at w0 app → serves app w0 a pg → parsed_owned pr qf hf cf pb →
  pr_method_enum pr = Some (ask_method a) → pr_path_only pr = ask_path a →
  ∃ w2, answer_request app pr w = Some ((), w2) ∧ w_heap w2 = w_heap w0 ∧
    (alloc_failure ∨ mnet_header_value_valid (Some (pg_type pg)) = true ∧
     ∃ evs, w_trace w2 = w_trace w0 ++ evs ++ [EvSend (message pg (pr_keep_alive pr))] ∧
       Forall no_traffic evs).
Proof.
  intros Ho Ha Hserves Hp Hm Hpath.
  destruct (answer_request_run app pr qf hf cf pb w0 w Ho Ha Hp) as
    (r & n & out & w1 & w2 & evs & Ed & Er & Hans & Hheap & Htrace); [by rewrite Hm|].
  exists w2. split; [done|]. split; [done|].
  assert (owns w0 w (pb ++ [])) as Ho' by by rewrite app_nil_r.
  destruct (dispatch_shows _ _ _ _ _ _ _ _ _ _ _ _ _ _ _ Ho' Ha Hserves Hp Hm Hpath Ed)
    as [?|[Hshow (hevs & Eh & Hns)]]; [by left|].
  pose proof Hshow as (Est & Ety & _ & Hch & Hv & Hlen). pose proof Hserves as (_ & Hhead & Hst & _).
  unfold answered in Hans. rewrite (proj2 (Z.eqb_neq (rs_status r) 0)) in Hans by (rewrite Est; lia).
  assert (∃ body sent line, body_or_none w1 r body ∧ answer_sent pr r body sent ∧
    evs = debug_events (app_debug app) line ++ (EvSend <$> sent)) as (body & sent & line & Hbody & Hsent & ->).
  { destruct (app_not_found_handler app); destruct Hans as (body & sent & ? & ? & ->); eauto 10. }
  destruct (shows_body _ _ _ _ Hshow Hbody) as [-> Hhas].
  unfold answer_sent, unsendable in Hsent. rewrite Hm, bool_decide_false, Ety in Hsent by naive_solver.
  destruct Hsent as [[_ [Hu|[Hu|Hu]]]|[_ ->]]; [congruence|specialize (Hlen (pr_keep_alive pr)); lia|by left|right].
  split; [done|]. exists (hevs ++ debug_events (app_debug app) line). split.
  - rewrite Htrace, (shows_message _ _ _ _ Hshow Hhas), Eh. by rewrite <-!app_assoc.
  - apply Forall_app. split; [done|apply debug_no_traffic].
Qed.

(** ** A round of the connection *)

(** The buffer when [data] has arrived, with old contents behind the terminator. *)
Lemma buffer_holds buffer used data :
  conn_ok buffer used → take used buffer = data → (0 < used)%nat →
  ∃ junk, buffer = data ++ 0 :: junk ∧ Forall is_byte data ∧ Forall is_byte junk ∧ used = length data.
Proof.
  intros [Hs Hb Hu Hn] Ht Hpos. pose proof size_value. specialize (Hn Hpos).
  exists (drop (S used) buffer). split_and!.
  - rewrite <-Ht. by rewrite (take_drop_middle buffer used 0 Hn).
  - rewrite <-Ht. by apply Forall_take.
  - by apply Forall_drop.
  - rewrite <-Ht, length_take. lia.
Qed.

(** A round that finds the request [a] at the start of the buffer answers it, and
    gives back the memory it took; it keeps the connection if [a] asks for it. *)
Lemma handle_ask w app a pg rest buffer used timeout_ms :
  wf_world w → app_at w app → limits_ok app → serves app w a pg → ask_ok a →
  conn_ok buffer used → (0 < used)%nat → take used buffer = ask_text a ++ rest →
  wp (handle_request app buffer used timeout_ms)
    (λ res w2, w_heap w2 = w_heap w ∧ wf_world w2 ∧
       (alloc_failure ∨ mnet_header_value_valid (Some (pg_type pg)) = true ∧
        (∃ evs, w_trace w2 = w_trace w ++ evs ++ [EvSend (message pg (ask_keeps a))] ∧
           Forall no_traffic evs) ∧
        if ask_keeps a
        then ∃ b' u', res = Some (true, b', u') ∧ conn_ok b' u' ∧ take u' b' = kept_data buffer used
        else res = Some (false, buffer, used))) w.
Proof.
  intros Hwf Ha Hl Hserves Hok Hc Hu Hdata. pose proof size_value.
  destruct (buffer_holds _ _ _ Hc Hdata Hu) as (junk & Eb & [_ Hrest]%Forall_app & Hjunk & Eu).
  rewrite <-app_assoc in Eb.
  pose proof (handle_request_spec w w [] app buffer used timeout_ms ltac:(by apply owns_refl) Ha Hl Hc Hu)
    as Hround.
  apply wp_run in Hround as (res & w2 & E & (n2 & evs2 & Ho2 & _) & _). apply wp_run. exists res, w2.
  split; [done|]. split; [by apply owns_nil_heap in Ho2|].
  split; [by eapply owns_wf_world|]. clear n2 evs2 Ho2.
  unfold handle_request in E. cbn zeta in E. pose proof (max_body_ok _ Hl) as Hmax.
  set (max_body := if 0 <? app_max_body_size app then _ else _) in *.
  apply bind_ran in E as ([code pr] & w3 & Ep & E).
  pose proof (parse_printed (ask_method a) (ask_target a) (ask_headers a) [] rest junk max_body
    timeout_ms w Hwf Hok (Forall_app_2 _ _ _ Hrest Hjunk)) as Hparse.
  rewrite !(app_nil_l (_ ++ _)), app_nil_l in Hparse. fold (ask_text a) in Hparse.
  rewrite <-Eb, <-Eu, (co_size _ _ Hc) in Hparse.
  destruct (wp_ran _ _ _ _ _ (Hparse ltac:(cbn [length]; lia) ltac:(lia)) Ep) as [[_ Hf]|[-> Hpr]]; [by left|].
  destruct Hpr as (_ & Hm & _ & Hpath & Hka & _ & _ & k & qf & cf & pb & Ho3 & Hp & _).
  change (negb (MNET_PARSE_OK =? MNET_PARSE_OK)) with false in E.
  destruct (answer_shown _ _ app a pg _ _ _ _ _ Ho3 (app_at_io _ _ _ _ Ha) Hserves Hp Hm)
    as (w4 & Ea & _ & Hans).
  { unfold ask_path. by rewrite <-Hpath. }
  apply bind_ran in E as ([] & w4' & Ea' & E). rewrite Ea in Ea'. injection Ea' as <-.
  rewrite Hka in *. fold (ask_keeps a) in *.
  assert (alloc_failure ∨ mnet_header_value_valid (Some (pg_type pg)) = true ∧
    ∃ evs, w_trace w4 = w_trace w ++ evs ++ [EvSend (message pg (ask_keeps a))] ∧
    Forall no_traffic evs) as [?|[Hv Htr]]; [|by left|right; split; [done|]].
  { destruct Hans as [?|(Hv & evs & Htr & Hns)]; [by left|right]. split; [done|]. exists evs. split; [|done].
    unfold io in Htr. cbn [w_trace] in Htr. by rewrite app_nil_r in Htr. }
  destruct (ask_keeps a).
  - apply bind_ran in E as ([b' u'] & w5 & En & E). injection E as <- <-.
    pose proof (wp_ran _ _ _ _ _ (next_request_spec buffer used w4 Hc Hu) En) as (-> & Hc' & _ & Ek).
    split; [done|]. by exists b', u'.
  - by injection E as <- <-.
Qed.
End serving.
