(* ===== verification/ExampleCommon.v ===== *)
(** * What the examples share

    [src/example/example_common.h], the access macros of the headers, and the
    idioms of the example handlers: a text built in an array on the stack with
    [snprintf (buf + offset, sizeof (buf) - offset, ...)], and the strings behind
    the pointers of a request.  The lemmas show that each idiom keeps the contract
    of handlers, and [example_serve] runs an application that was built well safely. *)

From Stdlib Require Import String.
From S2P Require Export Jsonf Dispatch App Run Workers Client.
Open Scope Z_scope.

(** A text in which a double quote is written as a backquote. *)
Definition quoted (s : String.string) : bytes :=
  (λ c, if c =? 96 then chQUOTE else c) <$> lit s.
Arguments quoted s%_string.

(** time() by the number of the system call, and the local time as strftime()
    formats it with ["%Y-%m-%d %H:%M:%S"]; [None] when localtime() fails. *)
Class Clock := {
  clk_time : nat → Z;
  clk_text : Z → option bytes;
  clk_time_range k : - 2 ^ 63 <= clk_time k < 2 ^ 63;
  clk_text_length t s : clk_text t = Some s → (length s < 64)%nat;
}.

Section common.
Context `{!Allocator}.

Definition MNET_GET (app : option mnet_app_t) (path : bytes)
    (handler : mnet_request_t → M mnet_response_t) : M (option mnet_app_t) :=
  '(_, app) ← mnet_route app MNET_HTTP_GET (Some path) (Some (HandlerUser handler)); mret app.

Definition MNET_POST (app : option mnet_app_t) (path : bytes)
    (handler : mnet_request_t → M mnet_response_t) : M (option mnet_app_t) :=
  '(_, app) ← mnet_route app MNET_HTTP_POST (Some path) (Some (HandlerUser handler)); mret app.

Definition MNET_PARAM (req : mnet_request_t) (name : bytes) : M ptr :=
  mnet_request_param (Some req) (Some name).
Definition MNET_QUERY (req : mnet_request_t) (name : bytes) : M ptr :=
  mnet_request_query (Some req) (Some name).
Definition MNET_HEADER (req : mnet_request_t) (name : bytes) : M ptr :=
  mnet_request_header (Some req) (Some name).
Definition MNET_BODY (req : mnet_request_t) : body_ptr := mnet_request_body (Some req).

Definition example_create : M (option mnet_app_t) :=
  app ← mnet_create;
  match app with
  | None => fprintf_stderr (lit "mnet: failed to create the application" ++ [chLF]);; mret None
  | Some _ => mret (mnet_set_debug app 1)
  end.
End common.

Definition fputs_stdout (text : bytes) : M unit := emit (EvStdout text).

(** [example_serve]: when [mnet_run] gives a pool of workers, [mnet_destroy] is what
    is left to do after they are joined. *)
Definition example_serve `{!Allocator, !OS, !Process, !Files, !Network, !Listener}
    (fuel requests : nat) (app : option mnet_app_t) (port : Z) (banner : option bytes) :
    M (run_result * option mnet_app_t) :=
  match banner with Some banner => fputs_stdout banner | None => mret () end;;
  fputs_stdout (lit "Press Ctrl+C to stop" ++ [chLF]);;
  '(result, app) ← mnet_run fuel requests app port;
  match result with
  | RunReturned rc => mnet_destroy app;; mret (RunReturned rc, None)
  | _ => mret (result, app)
  end.

(** The string at a body pointer. *)
Definition body_string (body : body_ptr) : M bytes :=
  match body with
  | BodyNull => ub
  | BodyInBuffer rest => if bool_decide (0 ∈ rest) then mret (cstr rest) else ub
  | BodyHeap p => load_str p
  end.

(** A [char] array of [size] bytes and the [offset] reached in it: its text so
    far.  [buf + offset] past the end of the array is undefined. *)
Abbreviation text_buf := (bytes * Z)%type.

Definition append (size : nat) (buf : text_buf) (text : bytes) : M text_buf :=
  let '(s, offset) := buf in
  if ((0 <=? offset) && (offset <=? Z.of_nat size))%bool then
    let '(n, out) := snprintf (size - Z.to_nat offset) text in
    mret (s ++ out, offset + n)
  else ub.

(** [table[i]] *)
Definition table_get (table : list (option bytes)) (i : Z) : M (option bytes) :=
  match table !! Z.to_nat i with
  | Some p => if 0 <=? i then mret p else ub
  | None => ub
  end.

(** [int id = atoi (id_str)] *)
Definition atoi_string (s : bytes) : M Z := defined (atoi (s ++ [chNUL])).

(** The loop over a NULL-terminated table that writes the entries that are kept,
    separated by commas. *)
Fixpoint entries_loop (keep : bytes → bool) (entry : Z → bytes → bytes) (size : nat)
    (table : list (option bytes)) (i : Z) (first : bool) (buf : text_buf) : M text_buf :=
  match table with
  | [] => ub
  | None :: _ => mret buf
  | Some item :: table =>
      if keep item then
        buf ← (if negb first then append size buf (lit ",") else mret buf);
        buf ← append size buf (entry i item);
        entries_loop keep entry size table (i + 1) false buf
      else entries_loop keep entry size table (i + 1) first buf
  end.

(** ** Reference definitions *)

Fixpoint kept_entries (keep : bytes → bool) (entry : Z → bytes → bytes)
    (table : list (option bytes)) (i : Z) : list bytes :=
  match table with
  | Some item :: table =>
      if keep item then entry i item :: kept_entries keep entry table (i + 1)
      else kept_entries keep entry table (i + 1)
  | _ => []
  end.

(** The entries with commas before them, and between them. *)
Definition commas (es : list bytes) : bytes := flat_map (λ e, lit "," ++ e) es.
Definition comma_list (es : list bytes) : bytes :=
  match es with [] => [] | e :: es => e ++ commas es end.

(** The list of the entries of a table that are kept. *)
Definition json_list (table : list (option bytes)) (keep : bytes → bool)
    (entry : Z → bytes → bytes) : bytes :=
  lit "[" ++ comma_list (kept_entries keep entry table 0) ++ lit "]".

(** ** The idioms keep the contract *)

(** The postcondition of handlers. *)
Definition handled (w0 : world) (bs : list (loc * bytes)) (r : mnet_response_t) (w' : world) : Prop :=
  ∃ rb, held w0 w' (rb ++ bs) ∧ response_ok w' r rb.

(** The pointer found is NULL or points to a short string. *)
Definition found (w : world) (v : ptr) : Prop :=
  v = None ∨ ∃ l s k, v = Some l ∧ w_heap w !! l = Some (s ++ 0 :: k) ∧ text_ok s.

Lemma lookup_found eq name w count names values :
  fields_at w count names values →
  wp (match names with
      | None => mret None
      | Some names => lookup_loop eq count 0 names values name
      end) (λ v w', w' = w ∧ found w v) w.
Proof.
  intros [->|[->|(ns & vs & ss & ts & -> & -> & Hs & Ht & Hns & Hvs & Hok)]].
  - destruct names; by apply wp_ret; split; [|left].
  - by apply wp_ret; split; [|left].
  - subst count. eapply wp_mono; [apply wp_lookup_first; [done|]|].
    { apply Forall2_length in Hvs. rewrite length_take in Hvs. lia. }
    intros v w' [-> [(i & n & Hi & _ & Hv & _)|[-> _]]]; split; try done; [|by left]. right.
    assert (take (length ss) vs !! i = Some v) as Hv'.
    { apply lookup_take_Some. split; [done|]. by eapply lookup_lt_Some. }
    destruct (Forall2_lookup_l _ _ _ _ _ Hvs Hv') as (s & Hs & l & k & -> & Hl & _).
    exists l, s, k. split_and!; [done|done|]. rewrite Forall_lookup in Hok. by eapply Hok.
Qed.

Lemma load_str_value l s k w :
  w_heap w !! l = Some (s ++ 0 :: k) → Forall (λ c, c ≠ 0) s → load_str (Some l) w = Some (s, w).
Proof.
  intros Hl Hs. assert (wp (load_str (Some l)) (λ a w', a = s ∧ w' = w) w) as H
    by (by eapply wp_load_str_at).
  by apply wp_run in H as (a & w' & E & -> & ->).
Qed.

Lemma atoi_range s v : atoi s = Some v → - 2 ^ 31 <= v < 2 ^ 31.
Proof.
  unfold atoi. set (s1 := drop_while isspace s).
  destruct (match s1 with [] => _ | _ => _ end) as [neg s2].
  destruct (drop_while isdigit s2); [done|]. case_test; [|done]. intros [= <-]. bool_prop. lia.
Qed.

(** A rule for each accessor: NULL, or a string that can be read. *)
Lemma wp_field (c : M ptr) w (Q : ptr → world → Prop) :
  wp c (λ v w', w' = w ∧ found w v) w → Q None w →
  (∀ l s, text_ok s → (∀ R : bytes → world → Prop, R s w → wp (load_str (Some l)) R w) → Q (Some l) w) →
  wp c Q w.
Proof.
  intros Hc Hnone Hsome. eapply wp_mono; [exact Hc|].
  intros v w' [-> [->|(l & s & k & -> & Hl & Hs)]]; [done|]. apply (Hsome l s Hs). intros R HR.
  eapply wp_load_str_at; [done|by apply text_ok_nonzero|done].
Qed.

Lemma param_found w req name :
  request_at w req → wp (MNET_PARAM req name) (λ v w', w' = w ∧ found w v) w.
Proof. intros [Hp _ _ _ _ _ _]. by apply lookup_found. Qed.

Lemma query_found w req name :
  request_at w req → wp (MNET_QUERY req name) (λ v w', w' = w ∧ found w v) w.
Proof. intros [_ Hq _ _ _ _ _]. by apply lookup_found. Qed.

Lemma header_found w req name :
  request_at w req → wp (MNET_HEADER req name) (λ v w', w' = w ∧ found w v) w.
Proof. intros [_ _ Hh _ _ _ _]. by apply lookup_found. Qed.

Lemma wp_body_string w req (Q : bytes → world → Prop) :
  request_at w req → MNET_BODY req ≠ BodyNull → (∀ s, text_ok s → Q s w) →
  wp (body_string (MNET_BODY req)) Q w.
Proof.
  unfold MNET_BODY, mnet_request_body. intros Hr Hne HQ. pose proof (ra_body _ _ Hr) as Hb.
  destruct (rq_body req) as [|rest|p]; cbn [body_readable body_string] in *; [done| |].
  - destruct Hb as (_ & H0 & Hb & Hl). rewrite bool_decide_true by done. apply wp_ret, HQ.
    by apply text_ok_cstr.
  - destruct Hb as (l & b & -> & _ & Hl & Hb & Hlen). apply wp_bind. eapply wp_load_at; [done|].
    rewrite bool_decide_true by set_solver. apply wp_ret, HQ. apply text_ok_block.
    + apply Forall_app. split; [done|]. by repeat constructor.
    + set_solver.
    + rewrite length_app. cbn [length]. lia.
Qed.

(** A text that still fits is appended whole. *)
Lemma wp_append size s text w (Q : text_buf → world → Prop) :
  (length s + length text < size)%nat → Q (s ++ text, Z.of_nat (length (s ++ text))) w →
  wp (append size (s, Z.of_nat (length s)) text) Q w.
Proof.
  intros Hl HQ. unfold append.
  rewrite (proj2 (Z.leb_le 0 _)), (proj2 (Z.leb_le _ _)) by lia. cbn [andb].
  unfold snprintf. rewrite take_ge by lia. apply wp_ret.
  by rewrite length_app, Nat2Z.inj_add in HQ.
Qed.

Definition comma (first : bool) : bytes := if first then [] else lit ",".

(** The loop writes the entries that are kept, if they fit. *)
Lemma wp_entries_loop keep entry size table : ∀ (i : Z) (first : bool) (s : bytes) w (Q : text_buf → world → Prop),
  None ∈ table →
  let es := kept_entries keep entry table i in
  let text := if first then comma_list es else commas es in
  (length s + length text < size)%nat → Q (s ++ text, Z.of_nat (length (s ++ text))) w →
  wp (entries_loop keep entry size table i first (s, Z.of_nat (length s))) Q w.
Proof.
  induction table as [|[item|] table IH]; intros i first s w Q Hin es text Hl HQ;
    [by apply not_elem_of_nil in Hin| |].
  - assert (None ∈ table) as Hin' by (by apply elem_of_cons in Hin as [?|?]).
    unfold text, es in *. clear text es. cbn [entries_loop kept_entries] in *.
    destruct (keep item); [|by apply IH].
    apply wp_bind.
    set (rest := commas (kept_entries keep entry table (i + 1))).
    assert (length s + length (comma first) + length (entry i item) +
            length rest < size)%nat as Hfit.
    { destruct first; cbn [comma_list commas flat_map] in Hl;
        fold (commas (kept_entries keep entry table (i + 1))) rest in Hl;
        rewrite ?length_app in *; cbn [comma length]; lia. }
    apply (wp_mono _ (λ b w', w' = w ∧ b = (s ++ (comma first),
                        Z.of_nat (length (s ++ (comma first)))))).
    { destruct first; cbn [negb].
      - apply wp_ret. by rewrite app_nil_r.
      - apply wp_append; [unfold comma in Hfit; lia|done]. }
    intros b w' [-> ->]. apply wp_bind. apply wp_append; [rewrite length_app; lia|].
    apply IH; [done|rewrite !length_app; fold rest; lia|]. fold rest.
    destruct first; cbn [comma_list commas flat_map] in HQ;
      fold (commas (kept_entries keep entry table (i + 1))) rest in HQ;
      unfold comma; rewrite <-?(assoc_L app) in *; by rewrite ?app_nil_l in *.
  - unfold text, es in *. clear text es. cbn in *. destruct first; rewrite app_nil_r in HQ; by apply wp_ret.
Qed.

(** Building a list in an array of 512 bytes and answering with it. *)
Lemma list_answer `{!Allocator} table keep entry w (Q : mnet_response_t → world → Prop) :
  None ∈ table → (length (json_list table keep entry) < Z.to_nat 512)%nat →
  wp (mnet_json (Some (json_list table keep entry))) Q w →
  wp (json ← append (Z.to_nat 512) ([], 0) (lit "[");
      json ← entries_loop keep entry (Z.to_nat 512) table 0 true json;
      '(json, _) ← append (Z.to_nat 512) json (lit "]");
      mnet_json (Some json)) Q w.
Proof.
  unfold json_list. rewrite !length_app. intros Hn Hl HQ. apply wp_bind.
  apply (wp_append _ [] (lit "[")); [cbn [length Nat.add]; lia|]. rewrite app_nil_l.
  apply wp_bind, wp_entries_loop; [done|lia|]. apply wp_bind.
  apply wp_append; [rewrite length_app; lia|]. by rewrite <-(assoc_L app).
Qed.

Section handled_proofs.
Context `{!Allocator, !Floats}.

Lemma handled_owned w0 w n evs rb bs r :
  owns (io w0 n evs) w (rb ++ bs) → open_sockets evs = 0 → response_owned r rb →
  (rs_status r = 0 → rb = []) → rs_chunked r = false → handled w0 bs r w.
Proof.
  intros Ho Hs Hr Hz Hc. exists rb. split; [by eapply held_io|]. split_and!; [done|done|].
  by rewrite Hc.
Qed.

Lemma construct_handled c text w0 w n evs bs :
  owns (io w0 n evs) w bs → open_sockets evs = 0 → construct_status c ≠ 0 →
  wp (construct c (Some text)) (handled w0 bs) w.
Proof.
  intros Ho Hs Hc. eapply wp_mono; [apply construct_spec; by eapply owns_wf_world|].
  intros r w' (rb & Ho' & Hr). eapply handled_owned; [by eapply owns_trans|done| | |].
  - by eapply response_result_owned.
  - destruct Hr as [(l & -> & ->)|(_ & _ & _ & _ & _ & ->)]; [by intros ?|done].
  - by destruct Hr as [(l & -> & _)|(_ & _ & _ & _ & ? & _)].
Qed.

(** A handler that returns a fixed page. *)
Lemma page_ok (page : bytes) : handler_ok (λ _, mnet_html (Some page)).
Proof.
  intros req w0 w bs Ho _. eapply (construct_handled CHtml page w0 w 0 []); [by rewrite io_nil|done..].
Qed.
End handled_proofs.

(** *** The pieces of the formats of the examples *)

(** A string or a number between fixed texts. *)
Definition string_seg `{!Floats} (s : bytes) : segment := SegString (Some s).
Definition int_seg `{!Floats} (v : Z) : segment := SegInteger [] ModNone 100 v.

Section example_segments.
Context `{!Floats}.

Lemma string_seg_ok s : text_ok s → seg_ok (string_seg s).
Proof. by intros [? _]. Qed.

Lemma print_int_range v : - 2 ^ 31 <= v < 2 ^ 31 → Z.abs v < 2 ^ 64.
Proof. lia. Qed.

Lemma directive_empty : directive_ok [].
Proof. by split. Qed.

Lemma int_seg_ok v : - 2 ^ 31 <= v < 2 ^ 31 → seg_ok (int_seg v).
Proof.
  intros Hv. pose proof (length_print_integer (fst (parse_directive [])) 100 v ltac:(lia)) as Hl.
  split; [apply directive_empty|]. split_and!; [done|cbn; lia|exact Hv|].
  unfold fits_int. cbn [mod_value].
  change (d_width (fst (parse_directive []))) with 0 in Hl.
  change (default 0 (d_precision (fst (parse_directive [])))) with 0 in Hl. lia.
Qed.

(** A supported piece that is not too long and has no precision. *)
Definition seg_fine (s : segment) : Prop := seg_ok s ∧ piece_sizes s ∧ is_precision s = false.

Lemma text_segs_fine s :
  forallb (λ c, negb (c =? 0) && negb (c =? chPERCENT))%bool s = true → Forall seg_fine (text_segs s).
Proof.
  rewrite Forall_forallb. intros Hs. apply Forall_fmap. eapply Forall_impl; [exact Hs|].
  intros c Hc. simpl in Hc. bool_prop. split_and!; [by split|by vm_compute|done].
Qed.

Lemma string_seg_fine s : text_ok s → seg_fine (string_seg s).
Proof.
  intros Hs. split_and!; [by apply string_seg_ok| |done].
  pose proof (string_sizes (Some s) (proj1 Hs)) as Hsz. specialize (Hsz ltac:(destruct Hs; cbn; unfold MAX_STRING; lia) (length s)).
  cbn [string_text default from_option id] in Hsz. by rewrite take_ge in Hsz.
Qed.

Lemma int_seg_fine v : - 2 ^ 31 <= v < 2 ^ 31 → seg_fine (int_seg v).
Proof.
  intros Hv. split_and!; [by apply int_seg_ok| |done]. pose proof (int_seg_ok v Hv) as (_ & _ & _ & _ & Hf).
  unfold fits_int in Hf. unfold piece_sizes. cbn [seg_text int_seg] in *. lia.
Qed.
End example_segments.

(** ** Applications built by the examples *)

Lemma good_pattern_check p :
  forallb (λ c, negb (c =? chSTAR)) p = true → (capture_chars p ≤ MNET_MAX_PARAMS)%nat →
  good_pattern p.
Proof.
  intros Hp Hc. split; [done|]. intros pre post ->. rewrite Forall_forallb in Hp.
  apply Forall_app in Hp as [_ [Hp _]%Forall_cons]. simpl in Hp. by bool_prop.
Qed.

Section apps.
Context `{!Allocator}.

Lemma route_good_step w0 w app method path h (Q : option mnet_app_t → world → Prop) :
  good_inv w0 (Some app) w → good_pattern path → handler_ok h →
  (∀ app' w', good_inv w0 (Some app') w' → Q (Some app') w') →
  wp ('(_, app) ← mnet_route (Some app) method (Some path) (Some (HandlerUser h)); mret app) Q w.
Proof.
  intros Hi Hp Hh HQ. eapply wp_mono; [apply wp_conj|].
  - by apply (run_op_good w0 w (Some app) (OpRoute method (Some path) (Some (HandlerUser h)))).
  - destruct Hi as [_ (bs & Ha & Ho)]. apply wp_bind. eapply wp_mono; [by eapply add_route_spec|].
    intros [rc app'] w' (app2 & _ & E & _). simpl in E. subst app'. apply wp_ret.
    instantiate (1 := λ app' _, app' ≠ None). done.
  - intros [app'|] w' [Hi' Hne]; [by apply HQ|done].
Qed.

Lemma example_create_spec w (Q : option mnet_app_t → world → Prop) :
  wf_world w →
  (∀ app w', app_debug app = 1 → good_inv w (Some app) w' → Q (Some app) w') →
  (∀ w', alloc_failure → held w w' [] → Q None w') →
  wp example_create Q w.
Proof.
  intros Hwf Hsome Hnone. unfold example_create, mnet_create. apply wp_bind, wp_bind.
  eapply wp_alloc; [by apply owns_refl| |].
  - intros w1 Hf Ho. apply wp_ret, wp_bind. eapply wp_stderr; [exact Ho|]. intros w2 Ho2.
    apply wp_ret, Hnone; [done|]. by eapply held_io.
  - intros l w1 Ho. apply wp_ret, wp_ret, Hsome; [done|]. split.
    + split; [constructor|done|done|]. by split.
    + eexists. split; [|exact Ho]. split; [done|done|]. by exists [].
Qed.
End apps.

(** An application that can be served: whatever else is in memory, any connection
    is handled safely, and the application can be destroyed. *)
Definition servable `{!Allocator, !OS, !Process, !Files} (w : world) (app : option mnet_app_t)
    (w' : world) : Prop :=
  match app with
  | None => alloc_failure ∧ w_heap w' = w_heap w
  | Some app =>
      (∀ requests buffer w2, wf_world w2 → heap_kept w' w2 →
         length buffer = MNET_REQUEST_BUFFER_SIZE → Forall is_byte buffer →
         wp (mnet_handle_client requests app buffer) (λ _ w3, released w2 w3) w2) ∧
      wp (mnet_destroy (Some app)) (λ _ w3, w_heap w3 = w_heap w) w'
  end.

Lemma good_servable `{!Allocator, !OS, !Process, !Files} w app w' :
  good_inv w (Some app) w' → servable w (Some app) w'.
Proof.
  intros [Hg (bs & Ha & Ho)]. pose proof (app_owned_at _ _ _ _ Hg Ha Ho) as Hat. split.
  - intros requests buffer w2 Hwf Hk Hlen Hb. eapply wp_mono.
    { eapply (serve_loop_spec requests w2 w2 []); [by apply owns_refl| |by apply ag_limits|].
      - by eapply app_at_kept.
      - pose proof size_value. split; [done|done|lia|lia]. }
    intros closed w3. apply held_released.
  - eapply wp_destroy; [exact Ha|exact Ho|]. intros w3 Ho3. by apply owns_nil_heap in Ho3.
Qed.

(** *** The program around the application *)

(** How the program has ended, or goes on with its workers. *)
Definition served_from `{!Allocator, !OS, !Process, !Files, !Network, !Listener} (w : world)
    (res : run_result * option mnet_app_t) (w1 : world) : Prop :=
  match res with
  | (RunReturned _, None) => released w w1
  | (RunUnfinished, _) => True
  | (RunPool slots threads, Some app) =>
      pool_safe w app slots threads w1 ∧ pool_goes_on app slots threads w1
  | _ => False
  end.

Section serve.
Context `{!Allocator, !OS, !Process, !Files, !Network, !Listener}.

Lemma released_io w n evs w' : open_sockets evs = 0 → released (io w n evs) w' → released w w'.
Proof.
  intros Es [Hh (evs2 & Et & Es2)]. split; [done|]. exists (evs ++ evs2).
  split; [by rewrite Et, app_assoc|sockets].
Qed.

Lemma served_from_io w n evs res w1 :
  open_sockets evs = 0 → served_from (io w n evs) res w1 → served_from w res w1.
Proof.
  intros Es. destruct res as [[code| |slots threads] [app|]]; cbn; try done; [by apply released_io|].
  intros [Hs Hp]. split; [|done]. intros sv Hsv. destruct (Hs sv Hsv) as (Hpend & Hsig & Hret).
  split_and!; [done..|]. intros code Em. eapply wp_mono; [by eapply Hret|]. intros ? w2. by apply released_io.
Qed.

Lemma fputs_good w app w1 text (Q : unit → world → Prop) :
  good_inv w app w1 → (∀ w2, good_inv (io w 0 [EvStdout text]) app w2 → Q () w2) →
  wp (fputs_stdout text) Q w1.
Proof.
  intros Hi HQ. destruct app as [app|]; cbn [good_inv] in *.
  - destruct Hi as [Hg (bs & Ha & Ho)]. eapply wp_emit; [exact Ho|]. intros w2 Ho2. apply HQ. eauto.
  - eapply wp_emit; [exact Hi|]. intros w2 Ho2. by apply HQ.
Qed.

Lemma run_destroy_spec w w1 app fuel requests port :
  good_inv w app w1 →
  wp ('(result, app) ← mnet_run fuel requests app port;
      match result with
      | RunReturned rc => mnet_destroy app;; mret (RunReturned rc, None)
      | _ => mret (result, app)
      end) (served_from w) w1.
Proof.
  intros Hi. apply wp_bind. eapply wp_mono; [by apply run_good_spec|]. intros [[code| |slots threads] app'] w2 Hr.
  - apply wp_bind. eapply wp_mono; [by eapply ran_returned|]. intros ? w3 Hw3. by apply wp_ret.
  - by apply wp_ret.
  - apply wp_ret. destruct app' as [app'|]; [|by destruct Hr as [_ [code Hr]]].
    split; [by apply ran_pool_safe|by eapply ran_pool_goes_on].
Qed.

Lemma example_serve_spec w w1 app fuel requests port banner :
  good_inv w app w1 → wp (example_serve fuel requests app port banner) (served_from w) w1.
Proof.
  intros Hi. unfold example_serve. apply wp_bind.
  apply (wp_mono _ (λ _ w2, ∃ evs, open_sockets evs = 0 ∧ good_inv (io w 0 evs) app w2)).
  { destruct banner as [banner|].
    - eapply fputs_good; [exact Hi|]. intros w2 Hi2. by exists [EvStdout banner].
    - apply wp_ret. exists []. by rewrite io_nil. }
  intros _ w2 (evs & Es & Hi2). apply wp_bind. eapply fputs_good; [exact Hi2|]. intros w3 Hi3.
  eapply wp_mono; [by apply run_destroy_spec|]. intros res w4 Hs. rewrite io_io in Hs.
  eapply served_from_io; [|exact Hs]. sockets.
Qed.
End serve.

(** Split the pieces of a fixed format; its texts are fine. *)
Ltac fine_segs :=
  repeat match goal with
  | |- Forall _ (_ ++ _) => apply Forall_app_2
  | |- Forall _ [_] => apply Forall_singleton
  | |- Forall _ (text_segs _) => by apply text_segs_fine
  end.

(** The rule for a call of [mnet_jsonf] with a fixed format. *)
Lemma jsonf_rule `{!Allocator, !Floats} segs format args w0 w bs :
  owns w0 w bs → format_of segs = format → args_of segs = args →
  (Z.of_nat (length format) < 2 ^ 20) → Forall seg_fine segs →
  wp (mnet_jsonf (Some format) args)
    (λ r w', ∃ rb, owns w0 w' (rb ++ bs) ∧ jsonf_answer segs r rb) w.
Proof.
  intros Ho <- <- Hl Hs. apply jsonf_answer_spec; [done| | |].
  - eapply Forall_impl; [exact Hs|]. by intros s [? _].
  - apply text_sizes; [|done]. eapply Forall_impl; [exact Hs|]. by intros s (_ & ? & _).
  - induction Hs as [|s segs (_ & _ & Hp) _ IH]; [done|]. cbn [existsb]. rewrite Hp.
    apply IH. unfold format_of in *. rewrite fmap_cons in Hl. cbn [concat] in Hl.
    rewrite length_app in Hl. lia.
Qed.

Lemma jsonf_answer_handled `{!Allocator, !Floats} segs w0 w n evs rb bs r :
  owns (io w0 n evs) w (rb ++ bs) → open_sockets evs = 0 → jsonf_answer segs r rb →
  handled w0 bs r w.
Proof.
  intros Ho Hs Hr. eapply handled_owned; [exact Ho|done|by eapply jsonf_answer_owned|..];
    by destruct Hr as [(l & k & -> & ->)|(_ & p & -> & _)].
Qed.

(** For the witnesses: a field [name] with the value [value] in memory. *)
Definition field_world (name value : bytes) : world :=
  World 2 {[ 0%nat := name ++ [0]; 1%nat := value ++ [0] ]} 0 [].

Lemma field_world_wf name value : wf_world (field_world name value).
Proof.
  intros [|[|l]] Hl; simpl in Hl; [lia|lia|]. cbn [field_world w_heap].
  by rewrite lookup_insert_ne, lookup_singleton_ne by lia.
Qed.

(** A request whose only query parameter is that field. *)
Definition query_request : mnet_request_t :=
  MkRequest (lit "GET") (lit "/") (Some []) BodyNull 0 0 None None
    1 (Some [Some 0%nat]) (Some [Some 1%nat]) 0 None None 0 None None zero_extras None.

(** It is always the first of January 1970. *)
Definition demo_clock : Clock.
Proof.
  refine {| clk_time _ := 0; clk_text _ := Some (lit "1970-01-01 00:00:00") |}.
  - intros _. lia.
  - intros t s [= <-]. vm_compute. lia.
Defined.
