(* ===== verification/Exchange.v ===== *)
(** * A whole exchange

    The two sides of mnet put together: the request that [mnet_call]
    ([src/mnet_client.c]) sends for a URL arrives at [mnet_handle_client]
    ([src/mnet_server.c]), is read, parsed, dispatched to the route of an
    application and answered, and [mnet_read_response] gets back what the handler
    of that route returned.  The handler [hello], which greets the name in the path,
    is there to run the exchange. *)

From S2P Require Export ExampleCommon Site.

#[local] Opaque MNET_REQUEST_BUFFER_SIZE.

(** The request of [mnet_call]. *)
Definition call_ask (host path : bytes) : ask := MkAsk MNET_HTTP_GET path (client_headers host).

(** A client to which the message of [pg] is delivered, in whatever pieces, reads
    its status and its text. *)
Definition readable `{!Allocator} (pg : page) (ka : bool) : Prop :=
  ∀ (client : OS) (net : Network) max_body fuel v,
    Z.of_nat (length (pg_text pg)) <= max_body <= 2 ^ 60 → wf_world v →
    heard (H := client) (H0 := net) fuel (w_calls v) (max_body + 8192) = Some (message pg ka, false) →
    wp (mnet_read_response (H0 := client) (H1 := net) fuel max_body)
      (λ res v', (alloc_failure ∧ w_heap v' = w_heap v) ∨
         ∃ l, res = Some (0, (Some l, length (pg_text pg), pg_status pg)) ∧
           w_heap v' = <[l := pg_text pg ++ [0]]> (w_heap v)) v.

Lemma message_readable `{!Allocator} pg ka :
  mnet_header_value_valid (Some (pg_type pg)) = true → 0 < pg_status pg < 2 ^ 31 → readable pg ka.
Proof.
  intros Hv Hst client net max_body fuel v Hmax Hwv Hheard.
  set (r := page_response pg (Some 0%nat)).
  assert (has_body r = true ∨ pg_text pg = []) as Hhas.
  { unfold has_body, r. cbn. destruct (pg_text pg); [by right|by left]. }
  apply (client_reads_sent _ client net r ka (pg_text pg) max_body fuel v); try done; [cbn; lia|].
  assert (response_sends r false ka (pg_text pg) = [message pg ka]) as ->; [|cbn [concat]; by rewrite app_nil_r].
  unfold response_sends, message. change (rs_chunked r) with false. cbn match.
  destruct (has_body r); [done|]. destruct Hhas as [?| ->]; [done|]. by rewrite app_nil_r.
Qed.

(** ** A handler *)

(** The value of the first parameter with this name. *)
Fixpoint param_value (name : bytes) (ps : list (bytes * bytes)) : option bytes :=
  match ps with
  | [] => None
  | (n, v) :: ps => if strcmp_eq n name then Some v else param_value name ps
  end.

(** The pointer to a string, or NULL. *)
Definition string_or_null (w : world) (s : option bytes) (p : ptr) : Prop :=
  match s with
  | Some s => ∃ l k, p = Some l ∧ w_heap w !! l = Some (s ++ 0 :: k) ∧ Forall (λ c, c ≠ 0) s
  | None => p = None
  end.

Lemma assoc_param w name ps : ∀ vals,
  points_to w (take (length ps) vals) ps.*2 →
  string_or_null w (param_value name ps) (Request.assoc strcmp_eq name ps.*1 vals).
Proof.
  induction ps as [|[n v] ps IH]; intros vals Hv; [done|]. cbn [length fmap list_fmap fst snd] in *.
  destruct vals as [|p vals]; [by inversion Hv|]. apply Forall2_cons in Hv as [(l & k & -> & Hl & Hn) Hv].
  cbn [param_value Request.assoc]. destruct (strcmp_eq n name); [|by apply IH]. by exists l, k.
Qed.

(** [mnet_request_param] finds the parameters of the request. *)
Lemma param_shown w req ps name :
  params_at w req ps →
  wp (mnet_request_param (Some req) (Some name))
    (λ p w', w' = w ∧ string_or_null w (param_value name ps) p) w.
Proof.
  intros ([Hln Hn] & [Hlv Hv] & _). unfold mnet_request_param.
  destruct (rq_param_names req) as [nps|].
  2:{ apply fmap_nil_inv in Hn as ->. by apply wp_ret. }
  rewrite length_fmap in Hln, Hlv. destruct (rq_param_values req) as [vals|].
  2:{ apply fmap_nil_inv in Hv as ->. rewrite <-Hln. by apply wp_ret. }
  rewrite <-Hln in *. rewrite <-(length_fmap fst ps) at 1.
  apply wp_lookup; [by rewrite length_fmap| |split; [done|by apply assoc_param]].
  rewrite length_fmap. apply Forall2_length in Hv. rewrite length_fmap, length_take in Hv. lia.
Qed.

Lemma status_text_length s : (length (status_text s) ≤ 31)%nat.
Proof. unfold status_text. repeat (case_match; [vm_compute; lia|]). vm_compute. lia. Qed.

Lemma short_header r ka :
  rs_chunked r = false → 0 <= rs_status r < 2 ^ 31 → Z.of_nat (rs_body_length r) < 2 ^ 40 →
  (length (default_type r) ≤ 100)%nat →
  Z.of_nat (length (response_header r (default_type r) ka)) < 1024.
Proof.
  intros Hch Hst Hlen Hct. unfold response_header. rewrite Hch, !length_app.
  unfold print_int. rewrite (proj2 (Z.ltb_ge _ _)) by lia.
  pose proof (length_print_nat (rs_status r) 10 ltac:(lia) ltac:(lia)).
  pose proof (length_print_nat (Z.of_nat (rs_body_length r)) 13 ltac:(lia) ltac:(lia)).
  pose proof (status_text_length (rs_status r)).
  assert (length (connection_text ka) ≤ 10)%nat by (destruct ka; vm_compute; lia).
  change (length CRLF) with 2%nat. change (length (lit "HTTP/1.1 ")) with 9%nat.
  change (length (lit " ")) with 1%nat. change (length (lit "Content-Length: ")) with 16%nat.
  change (length (lit "Content-Type: ")) with 14%nat. change (length (lit "Connection: ")) with 12%nat. lia.
Qed.

Section hello.
Context `{!Allocator}.

(** A text is shown as it is given. *)
Lemma construct_shows w0 w bs c text (Q : mnet_response_t → world → Prop) :
  owns w0 w bs → Z.of_nat (length text) < 2 ^ 40 → 0 <= construct_status c < 2 ^ 31 →
  (∀ r w', w_trace w' = w_trace w →
     alloc_failure ∨ shows w' r (MkPage (construct_status c) (construct_type c) text) → Q r w') →
  wp (construct c (Some text)) Q w.
Proof.
  intros Ho Hlen Hst HQ. eapply wp_mono; [apply construct_spec; by eapply owns_wf_world|].
  intros r w' (rb & Ho' & Hr). apply HQ; [by apply owns_trace in Ho'|].
  destruct Hr as [(l & -> & ->)|[Hf _]]; [right|by left]. split_and!; [done|done| |done|by destruct c|].
  - split; [done|]. intros _. exists l, [chNUL]. split; [done|].
    eapply owns_in_heap; [exact Ho'|]. by left.
  - intros ka. apply short_header; [done..|]. unfold default_type. destruct c; vm_compute; lia.
Qed.

(** A handler that greets the name in the path. *)
Definition hello (req : mnet_request_t) : M mnet_response_t :=
  name ← mnet_request_param (Some req) (Some (lit "name"));
  match name with
  | Some _ => s ← load_str name; mnet_text (Some (lit "hello " ++ s))
  | None => mnet_error 404 (Some (lit "who?"))
  end.

Definition hello_page (ps : list (bytes * bytes)) : page :=
  match param_value (lit "name") ps with
  | Some v => MkPage 200 (lit "text/plain; charset=utf-8") (lit "hello " ++ v)
  | None => MkPage 404 (lit "text/plain; charset=utf-8") (lit "who?")
  end.

Lemma param_value_text name ps v :
  Forall text_ok ps.*2 → param_value name ps = Some v → text_ok v.
Proof.
  induction ps as [|[n s] ps IH]; [done|]. cbn [fmap list_fmap snd param_value].
  intros [Hs Hps]%Forall_cons. case_match; [by intros [= <-]|by apply IH].
Qed.

Lemma hello_gives : gives hello hello_page.
Proof.
  intros req w0 w bs ps Ho _ Hps. unfold hello, hello_page. apply wp_bind.
  eapply wp_mono; [by apply param_shown|]. intros p w' [-> Hp].
  assert (∀ (r : mnet_response_t) (w' : world) pg, w_trace w' = w_trace w →
    alloc_failure ∨ shows w' r pg → alloc_failure ∨ shows w' r pg ∧
      ∃ evs, w_trace w' = w_trace w ++ evs ∧ Forall no_traffic evs) as Hdone.
  { intros r w' pg Ht [?|?]; [by left|right]. split; [done|]. exists []. by rewrite app_nil_r. }
  destruct (param_value (lit "name") ps) as [v|] eqn:Ev; cbn [string_or_null] in Hp.
  - destruct Hp as (l & k & -> & Hl & Hn). apply wp_bind. eapply wp_load_str_at; [exact Hl|done|].
    destruct (param_value_text _ _ _ (proj2 (proj2 Hps)) Ev) as [_ Hlen].
    apply (construct_shows w0 w bs CText); [exact Ho| |done|].
    + rewrite length_app. change (length (lit "hello ")) with 6%nat. lia.
    + intros r w' Ht Hs. by apply Hdone.
  - subst p. apply (construct_shows w0 w bs (CError 404)); [exact Ho|done|done|].
    intros r w' Ht Hs. by apply Hdone.
Qed.

Lemma hello_ok : handler_ok hello.
Proof.
  intros req w0 w bs Ho Hreq. unfold hello. apply wp_bind.
  eapply (wp_field (MNET_PARAM req (lit "name"))); [by apply param_found| |].
  - by eapply (construct_handled (CError 404) _ w0 w 0 []); [rewrite io_nil|..].
  - intros l s Hs Hload. apply wp_bind, Hload.
    by eapply (construct_handled CText _ w0 w 0 []); [rewrite io_nil|..].
Qed.
End hello.

(** An application with one route, whose handler greets the name in the path. *)
Definition hello_route : mnet_route_t :=
  MkRoute MNET_HTTP_GET (Some (lit "/hello/:name")) (HandlerUser (hello (H := all_ok)))
    (Some (PArr 1%nat [Some 0%nat])) None None.

Definition hello_app : mnet_app_t :=
  MkApp 0 None [hello_route] 8 true 0 0 0 80 None None 30 0 5 0 None 1 0.

(** The memory in which the route has stored the name of its parameter. *)
Definition hello_world : world := field_world (lit "name") [].

Lemma hello_names : points_to hello_world [Some 0%nat] [lit "name"].
Proof.
  apply Forall2_cons. split; [|done]. exists 0%nat, []. split_and!; [done..|]. by repeat constructor.
Qed.

Lemma hello_app_at : app_at hello_world hello_app.
Proof.
  split; [|done..]. apply Forall_singleton. split; [apply hello_ok| | |done].
  - intros p [= <-]. by apply Nat.leb_le.
  - exists [lit "name"]. split; [apply hello_names|]. intros path caps (p & [= <-] & _ & _ & Hm).
    change [lit "name"] with (pattern_names (lit "/hello/:name")).
    eapply captures_le_names; [|exact Hm].
    apply (good_pattern_check (lit "/hello/:name")); [done|by apply Nat.leb_le].
Qed.

Lemma hello_matches name :
  name ≠ [] → chSLASH ∉ name →
  route_accepts hello_route (lit "/hello/" ++ name) [CapParam name].
Proof.
  intros Hne Hs. exists (lit "/hello/:name"). split_and!; [done..|].
  do 7 (apply matches_char; [done|done|]). rewrite <-(app_nil_r name) at 1.
  apply (matches_param (lit "name") [] name [] []);
    [|by left|by repeat constructor|by left|by left|constructor].
  apply Forall_forall. by intros c Hc ->.
Qed.

Definition hello_page_of (name : bytes) : page :=
  MkPage 200 (lit "text/plain; charset=utf-8") (lit "hello " ++ cstr (capture_block (CapParam name))).

(** Every request for a name is answered with its greeting. *)
Lemma hello_serves a name :
  ask_method a = MNET_HTTP_GET → ask_path a = lit "/hello/" ++ name → name ≠ [] → chSLASH ∉ name →
  serves (H := all_ok) hello_app hello_world a (hello_page_of name).
Proof.
  intros Hm Hp Hne Hs. split_and!; [done|by rewrite Hm|done|done|].
  exists hello_route, [CapParam name], (hello (H := all_ok)), [lit "name"], hello_page.
  split_and!; [|done| |apply hello_gives|done].
  - exists [], []. rewrite Hm, Hp. split_and!; [done|done|by apply hello_matches|].
    by intros ? ? ?%not_elem_of_nil.
  - split; [done|]. exact hello_names.
Qed.

(** ** Properties *)

(** The time that [mnet_handle_client] gives the first request of a connection. *)
Definition request_timeout (app : mnet_app_t) : Z :=
  if 0 <? app_timeout_seconds app then app_timeout_seconds app * 1000 else 30000.

(** C2: a client gets what the handler of the server returned: when a connection has
    received, in whatever pieces, the request that [mnet_call] sends for a host and
    a path, and the application serves that request with a page (its first route for
    the path belongs to a handler that gives this page for the values captured from
    the path, under the names of the route), then the server sends exactly the message
    of the page, closes the connection and gives back all memory, and that message,
    delivered to the client in any pieces, makes [mnet_read_response] return the
    status and exactly the text of the page, unless memory is short on one of the
    sides. *)
Theorem http_exchange `{!Allocator, !OS, !Process, !Files} (app : mnet_app_t) (pg : page)
    (host path buffer b : bytes) (u : nat) (w w1 : world) :
  wf_world w → app_at w app → limits_ok app → serves app w (call_ask host path) pg →
  url_chars host → url_chars path → path ≠ [] →
  (length host < Z.to_nat 1024)%nat → (length path < Z.to_nat 2048)%nat →
  length buffer = MNET_REQUEST_BUFFER_SIZE → Forall is_byte buffer →
  (now ← now_ms_mono;
   read_loop (MNET_REQUEST_BUFFER_SIZE - 1) buffer 0 (now + request_timeout app)) w =
    Some ((b, u, true), w1) →
  take u b = call_request path host →
  wp (serve_one app buffer 0 false)
    (λ res w2, w_heap w2 = w_heap w ∧
       (alloc_failure ∨
        res = Some (false, b, u) ∧
        (∃ evs, w_trace w2 = w_trace w1 ++ evs ++ [EvSend (message pg false)] ∧
           Forall no_traffic evs) ∧
        readable pg false)) w.
Proof.
  intros Hwf Ha Hl Hserves Hho Hpa Hne Hlh Hlp Hsz Hbytes Hread Hreq.
  pose proof size_value as Hsize. pose proof Hl as [Ht _ _].
  apply bind_ran in Hread as (now & w' & Enow & Hread).
  assert (owns (io w 1 []) w' []) as Ho'.
  { refine (wp_ran _ (λ _ w', owns (io w 1 []) w' []) _ _ _ _ Enow). eapply wp_sys; [|done].
    by apply owns_refl. }
  assert (conn_ok buffer 0) as Hc0 by (split; [done|done|lia|lia]).
  pose proof (wp_ran _ _ _ _ _ (read_loop_spec (MNET_REQUEST_BUFFER_SIZE - 1) _ _ _ buffer 0
    (now + request_timeout app) Ho' Hc0 ltac:(lia)) Hread) as (n & chunks & Ho1 & Hc & _ & Hhave).
  destruct (Hhave eq_refl) as (_ & Hu & _). rewrite io_io in Ho1.
  assert (wf_world w1) as Hwf1 by by eapply owns_wf_world.
  assert (heap_kept w w1) as Hk by (unfold heap_kept; by rewrite (owns_nil_heap _ _ Ho1)).
  assert (round_timeout app false = Some (request_timeout app)) as Et.
  { unfold round_timeout, request_timeout. case_test; bool_prop; [|done]. by rewrite int_mul_small by lia. }
  unfold serve_one. rewrite Et. change (0 <? 0)%nat with false. cbn [andb]. rewrite Nat.sub_0_r.
  eapply (wp_bind_ran _ _ _ _ _ _ Enow), (wp_bind_ran _ _ _ _ _ _ Hread). cbn [negb].
  pose proof (call_request_ok path host Hho Hpa Hne Hlh Hlp) as Hok.
  rewrite call_request_printed, <-(app_nil_r (print_request _ _ _)) in Hreq.
  eapply wp_mono.
  { apply (handle_ask w1 app (call_ask host path) pg [] b u); try done.
    - by eapply app_at_kept.
    - by eapply serves_kept. }
  intros res w2 (Hheap & _ & Hres). split; [by rewrite Hheap; apply owns_nil_heap in Ho1|].
  destruct Hres as [?|(Hv & Htr & Hres)]; [by left|right].
  split; [exact Hres|]. split; [exact Htr|]. by apply message_readable, Hserves.
Qed.

Definition hello_request : bytes := call_request (lit "/hello/bob?x=1") (lit "example.com").

Lemma hello_request_bytes : Forall is_byte hello_request.
Proof. unfold hello_request, call_request. repeat apply Forall_app_2; try apply lit_bytes; by repeat constructor. Qed.

Lemma http_exchange_witness :
  let os := one_shot_os hello_request hello_request_bytes in
  let u := length hello_request in
  let b := hello_request ++ replicate (MNET_REQUEST_BUFFER_SIZE - u) 0 in
  wp (serve_one (H := all_ok) (H0 := os) (H1 := quiet) (H2 := demo_files) hello_app fresh_buffer 0 false)
    (λ res w2, w_heap w2 = w_heap hello_world ∧
       (alloc_failure (H := all_ok) ∨
        res = Some (false, b, u) ∧
        (∃ evs, w_trace w2 = [EvRecv hello_request] ++ evs ++
             [EvSend (message (hello_page_of (lit "bob")) false)] ∧ Forall no_traffic evs) ∧
        readable (H := all_ok) (hello_page_of (lit "bob")) false)) hello_world.
Proof.
  apply (http_exchange (H := all_ok) (H0 := one_shot_os hello_request hello_request_bytes) (H1 := quiet)
    (H2 := demo_files) hello_app (hello_page_of (lit "bob")) (lit "example.com") (lit "/hello/bob?x=1")
    fresh_buffer _ _ hello_world (World 2 (w_heap hello_world) 4 [EvRecv hello_request])).
  - apply field_world_wf.
  - apply hello_app_at.
  - by split.
  - by apply hello_serves; [| | |vm_compute; set_solver].
  - by repeat constructor.
  - by repeat constructor.
  - done.
  - vm_compute. lia.
  - vm_compute. lia.
  - apply length_replicate.
  - apply fresh_buffer_bytes.
  - by vm_compute.
  - by vm_compute.
Defined.

(** The same exchange, evaluated: what the server sends, and what the client reads
    when it is delivered. *)
Definition hello_answer : bytes :=
  block_of [lit "HTTP/1.1 200 OK"; lit "Content-Length: 9"; lit "Content-Type: text/plain; charset=utf-8";
            lit "Connection: close"] ++ lit "hello bob".

Lemma hello_answer_bytes : Forall is_byte hello_answer.
Proof. unfold hello_answer, block_of. cbn [flat_map]. repeat apply Forall_app_2; try apply lit_bytes; by repeat constructor. Qed.

Example hello_exchange :
  (r ← serve_one (H := all_ok) (H0 := one_shot_os hello_request hello_request_bytes) (H1 := quiet)
     (H2 := demo_files) hello_app fresh_buffer 0 false hello_world;
   Some (concat (omap (λ e, match e with EvSend d => Some d | _ => None end) (w_trace (snd r))))) =
    Some hello_answer ∧
  ('(res, w) ← mnet_read_response (H := all_ok) (H0 := one_shot_os hello_answer hello_answer_bytes)
     (H1 := demo_network) 10 1000 (World 0 ∅ 3 []);
   Some (res, w_heap w !! 1%nat)) =
    Some (Some (0, (Some 1%nat, 9%nat, 200)), Some (lit "hello bob" ++ [0])).
Proof. split; by vm_compute. Qed.
