(* ===== verification/Pipeline.v ===== *)
(** * Pipelined requests

    What a connection does with a stream of requests.  A state machine specifies
    the conversation of [mnet_handle_client] ([src/mnet_server.c]) with its peer: the
    requests that arrive together are answered one by one, in the order in which
    they arrived, each with the page of the application, until a request does not
    ask to keep the connection.  [connection_refines] says that the trace of every
    connection is accepted by this machine. *)

From S2P Require Export Exchange.

#[local] Opaque MNET_REQUEST_BUFFER_SIZE.

(** ** Recognising requests *)

Definition cchar_ok (c : Z) : bool := ((0 <? c) && (c <? 256))%bool.

Definition field_okb (f : bytes * bytes) : bool :=
  (mnet_header_name_valid (Some (fst f)) && forallb cchar_ok (fst f) &&
   forallb (λ c, cchar_ok c && negb (c =? chCR) && negb (c =? chLF)) (snd f) &&
   match snd f with c :: _ => negb (c =? chSP) && negb (c =? chTAB) | [] => true end &&
   (length (header_line f) <? MNET_MAX_HEADER_LINE)%nat)%bool.

Definition ask_okb (a : ask) : bool :=
  (bool_decide (ask_target a ≠ []) &&
   forallb (λ c, cchar_ok c && negb (isspace c)) (ask_target a) &&
   (length (ask_target a) <=? Z.to_nat 2047)%nat &&
   bool_decide (ask_headers a ≠ []) &&
   (length (ask_headers a) <=? MNET_MAX_HEADERS)%nat &&
   forallb field_okb (ask_headers a) &&
   forallb (λ f, negb (named (lit "transfer-encoding") f)) (ask_headers a) &&
   match List.filter (named (lit "content-length")) (ask_headers a) with
   | [] => true
   | [f] => bool_decide (snd f = lit "0")
   | _ => false
   end)%bool.

Lemma cchar_ok_spec c : cchar_ok c = true ↔ is_cchar c.
Proof. unfold cchar_ok, is_cchar. rewrite andb_true_iff. lia. Qed.

Lemma field_okb_spec f : field_okb f = true ↔ field_ok f.
Proof.
  assert (∀ c, (cchar_ok c && negb (c =? chCR) && negb (c =? chLF))%bool = true ↔
    is_cchar c ∧ c ≠ chCR ∧ c ≠ chLF) as Hv.
  { intros c. rewrite !andb_true_iff, !negb_true_iff, cchar_ok_spec, !Z.eqb_neq. tauto. }
  unfold field_okb. rewrite !andb_true_iff, (forallb_iff _ _ _ cchar_ok_spec), (forallb_iff _ _ _ Hv), Nat.ltb_lt.
  split.
  - intros ((((H1 & H2) & H3) & H4) & H5). split; try done.
    destruct (snd f); [done|]. rewrite andb_true_iff, !negb_true_iff, !Z.eqb_neq in H4. tauto.
  - intros [H1 H2 H3 H4 H5]. split_and!; try done.
    destruct (snd f); [done|]. rewrite andb_true_iff, !negb_true_iff, !Z.eqb_neq. tauto.
Qed.

Lemma ask_okb_spec a : ask_okb a = true ↔ ask_ok a.
Proof.
  assert (∀ c, (cchar_ok c && negb (isspace c))%bool = true ↔ is_cchar c ∧ isspace c = false) as Ht.
  { intros c. by rewrite andb_true_iff, negb_true_iff, cchar_ok_spec. }
  assert (∀ f, negb (named (lit "transfer-encoding") f) = true ↔
    named (lit "transfer-encoding") f = false) as He by (intros f; apply negb_true_iff).
  unfold ask_okb. rewrite !andb_true_iff, (forallb_iff _ _ _ Ht), (forallb_iff _ _ _ field_okb_spec),
    (forallb_iff _ _ _ He), !bool_decide_eq_true, !Nat.leb_le.
  split.
  - intros (((((((H1 & H2) & H3) & H4) & H5) & H6) & H7) & H8). split; try done.
    destruct (List.filter _ _) as [|[n v] [|]]; [by left| |done].
    apply bool_decide_eq_true in H8. cbn in H8. subst v. right. by exists n.
  - intros [[H1 H2] H3 (H4 & H5 & H6) H7 H8 _]. split_and!; try done.
    destruct H8 as [[-> _]|[n ->]]; [done|]. by apply bool_decide_eq_true.
Qed.

#[export] Instance ask_ok_dec a : Decision (ask_ok a).
Proof. refine (cast_if (decide (ask_okb a = true))); by rewrite <-ask_okb_spec. Defined.

(** The request at the start of the data, and what is behind it. *)
Definition read_ask (data : bytes) : option (ask * bytes) :=
  match find_sub Z.eqb CRLFCRLF data with
  | None => None
  | Some i =>
      let block := take (i + 4) data in
      '(name, target) ← request_line block;
      hs ← header_fields (take i block);
      m ← mnet_parse_method name;
      let a := MkAsk m target hs in
      if decide (ask_ok a ∧ ask_text a = block) then Some (a, drop (i + 4) data) else None
  end.

Fixpoint read_asks_fuel (fuel : nat) (data : bytes) : option (list ask) :=
  match fuel, data with
  | _, [] => Some []
  | O, _ => None
  | S fuel, _ => '(a, rest) ← read_ask data; (a ::.) <$> read_asks_fuel fuel rest
  end.

(** The requests that the data consists of, if it consists of whole requests. *)
Definition read_asks (data : bytes) : option (list ask) := read_asks_fuel (length data) data.

Definition asks_text (asks : list ask) : bytes := concat (ask_text <$> asks).

Lemma ask_text_lines a : ask_ok a → Forall line_ok (request_lines (ask_method a) (ask_target a) (ask_headers a)).
Proof. intros Hok. by eapply request_lines_ok. Qed.

Lemma ask_text_length a : ask_ok a → (4 < length (ask_text a))%nat.
Proof.
  intros Hok. destruct (request_two_lines (ask_method a) _ _ _ Hok) as (k & Ek & Hk).
  unfold ask_text. rewrite Ek, !length_app. lia.
Qed.

Lemma read_ask_sound data a rest :
  read_ask data = Some (a, rest) → ask_ok a ∧ data = ask_text a ++ rest.
Proof.
  unfold read_ask. destruct (find_sub _ _ _) as [i|]; [|done].
  intros ([name target] & _ & (hs & _ & (m & _ & E)%bind_Some)%bind_Some)%bind_Some.
  case_decide as Ha; [|done]. injection E as <- <-. destruct Ha as [Hok ->]. split; [done|].
  by rewrite take_drop.
Qed.

Lemma read_ask_text a rest : ask_ok a → read_ask (ask_text a ++ rest) = Some (a, rest).
Proof.
  intros Hok. pose proof (ask_text_length a Hok).
  pose proof (request_line_read (ask_method a) _ _ _ [] Hok) as Hl.
  pose proof (request_headers (ask_method a) _ _ _ [] Hok) as Hh.
  rewrite !app_nil_r in Hl, Hh. fold (ask_text a) in Hl, Hh.
  assert (find_sub Z.eqb CRLFCRLF (ask_text a ++ rest) = Some (length (ask_text a) - 4)%nat) as Ef.
  { apply find_sub_block; [done|by apply ask_text_lines]. }
  unfold read_ask. rewrite Ef. replace (length (ask_text a) - 4 + 4)%nat with (length (ask_text a)) by lia.
  cbv zeta. rewrite take_app_length, drop_app_length, Hl, some_bind, Hh, some_bind, parse_method_text, some_bind.
  destruct a as [m t hs]. cbn [ask_method ask_target ask_headers]. by rewrite decide_True.
Qed.

Lemma read_asks_fuel_sound fuel : ∀ data asks,
  read_asks_fuel fuel data = Some asks → Forall ask_ok asks ∧ data = asks_text asks.
Proof.
  induction fuel as [|fuel IH]; intros [|c data] asks E; cbn [read_asks_fuel] in E; try done;
    try (injection E as <-; by split).
  apply bind_Some in E as ([a rest] & Ea & (asks' & Er & ->)%fmap_Some).
  apply read_ask_sound in Ea as [Ha ->]. apply IH in Er as [Hr ->]. split; [by constructor|done].
Qed.

Lemma read_asks_fuel_text asks : ∀ fuel,
  Forall ask_ok asks → (length asks ≤ fuel)%nat → read_asks_fuel fuel (asks_text asks) = Some asks.
Proof.
  induction asks as [|a asks IH]; intros fuel Hok Hf; [by destruct fuel|].
  apply Forall_cons in Hok as [Ha Hok]. destruct fuel as [|fuel]; [cbn in Hf; lia|].
  change (asks_text (a :: asks)) with (ask_text a ++ asks_text asks).
  pose proof (ask_text_length a Ha). pose proof (read_ask_text a (asks_text asks) Ha) as Er.
  destruct (ask_text a ++ asks_text asks) as [|c d] eqn:E.
  { apply app_nil in E as [E _]. rewrite E in *. cbn in *. lia. }
  cbn [read_asks_fuel]. rewrite Er, some_bind, IH; [done|done|cbn in Hf; lia].
Qed.

Lemma read_asks_sound data asks :
  read_asks data = Some asks → Forall ask_ok asks ∧ data = asks_text asks.
Proof. apply read_asks_fuel_sound. Qed.

(** Whole requests are recognised. *)
Lemma read_asks_text asks : Forall ask_ok asks → read_asks (asks_text asks) = Some asks.
Proof.
  intros Hok. apply read_asks_fuel_text; [done|]. induction Hok as [|a asks Ha Hok IH]; [done|].
  change (asks_text (a :: asks)) with (ask_text a ++ asks_text asks). rewrite length_app.
  pose proof (ask_text_length a Ha). cbn [length]. lia.
Qed.

(** ** The conversation *)

(** [Reading data]: the data has arrived and no header area in it is complete;
    [Answering asks]: these requests are in the buffer, the first is answered next;
    [Closed]: a request that does not keep the connection has been answered;
    [Unspecified]: something else than requests of the site has arrived. *)
Inductive conn_state :=
  | Reading (data : bytes)
  | Answering (asks : list ask)
  | Closed
  | Unspecified.

Section conversation.
Context (site : ask → option page).

Definition next_ask (asks : list ask) : conn_state :=
  match asks with
  | [] => Reading []
  | a :: _ => if site a then Answering asks else Unspecified
  end.

(** The state when these data are in the buffer. *)
Definition arrived (data : bytes) : conn_state :=
  if has_separator data then
    match read_asks data with Some asks => next_ask asks | None => Unspecified end
  else if (length data <? MNET_REQUEST_BUFFER_SIZE - 1)%nat then Reading data
  else Unspecified.

(** [None]: the event must not happen. *)
Definition conn_next (st : conn_state) (ev : event) : option conn_state :=
  match st, ev with
  | Unspecified, _ => Some Unspecified
  | Reading data, EvRecv chunk => Some (arrived (data ++ chunk))
  | Answering (a :: asks), EvSend sent =>
      pg ← site a;
      if decide (sent = message pg (ask_keeps a)) then
        Some (if ask_keeps a then next_ask asks else Closed)
      else None
  | _, EvRecv _ | _, EvSend _ => None
  | _, _ => Some st
  end.

Fixpoint conn_run (st : conn_state) (evs : list event) : option conn_state :=
  match evs with
  | [] => Some st
  | ev :: evs => st ← conn_next st ev; conn_run st evs
  end.

Lemma conn_run_app st evs1 evs2 :
  conn_run st (evs1 ++ evs2) = (st ← conn_run st evs1; conn_run st evs2).
Proof.
  revert st. induction evs1 as [|ev evs1 IH]; intros st; [done|]. cbn [app conn_run].
  destruct (conn_next st ev); [|done]. apply IH.
Qed.

Lemma conn_run_quiet st evs : Forall no_traffic evs → conn_run st evs = Some st.
Proof.
  intros Hq. induction Hq as [|ev evs Hev Hq IH]; [done|]. cbn [conn_run].
  assert (conn_next st ev = Some st) as ->; [|done]. by destruct st as [|[]| |], ev.
Qed.

Lemma conn_run_unspecified evs : conn_run Unspecified evs = Some Unspecified.
Proof. by induction evs. Qed.
End conversation.

(** ** The buffer and the conversation *)

Lemma has_separator_buffer buffer used :
  conn_ok buffer used → (0 < used)%nat → has_separator buffer = has_separator (take used buffer).
Proof.
  intros Hc Hu. destruct (buffer_holds _ _ _ Hc eq_refl Hu) as (junk & Eb & _).
  unfold has_separator, strstr. assert (cstr buffer = cstr (take used buffer)) as ->; [|done].
  rewrite Eb at 1. generalize (take used buffer). intros d. unfold cstr.
  induction d as [|c d IH]; [done|]. cbn [app take_while]. destruct (not_nul c); [by rewrite IH|done].
Qed.

Lemma has_separator_ask a rest : ask_ok a → has_separator (ask_text a ++ rest) = true.
Proof.
  intros Ha. unfold has_separator, strstr, ask_text, print_request.
  rewrite cstr_app by (apply block_of_nul_free; by apply ask_text_lines).
  rewrite find_sub_block by (done || by apply ask_text_lines). done.
Qed.

(** What a round keeps behind the request that it has answered. *)
Lemma kept_asks buffer used a asks :
  conn_ok buffer used → (0 < used)%nat → ask_ok a → Forall ask_ok asks →
  take used buffer = ask_text a ++ asks_text asks → kept_data buffer used = asks_text asks.
Proof.
  intros Hc Hu Ha Hasks Hd. pose proof (ask_text_length a Ha) as Hlen.
  destruct (buffer_holds _ _ _ Hc Hd Hu) as (junk & Eb & _ & _ & Eu). unfold kept_data.
  assert (end_of_headers buffer = Some ((length (ask_text a) - 4)%nat, 4%nat)) as ->.
  { rewrite Eb, <-(assoc_L app). apply end_of_block; [done|by apply ask_text_lines]. }
  replace (length (ask_text a) - 4 + 4)%nat with (length (ask_text a)) by lia.
  rewrite Hd, drop_app_length. rewrite Eb, <-(assoc_L app), drop_app_length, Eu, length_app.
  destruct asks as [|b asks].
  - rewrite Nat.add_0_r, Nat.ltb_irrefl. done.
  - apply Forall_cons in Hasks as [Hb _]. change (asks_text (b :: asks)) with (ask_text b ++ asks_text asks).
    pose proof (ask_text_length b Hb). rewrite length_app, (proj2 (Nat.ltb_lt _ _)) by lia.
    rewrite bool_decide_true; [done|]. unfold strstr. rewrite <-(assoc_L app).
    rewrite cstr_app by (apply block_of_nul_free; by apply ask_text_lines).
    unfold ask_text, print_request. by rewrite find_sub_block by (done || by apply ask_text_lines).
Qed.

Section refinement.
Context `{!Allocator, !OS, !Process, !Files}.
Variables (app : mnet_app_t) (site : ask → option page).
Context (Hl : limits_ok app).

(** The application answers the requests of the site with its pages. *)
Definition implements (w : world) : Prop :=
  ∀ a pg, ask_ok a → site a = Some pg → serves app w a pg.

(** What holds of the buffer between two rounds. *)
Definition conn_holds (st : conn_state) (buffer : bytes) (used : nat) : Prop :=
  match st with
  | Reading data => data = [] ∧ used = 0%nat
  | Answering asks => (0 < used)%nat ∧ take used buffer = asks_text asks ∧ Forall ask_ok asks ∧
      next_ask site asks = Answering asks ∧ asks ≠ []
  | Closed => False
  | Unspecified => True
  end.

Lemma next_ask_holds asks buffer used :
  conn_ok buffer used → take used buffer = asks_text asks → Forall ask_ok asks →
  conn_holds (next_ask site asks) buffer used.
Proof.
  intros Hc Ht Hok. destruct asks as [|a asks].
  - split; [done|]. apply (f_equal length) in Ht. rewrite length_take in Ht. cbn in Ht.
    pose proof (co_used _ _ Hc). rewrite (co_size _ _ Hc) in Ht. pose proof size_value. lia.
  - cbn [next_ask]. destruct (site a) eqn:Es; [|done]. split_and!; try done; [|by cbn; rewrite Es].
    apply Forall_cons in Hok as [Ha _]. pose proof (ask_text_length a Ha).
    apply (f_equal length) in Ht. change (asks_text (a :: asks)) with (ask_text a ++ asks_text asks) in Ht.
    rewrite length_take, length_app in Ht. lia.
Qed.

(** A trace of the conversation leads from [st] to a state; every request that was
    received is answered before the connection is given up. *)
Definition round_talk (st : conn_state) (w : world) (res : option (bool * bytes * nat)) (w' : world) :
    Prop :=
  alloc_failure ∨ ∃ evs st', w_trace w' = w_trace w ++ evs ∧ conn_run site st evs = Some st' ∧
    match res with
    | Some (true, b, u) => conn_holds st' b u
    | _ => ∀ asks, st' ≠ Answering asks
    end.

Lemma talk_unspecified w n evs w' R :
  owns (io w n evs) w' R → ∃ evs', w_trace w' = w_trace w ++ evs' ∧
    conn_run site Unspecified evs' = Some Unspecified.
Proof.
  intros Ho. exists evs. rewrite (owns_trace _ _ _ Ho). split; [done|apply conn_run_unspecified].
Qed.

(** The requests in the buffer are answered. *)
Lemma handle_asks w st buffer used timeout_ms :
  wf_world w → app_at w app → implements w → conn_ok buffer used → (0 < used)%nat →
  conn_holds st buffer used →
  wp (handle_request app buffer used timeout_ms) (round_talk st w) w.
Proof.
  intros Hwf Ha Himp Hc Hu Hst. destruct st as [data|asks| |]; [destruct Hst; lia| |done|].
  - destruct Hst as (_ & Ht & Hasks & Hnext & Hne). destruct asks as [|a asks]; [done|].
    cbn [next_ask] in Hnext. destruct (site a) as [pg|] eqn:Es; [|done].
    apply Forall_cons in Hasks as [Hok Hasks].
    change (asks_text (a :: asks)) with (ask_text a ++ asks_text asks) in Ht.
    eapply wp_mono; [by eapply handle_ask; [..|exact Ht]; try done; apply Himp|].
    intros res w' (_ & _ & [?|(_ & (evs & Htr & Hq) & Hres)]); [by left|right].
    exists (evs ++ [EvSend (message pg (ask_keeps a))]), (if ask_keeps a then next_ask site asks else Closed).
    split; [done|]. split.
    { rewrite conn_run_app, conn_run_quiet by done. cbn. rewrite some_bind. cbn [conn_next].
      by rewrite Es, some_bind, decide_True. }
    destruct (ask_keeps a).
    + destruct Hres as (b & u & -> & Hc' & Ht'). apply next_ask_holds; [done| |done].
      by rewrite Ht', (kept_asks _ _ a asks).
    + by rewrite Hres.
  - eapply wp_mono; [eapply (handle_request_spec w w []); [by apply owns_refl|done..]|].
    intros res w' [(n & evs & Ho & _) _]. right. destruct (talk_unspecified _ _ _ _ _ Ho) as (evs' & Ht & Hr).
    exists evs', Unspecified. split_and!; [done..|]. by destruct res as [[[[] ?] ?]|].
Qed.

(** What the loop that reads has received, as the conversation sees it. *)
Definition read_talk (w0 : world) (data : bytes) (res : bytes * nat * bool) (w' : world) : Prop :=
  let '(b, u, have) := res in
  ∃ n evs st, owns (io w0 n evs) w' [] ∧ conn_ok b u ∧ conn_run site (Reading data) evs = Some st ∧
    if have then (0 < u)%nat ∧ st = arrived site (take u b) ∧ has_separator (take u b) = true
    else st = Unspecified ∨ st = Reading (take u b) ∧ (u < MNET_REQUEST_BUFFER_SIZE - 1)%nat.

Lemma read_talk_stop w0 w buffer used n :
  owns (io w0 n []) w [] → conn_ok buffer used → (used < MNET_REQUEST_BUFFER_SIZE - 1)%nat →
  read_talk w0 (take used buffer) (buffer, used, false) w.
Proof. intros Ho Hc Hu. exists n, [], (Reading (take used buffer)). split_and!; [done..|]. by right. Qed.

Lemma arrived_unread data :
  has_separator data = false → (length data < MNET_REQUEST_BUFFER_SIZE - 1)%nat →
  arrived site data = Reading data.
Proof. intros Hs Hlen. unfold arrived. rewrite Hs. by rewrite (proj2 (Nat.ltb_lt _ _)). Qed.

Lemma arrived_full data :
  has_separator data = false → (MNET_REQUEST_BUFFER_SIZE - 1 ≤ length data)%nat →
  arrived site data = Unspecified.
Proof. intros Hs Hlen. unfold arrived. rewrite Hs. by rewrite (proj2 (Nat.ltb_ge _ _)). Qed.

Lemma read_loop_talk fuel : ∀ w0 w buffer used deadline,
  owns w0 w [] → conn_ok buffer used → (used < MNET_REQUEST_BUFFER_SIZE - 1)%nat →
  (MNET_REQUEST_BUFFER_SIZE - 1 - used ≤ fuel)%nat → has_separator (take used buffer) = false →
  wp (read_loop fuel buffer used deadline) (read_talk w0 (take used buffer)) w.
Proof.
  induction fuel as [|fuel IH]; intros w0 w buffer used deadline Ho Hc Hroom Hf Hsep; [lia|].
  pose proof Hc as [Hs Hb Hu Hn]. pose proof size_value. cbn [read_loop].
  rewrite (proj2 (Nat.ltb_lt _ _)) by done.
  apply wp_bind. eapply wp_sys; [exact Ho|]. intros now w1 Ho1. cbn zeta.
  case_test; [by eapply wp_ret, read_talk_stop|].
  apply wp_bind. eapply wp_sys; [exact Ho1|]. intros pr w2 Ho2. rewrite io_io in Ho2.
  case_test; [by eapply wp_ret, read_talk_stop|].
  apply wp_bind. eapply wp_recv; [|exact Ho2|]; [lia|]. intros r w3 Ho3 Hbyte Hlen.
  rewrite io_io in Ho3. assert (length (take used buffer) = used) as Elen by (rewrite length_take; lia).
  destruct r as [[|c d]|].
  { apply wp_ret. exists (1 + 1 + 1)%nat, [EvRecv []], (Reading (take used buffer)).
    split_and!; [done|done| |by right]. cbn [conn_run conn_next]. rewrite some_bind, app_nil_r.
    by rewrite arrived_unread by (done || lia). }
  2:{ by eapply wp_ret, read_talk_stop. }
  set (data := c :: d) in *. cbn [default from_option id recv_events] in *.
  rewrite (proj2 (Nat.leb_le _ _)) by lia.
  apply wp_bind, wp_terminate; [rewrite length_splice; lia|].
  pose proof (conn_ok_store buffer used data Hs Hb Hbyte ltac:(lia)) as Hc'.
  pose proof (take_store used data buffer ltac:(lia)) as Ht.
  set (b' := <[(used + length data)%nat := 0]> (splice used data buffer)) in *.
  assert (0 < length data)%nat as Hpos by (unfold data; simpl; lia).
  assert (conn_run site (Reading (take used buffer)) [EvRecv data] =
    Some (arrived site (take (used + length data) b'))) as Hstep by by rewrite Ht.
  rewrite (has_separator_buffer _ _ Hc') by lia. destruct (has_separator (take _ b')) eqn:Hsep'.
  - apply wp_ret. eexists (1 + 1 + 1)%nat, [EvRecv data], _. split_and!; [done|done|exact Hstep|lia|done|done].
  - assert (length (take (used + length data) b') = (used + length data)%nat) as Elen'
      by (rewrite length_take, (co_size _ _ Hc'); lia).
    destruct (decide (used + length data < MNET_REQUEST_BUFFER_SIZE - 1)%nat) as [Hmore|Hfull].
    + rewrite arrived_unread in Hstep by (done || lia).
      eapply wp_mono; [apply (IH _ _ _ _ deadline Ho3 Hc'); [lia|lia|done]|].
      intros [[b2 u2] have] w4 (n & evs & st & Ho4 & Hc2 & Hr2 & Hres). rewrite io_io in Ho4.
      eexists _, (EvRecv data :: evs), st. split_and!; [exact Ho4|done| |done].
      change (EvRecv data :: evs) with ([EvRecv data] ++ evs). by rewrite conn_run_app, Hstep, some_bind.
    + rewrite arrived_full in Hstep by (done || lia).
      assert (read_loop fuel b' (used + length data) deadline = mret (b', (used + length data)%nat, false)) as ->.
      { destruct fuel; cbn [read_loop]; by rewrite (proj2 (Nat.ltb_ge _ _)) by lia. }
      apply wp_ret. exists (1 + 1 + 1)%nat, [EvRecv data], Unspecified. split_and!; [done|done|done|by left].
Qed.

Lemma round_talk_after w w1 w' evs st st1 res :
  w_trace w1 = w_trace w ++ evs → conn_run site st evs = Some st1 → round_talk st1 w1 res w' →
  round_talk st w res w'.
Proof.
  intros Ht Hr [?|(evs' & st' & Ht' & Hr' & Hres)]; [by left|right]. exists (evs ++ evs'), st'.
  rewrite Ht', Ht, <-app_assoc. split; [done|]. by rewrite conn_run_app, Hr.
Qed.

Lemma implements_kept w w' : heap_kept w w' → implements w → implements w'.
Proof. intros Hk Hi a pg Ha Hs. eapply serves_kept; [done|by apply Hi]. Qed.

Lemma same_heap_kept w w' : w_heap w' = w_heap w → heap_kept w w'.
Proof. intros E. unfold heap_kept. by rewrite E. Qed.

(** What arrives is answered. *)
Lemma arrived_holds b u :
  conn_ok b u → has_separator (take u b) = true → conn_holds (arrived site (take u b)) b u.
Proof.
  intros Hc Hs. unfold arrived. rewrite Hs. destruct (read_asks (take u b)) as [asks|] eqn:Er; [|done].
  apply read_asks_sound in Er as [Hok Et]. by apply next_ask_holds.
Qed.

(** A round that starts with an empty buffer. *)
Lemma read_then_handle w w0 buffer timeout_ms now :
  owns (io w0 1 []) w [] → app_at w0 app → implements w0 → conn_ok buffer 0 →
  wp ('(buffer, used, have_request) ← read_loop (MNET_REQUEST_BUFFER_SIZE - 1) buffer 0 (now + timeout_ms);
      if negb have_request then
        (if (MNET_REQUEST_BUFFER_SIZE - 1 <=? used)%nat then
           mnet_app_log (app_log_handler app) MNET_LOG_WARN
             (lit "rejected request: header block exceeds " ++
              print_int (Z.of_nat (MNET_REQUEST_BUFFER_SIZE - 1)) ++ lit " bytes");;
           send_simple_error 431 (lit "Request Header Fields Too Large")
             (lit "Request headers exceed the maximum size.") (app_debug app)
         else mret ());;
        mret None
      else handle_request app buffer used timeout_ms)
    (round_talk (Reading []) w0) w.
Proof.
  intros Ho Ha Himp Hc. pose proof size_value. apply wp_bind.
  eapply wp_mono; [apply (read_loop_talk _ _ _ buffer 0 _ Ho Hc); [lia|lia|done]|].
  intros [[b u] have] w1 (n & evs & st & Ho1 & Hc1 & Hr & Hst). rewrite io_io in Ho1.
  assert (w_trace w1 = w_trace w0 ++ evs) as Ht by by rewrite (owns_trace _ _ _ Ho1).
  assert (heap_kept w0 w1) as Hk.
  { apply same_heap_kept. by apply owns_nil_heap in Ho1. }
  destruct have; cbn [negb].
  - destruct Hst as (Hu & -> & Hsep).
    eapply wp_mono; [|intros res w'; apply (round_talk_after _ w1 _ _ _ _ _ Ht Hr)].
    apply handle_asks; try done; [by eapply owns_wf_world|by eapply app_at_kept|by eapply implements_kept|].
    by apply arrived_holds.
  - destruct Hst as [->|[-> Hu]].
    + eapply wp_mono; [by eapply too_large_spec|]. intros res w2 [-> (n2 & evs2 & Ho2 & _)].
      apply (round_talk_after _ w1 _ _ _ _ _ Ht Hr). right.
      assert (owns (io w1 0 []) w1 []) as Hrefl.
      { rewrite io_nil. apply owns_refl. by eapply owns_wf_world. }
      exists evs2, Unspecified. split; [|split; [apply conn_run_unspecified|done]].
      rewrite (owns_trace _ _ _ Ho2). unfold io at 1. cbn [w_trace].
      by rewrite (owns_trace _ _ _ Ho1).
    + rewrite (proj2 (Nat.leb_gt _ _)) by lia. apply wp_bind, wp_ret, wp_ret.
      right. exists evs, (Reading (take u b)). by split_and!.
Qed.

Lemma serve_one_talk w st buffer used ka :
  wf_world w → app_at w app → implements w → conn_ok buffer used → conn_holds st buffer used →
  wp (serve_one app buffer used ka) (round_talk st w) w.
Proof.
  intros Hwf Ha Himp Hc Hst. destruct st as [data|asks| |]; [| |done|].
  3:{ eapply wp_mono; [eapply (serve_one_spec w w []); [by apply owns_refl|done..]|].
      intros res w' (n & evs & Ho & _). right.
      destruct (talk_unspecified _ _ _ _ _ Ho) as (evs' & Ht & Hr).
      exists evs', Unspecified. split_and!; [done..|]. by destruct res as [[[[] ?] ?]|]. }
  - destruct Hst as [-> ->]. unfold serve_one. destruct (round_timeout_some app ka Hl) as [t ->].
    apply wp_bind. eapply wp_sys; [by apply owns_refl|]. intros now w1 Ho1.
    change (0 <? 0)%nat with false. cbn [andb]. rewrite Nat.sub_0_r. by apply read_then_handle.
  - unfold serve_one. destruct (round_timeout_some app ka Hl) as [t ->].
    apply wp_bind. eapply wp_sys; [by apply owns_refl|]. intros now w1 Ho1.
    pose proof Hst as (Hu & Ht & Hasks & _ & Hne).
    assert (has_separator buffer = true) as ->.
    { destruct asks as [|a asks]; [done|]. apply Forall_cons in Hasks as [Hok _].
      rewrite (has_separator_buffer _ _ Hc Hu), Ht. by apply has_separator_ask. }
    rewrite (proj2 (Nat.ltb_lt 0 _)) by done. cbn [andb]. apply wp_bind, wp_ret. cbn [negb].
    assert (w_trace w1 = w_trace w ++ []) as Htr by by rewrite (owns_trace _ _ _ Ho1).
    assert (heap_kept w w1) as Hk by (apply same_heap_kept; by apply owns_nil_heap in Ho1).
    eapply wp_mono; [|intros res w'; by apply (round_talk_after w w1 w' [] _ (Answering asks))].
    apply handle_asks; try done; [by eapply owns_wf_world|by eapply app_at_kept|by eapply implements_kept].
Qed.

(** Any number of rounds: the trace is a conversation; when the connection has
    been given up, nothing that was received is left unanswered. *)
Lemma serve_loop_talk requests : ∀ w st buffer used ka,
  wf_world w → app_at w app → implements w → conn_ok buffer used → conn_holds st buffer used →
  wp (serve_loop requests app buffer used ka)
    (λ closed w', alloc_failure ∨ ∃ evs st', w_trace w' = w_trace w ++ evs ∧
       conn_run site st evs = Some st' ∧ (closed = true → ∀ asks, st' ≠ Answering asks)) w.
Proof.
  induction requests as [|m IH]; intros w st buffer used ka Hwf Ha Himp Hc Hst; cbn [serve_loop].
  { apply wp_ret. right. exists [], st. by rewrite app_nil_r. }
  apply wp_bind. eapply wp_mono.
  { apply wp_conj; [eapply (serve_one_spec w w []); [by apply owns_refl|done..]|].
    by apply (serve_one_talk w st). }
  intros res w1 [(n & evs0 & Ho1 & _ & Hround) Htalk].
  assert (heap_kept w w1) as Hk by (apply same_heap_kept; by apply owns_nil_heap in Ho1).
  assert (wf_world w1) as Hwf1 by by eapply owns_wf_world.
  assert (app_at w1 app) as Ha1 by by eapply app_at_kept.
  destruct res as [[[[] b] u]|].
  - destruct Hround as (Hc1 & _). destruct Htalk as [Hf|(evs & st' & Ht & Hr & Hst')].
    + eapply wp_mono; [eapply (serve_loop_spec m w1 w1 []); [by apply owns_refl|done..]|].
      intros closed w2 _. by left.
    + eapply wp_mono; [apply (IH w1 st' b u true); try done; by eapply implements_kept|].
      intros closed w2 [?|(evs' & st2 & Ht2 & Hr2 & Hclosed)]; [by left|right].
      exists (evs ++ evs'), st2. rewrite Ht2, Ht, <-app_assoc, conn_run_app, Hr. by split_and!.
  - apply wp_ret. destruct Htalk as [?|(evs & st' & ? & ? & ?)]; [by left|right]. by exists evs, st'.
  - apply wp_ret. destruct Htalk as [?|(evs & st' & ? & ? & ?)]; [by left|right]. by exists evs, st'.
Qed.
End refinement.

(** ** Order *)

(** The data received and sent by a run. *)
Definition received (evs : list event) : bytes :=
  concat (omap (λ e, match e with EvRecv d => Some d | _ => None end) evs).
Definition sent (evs : list event) : bytes :=
  concat (omap (λ e, match e with EvSend d => Some d | _ => None end) evs).

Section order.
Context (site : ask → option page).

Definition site_message (a : ask) : bytes :=
  match site a with Some pg => message pg (ask_keeps a) | None => [] end.

(** These requests were answered in this order; [left] and [data] have arrived
    behind them. *)
Definition in_order (evs : list event) (answered left : list ask) (data : bytes) : Prop :=
  received evs = asks_text (answered ++ left) ++ data ∧
  sent evs = concat (site_message <$> answered).

Definition keeping (asks : list ask) : Prop := Forall (λ a, ask_keeps a = true) asks.

Definition order_at (evs : list event) (st : conn_state) : Prop :=
  match st with
  | Reading data => ∃ answered, keeping answered ∧ in_order evs answered [] data
  | Answering asks => ∃ answered, keeping answered ∧ in_order evs answered asks []
  | Closed => ∃ answered a dropped, keeping answered ∧ ask_keeps a = false ∧
      in_order evs (answered ++ [a]) dropped []
  | Unspecified => True
  end.

Lemma received_app evs1 evs2 : received (evs1 ++ evs2) = received evs1 ++ received evs2.
Proof. unfold received. by rewrite omap_app, concat_app. Qed.

Lemma sent_app evs1 evs2 : sent (evs1 ++ evs2) = sent evs1 ++ sent evs2.
Proof. unfold sent. by rewrite omap_app, concat_app. Qed.

Lemma asks_text_app l1 l2 : asks_text (l1 ++ l2) = asks_text l1 ++ asks_text l2.
Proof. unfold asks_text. by rewrite fmap_app, concat_app. Qed.

Lemma order_next evs answered asks :
  keeping answered → in_order evs answered asks [] → order_at evs (next_ask site asks).
Proof.
  intros Hk Ho. destruct asks as [|a asks]; [by exists answered|].
  cbn [next_ask]. destruct (site a); [by exists answered|done].
Qed.

Lemma order_recv evs data chunk st :
  order_at evs (Reading data) → st = arrived site (data ++ chunk) → order_at (evs ++ [EvRecv chunk]) st.
Proof.
  intros (answered & Hk & Hr & Hs) ->. rewrite app_nil_r in Hr.
  assert (received (evs ++ [EvRecv chunk]) = asks_text answered ++ data ++ chunk) as Hr'.
  { rewrite received_app, Hr. unfold received. cbn. by rewrite app_nil_r, <-(assoc_L app). }
  assert (sent (evs ++ [EvRecv chunk]) = concat (site_message <$> answered)) as Hs'.
  { rewrite sent_app, Hs. unfold sent. cbn. by rewrite app_nil_r. }
  unfold arrived. destruct (has_separator (data ++ chunk)).
  - destruct (read_asks (data ++ chunk)) as [asks|] eqn:Ea; [|done].
    apply read_asks_sound in Ea as [_ Ed]. apply (order_next _ answered); [done|].
    split; [|done]. by rewrite Hr', Ed, asks_text_app, app_nil_r.
  - destruct (length (data ++ chunk) <? _)%nat; [|done]. exists answered. split; [done|].
    split; [|done]. by rewrite app_nil_r.
Qed.

Lemma order_send evs a asks pg :
  order_at evs (Answering (a :: asks)) → site a = Some pg →
  order_at (evs ++ [EvSend (message pg (ask_keeps a))])
    (if ask_keeps a then next_ask site asks else Closed).
Proof.
  intros (answered & Hk & Hr & Hs) Es.
  assert (in_order (evs ++ [EvSend (message pg (ask_keeps a))]) (answered ++ [a]) asks []) as Ho.
  { split.
    - rewrite received_app, Hr. unfold received at 1. cbn. by rewrite app_nil_r, <-!(assoc_L app).
    - rewrite sent_app, Hs, fmap_app, concat_app. unfold sent. cbn. unfold site_message.
      by rewrite Es. }
  destruct (ask_keeps a) eqn:Ek.
  - apply (order_next _ (answered ++ [a])); [|done]. apply Forall_app. by split; [|constructor].
  - by exists answered, a, asks.
Qed.

Lemma order_quiet evs ev st : no_traffic ev → order_at evs st → order_at (evs ++ [ev]) st.
Proof.
  intros Hq Ho. assert (received (evs ++ [ev]) = received evs) as Er.
  { rewrite received_app. by destruct ev; try done; apply app_nil_r. }
  assert (sent (evs ++ [ev]) = sent evs) as Es.
  { rewrite sent_app. by destruct ev; try done; apply app_nil_r. }
  destruct st; unfold order_at, in_order in *; by rewrite ?Er, ?Es.
Qed.

(** The conversation keeps the order. *)
Lemma conn_run_order evs st : conn_run site (Reading []) evs = Some st → order_at evs st.
Proof.
  revert st. induction evs as [|ev evs IH] using rev_ind; intros st E.
  { injection E as <-. exists []. split; [by constructor|done]. }
  rewrite conn_run_app in E. apply bind_Some in E as (st0 & E0 & E). apply IH in E0.
  apply bind_Some in E as (st1 & E & [= <-]).
  destruct st0 as [data|[|a asks]| |]; destruct ev; try done; cbn [conn_next] in E;
    try (injection E as <-; by apply order_quiet); try (by injection E as <-).
  - injection E as <-. by eapply order_recv.
  - apply bind_Some in E as (pg & Es & E). case_decide as Ed; [|done]. injection E as <-.
    rewrite Ed. by apply order_send.
Qed.

(** Whole requests of the site, delivered at once. *)
Definition batch (d : bytes) : Prop :=
  d = [] ∨ ∃ asks, d = asks_text asks ∧ Forall (λ a, ask_ok a ∧ site a ≠ None) asks.

Definition batch_event (ev : event) : Prop := match ev with EvRecv d => batch d | _ => True end.

(** Such a peer is always understood. *)
Definition specified (st : conn_state) : Prop :=
  match st with
  | Reading data => data = []
  | Answering asks => Forall (λ a, ask_ok a ∧ site a ≠ None) asks
  | Closed => True
  | Unspecified => False
  end.

Lemma next_ask_specified asks :
  Forall (λ a, ask_ok a ∧ site a ≠ None) asks → specified (next_ask site asks).
Proof.
  intros Hs. destruct asks as [|a asks]; [done|]. cbn [next_ask].
  pose proof Hs as [[_ Ha] _]%Forall_cons. by destruct (site a).
Qed.

Lemma arrived_specified d : batch d → specified (arrived site d).
Proof.
  intros Hd. assert (∃ asks, d = asks_text asks ∧ Forall (λ a, ask_ok a ∧ site a ≠ None) asks)
    as (asks & -> & Hs) by (destruct Hd as [->|?]; [by exists []|done]).
  assert (Forall ask_ok asks) as Hok by (eapply Forall_impl; [exact Hs|]; naive_solver).
  unfold arrived. rewrite read_asks_text by done. destruct asks as [|a asks]; [done|].
  pose proof Hok as [Ha _]%Forall_cons. change (asks_text (a :: asks)) with (ask_text a ++ asks_text asks).
  rewrite has_separator_ask by done. by apply next_ask_specified.
Qed.

Lemma conn_run_specified evs st :
  Forall batch_event evs → conn_run site (Reading []) evs = Some st → specified st.
Proof.
  revert st. induction evs as [|ev evs IH] using rev_ind; intros st Hb E; [by injection E as <-|].
  apply Forall_app in Hb as [Hb [Hev _]%Forall_cons].
  rewrite conn_run_app in E. apply bind_Some in E as (st0 & E0 & E). apply IH in E0; [|done].
  apply bind_Some in E as (st1 & E & [= <-]).
  destruct st0 as [data|[|a asks]| |]; destruct ev; try done; cbn [conn_next] in E;
    try (by injection E as <-).
  - injection E as <-. cbn in E0. subst data. by apply arrived_specified.
  - apply bind_Some in E as (pg & _ & E). case_decide; [|done]. injection E as <-.
    destruct (ask_keeps a); [|done]. apply next_ask_specified. by apply Forall_cons in E0 as [_ ?].
Qed.

(** What the state says of the requests answered, when the peer was understood. *)
Lemma answered_in_order evs st (closed : bool) :
  order_at evs st → specified st → (closed = true → ∀ asks, st ≠ Answering asks) →
  ∃ answered left, received evs = asks_text (answered ++ left) ∧
    sent evs = concat (site_message <$> answered) ∧ keeping (removelast answered) ∧
    (closed = true → left = [] ∨ ∃ a, last answered = Some a ∧ ask_keeps a = false).
Proof.
  assert (∀ l, keeping l → keeping (removelast l)) as Hremove.
  { intros l Hl. destruct l as [|x l _] using rev_ind; [done|]. rewrite removelast_last.
    by apply Forall_app in Hl as [? _]. }
  destruct st as [data|asks| |]; intros Ho Hs Hc.
  - destruct Ho as (answered & Hk & Hr & Hsent). cbn in Hs. subst data. exists answered, [].
    rewrite app_nil_r in Hr. split_and!; [done|done|by apply Hremove|by left].
  - destruct Ho as (answered & Hk & Hr & Hsent). exists answered, asks. rewrite app_nil_r in Hr.
    split_and!; [done|done|by apply Hremove|]. intros E. by destruct (Hc E asks).
  - destruct Ho as (answered & a & dropped & Hk & Ha & Hr & Hsent). exists (answered ++ [a]), dropped.
    rewrite app_nil_r in Hr. rewrite removelast_last, last_snoc. split_and!; try done. right. by exists a.
  - done.
Qed.
End order.

(** ** Properties *)


(** C7: pipelined requests are answered in the order in which they were sent: when
    everything that the peer of a connection sends arrives in batches of whole
    requests of the site, what the server has sent at any time is the
    concatenation of the messages for a prefix of these requests, each exactly once;
    all of this prefix but the last asked to keep the connection; and when the
    connection is given up, either every request has been answered or the last one
    answered did not ask to keep it. *)
Theorem pipeline_in_order `{!Allocator, !OS, !Process, !Files} (app : mnet_app_t)
    (site : ask → option page) (requests : nat) (buffer : bytes) (w : world) :
  wf_world w → app_at w app → limits_ok app → implements app site w →
  length buffer = MNET_REQUEST_BUFFER_SIZE → Forall is_byte buffer →
  wp (mnet_handle_client requests app buffer)
    (λ closed w', alloc_failure ∨ ∃ evs, w_trace w' = w_trace w ++ evs ∧
       (Forall (batch_event site) evs →
        ∃ answered left, received evs = asks_text (answered ++ left) ∧
          sent evs = concat (site_message site <$> answered) ∧ keeping (removelast answered) ∧
          (closed = true → left = [] ∨ ∃ a, last answered = Some a ∧ ask_keeps a = false))) w.
Proof.
  intros Hwf Ha Hl Himp Hlen Hb. pose proof size_value.
  eapply wp_mono.
  { apply (serve_loop_talk app site Hl requests w (Reading [])); try done. split; [done|done|lia|lia]. }
  intros closed w' [?|(evs & st & Ht & Hr & Hc)]; [by left|right]. exists evs. split; [done|].
  intros Hbatch. eapply answered_in_order; [by apply conn_run_order|by eapply conn_run_specified|done].
Qed.

(** The site of the application [hello_app]. *)
Definition hello_site (a : ask) : option page :=
  let name := drop 7 (ask_path a) in
  if (bool_decide (ask_method a = MNET_HTTP_GET) && bool_decide (take 7 (ask_path a) = lit "/hello/") &&
      bool_decide (name ≠ []) && bool_decide (chSLASH ∉ name))%bool
  then Some (hello_page_of name) else None.

Lemma hello_implements : implements (H := all_ok) hello_app hello_site hello_world.
Proof.
  intros a pg _ Hs. unfold hello_site in Hs.
  destruct (bool_decide (ask_method a = _)) eqn:H1; [|done].
  destruct (bool_decide (take 7 _ = _)) eqn:H2; [|done].
  destruct (bool_decide (drop 7 _ ≠ [])) eqn:H3; [|done].
  destruct (bool_decide (chSLASH ∉ _)) eqn:H4; [|done]. injection Hs as <-.
  apply bool_decide_eq_true in H1, H2, H3, H4. apply hello_serves; try done.
  by rewrite <-H2, take_drop.
Qed.

Definition hello_ask (name connection : bytes) : ask :=
  MkAsk MNET_HTTP_GET (lit "/hello/" ++ name) [(lit "Host", lit "h"); (lit "Connection", connection)].

(** Three requests: the second is the last that is answered. *)
Definition hello_asks : list ask :=
  [hello_ask (lit "ann") (lit "keep-alive"); hello_ask (lit "bob") (lit "close");
   hello_ask (lit "eve") (lit "keep-alive")].

Lemma bytes_check s : forallb (λ c, (0 <=? c) && (c <? 256))%bool s = true → Forall is_byte s.
Proof.
  intros Hs%Forall_forallb. eapply Forall_impl; [exact Hs|]. intros c Hc. cbv beta in Hc. bool_prop.
  unfold is_byte. lia.
Qed.

Lemma hello_asks_bytes : Forall is_byte (asks_text hello_asks).
Proof. apply bytes_check. by vm_compute. Qed.


Lemma pipeline_in_order_witness :
  wp (mnet_handle_client (H := all_ok) (H0 := one_shot_os (asks_text hello_asks) hello_asks_bytes)
        (H1 := quiet) (H2 := demo_files) 5 hello_app fresh_buffer)
    (λ closed w', alloc_failure (H := all_ok) ∨ ∃ evs, w_trace w' = w_trace hello_world ++ evs ∧
       (Forall (batch_event hello_site) evs →
        ∃ answered left, received evs = asks_text (answered ++ left) ∧
          sent evs = concat (site_message hello_site <$> answered) ∧ keeping (removelast answered) ∧
          (closed = true → left = [] ∨ ∃ a, last answered = Some a ∧ ask_keeps a = false))) hello_world.
Proof.
  apply (pipeline_in_order (H := all_ok) (H0 := one_shot_os (asks_text hello_asks) hello_asks_bytes)
    (H1 := quiet) (H2 := demo_files)).
  - apply field_world_wf.
  - apply hello_app_at.
  - by split.
  - apply hello_implements.
  - apply length_replicate.
  - apply fresh_buffer_bytes.
Defined.

(** The events of a connection of [hello_app] to which these data are delivered by
    two receptions. *)
Program Definition two_shot_os (first second : bytes) (H1 : Forall is_byte first)
    (H2 : Forall is_byte second) : OS := {|
  os_clock _ := 0;
  os_poll _ _ := 1;
  os_recv k n := if (k =? 3)%nat then Some (take n first)
                 else if (k =? 8)%nat then Some (take n second) else Some [];
  os_send _ d := Z.of_nat (length d);
|}.
Next Obligation.
  intros first second H1 H2 k n bs. simpl. repeat case_match; intros [= <-]; by try apply Forall_take.
Qed.
Next Obligation.
  intros first second H1 H2 k n bs. simpl. repeat case_match; intros [= <-]; rewrite ?length_take; simpl; lia.
Qed.

(** What [hello_app] sends on a connection. *)
Definition hello_sends (os : OS) : option bytes :=
  r ← mnet_handle_client (H := all_ok) (H0 := os) (H1 := quiet) (H2 := demo_files) 5 hello_app
        fresh_buffer hello_world;
  Some (sent (w_trace (snd r))).

Example hello_pipeline :
  hello_sends (one_shot_os (asks_text hello_asks) hello_asks_bytes) =
    Some (message (hello_page_of (lit "ann")) true ++ message (hello_page_of (lit "bob")) false).
Proof. by vm_compute. Qed.

(** The same two requests, delivered in two pieces: what is in the buffer behind the
    first request is dropped unless another header area is complete there, and the
    rest of the second request is taken for a request. *)
Definition first_piece : bytes :=
  ask_text (hello_ask (lit "ann") (lit "keep-alive")) ++ lit "GET /hello/bob".
Definition second_piece : bytes := drop 14 (ask_text (hello_ask (lit "bob") (lit "close"))).

Lemma first_piece_bytes : Forall is_byte first_piece.
Proof. apply bytes_check. by vm_compute. Qed.

Lemma second_piece_bytes : Forall is_byte second_piece.
Proof. apply bytes_check. by vm_compute. Qed.

Lemma split_request_lost :
  first_piece ++ second_piece = asks_text (take 2 hello_asks) ∧
  (take 31 ∘ drop (length (message (hello_page_of (lit "ann")) true))) <$>
    hello_sends (two_shot_os first_piece second_piece first_piece_bytes second_piece_bytes) =
    Some (lit "HTTP/1.1 405 Method Not Allowed").
Proof. split; by vm_compute. Qed.

(** A pipelined request whose lines end in LF alone is dropped, although the same
    request is served when it comes first. *)
Definition lf_request : bytes := lit "GET /hello/bob HTTP/1.1" ++ [chLF] ++ lit "Host: h" ++ LFLF.

Definition behind_lf : bytes := ask_text (hello_ask (lit "ann") (lit "keep-alive")) ++ lf_request.

Lemma lf_request_bytes : Forall is_byte lf_request.
Proof. apply bytes_check. by vm_compute. Qed.

Lemma behind_lf_bytes : Forall is_byte behind_lf.
Proof. apply bytes_check. by vm_compute. Qed.

Lemma lf_request_dropped :
  hello_sends (one_shot_os lf_request lf_request_bytes) =
    Some (message (hello_page_of (lit "bob")) false) ∧
  hello_sends (one_shot_os behind_lf behind_lf_bytes) =
    Some (message (hello_page_of (lit "ann")) true).
Proof. split; by vm_compute. Qed.
