(* ===== verification/ExampleHttp.v ===== *)
(** * The HTML example

    [src/example/example_http_server.c]: its handlers, the application that its
    [main] builds before it runs, and the theorem that the program is safe from
    [main] on. *)

From S2P Require Import ExampleCommon.

Section http_server.
Context `{!Allocator, !Clock}.

Definition home (req : mnet_request_t) : M mnet_response_t :=
  mnet_html (Some (
    lit "<!doctype html>" ++
    lit "<html>" ++
    lit "<head><title>mnet HTTP Server</title></head>" ++
    lit "<body>" ++
    lit "<h1>Welcome to mnet!</h1>" ++
    lit "<p>This is a basic HTTP server example.</p>" ++
    lit "<ul>" ++
    quoted "  <li><a href=`/about`>About</a></li>" ++
    quoted "  <li><a href=`/contact`>Contact</a></li>" ++
    quoted "  <li><a href=`/time`>Current Time</a></li>" ++
    lit "</ul>" ++
    lit "</body></html>")).

Definition about (req : mnet_request_t) : M mnet_response_t :=
  mnet_html (Some (
    lit "<!doctype html>" ++
    lit "<html><head><title>About</title></head>" ++
    lit "<body>" ++
    lit "<h1>About mnet</h1>" ++
    lit "<p>mnet is a simple, ergonomic web framework for C.</p>" ++
    quoted "<p><a href=`/`>Back home</a></p>" ++
    lit "</body></html>")).

Definition contact (req : mnet_request_t) : M mnet_response_t :=
  mnet_html (Some (
    lit "<!doctype html>" ++
    lit "<html><head><title>Contact</title></head>" ++
    lit "<body>" ++
    lit "<h1>Contact</h1>" ++
    lit "<p>Email: example@example.com</p>" ++
    quoted "<p><a href=`/`>Back home</a></p>" ++
    lit "</body></html>")).

(** The page, before [snprintf] cuts it. *)
Definition time_page (time_str : bytes) : bytes :=
  lit "<!doctype html>" ++
  lit "<html><head><title>Current Time</title></head>" ++
  lit "<body>" ++
  lit "<h1>Current Time</h1>" ++
  lit "<p>" ++ time_str ++ lit "</p>" ++
  quoted "<p><a href=`/`>Back home</a></p>" ++
  lit "</body></html>".

Definition current_time (req : mnet_request_t) : M mnet_response_t :=
  now ← sys clk_time;
  match clk_text now with
  | None => ub
  | Some tm =>
      let time_str := tm in
      let '(_, html) := snprintf (Z.to_nat 256) (time_page time_str) in
      mnet_html (Some html)
  end.

Definition not_found (req : mnet_request_t) : M mnet_response_t :=
  mnet_html (Some (
    lit "<!doctype html>" ++
    lit "<html><head><title>404</title></head>" ++
    lit "<body>" ++
    lit "<h1>404 - Page Not Found</h1>" ++
    lit "<p>The page you're looking for doesn't exist.</p>" ++
    quoted "<p><a href=`/`>Go home</a></p>" ++
    lit "</body></html>")).

(** [main], up to [example_serve]; [None] when it returns 1. *)
Definition main_app : M (option mnet_app_t) :=
  app ← example_create;
  match app with
  | None => mret None
  | Some _ =>
      let app := mnet_set_not_found_handler app (Some not_found) in
      app ← MNET_GET app (lit "/") home;
      app ← MNET_GET app (lit "/about") about;
      app ← MNET_GET app (lit "/contact") contact;
      MNET_GET app (lit "/time") current_time
  end.
End http_server.

(** [main] *)
Definition main `{!Allocator, !OS, !Process, !Files, !Network, !Listener, !Clock} (fuel requests : nat) :
    M (run_result * option mnet_app_t) :=
  app ← main_app;
  match app with
  | None => mret (RunReturned 1, None)
  | Some _ => example_serve fuel requests app 8080 (Some (
    lit "Starting HTTP server on http://localhost:8080" ++ [chLF]))
  end.

(** ** The handlers keep the contract *)

(** The local time is known. *)
Definition local_time_known `{!Clock} : Prop := ∀ k, clk_text (clk_time k) ≠ None.

Section http_proofs.
Context `{!Allocator, !Clock}.

Lemma current_time_ok : local_time_known → handler_ok current_time.
Proof.
  intros Hclk req w0 w bs Ho _. unfold current_time. apply wp_bind.
  eapply wp_sys_at; [exact Ho|]. intros w1 Ho1.
  destruct (clk_text (clk_time _)) as [s|] eqn:E; [|by destruct (Hclk (w_calls w0))].
  by eapply (construct_handled CHtml _ w0 w1 1 []).
Qed.

(** The page is not cut: it fits its array of 256 bytes. *)
Lemma time_page_fits t s : clk_text t = Some s → (length (time_page s) < 256)%nat.
Proof.
  intros Hs%clk_text_length. unfold time_page. rewrite !length_app.
  change (length (lit "<!doctype html>")) with 15%nat.
  repeat match goal with |- context [length (lit ?x)] =>
    let n := eval vm_compute in (length (lit x)) in change (length (lit x)) with n end.
  repeat match goal with |- context [length (quoted ?x)] =>
    let n := eval vm_compute in (length (quoted x)) in change (length (quoted x)) with n end.
  lia.
Qed.

Lemma main_app_spec w :
  wf_world w → local_time_known →
  wp main_app (λ app w', match app with
    | Some _ => good_inv w app w'
    | None => alloc_failure ∧ held w w' []
    end) w.
Proof.
  intros Hwf Hclk. unfold main_app. apply wp_bind. eapply example_create_spec; [done| |].
  2:{ intros w1 Hf Ho. by apply wp_ret. }
  intros app w1 _ Hi.
  assert (good_inv w (mnet_set_not_found_handler (Some app) (Some not_found)) w1) as Hi1.
  { eapply (run_op_good w w1 (Some app) (OpNotFound (Some not_found))); [apply page_ok|done]. }
  cbn [mnet_set_not_found_handler] in *.
  do 3 (apply wp_bind; eapply route_good_step;
    [exact Hi1|by apply good_pattern_check; [|apply Nat.leb_le]|apply page_ok|clear Hi1; intros ? ? Hi1]).
  eapply route_good_step; [exact Hi1|by apply good_pattern_check; [|apply Nat.leb_le]|
    by apply current_time_ok|done].
Qed.
End http_proofs.

(** ** Properties *)

(** the application that the HTML example builds can be served: it is built
    safely and, as long as the local time is known, every connection to it is
    handled without undefined behaviour and gives back all it took, whatever the
    peers, the system and the allocator do; destroying it frees it completely. *)
Theorem http_example_servable `{!Allocator, !OS, !Process, !Files, !Clock} (w : world) :
  wf_world w → local_time_known → wp main_app (servable w) w.
Proof.
  intros Hwf Hclk. eapply wp_mono; [by apply main_app_spec|].
  intros [app|] w' H'; [by apply good_servable|]. destruct H' as [Hf Hh].
  split; [done|by apply held_nil_heap].
Qed.

Lemma http_example_servable_witness :
  wp (main_app (H := all_ok) (H0 := demo_clock))
    (servable (H := all_ok) (H0 := silent_os) (H1 := quiet) (H2 := demo_files) empty_world)
    empty_world.
Proof.
  apply (http_example_servable (H := all_ok) (H0 := silent_os) (H1 := quiet) (H2 := demo_files)
    (H3 := demo_clock)).
  - apply empty_world_wf.
  - done.
Defined.



(** It does start its workers. *)
Example http_example_starts :
  match main (H := all_ok) (H0 := silent_os) (H1 := quiet) (H2 := demo_files) (H3 := demo_network)
          (H4 := one_client) (H5 := demo_clock) 0 0 empty_world with
  | Some (RunPool _ _, Some app, w) => app_workers app = 4 ∧ Sys.open_sockets (w_trace w) = 1
  | _ => False
  end.
Proof. vm_compute. done. Qed.
