(* ===== verification/ExampleApi.v ===== *)
(** * The JSON example

    [src/example/example_api_server.c]: its table of items and its handlers. *)

From S2P Require Import ExampleCommon.

(** [items], with its terminating NULL *)
Definition items : list (option bytes) :=
  [Some (lit "Item One"); Some (lit "Item Two"); Some (lit "Item Three"); None].

Section api_server.
Context `{!Allocator, !Floats}.

Definition list_items (req : mnet_request_t) : M mnet_response_t :=
  json ← append (Z.to_nat 512) ([], 0) (lit "[");
  json ← entries_loop (λ _, true) (λ _ item, quoted "`" ++ item ++ quoted "`") (Z.to_nat 512)
           items 0 true json;
  '(json, _) ← append (Z.to_nat 512) json (lit "]");
  mnet_json (Some json).

Definition get_item (req : mnet_request_t) : M mnet_response_t :=
  id_str ← MNET_PARAM req (lit "id");
  match id_str with
  | None => mnet_error 400 (Some (lit "missing id parameter"))
  | Some _ =>
      s ← load_str id_str;
      id ← atoi_string s;
      item ← (if id <? 0 then mret None else table_get items id);
      match item with
      | None => mnet_error 404 (Some (lit "item not found"))
      | Some name =>
          mnet_jsonf (Some (quoted "{`id`:%d,`name`:`%s`}")) [ArgInt RInt true id; ArgString (Some name)]
      end
  end.

Definition create_item (req : mnet_request_t) : M mnet_response_t :=
  match MNET_BODY req with
  | BodyNull => mnet_error 400 (Some (lit "empty body"))
  | body =>
      s ← body_string body;
      if (length s =? 0)%nat then mnet_error 400 (Some (lit "empty body"))
      else mnet_jsonf (Some (quoted "{`created`:true,`item`:`%s`}")) [ArgString (Some s)]
  end.

(** An entry of a search result. *)
Definition item_entry (i : Z) (name : bytes) : bytes :=
  quoted "{`id`:" ++ print_int i ++ quoted ",`name`:`" ++ name ++ quoted "`}".

Definition search_items (req : mnet_request_t) : M mnet_response_t :=
  query ← MNET_QUERY req (lit "q");
  match query with
  | None => mnet_error 400 (Some (lit "missing query parameter 'q'"))
  | Some _ =>
      q ← load_str query;
      if (length q =? 0)%nat then mnet_error 400 (Some (lit "missing query parameter 'q'"))
      else
        json ← append (Z.to_nat 512) ([], 0) (lit "[");
        json ← entries_loop (λ item, bool_decide (strstr item q ≠ None)) item_entry (Z.to_nat 512)
                 items 0 true json;
        '(json, _) ← append (Z.to_nat 512) json (lit "]");
        mnet_json (Some json)
  end.

Definition api_echo (req : mnet_request_t) : M mnet_response_t :=
  match MNET_BODY req with
  | BodyNull => mnet_error 400 (Some (lit "empty body"))
  | body =>
      content_type ← MNET_HEADER req (lit "Content-Type");
      s ← body_string body;
      ct ← (match content_type with Some _ => load_str content_type | None => mret (lit "none") end);
      mnet_jsonf (Some (quoted "{`echo`:{`body`:`%s`,`content_type`:`%s`}}"))
        [ArgString (Some s); ArgString (Some ct)]
  end.

Definition health (req : mnet_request_t) : M mnet_response_t :=
  mnet_json (Some (quoted "{`status`:`ok`}")).

(** [main], up to [example_serve]; [None] when it returns 1. *)
Definition main_app : M (option mnet_app_t) :=
  app ← example_create;
  match app with
  | None => mret None
  | Some _ =>
      app ← MNET_GET app (lit "/api/items") list_items;
      app ← MNET_GET app (lit "/api/items/:id") get_item;
      app ← MNET_POST app (lit "/api/items") create_item;
      app ← MNET_GET app (lit "/api/search") search_items;
      app ← MNET_POST app (lit "/api/echo") api_echo;
      MNET_GET app (lit "/api/health") health
  end.
End api_server.

(** [main] *)
Definition main `{!Allocator, !OS, !Process, !Files, !Network, !Listener, !Floats} (fuel requests : nat) :
    M (run_result * option mnet_app_t) :=
  app ← main_app;
  match app with
  | None => mret (RunReturned 1, None)
  | Some _ => example_serve fuel requests app 8080 (Some (
    lit "Starting API server on http://localhost:8080" ++ [chLF] ++ lit "Endpoints:" ++ [chLF] ++
    lit "  GET  /api/items        - list all items" ++ [chLF] ++
    lit "  GET  /api/items/:id    - get item by ID" ++ [chLF] ++
    lit "  POST /api/items        - create item" ++ [chLF] ++
    lit "  GET  /api/search?q=    - search items" ++ [chLF] ++
    lit "  POST /api/echo         - echo back request" ++ [chLF] ++
    lit "  GET  /api/health       - health check" ++ [chLF]))
  end.

(** ** What the handlers answer *)

Section api_proofs.
Context `{!Allocator, !Floats}.

(** The text fits its array, whichever items are kept. *)
Lemma item_list_length keep : (length (json_list items keep item_entry) < 512)%nat.
Proof.
  unfold json_list, items. cbn [kept_entries].
  destruct (keep (lit "Item One")), (keep (lit "Item Two")), (keep (lit "Item Three"));
    apply Nat.ltb_lt; by vm_compute.
Qed.

(** *** The formats as pieces *)

Definition get_item_segs (id : Z) (name : bytes) : list segment :=
  text_segs (quoted "{`id`:") ++ [int_seg id] ++ text_segs (quoted ",`name`:`") ++
  [string_seg name] ++ text_segs (quoted "`}").

Definition create_item_segs (s : bytes) : list segment :=
  text_segs (quoted "{`created`:true,`item`:`") ++ [string_seg s] ++ text_segs (quoted "`}").

Definition api_echo_segs (s ct : bytes) : list segment :=
  text_segs (quoted "{`echo`:{`body`:`") ++ [string_seg s] ++
  text_segs (quoted "`,`content_type`:`") ++ [string_seg ct] ++ text_segs (quoted "`}}").

Lemma items_text name : Some name ∈ items → text_ok name.
Proof.
  unfold items. rewrite !elem_of_cons. intros [[= ->]|[[= ->]|[[= ->]|[[=]|Hn]]]];
    [by repeat constructor..|by apply not_elem_of_nil in Hn].
Qed.

Lemma list_items_ok : handler_ok list_items.
Proof.
  intros req w0 w bs Ho _. unfold list_items.
  eapply (list_answer items (λ _, true)); [unfold items; set_solver|apply Nat.ltb_lt; by vm_compute|].
  eapply (construct_handled CJson _ w0 w 0 []); [by rewrite io_nil|done..].
Qed.

Lemma health_ok : handler_ok health.
Proof.
  intros req w0 w bs Ho _. eapply (construct_handled CJson _ w0 w 0 []); [by rewrite io_nil|done..].
Qed.

Lemma search_items_ok : handler_ok search_items.
Proof.
  intros req w0 w bs Ho Hreq. unfold search_items. apply wp_bind.
  apply (wp_field _ _ _ (query_found _ _ _ Hreq)); [by apply error_ok|].
  intros l q Hq Hload. apply wp_bind, Hload. case_test; [by apply error_ok|].
  apply list_answer; [unfold items; set_solver| |].
  { pose proof (item_list_length (λ item, bool_decide (strstr item q ≠ None))). lia. }
  eapply (construct_handled CJson _ w0 w 0 []); [by rewrite io_nil|done..].
Qed.

Lemma create_item_call w0 w bs s :
  owns w0 w bs → text_ok s →
  wp (mnet_jsonf (Some (quoted "{`created`:true,`item`:`%s`}")) [ArgString (Some s)])
    (λ r w', ∃ rb, owns w0 w' (rb ++ bs) ∧ jsonf_answer (create_item_segs s) r rb) w.
Proof.
  intros Ho Hs. eapply jsonf_rule; [exact Ho|done|done|done|]. unfold create_item_segs. fine_segs.
  by apply string_seg_fine.
Qed.

Lemma create_item_ok : handler_ok create_item.
Proof.
  intros req w0 w bs Ho Hreq. unfold create_item.
  destruct (MNET_BODY req) eqn:E; [by apply error_ok|rewrite <-E..];
    (apply wp_bind, wp_body_string; [done|by rewrite E|]; intros s Hs;
     case_test; [by apply error_ok|]; eapply wp_mono; [by apply create_item_call|];
     intros r w' (rb & Ho' & Hr); rewrite <-(io_nil w0) in Ho'; by eapply jsonf_answer_handled).
Qed.

Lemma api_echo_call w0 w bs s ct :
  owns w0 w bs → text_ok s → text_ok ct →
  wp (mnet_jsonf (Some (quoted "{`echo`:{`body`:`%s`,`content_type`:`%s`}}"))
        [ArgString (Some s); ArgString (Some ct)])
    (λ r w', ∃ rb, owns w0 w' (rb ++ bs) ∧ jsonf_answer (api_echo_segs s ct) r rb) w.
Proof.
  intros Ho Hs Hct. eapply jsonf_rule; [exact Ho|done|done|done|]. unfold api_echo_segs. fine_segs;
  by apply string_seg_fine.
Qed.

(** The optional string behind a pointer that was found. *)
Lemma api_echo_ok : handler_ok api_echo.
Proof.
  intros req w0 w bs Ho Hreq. unfold api_echo.
  assert (∀ s ct, text_ok s → text_ok ct →
    wp (mnet_jsonf (Some (quoted "{`echo`:{`body`:`%s`,`content_type`:`%s`}}"))
        [ArgString (Some s); ArgString (Some ct)]) (handled w0 bs) w) as Hcall.
  { intros s ct Hs Hct. eapply wp_mono; [by apply api_echo_call|].
    intros r w' (rb & Ho' & Hr). rewrite <-(io_nil w0) in Ho'. by eapply jsonf_answer_handled. }
  destruct (MNET_BODY req) eqn:E; [by apply error_ok|rewrite <-E..];
    (apply wp_bind, (wp_field _ _ _ (header_found _ _ _ Hreq));
     [|intros l ct Hct Hload]; apply wp_bind, wp_body_string; try done; try (by rewrite E);
     intros s Hs; apply wp_bind; [apply wp_ret|apply Hload]; apply Hcall; try done;
     by repeat constructor).
Qed.

Lemma get_item_call w0 w bs id name :
  owns w0 w bs → - 2 ^ 31 <= id < 2 ^ 31 → text_ok name →
  wp (mnet_jsonf (Some (quoted "{`id`:%d,`name`:`%s`}")) [ArgInt RInt true id; ArgString (Some name)])
    (λ r w', ∃ rb, owns w0 w' (rb ++ bs) ∧ jsonf_answer (get_item_segs id name) r rb) w.
Proof.
  intros Ho Hid Hs. eapply jsonf_rule; [exact Ho|done|done|done|]. unfold get_item_segs. fine_segs;
  [by apply int_seg_fine|by apply string_seg_fine].
Qed.
End api_proofs.

(** The part of [get_item] after the identifier is read. *)
Definition item_answer `{!Allocator, !Floats} (id : Z) : M mnet_response_t :=
  item ← (if id <? 0 then mret None else table_get items id);
  match item with
  | None => mnet_error 404 (Some (lit "item not found"))
  | Some name =>
      mnet_jsonf (Some (quoted "{`id`:%d,`name`:`%s`}")) [ArgInt RInt true id; ArgString (Some name)]
  end.

Lemma get_item_run `{!Allocator, !Floats} req l s k id w :
  MNET_PARAM req (lit "id") w = Some (Some l, w) →
  w_heap w !! l = Some (s ++ 0 :: k) → Forall (λ c, c ≠ 0) s → atoi (s ++ [0]) = Some id →
  get_item req w = item_answer id w.
Proof.
  intros Hp Hl Hs Hid. unfold get_item, mbind at 1, M_bind at 1. rewrite Hp.
  unfold mbind at 1, M_bind at 1. rewrite (load_str_value l s k w Hl Hs).
  unfold mbind at 1, M_bind at 1, atoi_string. by rewrite Hid.
Qed.

(** ** Properties *)

(** the handlers of the JSON example that do not index the table keep the
    contract of handlers: for every request the server can hand them they meet
    no undefined behaviour, and what they leave allocated is the body of their
    response. *)
Theorem api_handlers_ok `{!Allocator, !Floats} :
  Forall handler_ok [list_items; create_item; search_items; api_echo; health].
Proof.
  repeat apply Forall_cons_2; [apply list_items_ok|apply create_item_ok|apply search_items_ok|
    apply api_echo_ok|apply health_ok|apply Forall_nil_2].
Qed.

(** [get_item] does not check the upper end of its table: an id below zero or
    3 (the index of the terminating NULL) is answered with 404 and the ids 0 to 2
    with the item's name, but for every larger id the handler reads past the end
    of the table, which is undefined. *)
Theorem get_item_bounds `{!Allocator, !Floats} (req : mnet_request_t) (l : loc) (s k : bytes) (id : Z)
    (w : world) :
  wf_world w → MNET_PARAM req (lit "id") w = Some (Some l, w) →
  w_heap w !! l = Some (s ++ 0 :: k) → Forall (λ c, c ≠ 0) s → atoi (s ++ [0]) = Some id →
  (id < 0 ∨ id = 3 → get_item req w = mnet_error 404 (Some (lit "item not found")) w) ∧
  (∀ name, 0 <= id → items !! Z.to_nat id = Some (Some name) →
     wp (get_item req) (λ r w', ∃ rb, owns w w' rb ∧ jsonf_answer (get_item_segs id name) r rb) w) ∧
  (3 < id → get_item req w = None).
Proof.
  intros Hwf Hp Hl Hs Hid. pose proof (atoi_range _ _ Hid) as Hr.
  unfold wp. rewrite (get_item_run req l s k id w Hp Hl Hs Hid). unfold item_answer. split_and!.
  - intros [Hneg| ->]; [|done]. by rewrite (proj2 (Z.ltb_lt _ _)) by done.
  - intros name Hpos Hn. rewrite (proj2 (Z.ltb_ge _ _)) by done. unfold table_get.
    rewrite Hn, (proj2 (Z.leb_le 0 _)) by done. cbv [mbind M_bind mret M_ret].
    fold (wp (mnet_jsonf (Some (quoted "{`id`:%d,`name`:`%s`}")) [ArgInt RInt true id; ArgString (Some name)])
      (λ r w', ∃ rb, owns w w' rb ∧ jsonf_answer (get_item_segs id name) r rb) w).
    eapply wp_mono; [apply (get_item_call w w []); [by apply owns_refl|done|]|].
    + by apply items_text; eapply list_elem_of_lookup_2.
    + intros r w' (rb & Ho & Hrb). rewrite app_nil_r in Ho. by exists rb.
  - intros Hbig. rewrite (proj2 (Z.ltb_ge _ _)) by lia. unfold table_get.
    rewrite lookup_ge_None_2; [done|]. cbn [items length]. lia.
Qed.

Lemma get_item_bounds_witness :
  let w := field_world (lit "id") (lit "2") in
  let req := demo_request [] [] [Some 0%nat] [Some 1%nat] in
  (2 < 0 ∨ 2 = 3 → get_item (H := all_ok) (H0 := demo_floats) req w =
     mnet_error (H := all_ok) 404 (Some (lit "item not found")) w) ∧
  (∀ name, 0 <= 2 → items !! Z.to_nat 2 = Some (Some name) →
     wp (get_item (H := all_ok) (H0 := demo_floats) req)
       (λ r w', ∃ rb, owns w w' rb ∧
          jsonf_answer (H := all_ok) (H0 := demo_floats) (get_item_segs (H0 := demo_floats) 2 name) r rb) w) ∧
  (3 < 2 → get_item (H := all_ok) (H0 := demo_floats) req w = None).
Proof.
  apply (get_item_bounds (H := all_ok) (H0 := demo_floats) _ 1%nat (lit "2") [] 2).
  - apply field_world_wf.
  - by vm_compute.
  - done.
  - by repeat constructor.
  - by vm_compute.
Defined.

(** What a client gets for the identifier 2, and what it can ask for with 4. *)
Example get_item_text `{!Floats} :
  text_of (get_item_segs 2 (lit "Item Three")) = quoted "{`id`:2,`name`:`Item Three`}".
Proof. by vm_compute. Qed.

(** [search_items] answers with the items that contain the query, each with
    its index, in the order of the table and separated by commas: for every
    non-empty query the body is exactly that list, and it fits its array. *)
Theorem search_items_correct `{!Allocator} (req : mnet_request_t) (l : loc) (q k : bytes)
    (w : world) :
  wf_world w → MNET_QUERY req (lit "q") w = Some (Some l, w) →
  w_heap w !! l = Some (q ++ 0 :: k) → Forall (λ c, c ≠ 0) q → q ≠ [] →
  wp (search_items req)
    (λ r w', ∃ rb, owns w w' rb ∧ response_result 0 200 (lit "application/json")
       (json_list items (λ item, bool_decide (strstr item q ≠ None)) item_entry) r rb) w.
Proof.
  intros Hwf Hp Hl Hs Hne.
  unfold wp, search_items, mbind at 1, M_bind at 1. rewrite Hp.
  unfold mbind at 1, M_bind at 1. rewrite (load_str_value l q k w Hl Hs).
  destruct q as [|c q]; [done|]. cbn [length Nat.eqb]. set (query := c :: q).
  pose proof (item_list_length (λ item, bool_decide (strstr item query ≠ None))) as Hlen.
  apply (list_answer items (λ item, bool_decide (strstr item query ≠ None)) item_entry w);
    [unfold items; set_solver|lia|].
  by apply (construct_spec CJson).
Qed.

Lemma search_items_correct_witness :
  let w := field_world (lit "q") (lit "T") in
  wp (search_items (H := all_ok) query_request)
    (λ r w', ∃ rb, owns w w' rb ∧ response_result (H := all_ok) 0 200 (lit "application/json")
       (json_list items (λ item, bool_decide (strstr item (lit "T") ≠ None)) item_entry) r rb) w.
Proof.
  apply (search_items_correct (H := all_ok) _ 1%nat (lit "T") []).
  - apply field_world_wf.
  - by vm_compute.
  - done.
  - by repeat constructor.
  - done.
Defined.

Example search_text :
  json_list items (λ item, bool_decide (strstr item (lit "T") ≠ None)) item_entry =
    quoted "[{`id`:1,`name`:`Item Two`},{`id`:2,`name`:`Item Three`}]".
Proof. by vm_compute. Qed.

(** The whole server, from its set-up to the first request of a peer: asking for
    an item above the table is enough to make the run undefined. *)
Definition ask (request : bytes) (Hb : Forall is_byte request) : option (bool * world) :=
  (app ← main_app (H := all_ok) (H0 := demo_floats);
   match app with
   | None => mret true
   | Some app => mnet_handle_client (H := all_ok) (H0 := one_shot_os request Hb) (H1 := quiet)
                   (H2 := demo_files) 1 app fresh_buffer
   end) empty_world.

Definition item_request (id : bytes) : bytes :=
  lit "GET /api/items/" ++ id ++ lit " HTTP/1.1" ++ CRLF ++ lit "Host: h" ++ CRLFCRLF.

Lemma item_request_bytes id : Forall is_byte id → Forall is_byte (item_request id).
Proof.
  intros Hid. unfold item_request. repeat apply Forall_app_2; try apply lit_bytes; try done;
    by repeat constructor.
Qed.

Lemma api_items_overread :
  ask (item_request (lit "4")) (item_request_bytes _ (lit_bytes "4")) = None ∧
  ask (item_request (lit "2")) (item_request_bytes _ (lit_bytes "2")) ≠ None.
Proof. split; by vm_compute. Qed.

(** The data that a run sends. *)
Definition sent_by (r : option (bool * world)) : option bytes :=
  (λ r, concat (omap (λ e, match e with EvSend d => Some d | _ => None end) (w_trace (snd r)))) <$> r.

Definition echo_request : bytes :=
  lit "POST /api/echo HTTP/1.1" ++ CRLF ++ lit "Content-Length: 2" ++ CRLFCRLF ++ lit "hi" ++
  lit "SECRET".

Lemma echo_request_bytes : Forall is_byte echo_request.
Proof. unfold echo_request. repeat apply Forall_app_2; try apply lit_bytes; by repeat constructor. Qed.

(** A body in the read buffer is not terminated at its length: with two bytes
    announced the example echoes everything that was received behind them. *)
Lemma body_beyond_length :
  sent_by (ask echo_request echo_request_bytes) =
    Some (block_of [lit "HTTP/1.1 200 OK"; lit "Content-Length: 50";
                    lit "Content-Type: application/json"; lit "Connection: close"] ++
          quoted "{`echo`:{`body`:`hiSECRET`,`content_type`:`none`}}").
Proof. by vm_compute. Qed.
