(* ===== verification/ExampleCombined.v ===== *)
(** * The combined example

    [src/example/example_combined.c]: its table of users, its pages, its JSON
    interface, the handler that calls another server, and the application that
    its [main] builds. *)

From S2P Require Import ExampleCommon.

(** [users], with its terminating NULL *)
Definition users : list (option bytes) :=
  [Some (lit "Alice"); Some (lit "Bob"); Some (lit "Charlie"); None].

Section combined.
Context `{!Allocator, !Floats, !Clock, !OS, !Network}.

Definition home_page (req : mnet_request_t) : M mnet_response_t :=
  mnet_html (Some (
    lit "<!doctype html>" ++
    lit "<html><head><title>mnet Combined Example</title></head>" ++
    lit "<body>" ++
    lit "<h1>mnet Combined Example</h1>" ++
    lit "<p>This server serves both HTML pages and a JSON API.</p>" ++
    lit "<h2>Web Pages</h2>" ++
    lit "<ul>" ++
    quoted "  <li><a href=`/`>Home</a> (this page)</li>" ++
    quoted "  <li><a href=`/users`>Users List</a></li>" ++
    quoted "  <li><a href=`/users/0`>User Details (ID 0)</a></li>" ++
    lit "</ul>" ++
    lit "<h2>API Endpoints</h2>" ++
    lit "<ul>" ++
    lit "  <li><code>GET /api/users</code> - list users</li>" ++
    lit "  <li><code>GET /api/users/:id</code> - get user by ID</li>" ++
    lit "  <li><code>POST /api/users</code> - create user (JSON body)</li>" ++
    lit "  <li><code>GET /api/search?q=...</code> - search users</li>" ++
    lit "  <li><code>GET /api/protected</code> - protected (requires header)</li>" ++
    lit "  <li><code>GET /api/health</code> - health check</li>" ++
    lit "</ul>" ++
    lit "</body></html>")).

Definition user_line (i : Z) (name : bytes) : bytes :=
  quoted "<li><a href=`/users/" ++ print_int i ++ quoted "`>" ++ name ++ lit "</a></li>".

(** The loop of [users_page]. *)
Fixpoint lines_loop (table : list (option bytes)) (i : Z) (html : text_buf) : M text_buf :=
  match table with
  | [] => ub
  | None :: _ => mret html
  | Some name :: table =>
      html ← append (Z.to_nat 1024) html (user_line i name);
      lines_loop table (i + 1) html
  end.

Definition users_page (req : mnet_request_t) : M mnet_response_t :=
  html ← append (Z.to_nat 1024) ([], 0)
    (lit "<!doctype html><html><head><title>Users</title></head><body>" ++
     lit "<h1>Users</h1><ul>");
  html ← lines_loop users 0 html;
  '(html, _) ← append (Z.to_nat 1024) html
    (quoted "</ul><p><a href=`/`>Back home</a></p></body></html>");
  mnet_html (Some html).

(** The page of a user, before [snprintf] cuts it. *)
Definition detail_page (id : Z) (name : bytes) : bytes :=
  lit "<!doctype html><html><head><title>User " ++ print_int id ++ lit "</title></head><body>" ++
  lit "<h1>User " ++ print_int id ++ lit ": " ++ name ++ lit "</h1>" ++
  quoted "<p><a href=`/users`>Back to users</a> | " ++
  quoted "<a href=`/api/users/" ++ print_int id ++ quoted "`>API view</a></p>" ++
  lit "</body></html>".

Definition user_detail_page (req : mnet_request_t) : M mnet_response_t :=
  id_str ← MNET_PARAM req (lit "id");
  match id_str with
  | None => mnet_error 400 (Some (lit "missing id"))
  | Some _ =>
      s ← load_str id_str;
      id ← atoi_string s;
      user ← (if id <? 0 then mret None else table_get users id);
      match user with
      | None =>
          r ← mnet_html (Some (
            lit "<!doctype html><html><head><title>404</title></head><body>" ++
            quoted "<h1>User Not Found</h1><p><a href=`/users`>Back to users</a></p>" ++
            lit "</body></html>"));
          mret (MkResponse 404 (rs_content_type r) (rs_body r) (rs_body_length r) (rs_chunked r))
      | Some name =>
          let '(_, html) := snprintf (Z.to_nat 256) (detail_page id name) in
          mnet_html (Some html)
      end
  end.

Definition user_entry (i : Z) (name : bytes) : bytes :=
  quoted "{`id`:" ++ print_int i ++ quoted ",`name`:`" ++ name ++ quoted "`}".

Definition api_list_users (req : mnet_request_t) : M mnet_response_t :=
  json ← append (Z.to_nat 512) ([], 0) (lit "[");
  json ← entries_loop (λ _, true) user_entry (Z.to_nat 512) users 0 true json;
  '(json, _) ← append (Z.to_nat 512) json (lit "]");
  mnet_json (Some json).

Definition api_get_user (req : mnet_request_t) : M mnet_response_t :=
  id_str ← MNET_PARAM req (lit "id");
  match id_str with
  | None => mnet_error 400 (Some (lit "missing id"))
  | Some _ =>
      s ← load_str id_str;
      id ← atoi_string s;
      user ← (if id <? 0 then mret None else table_get users id);
      match user with
      | None => mnet_error 404 (Some (lit "user not found"))
      | Some name =>
          mnet_jsonf (Some (quoted "{`id`:%d,`name`:`%s`}")) [ArgInt RInt true id; ArgString (Some name)]
      end
  end.

Definition api_create_user (req : mnet_request_t) : M mnet_response_t :=
  auth ← MNET_HEADER req (lit "Authorization");
  authorised ← (match auth with
                | None => mret false
                | Some _ => a ← load_str auth; mret (strcmp_eq a (lit "Bearer secret"))
                end);
  if negb authorised then mnet_error 401 (Some (lit "unauthorized"))
  else
    match MNET_BODY req with
    | BodyNull => mnet_error 400 (Some (lit "empty body"))
    | body =>
        s ← body_string body;
        if (length s =? 0)%nat then mnet_error 400 (Some (lit "empty body"))
        else mnet_jsonf (Some (quoted "{`created`:true,`name`:`%s`}")) [ArgString (Some s)]
    end.

Definition api_search (req : mnet_request_t) : M mnet_response_t :=
  q ← MNET_QUERY req (lit "q");
  match q with
  | None => mnet_error 400 (Some (lit "missing 'q' parameter"))
  | Some _ =>
      q ← load_str q;
      if (length q =? 0)%nat then mnet_error 400 (Some (lit "missing 'q' parameter"))
      else
        json ← append (Z.to_nat 512) ([], 0) (lit "[");
        json ← entries_loop (λ name, bool_decide (strstr name q ≠ None)) user_entry (Z.to_nat 512)
                 users 0 true json;
        '(json, _) ← append (Z.to_nat 512) json (lit "]");
        mnet_json (Some json)
  end.

Definition api_protected (req : mnet_request_t) : M mnet_response_t :=
  auth ← MNET_HEADER req (lit "Authorization");
  match auth with
  | None => mnet_error 401 (Some (lit "missing Authorization header"))
  | Some _ =>
      a ← load_str auth;
      mnet_jsonf (Some (quoted "{`message`:`access granted`,`auth`:`%s`}")) [ArgString (Some a)]
  end.

Definition api_health (req : mnet_request_t) : M mnet_response_t :=
  now ← sys clk_time;
  mnet_jsonf (Some (quoted "{`status`:`ok`,`timestamp`:%ld,`users_count`:%d}"))
    [ArgInt RLong true now; ArgInt RInt true 3].

(** The string behind an optional pointer, or a default. *)
Definition string_or (p : ptr) (other : bytes) : M bytes :=
  match p with Some _ => load_str p | None => mret other end.

Definition api_echo (req : mnet_request_t) : M mnet_response_t :=
  let body := MNET_BODY req in
  ct ← MNET_HEADER req (lit "Content-Type");
  ua ← MNET_HEADER req (lit "User-Agent");
  b ← (match body with BodyNull => mret (lit "(empty)") | body => body_string body end);
  ct ← string_or ct (lit "(none)");
  ua ← string_or ua (lit "(none)");
  mnet_jsonf (Some (quoted "{`echo`:{`body`:`%s`,`content_type`:`%s`,`user_agent`:`%s`}}"))
    [ArgString (Some b); ArgString (Some ct); ArgString (Some ua)].

(** A call that has not ended after [fuel] receptions is not a result. *)
Definition api_call (fuel : nat) (req : mnet_request_t) : M mnet_response_t :=
  url ← MNET_QUERY req (lit "url");
  match url with
  | None => mnet_error 400 (Some (lit "missing 'url' query parameter"))
  | Some _ =>
      u ← load_str url;
      if (length u =? 0)%nat then mnet_error 400 (Some (lit "missing 'url' query parameter"))
      else
        result ← mnet_call fuel (Some u);
        match result with
        | None => ub
        | Some None => mnet_error 502 (Some (lit "failed to call URL"))
        | Some result =>
            s ← load_str result;
            r ← mnet_json (Some s);
            free result;;
            mret r
        end
  end.

Definition custom_404 (req : mnet_request_t) : M mnet_response_t :=
  mnet_html (Some (
    lit "<!doctype html><html><head><title>404</title></head><body>" ++
    lit "<h1>404 - Not Found</h1>" ++
    lit "<p>The page you requested doesn't exist.</p>" ++
    quoted "<p><a href=`/`>Go home</a></p>" ++
    lit "</body></html>")).

(** [main], up to [example_serve]; [None] when it returns 1. *)
Definition main_app (fuel : nat) : M (option mnet_app_t) :=
  app ← example_create;
  match app with
  | None => mret None
  | Some _ =>
      let app := mnet_set_not_found_handler app (Some custom_404) in
      let app := mnet_set_workers app 4 in
      let app := mnet_set_max_connections app 100 in
      let app := mnet_set_keep_alive_timeout app 30 in
      let app := mnet_set_max_body_size app (1024 * 1024) in
      app ← MNET_GET app (lit "/") home_page;
      app ← MNET_GET app (lit "/users") users_page;
      app ← MNET_GET app (lit "/users/:id") user_detail_page;
      app ← MNET_GET app (lit "/api/users") api_list_users;
      app ← MNET_GET app (lit "/api/users/:id") api_get_user;
      app ← MNET_POST app (lit "/api/users") api_create_user;
      app ← MNET_GET app (lit "/api/search") api_search;
      app ← MNET_GET app (lit "/api/protected") api_protected;
      app ← MNET_GET app (lit "/api/health") api_health;
      app ← MNET_POST app (lit "/api/echo") api_echo;
      MNET_GET app (lit "/api/call") (api_call fuel)
  end.
End combined.

(** [main] *)
Definition main `{!Allocator, !OS, !Process, !Files, !Network, !Listener, !Floats, !Clock} (call_fuel : nat) (fuel requests : nat) :
    M (run_result * option mnet_app_t) :=
  app ← main_app call_fuel;
  match app with
  | None => mret (RunReturned 1, None)
  | Some _ => example_serve fuel requests app 8080 (Some (
    lit "Starting combined server on http://localhost:8080" ++ [chLF] ++ [chLF] ++
    lit "Web pages:" ++ [chLF] ++ lit "  GET  /                    - Home page" ++ [chLF] ++
    lit "  GET  /users               - Users list (HTML)" ++ [chLF] ++
    lit "  GET  /users/:id           - User detail (HTML)" ++ [chLF] ++ [chLF] ++
    lit "API endpoints:" ++ [chLF] ++ lit "  GET  /api/users           - List all users" ++
    [chLF] ++ lit "  GET  /api/users/:id       - Get user by ID" ++ [chLF] ++
    lit "  POST /api/users           - Create user (Bearer secret)" ++ [chLF] ++
    lit "  GET  /api/search?q=       - Search users" ++ [chLF] ++
    lit "  GET  /api/protected       - Requires Authorization header" ++ [chLF] ++
    lit "  GET  /api/health          - Health check" ++ [chLF] ++
    lit "  POST /api/echo            - Echo request details" ++ [chLF]))
  end.

(** ** The handlers keep the contract *)

Section combined_proofs.
Context `{!Allocator, !Floats, !Clock}.

(** *** The formats as pieces *)

Definition created_segs (s : bytes) : list segment :=
  text_segs (quoted "{`created`:true,`name`:`") ++ [string_seg s] ++ text_segs (quoted "`}").

Definition protected_segs (a : bytes) : list segment :=
  text_segs (quoted "{`message`:`access granted`,`auth`:`") ++ [string_seg a] ++
  text_segs (quoted "`}").

Definition health_segs (now : Z) : list segment :=
  text_segs (quoted "{`status`:`ok`,`timestamp`:") ++ [SegInteger [] ModL 100 now] ++
  text_segs (quoted ",`users_count`:") ++ [int_seg 3] ++ text_segs (quoted "}").

Definition echo_segs (b ct ua : bytes) : list segment :=
  text_segs (quoted "{`echo`:{`body`:`") ++ [string_seg b] ++
  text_segs (quoted "`,`content_type`:`") ++ [string_seg ct] ++
  text_segs (quoted "`,`user_agent`:`") ++ [string_seg ua] ++ text_segs (quoted "`}}").

Definition user_segs (id : Z) (name : bytes) : list segment :=
  text_segs (quoted "{`id`:") ++ [int_seg id] ++ text_segs (quoted ",`name`:`") ++
  [string_seg name] ++ text_segs (quoted "`}").

(** A call of [mnet_jsonf] as the last step of a handler. *)
Lemma jsonf_step_ok segs format args w0 w n evs bs :
  owns (io w0 n evs) w bs → open_sockets evs = 0 → format_of segs = format → args_of segs = args →
  Z.of_nat (length format) < 2 ^ 20 → Forall seg_fine segs →
  wp (mnet_jsonf (Some format) args) (handled w0 bs) w.
Proof.
  intros Ho Hs Hf Ha Hl Hok. eapply wp_mono; [by eapply jsonf_rule|].
  intros r w' (rb & Ho' & Hr). by eapply jsonf_answer_handled.
Qed.

Lemma users_page_ok : handler_ok users_page.
Proof.
  intros req w0 w bs Ho _.
  eapply (construct_handled CHtml _ w0 w 0 []); [by rewrite io_nil|done..].
Qed.

Lemma api_list_users_ok : handler_ok api_list_users.
Proof.
  intros req w0 w bs Ho _. unfold api_list_users.
  eapply (list_answer users (λ _, true)); [unfold users; set_solver|apply Nat.ltb_lt; by vm_compute|].
  eapply (construct_handled CJson _ w0 w 0 []); [by rewrite io_nil|done..].
Qed.

Lemma user_list_length keep : (length (json_list users keep user_entry) < 512)%nat.
Proof.
  unfold json_list, users. cbn [kept_entries].
  destruct (keep (lit "Alice")), (keep (lit "Bob")), (keep (lit "Charlie"));
    apply Nat.ltb_lt; by vm_compute.
Qed.

Lemma api_search_ok : handler_ok api_search.
Proof.
  intros req w0 w bs Ho Hreq. unfold api_search. apply wp_bind.
  apply (wp_field _ _ _ (query_found _ _ _ Hreq)); [by apply error_ok|].
  intros l q Hq Hload. apply wp_bind, Hload. case_test; [by apply error_ok|].
  apply list_answer; [unfold users; set_solver| |].
  { pose proof (user_list_length (λ name, bool_decide (strstr name q ≠ None))). lia. }
  eapply (construct_handled CJson _ w0 w 0 []); [by rewrite io_nil|done..].
Qed.

Lemma api_create_user_ok : handler_ok api_create_user.
Proof.
  intros req w0 w bs Ho Hreq. unfold api_create_user.
  apply wp_bind, (wp_field _ _ _ (header_found _ _ _ Hreq)).
  { apply wp_bind, wp_ret. by apply error_ok. }
  intros l a _ Hload. apply wp_bind, wp_bind, Hload, wp_ret. case_test; [by apply error_ok|].
  destruct (MNET_BODY req) eqn:E; [by apply error_ok|rewrite <-E..];
    (apply wp_bind, wp_body_string; [done|by rewrite E|]; intros s Hs;
     case_test; [by apply error_ok|]; apply (jsonf_step_ok (created_segs s) _ _ w0 w 0 []);
     rewrite ?io_nil; try done; unfold created_segs; fine_segs; by apply string_seg_fine).
Qed.

Lemma api_protected_ok : handler_ok api_protected.
Proof.
  intros req w0 w bs Ho Hreq. unfold api_protected.
  apply wp_bind, (wp_field _ _ _ (header_found _ _ _ Hreq)); [by apply error_ok|].
  intros l a Ha Hload. apply wp_bind, Hload.
  apply (jsonf_step_ok (protected_segs a) _ _ w0 w 0 []); rewrite ?io_nil; try done.
  unfold protected_segs. fine_segs. by apply string_seg_fine.
Qed.

Lemma long_seg_fine v : - 2 ^ 63 <= v < 2 ^ 63 → seg_fine (SegInteger [] ModL 100 v).
Proof.
  intros Hv. pose proof (length_print_integer (fst (parse_directive [])) 100 v ltac:(lia)) as Hl.
  change (d_width (fst (parse_directive []))) with 0 in Hl.
  change (default 0 (d_precision (fst (parse_directive [])))) with 0 in Hl.
  split_and!; [|unfold piece_sizes; cbn [seg_text mod_value]; lia|done].
  split; [apply directive_empty|]. split_and!; [done|cbn; lia|exact Hv|].
  unfold fits_int. cbn [mod_value]. lia.
Qed.

Lemma api_health_ok : handler_ok api_health.
Proof.
  intros req w0 w bs Ho _. unfold api_health. apply wp_bind.
  eapply wp_sys_at; [exact Ho|]. intros w1 Ho1. set (now := clk_time _).
  apply (jsonf_step_ok (health_segs now) _ _ w0 w1 1 []); try done.
  unfold health_segs. fine_segs; [apply long_seg_fine, clk_time_range|apply int_seg_fine; lia].
Qed.

Lemma wp_string_or w p other (Q : bytes → world → Prop) :
  found w p → text_ok other → (∀ s, text_ok s → Q s w) → wp (string_or p other) Q w.
Proof.
  intros [->|(l & s & k & -> & Hl & Hs)] Hother HQ; [by apply wp_ret, HQ|].
  eapply wp_load_str_at; [done|by apply text_ok_nonzero|by apply HQ].
Qed.

Lemma echo_details_ok : handler_ok api_echo.
Proof.
  intros req w0 w bs Ho Hreq. unfold api_echo.
  assert (text_ok (lit "(none)") ∧ text_ok (lit "(empty)")) as [Hnone Hempty] by by repeat constructor.
  apply wp_bind. eapply wp_mono; [by apply header_found|]. intros ct w' [-> Hct].
  apply wp_bind. eapply wp_mono; [by apply header_found|]. intros ua w' [-> Hua].
  apply wp_bind. apply (wp_mono _ (λ b w', w' = w ∧ text_ok b)).
  { destruct (MNET_BODY req) eqn:E; [by apply wp_ret|rewrite <-E..];
      (apply wp_body_string; [done|by rewrite E|done]). }
  intros b w' [-> Hb]. apply wp_bind, wp_string_or; [done..|]. intros ct' Hct'.
  apply wp_bind, wp_string_or; [done..|]. intros ua' Hua'.
  apply (jsonf_step_ok (echo_segs b ct' ua') _ _ w0 w 0 []); rewrite ?io_nil; try done.
  unfold echo_segs. fine_segs; by apply string_seg_fine.
Qed.

(** *** The handlers that index the table *)

(** The path parameter [id] of the request is the number [id]. *)
Definition id_param (req : mnet_request_t) (w : world) (id : Z) : Prop :=
  ∃ l s k, MNET_PARAM req (lit "id") w = Some (Some l, w) ∧ w_heap w !! l = Some (s ++ 0 :: k) ∧
    Forall (λ c, c ≠ 0) s ∧ atoi (s ++ [0]) = Some id.

(** Both handlers read the parameter and then look the user up. *)
Lemma run_with_id {A} req w id (bad : M A) (rest : Z → M A) :
  id_param req w id →
  (id_str ← MNET_PARAM req (lit "id");
   match id_str with
   | None => bad
   | Some _ => s ← load_str id_str; id ← atoi_string s; rest id
   end) w = rest id w.
Proof.
  intros (l & s & k & Hp & Hl & Hs & Hid). unfold mbind at 1, M_bind at 1. rewrite Hp.
  unfold mbind at 1, M_bind at 1. rewrite (load_str_value l s k w Hl Hs).
  unfold mbind at 1, M_bind at 1, atoi_string. by rewrite Hid.
Qed.

Lemma id_param_range req w id : id_param req w id → - 2 ^ 31 <= id < 2 ^ 31.
Proof. intros (l & s & k & _ & _ & _ & Hid). by eapply atoi_range. Qed.

(** Looking a user up: NULL, one of the names, or past the end. *)
Lemma wp_user_get id w (Q : option bytes → world → Prop) :
  id <= 3 → Q None w → (∀ name, text_ok name → 0 <= id → users !! Z.to_nat id = Some (Some name) → Q (Some name) w) →
  wp (if id <? 0 then mret None else table_get users id) Q w.
Proof.
  intros Hid Hnone Hsome. case_test; bool_prop; [by apply wp_ret|]. unfold table_get.
  rewrite (proj2 (Z.leb_le 0 _)) by done.
  destruct (users !! Z.to_nat id) as [[name|]|] eqn:E; [| |].
  - apply wp_ret, Hsome; [|done|done]. apply list_elem_of_lookup_2 in E. unfold users in E.
    rewrite !elem_of_cons in E. destruct E as [[= ->]|[[= ->]|[[= ->]|[[=]|Hn]]]];
      [by repeat constructor..|by apply not_elem_of_nil in Hn].
  - by apply wp_ret.
  - apply lookup_ge_None_1 in E. cbn [users length] in E. lia.
Qed.

Lemma user_get_beyond id w : 3 < id → (if id <? 0 then mret None else table_get users id) w = None.
Proof.
  intros Hid. rewrite (proj2 (Z.ltb_ge _ _)) by lia. unfold table_get.
  rewrite lookup_ge_None_2; [done|]. cbn [users length]. lia.
Qed.

Lemma api_get_user_in_range req w0 w bs id :
  owns w0 w bs → id_param req w id → id <= 3 → wp (api_get_user req) (handled w0 bs) w.
Proof.
  intros Ho Hp Hid. unfold wp, api_get_user. rewrite (run_with_id _ _ id) by done.
  apply wp_bind, wp_user_get; [done|by apply error_ok|]. intros name Hn Hpos _.
  pose proof (id_param_range _ _ _ Hp).
  apply (jsonf_step_ok (user_segs id name) _ _ w0 w 0 []); rewrite ?io_nil; try done.
  unfold user_segs. fine_segs; [by apply int_seg_fine|by apply string_seg_fine].
Qed.

Lemma user_detail_page_in_range req w0 w bs id :
  owns w0 w bs → id_param req w id → id <= 3 → wp (user_detail_page req) (handled w0 bs) w.
Proof.
  intros Ho Hp Hid. unfold wp, user_detail_page. rewrite (run_with_id _ _ id) by done.
  apply wp_bind, wp_user_get; [done| |].
  - apply wp_bind. eapply wp_mono; [apply (construct_spec CHtml); by eapply owns_wf_world|].
    intros r w1 (rb & Ho1 & Hr). pose proof (owns_trans _ _ _ _ _ Ho Ho1) as Ho2.
    rewrite <-(io_nil w0) in Ho2. pose proof (response_result_owned _ _ _ _ _ _ Hr) as Hown.
    destruct Hr as [(l & -> & ->)|(_ & _ & Hb & _ & Hc & ->)]; apply wp_ret;
      (eapply handled_owned; [exact Ho2|done| |done|done]); [done|].
    unfold response_owned. cbn. by rewrite Hc, Hb.
  - intros name _ _ _. eapply (construct_handled CHtml _ w0 w 0 []); [by rewrite io_nil|done..].
Qed.

Lemma user_handlers_beyond req w id :
  id_param req w id → 3 < id → api_get_user req w = None ∧ user_detail_page req w = None.
Proof.
  intros Hp Hid. unfold api_get_user, user_detail_page.
  rewrite !(run_with_id _ _ id) by done. unfold mbind, M_bind. by rewrite user_get_beyond.
Qed.
End combined_proofs.

Section call_proofs.
Context `{!Allocator, !OS, !Network}.

(** The call of another server gives back the socket and the body. *)
Lemma api_call_ok K fuel :
  peer_defined → (∀ j, (K ≤ j)%nat → nt_eintr j = false) →
  (Z.to_nat (MNET_MAX_BODY_SIZE + 8192) + K ≤ fuel)%nat → handler_ok (api_call fuel).
Proof.
  intros Hpeer HK Hfuel req w0 w bs Ho Hreq. unfold api_call.
  apply wp_bind, (wp_field _ _ _ (query_found _ _ _ Hreq)); [by apply error_ok|].
  intros l u _ Hload. apply wp_bind, Hload. case_test; [by apply error_ok|].
  apply wp_bind. eapply wp_mono; [by apply (mnet_call_spec w0 w bs)|].
  intros res w1 (n & evs & rb & Ho1 & _ & Hres). destruct res as [[p|]|].
  - destruct Hres as [Es (f & k & data & st & _ & _ & _ & ->)].
    set (body := response_body _ _) in *. clearbody body.
    apply wp_bind. eapply wp_load_cstr; [exact Ho1|by left|apply elem_of_app; right; by left|].
    apply wp_bind. eapply wp_mono; [apply (construct_spec CJson (cstr (body ++ [0])) w1); by eapply owns_wf_world|].
    intros r w2 (rb & Ho2 & Hr). pose proof (owns_trans _ _ _ _ _ Ho1 Ho2) as Ho3.
    apply wp_bind. eapply (wp_free _ _ (rb ++ bs) _ _ (body ++ [0])); [exact Ho3|solve_Permutation|].
    intros w3 Ho4. apply wp_ret. eapply handled_owned; [exact Ho4|done| | |].
    + by eapply response_result_owned.
    + destruct Hr as [(l' & -> & ->)|(_ & _ & _ & _ & _ & ->)]; [by intros ?|done].
    + by destruct Hr as [(l' & -> & _)|(_ & _ & _ & _ & ? & _)].
  - destruct Hres as [Es ->]. by apply (construct_handled (CError 502) _ w0 w1 n evs).
  - destruct Hres as [k Hk]. exfalso. revert Hk. apply (heard_ends K); [done|].
    set (room := Z.to_nat _) in *. lia.
Qed.
End call_proofs.

(** ** Properties *)

(** the handlers of the combined example, all but the two that index the table of
    users, keep the contract of handlers; for the one that calls another server
    it is enough that the peer's status line is readable, that the system stops
    interrupting receptions and that the call is given enough of them. *)
Theorem combined_handlers_ok `{!Allocator, !Floats, !Clock, !OS, !Network} (K fuel : nat) :
  peer_defined → (∀ j, (K ≤ j)%nat → nt_eintr j = false) →
  (Z.to_nat (MNET_MAX_BODY_SIZE + 8192) + K ≤ fuel)%nat →
  Forall handler_ok [home_page; users_page; api_list_users; api_create_user; api_search;
    api_protected; api_health; api_echo; api_call fuel; custom_404].
Proof.
  intros Hpeer HK Hfuel. repeat apply Forall_cons_2; [apply page_ok|apply users_page_ok|
    apply api_list_users_ok|apply api_create_user_ok|apply api_search_ok|apply api_protected_ok|
    apply api_health_ok|apply echo_details_ok|by eapply api_call_ok|apply page_ok|apply Forall_nil_2].
Qed.

Lemma combined_handlers_ok_witness :
  let fuel := (Z.to_nat (MNET_MAX_BODY_SIZE + 8192) + 0)%nat in
  Forall handler_ok
    [home_page (H := all_ok); users_page (H := all_ok); api_list_users (H := all_ok);
     api_create_user (H := all_ok) (H0 := demo_floats); api_search (H := all_ok);
     api_protected (H := all_ok) (H0 := demo_floats);
     api_health (H := all_ok) (H0 := demo_floats) (H1 := demo_clock);
     api_echo (H := all_ok) (H0 := demo_floats);
     api_call (H := all_ok) (H2 := reply_os) (H3 := demo_network) fuel; custom_404 (H := all_ok)].
Proof.
  apply (combined_handlers_ok (H := all_ok) (H0 := demo_floats) (H1 := demo_clock) (H2 := reply_os)
    (H3 := demo_network) 0).
  - apply reply_defined.
  - done.
  - apply Nat.le_refl.
Defined.

(** the two handlers that index the table of users by the number in the path
    answer every number up to 3 within their contract; with any larger number
    both read past the end of the table, which is undefined. *)
Theorem user_handlers_bounds `{!Allocator, !Floats} (req : mnet_request_t) (id : Z) (w : world) :
  wf_world w → id_param req w id →
  (id <= 3 → wp (api_get_user req) (handled w []) w ∧ wp (user_detail_page req) (handled w []) w) ∧
  (3 < id → api_get_user req w = None ∧ user_detail_page req w = None).
Proof.
  intros Hwf Hp. split.
  - intros Hid. split; [by eapply api_get_user_in_range; [apply owns_refl|..]|].
    by eapply user_detail_page_in_range; [apply owns_refl|..].
  - by apply user_handlers_beyond.
Qed.

Lemma user_handlers_bounds_witness :
  let w := field_world (lit "id") (lit "7") in
  let req := demo_request [] [] [Some 0%nat] [Some 1%nat] in
  (7 <= 3 → wp (api_get_user (H := all_ok) (H0 := demo_floats) req) (handled w []) w ∧
            wp (user_detail_page (H := all_ok) req) (handled w []) w) ∧
  (3 < 7 → api_get_user (H := all_ok) (H0 := demo_floats) req w = None ∧
           user_detail_page (H := all_ok) req w = None).
Proof.
  apply (user_handlers_bounds (H := all_ok) (H0 := demo_floats)).
  - apply field_world_wf.
  - exists 1%nat, (lit "7"), []. split_and!; [by vm_compute|done|by repeat constructor|by vm_compute].
Defined.

(** creating a user takes the exact secret: a request without an Authorization
    header, or with any other value in it, is answered with 401, and neither its
    body is read nor anything is created. *)
Theorem create_user_guarded `{!Allocator, !Floats} (req : mnet_request_t) (v : ptr) (w : world) :
  MNET_HEADER req (lit "Authorization") w = Some (v, w) →
  (v = None ∨ ∃ l s k, v = Some l ∧ w_heap w !! l = Some (s ++ 0 :: k) ∧
     Forall (λ c, c ≠ 0) s ∧ s ≠ lit "Bearer secret") →
  api_create_user req w = mnet_error 401 (Some (lit "unauthorized")) w.
Proof.
  intros Hh Hv. unfold api_create_user, mbind at 1, M_bind at 1. rewrite Hh.
  destruct Hv as [->|(l & s & k & -> & Hl & Hs & Hne)]; [done|].
  unfold mbind at 1, M_bind at 1, mbind at 1, M_bind at 1. rewrite (load_str_value l s k w Hl Hs).
  unfold strcmp_eq. by rewrite bool_decide_false.
Qed.

Lemma create_user_guarded_witness :
  let req := demo_request [Some 0%nat] [Some 1%nat] [] [] in
  let w := field_world (lit "authorization") (lit "bearer secret") in
  api_create_user (H := all_ok) (H0 := demo_floats) req w =
    mnet_error (H := all_ok) 401 (Some (lit "unauthorized")) w.
Proof.
  apply (create_user_guarded (H := all_ok) (H0 := demo_floats) _ (Some 1%nat)).
  - by vm_compute.
  - right. exists 1%nat, (lit "bearer secret"), []. split_and!; [done..|by repeat constructor|done].
Defined.

(** The whole server, from its set-up to the first request of a peer. *)
Definition ask (request : bytes) (Hb : Forall is_byte request) : option (bool * world) :=
  (app ← main_app (H := all_ok) (H0 := demo_floats) (H1 := demo_clock)
           (H2 := one_shot_os request Hb) (H3 := demo_network) 10;
   match app with
   | None => mret true
   | Some app => mnet_handle_client (H := all_ok) (H0 := one_shot_os request Hb) (H1 := quiet)
                   (H2 := demo_files) 1 app fresh_buffer
   end) empty_world.

Definition user_request (path : bytes) : bytes :=
  lit "GET " ++ path ++ lit " HTTP/1.1" ++ CRLF ++ lit "Host: h" ++ CRLFCRLF.

Lemma user_request_bytes path : Forall is_byte path → Forall is_byte (user_request path).
Proof.
  intros Hid. unfold user_request. repeat apply Forall_app_2; try apply lit_bytes; try done;
    by repeat constructor.
Qed.

Lemma combined_users_overread :
  ask (user_request (lit "/users/4")) (user_request_bytes _ (lit_bytes "/users/4")) = None ∧
  ask (user_request (lit "/api/users/9")) (user_request_bytes _ (lit_bytes "/api/users/9")) = None ∧
  ask (user_request (lit "/users/2")) (user_request_bytes _ (lit_bytes "/users/2")) ≠ None.
Proof. split_and!; by vm_compute. Qed.
